(** * Von Neumann Probes: the simulation core of [vnp.js]

    A shallow embedding of the simulation engine (toroidal geometry, spatial
    grid, resource pool, probe behaviour, K-closest selection, Master AI and
    the fixed-step driver) together with the properties its specification
    states about it.

    JavaScript numbers are modelled as exact rationals [Q]: every comparison
    and every arithmetic operation of the source is kept, rounding is not.
    Array indices and the [-1] sentinels of the source are integers [Z]. *)

From Stdlib Require Import ZArith QArith Qround Qminmax Qabs Lqa Lia.
From stdpp Require Import base list sorting.

Local Open Scope Q_scope.

(** ** Numbers *)

(** The four comparisons of the source, as booleans on [Q]. *)
Definition Qleb (a b : Q) : bool := Qle_bool a b.
Definition Qltb (a b : Q) : bool := negb (Qle_bool b a).
Definition Qgeb (a b : Q) : bool := Qleb b a.
Definition Qgtb (a b : Q) : bool := Qltb b a.

(** Truncation toward zero, and the remainder [v % s] of JavaScript, whose
    sign follows the dividend: [v - s * trunc (v / s)]. *)
Definition Qtrunc (q : Q) : Z := Z.quot (Qnum q) (Zpos (Qden q)).
Definition js_rem (v s : Q) : Q := v - s * inject_Z (Qtrunc (v / s)).

(** The p5 aliases of [Math.floor], [Math.ceil], [Math.min], [Math.max], and
    p5's [constrain]. *)
Module P5.
Definition floor (q : Q) : Z := Qfloor q.
Definition ceil (q : Q) : Z := Qceiling q.
Definition min (a b : Q) : Q := if Qltb b a then b else a.
Definition max (a b : Q) : Q := if Qltb a b then b else a.
Definition constrain (n low high : Q) : Q := max (min n high) low.
End P5.

(** p5's [map(n, start1, stop1, start2, stop2, true)], clamped to the
    target range. *)
Definition map_clamped (n start1 stop1 start2 stop2 : Q) : Q :=
  let newval := (n - start1) / (stop1 - start1) * (stop2 - start2) + start2 in
  if Qltb start2 stop2 then P5.constrain newval start2 stop2
  else P5.constrain newval stop2 start2.

(** [ToInt32], the conversion behind [| 0] and [>>]. *)
Definition toInt32 (z : Z) : Z := ((z + 2 ^ 31) mod 2 ^ 32 - 2 ^ 31)%Z.

(** ** Outcomes of a call

    A call returns, or it throws the [TypeError] of a property read on
    [undefined].  Two further outcomes mark where the model stops:
    [OutOfBounds] is a write past the end of an array (JavaScript would grow
    the array and leave holes, which the lists below do not represent), and
    [OutOfFuel] is a loop cut off by its iteration budget.  The theorems
    show that neither is reached from the states of the simulation. *)
Inductive outcome (A : Type) : Type :=
| Ret (a : A)
| TypeError
| OutOfBounds
| OutOfFuel.
Arguments Ret {A} a.
Arguments TypeError {A}.
Arguments OutOfBounds {A}.
Arguments OutOfFuel {A}.

#[global] Instance outcome_ret : MRet outcome := @Ret.
#[global] Instance outcome_bind : MBind outcome := fun A B f m =>
  match m with
  | Ret a => f a
  | TypeError => TypeError
  | OutOfBounds => OutOfBounds
  | OutOfFuel => OutOfFuel
  end.
#[global] Instance outcome_fmap : FMap outcome := fun A B f m =>
  match m with
  | Ret a => Ret (f a)
  | TypeError => TypeError
  | OutOfBounds => OutOfBounds
  | OutOfFuel => OutOfFuel
  end.

(** ** Arrays

    Arrays are lists indexed by integers.  [at_ l i] is [l[i]], [None]
    standing for [undefined]; [get] reads a property of [l[i]]; [put] is
    the assignment [l[i] = a] inside the array. *)
Definition at_ {A} (l : list A) (i : Z) : option A :=
  if (i <? 0)%Z then None else l !! Z.to_nat i.

Definition get {A} (l : list A) (i : Z) : outcome A :=
  match at_ l i with
  | Some a => Ret a
  | None => TypeError
  end.

Definition put {A} (l : list A) (i : Z) (a : A) : outcome (list A) :=
  if ((0 <=? i) && (i <? Z.of_nat (length l)))%Z
  then Ret (<[Z.to_nat i := a]> l)
  else OutOfBounds.

Definition len {A} (l : list A) : Z := Z.of_nat (length l).

(** [arr.pop()], the removed element being dropped. *)
Definition pop {A} (l : list A) : list A := take (length l - 1) l.

(** ** Random source

    [Math.random] and p5's [randomGaussian] draw from two streams that the
    environment supplies; a draw returns the head and the shifted stream. *)
Record Rng := { uniform : nat -> Q; gaussian : nat -> Q }.

Definition Math_random (g : Rng) : Q * Rng :=
  (uniform g 0%nat,
   {| uniform := fun n => uniform g (S n); gaussian := gaussian g |}).

Definition randomGaussian (g : Rng) : Q * Rng :=
  (gaussian g 0%nat,
   {| uniform := uniform g; gaussian := fun n => gaussian g (S n) |}).

(** [rand(a, b)]. *)
Definition rand (a b : Q) (g : Rng) : Q * Rng :=
  let '(u, g) := Math_random g in (a + (b - a) * u, g).

(** ** Mathematical library

    The transcendental functions of the host are parameters of the model. *)
Class MathLib := {
  sqrt : Q -> Q;
  cos : Q -> Q;
  sin : Q -> Q;
  atan2 : Q -> Q -> Q;
  pow : Q -> Q -> Q;
  TWO_PI : Q
}.

(** The keyboard as one tick sees it: [keyIsDown], with p5's key codes. *)
Definition Keys := Z -> bool.
Definition LEFT_ARROW : Z := 37.
Definition UP_ARROW : Z := 38.
Definition RIGHT_ARROW : Z := 39.
Definition DOWN_ARROW : Z := 40.
Definition SHIFT : Z := 16.

(** ** Configuration constants *)

Definition WORLD_w : Q := 24000.
Definition WORLD_h : Q := 24000.

Definition NUM_STARS : nat := 2600.
Definition NUM_RES_COMMON : nat := 1200.
Definition NUM_RES_RICH : nat := 140.

Definition PROBE_RADIUS : Q := 10.
Definition RESOURCE_BASE_R : Q := 8.

Definition CHILD_START_RES : Q := 12.
Definition HARD_PROBE_CAP : Z := 1000000.

Definition MASTER_TRIGGER_DEPLETION : Q := 0.90.
Definition RALLY_RADIUS : Q := 260.
Definition RALLY_RADIUS2 : Q := RALLY_RADIUS * RALLY_RADIUS.
Definition RALLY_FRACTION : Q := 0.65.
Definition RALLY_TIMEOUT : Q := 22.
Definition WARP_CHARGE_TIME : Q := 5.5.

Definition RADAR_RANGE : Q := 1000.
Definition RADAR_RANGE2 : Q := RADAR_RANGE * RADAR_RANGE.
Definition RADAR_COOLDOWN_MIN : Q := 0.85.
Definition RADAR_COOLDOWN_MAX : Q := 1.55.
Definition WANDER_MIN : Q := 0.6.
Definition WANDER_MAX : Q := 2.4.

Definition TOUCH_PAD : Q := 6.

Definition CLUSTER_COUNT_MIN : Q := 24.
Definition CLUSTER_COUNT_MAX : Q := 42.
Definition CLUSTER_SPREAD_MIN : Q := 220.
Definition CLUSTER_SPREAD_MAX : Q := 780.
Definition CLUSTER_PROB_COMMON : Q := 0.35.
Definition CLUSTER_PROB_RICH : Q := 0.80.

Definition RES_CELL : Q := 700.

Definition FIXED_DT : Q := 1 / 50.
Definition MAX_STEPS_PER_FRAME : Z := 5.

(** [replicateCost()]. *)
Definition replicateCost : Q := 100.

(** ** Toroidal geometry *)

Module Geometry.

(** [wrap01Fast(v, size)]: one conditional shift, then the modulo fallback. *)
Definition wrap01Fast (v size : Q) : Q :=
  let v1 := if Qltb v 0 then v + size
            else if Qgeb v size then v - size else v in
  if Qltb v1 0 || Qgeb v1 size then
    let v2 := js_rem v1 size in
    if Qltb v2 0 then v2 + size else v2
  else v1.

(** [wrapDeltaFast(d, size)]. *)
Definition wrapDeltaFast (d size : Q) : Q :=
  let half := size * (1 # 2) in
  if Qgtb d half then d - size
  else if Qltb d (- half) then d + size
  else d.

(** [mod(n, m)] on integers: the remainder of [%] made non-negative. *)
Definition mod_ (n m : Z) : Z :=
  let n1 := Z.rem n m in
  if (n1 <? 0)%Z then (n1 + m)%Z else n1.

(** Congruence modulo [size]: the two values differ by a whole number of
    world sizes. *)
Definition congruent (a b size : Q) : Prop :=
  exists k : Z, a == b + inject_Z k * size.

End Geometry.

(** ** K-closest selection: the quickselect core

    The partition and the selection loop only look at the cached distance
    [_d2tmp] of the array's elements; they are stated here over any element
    type with such a key.  A key of [None] is [undefined], on which every
    [<] of JavaScript is false. *)
Module Select.
Section Quickselect.
Context {A : Type} (d2tmp : A -> option Q).

Definition js_lt (a b : option Q) : bool :=
  match a, b with
  | Some a, Some b => Qltb a b
  | _, _ => false
  end.

(** [swap(arr, i, j)].  Swapping with a missing slot would store
    [undefined] in the array: the model stops with [OutOfBounds]. *)
Definition swap (arr : list A) (i j : Z) : outcome (list A) :=
  match at_ arr i, at_ arr j with
  | Some a, Some b => arr1 ← put arr i b; put arr1 j a
  | _, _ => OutOfBounds
  end.

(** The [for (i = left; i < right; i++)] loop of [partitionByD2], with [n]
    iterations left. *)
Fixpoint partition_loop (n : nat) (pivotValue : option Q) (i storeIndex : Z)
    (arr : list A) : outcome (list A * Z) :=
  match n with
  | O => Ret (arr, storeIndex)
  | S n' =>
      x ← get arr i;
      if js_lt (d2tmp x) pivotValue then
        arr' ← swap arr storeIndex i;
        partition_loop n' pivotValue (i + 1) (storeIndex + 1) arr'
      else partition_loop n' pivotValue (i + 1) storeIndex arr
  end.

(** [partitionByD2(arr, left, right, pivotIndex)]. *)
Definition partitionByD2 (arr : list A) (left right pivotIndex : Z)
    : outcome (list A * Z) :=
  p ← get arr pivotIndex;
  let pivotValue := d2tmp p in
  arr ← swap arr pivotIndex right;
  '(arr, storeIndex) ←
    partition_loop (Z.to_nat (right - left)) pivotValue left left arr;
  arr ← swap arr right storeIndex;
  Ret (arr, storeIndex).

(** One turn of the [while (true)] loop of [selectKClosestInPlace]: either
    the call returns ([inl]), or the loop goes on with a new range. *)
Definition select_step (arr : list A) (k left right : Z)
    : outcome (list A + list A * Z * Z) :=
  if (left >=? right)%Z then Ret (inl arr)
  else
    '(arr, pivotIndex) ←
      partitionByD2 arr left right (Z.shiftr (toInt32 (left + right)) 1);
    if (k - 1 =? pivotIndex)%Z then Ret (inl arr)
    else if (k - 1 <? pivotIndex)%Z
    then Ret (inr (arr, left, (pivotIndex - 1)%Z))
    else Ret (inr (arr, (pivotIndex + 1)%Z, right)).

(** The loop itself, cut off after [fuel] turns. *)
Fixpoint select_loop (fuel : nat) (arr : list A) (k left right : Z)
    : outcome (list A) :=
  match fuel with
  | O => OutOfFuel
  | S fuel' =>
      next ← select_step arr k left right;
      match next with
      | inl arr => Ret arr
      | inr (arr, l, r) => select_loop fuel' arr k l r
      end
  end.

End Quickselect.
End Select.

(** ** Data model *)

(** A point [{x, y}] (waypoints). *)
Module Point.
Record T := mk { x : Q; y : Q }.
End Point.

(** A cluster centre of the resource field. *)
Module Cluster.
Record T := mk { x : Q; y : Q; spread : Q; w : Q }.
End Cluster.

Module Resource.
Record T := mk {
  id : Z;
  kind : Z;
  x : Q;
  y : Q;
  amt : Q;
  maxAmt : Q;
  radius : Q;
  active : bool;
  activeIndex : Z;
  _arrIndex : Z;
  _gridCell : Z;
  _gridIndex : Z
}.

Definition set_amt (v : Q) (r : T) : T :=
  mk (id r) (kind r) (x r) (y r) v (maxAmt r) (radius r) (active r)
     (activeIndex r) (_arrIndex r) (_gridCell r) (_gridIndex r).
Definition set_active (v : bool) (r : T) : T :=
  mk (id r) (kind r) (x r) (y r) (amt r) (maxAmt r) (radius r) v
     (activeIndex r) (_arrIndex r) (_gridCell r) (_gridIndex r).
Definition set_activeIndex (v : Z) (r : T) : T :=
  mk (id r) (kind r) (x r) (y r) (amt r) (maxAmt r) (radius r) (active r)
     v (_arrIndex r) (_gridCell r) (_gridIndex r).
Definition set__arrIndex (v : Z) (r : T) : T :=
  mk (id r) (kind r) (x r) (y r) (amt r) (maxAmt r) (radius r) (active r)
     (activeIndex r) v (_gridCell r) (_gridIndex r).
Definition set__gridCell (v : Z) (r : T) : T :=
  mk (id r) (kind r) (x r) (y r) (amt r) (maxAmt r) (radius r) (active r)
     (activeIndex r) (_arrIndex r) v (_gridIndex r).
Definition set__gridIndex (v : Z) (r : T) : T :=
  mk (id r) (kind r) (x r) (y r) (amt r) (maxAmt r) (radius r) (active r)
     (activeIndex r) (_arrIndex r) (_gridCell r) v.
End Resource.

(** The resource pool and its spatial grid: the globals [resources],
    [resourceActive], [resGridW], [resGridH], [resGrid], the two neighbour
    tables ([None] is [null]) and the two system totals. *)
Module World.
Record T := mk {
  resources : list Resource.T;
  resourceActive : list Z;
  resGridW : Z;
  resGridH : Z;
  resGrid : list (list Z);
  radarCellNeighbors : option (list (list Z));
  harvestCellNeighbors : option (list (list Z));
  systemInitialTotal : Q;
  systemRemainingTotal : Q
}.

Definition set_resources (v : list Resource.T) (w : T) : T :=
  mk v (resourceActive w) (resGridW w) (resGridH w) (resGrid w)
     (radarCellNeighbors w) (harvestCellNeighbors w)
     (systemInitialTotal w) (systemRemainingTotal w).
Definition set_resourceActive (v : list Z) (w : T) : T :=
  mk (resources w) v (resGridW w) (resGridH w) (resGrid w)
     (radarCellNeighbors w) (harvestCellNeighbors w)
     (systemInitialTotal w) (systemRemainingTotal w).
Definition set_resGrid (v : list (list Z)) (w : T) : T :=
  mk (resources w) (resourceActive w) (resGridW w) (resGridH w) v
     (radarCellNeighbors w) (harvestCellNeighbors w)
     (systemInitialTotal w) (systemRemainingTotal w).
Definition set_dims (gw gh : Z) (w : T) : T :=
  mk (resources w) (resourceActive w) gw gh (resGrid w)
     (radarCellNeighbors w) (harvestCellNeighbors w)
     (systemInitialTotal w) (systemRemainingTotal w).
Definition set_neighbors (rn hn : option (list (list Z))) (w : T) : T :=
  mk (resources w) (resourceActive w) (resGridW w) (resGridH w) (resGrid w)
     rn hn (systemInitialTotal w) (systemRemainingTotal w).
Definition set_systemInitialTotal (v : Q) (w : T) : T :=
  mk (resources w) (resourceActive w) (resGridW w) (resGridH w) (resGrid w)
     (radarCellNeighbors w) (harvestCellNeighbors w)
     v (systemRemainingTotal w).
Definition set_systemRemainingTotal (v : Q) (w : T) : T :=
  mk (resources w) (resourceActive w) (resGridW w) (resGridH w) (resGrid w)
     (radarCellNeighbors w) (harvestCellNeighbors w)
     (systemInitialTotal w) v.
End World.

(** ** Spatial grid and resource pool *)

Module Pool.
Import Geometry.
Import Resource World.

(** [initResGrid()]. *)
Definition initResGrid (w : World.T) : World.T :=
  let gw := P5.ceil (WORLD_w / RES_CELL) in
  let gh := P5.ceil (WORLD_h / RES_CELL) in
  set_resGrid (replicate (Z.to_nat (gw * gh)) []) (set_dims gw gh w).

(** [cellIndexForPos(x, y)]. *)
Definition cellIndexForPos (w : World.T) (x y : Q) : Z :=
  let cx := toInt32 (Qtrunc (x / RES_CELL)) in
  let cy := toInt32 (Qtrunc (y / RES_CELL)) in
  let cx := if (cx >=? resGridW w)%Z then (resGridW w - 1)%Z else cx in
  let cy := if (cy >=? resGridH w)%Z then (resGridH w - 1)%Z else cy in
  (cx + cy * resGridW w)%Z.

(** [gridAddResource(idx)]. *)
Definition gridAddResource (idx : Z) (w : World.T) : outcome World.T :=
  r ← get (resources w) idx;
  let ci := cellIndexForPos w (Resource.x r) (Resource.y r) in
  cell ← get (resGrid w) ci;
  rs ← put (resources w) idx (set__gridIndex (len cell) (set__gridCell ci r));
  g ← put (resGrid w) ci (cell ++ [idx]);
  Ret (set_resGrid g (set_resources rs w)).

(** [gridRemoveResource(idx)]: the last entry of the cell moves into the
    freed slot.  The writes go through the store, since the removed
    resource and the moved one may be the same object. *)
Definition gridRemoveResource (idx : Z) (w : World.T) : outcome World.T :=
  r ← get (resources w) idx;
  let ci := _gridCell r in
  let gi := _gridIndex r in
  if ((ci <? 0) || (gi <? 0))%Z then Ret w
  else
    cell ← get (resGrid w) ci;
    let last := (len cell - 1)%Z in
    lastIdx ← get cell last;
    cell ← put cell gi lastIdx;
    rl ← get (resources w) lastIdx;
    rs ← put (resources w) lastIdx (set__gridIndex gi rl);
    let cell := pop cell in
    r ← get rs idx;
    rs ← put rs idx (set__gridIndex (-1) (set__gridCell (-1) r));
    g ← put (resGrid w) ci cell;
    Ret (set_resGrid g (set_resources rs w)).

(** [activateResource(idx)]. *)
Definition activateResource (idx : Z) (w : World.T) : outcome World.T :=
  r ← get (resources w) idx;
  rs ← put (resources w) idx
         (set_activeIndex (len (resourceActive w)) (set_active true r));
  let w := set_resourceActive (resourceActive w ++ [idx]) (set_resources rs w) in
  gridAddResource idx w.

(** [deactivateResource(idx)]. *)
Definition deactivateResource (idx : Z) (w : World.T) : outcome World.T :=
  r ← get (resources w) idx;
  if negb (active r) then Ret w
  else
    w ← gridRemoveResource idx w;
    let ai := activeIndex r in
    let last := (len (resourceActive w) - 1)%Z in
    lastIdx ← get (resourceActive w) last;
    ra ← put (resourceActive w) ai lastIdx;
    rl ← get (resources w) lastIdx;
    rs ← put (resources w) lastIdx (set_activeIndex ai rl);
    let ra := pop ra in
    r ← get rs idx;
    rs ← put rs idx (set_activeIndex (-1) (set_active false r));
    Ret (set_resourceActive ra (set_resources rs w)).

(** The offsets [-R .. R] of a neighbourhood, in loop order. *)
Definition offsets (R : Z) : list Z :=
  List.map (fun i => (Z.of_nat i - R)%Z) (seq 0 (Z.to_nat (2 * R + 1))).

(** The cells pushed for cell [(cx, cy)] by the two inner loops over [oy]
    and [ox]. *)
Definition neighborCells (w : World.T) (R cx cy : Z) : list Z :=
  oy ← offsets R;
  let ncy := mod_ (cy + oy) (resGridH w) in
  ox ← offsets R;
  let ncx := mod_ (cx + ox) (resGridW w) in
  [(ncx + ncy * resGridW w)%Z].

(** One neighbour table: the cells are visited row by row, so the entry
    of cell [cx + cy * resGridW] is the list built for [(cx, cy)]. *)
Definition neighborTable (w : World.T) (R : Z) : list (list Z) :=
  cy ← seq 0 (Z.to_nat (resGridH w));
  cx ← seq 0 (Z.to_nat (resGridW w));
  [neighborCells w R (Z.of_nat cx) (Z.of_nat cy)].

(** [buildNeighborLists()]. *)
Definition buildNeighborLists (w : World.T) : World.T :=
  let R := (P5.ceil (RADAR_RANGE / RES_CELL) + 1)%Z in
  set_neighbors (Some (neighborTable w R)) (Some (neighborTable w 1)) w.

End Pool.

(** ** Probes *)

Module DNA.
Record T := mk { maxSpeed : Q; accel : Q; harvest : Q }.
End DNA.

Module Probe.
Record T := mk {
  id : Z;
  isPlayer : bool;
  x : Q;
  y : Q;
  vx : Q;
  vy : Q;
  heading : Q;
  resources : Q;
  dna : DNA.T;
  target : Z;
  radarCooldown : Q;
  wanderT : Q;
  replCooldown : Q;
  waypoint : option Point.T;
  sacrificing : bool;
  sacrificeT : Q;
  dead : bool;
  _d2tmp : option Q
}.

Definition set_x (v : Q) (p : T) : T :=
  mk (id p) (isPlayer p) v (y p) (vx p) (vy p) (heading p) (resources p)
     (dna p) (target p) (radarCooldown p) (wanderT p) (replCooldown p)
     (waypoint p) (sacrificing p) (sacrificeT p) (dead p) (_d2tmp p).
Definition set_y (v : Q) (p : T) : T :=
  mk (id p) (isPlayer p) (x p) v (vx p) (vy p) (heading p) (resources p)
     (dna p) (target p) (radarCooldown p) (wanderT p) (replCooldown p)
     (waypoint p) (sacrificing p) (sacrificeT p) (dead p) (_d2tmp p).
Definition set_vx (v : Q) (p : T) : T :=
  mk (id p) (isPlayer p) (x p) (y p) v (vy p) (heading p) (resources p)
     (dna p) (target p) (radarCooldown p) (wanderT p) (replCooldown p)
     (waypoint p) (sacrificing p) (sacrificeT p) (dead p) (_d2tmp p).
Definition set_vy (v : Q) (p : T) : T :=
  mk (id p) (isPlayer p) (x p) (y p) (vx p) v (heading p) (resources p)
     (dna p) (target p) (radarCooldown p) (wanderT p) (replCooldown p)
     (waypoint p) (sacrificing p) (sacrificeT p) (dead p) (_d2tmp p).
Definition set_heading (v : Q) (p : T) : T :=
  mk (id p) (isPlayer p) (x p) (y p) (vx p) (vy p) v (resources p)
     (dna p) (target p) (radarCooldown p) (wanderT p) (replCooldown p)
     (waypoint p) (sacrificing p) (sacrificeT p) (dead p) (_d2tmp p).
Definition set_resources (v : Q) (p : T) : T :=
  mk (id p) (isPlayer p) (x p) (y p) (vx p) (vy p) (heading p) v
     (dna p) (target p) (radarCooldown p) (wanderT p) (replCooldown p)
     (waypoint p) (sacrificing p) (sacrificeT p) (dead p) (_d2tmp p).
Definition set_target (v : Z) (p : T) : T :=
  mk (id p) (isPlayer p) (x p) (y p) (vx p) (vy p) (heading p) (resources p)
     (dna p) v (radarCooldown p) (wanderT p) (replCooldown p)
     (waypoint p) (sacrificing p) (sacrificeT p) (dead p) (_d2tmp p).
Definition set_radarCooldown (v : Q) (p : T) : T :=
  mk (id p) (isPlayer p) (x p) (y p) (vx p) (vy p) (heading p) (resources p)
     (dna p) (target p) v (wanderT p) (replCooldown p)
     (waypoint p) (sacrificing p) (sacrificeT p) (dead p) (_d2tmp p).
Definition set_wanderT (v : Q) (p : T) : T :=
  mk (id p) (isPlayer p) (x p) (y p) (vx p) (vy p) (heading p) (resources p)
     (dna p) (target p) (radarCooldown p) v (replCooldown p)
     (waypoint p) (sacrificing p) (sacrificeT p) (dead p) (_d2tmp p).
Definition set_replCooldown (v : Q) (p : T) : T :=
  mk (id p) (isPlayer p) (x p) (y p) (vx p) (vy p) (heading p) (resources p)
     (dna p) (target p) (radarCooldown p) (wanderT p) v
     (waypoint p) (sacrificing p) (sacrificeT p) (dead p) (_d2tmp p).
Definition set_waypoint (v : option Point.T) (p : T) : T :=
  mk (id p) (isPlayer p) (x p) (y p) (vx p) (vy p) (heading p) (resources p)
     (dna p) (target p) (radarCooldown p) (wanderT p) (replCooldown p)
     v (sacrificing p) (sacrificeT p) (dead p) (_d2tmp p).
Definition set_sacrificing (v : bool) (p : T) : T :=
  mk (id p) (isPlayer p) (x p) (y p) (vx p) (vy p) (heading p) (resources p)
     (dna p) (target p) (radarCooldown p) (wanderT p) (replCooldown p)
     (waypoint p) v (sacrificeT p) (dead p) (_d2tmp p).
Definition set_sacrificeT (v : Q) (p : T) : T :=
  mk (id p) (isPlayer p) (x p) (y p) (vx p) (vy p) (heading p) (resources p)
     (dna p) (target p) (radarCooldown p) (wanderT p) (replCooldown p)
     (waypoint p) (sacrificing p) v (dead p) (_d2tmp p).
Definition set_dead (v : bool) (p : T) : T :=
  mk (id p) (isPlayer p) (x p) (y p) (vx p) (vy p) (heading p) (resources p)
     (dna p) (target p) (radarCooldown p) (wanderT p) (replCooldown p)
     (waypoint p) (sacrificing p) (sacrificeT p) v (_d2tmp p).
Definition set__d2tmp (v : option Q) (p : T) : T :=
  mk (id p) (isPlayer p) (x p) (y p) (vx p) (vy p) (heading p) (resources p)
     (dna p) (target p) (radarCooldown p) (wanderT p) (replCooldown p)
     (waypoint p) (sacrificing p) (sacrificeT p) (dead p) v.
End Probe.

(** ** Master AI state *)

Inductive Phase := NORMAL | RALLY | BUILD | CHARGE | WARP.

Definition is_NORMAL (ph : Phase) : bool :=
  match ph with NORMAL => true | _ => false end.

Module WarpMachine.
Record T := mk { x : Q; y : Q; spin : Q; mode : Phase; pulse : Q }.

(** [update(dt)]: the animation clock of the machine. *)
Definition update (dt : Q) (wm : T) : T :=
  if Qleb dt 0 then wm
  else
    mk (x wm) (y wm)
       (spin wm + dt * (match mode wm with CHARGE => 1.6 | _ => 0.8 end))
       (mode wm) (pulse wm + dt * 2.2).
End WarpMachine.

Module Master.
Record T := mk {
  state : Phase;
  waypoint : option Point.T;
  t : Q;
  sacrificed : Z;
  toSacrifice : Z;
  warpMachine : option WarpMachine.T
}.

Definition set_state (v : Phase) (m : T) : T :=
  mk v (waypoint m) (t m) (sacrificed m) (toSacrifice m) (warpMachine m).
Definition set_waypoint (v : option Point.T) (m : T) : T :=
  mk (state m) v (t m) (sacrificed m) (toSacrifice m) (warpMachine m).
Definition set_t (v : Q) (m : T) : T :=
  mk (state m) (waypoint m) v (sacrificed m) (toSacrifice m) (warpMachine m).
Definition set_sacrificed (v : Z) (m : T) : T :=
  mk (state m) (waypoint m) (t m) v (toSacrifice m) (warpMachine m).
Definition set_toSacrifice (v : Z) (m : T) : T :=
  mk (state m) (waypoint m) (t m) (sacrificed m) v (warpMachine m).
Definition set_warpMachine (v : option WarpMachine.T) (m : T) : T :=
  mk (state m) (waypoint m) (t m) (sacrificed m) (toSacrifice m) v.
End Master.

(** ** The simulation state

    The globals the simulation reads and writes: the probe list, the
    resource pool with its grid, the Master AI, the system counter, the
    probe id counter and the random source. *)
Module Sim.
Record T := mk {
  probes : list Probe.T;
  world : World.T;
  master : Master.T;
  systemIndex : Z;
  _probeId : Z;
  rng : Rng
}.

Definition set_probes (v : list Probe.T) (s : T) : T :=
  mk v (world s) (master s) (systemIndex s) (_probeId s) (rng s).
Definition set_world (v : World.T) (s : T) : T :=
  mk (probes s) v (master s) (systemIndex s) (_probeId s) (rng s).
Definition set_master (v : Master.T) (s : T) : T :=
  mk (probes s) (world s) v (systemIndex s) (_probeId s) (rng s).
Definition set_systemIndex (v : Z) (s : T) : T :=
  mk (probes s) (world s) (master s) v (_probeId s) (rng s).
Definition set__probeId (v : Z) (s : T) : T :=
  mk (probes s) (world s) (master s) (systemIndex s) v (rng s).
Definition set_rng (v : Rng) (s : T) : T :=
  mk (probes s) (world s) (master s) (systemIndex s) (_probeId s) v.
End Sim.

(** ** Probe behaviour: the methods of [class Probe]

    A method that only writes its own probe takes the probe and returns it;
    [replicate] and [tryAutoReplicate], which also push onto [probes], take
    the index of [this] in the probe list. *)
Module ProbeMethods.
Import Geometry.
Section WithMath.
Context `{MathLib}.

(** [Math.pow(0.35, FIXED_DT)]. *)
Definition DAMP_FACTOR : Q := pow 0.35 FIXED_DT.

(** [makeDNA(playerish)]. *)
Definition makeDNA (playerish : bool) (g : Rng) : DNA.T * Rng :=
  if playerish then (DNA.mk 260 520 22, g)
  else
    let '(ms, g) := rand 190 260 g in
    let '(ac, g) := rand 360 520 g in
    let '(hv, g) := rand 16 26 g in
    (DNA.mk ms ac hv, g).

(** [mutateDNA(dna)]. *)
Definition mutateDNA (dna : DNA.T) (g : Rng) : DNA.T * Rng :=
  let '(f1, g) := rand 0.97 1.03 g in
  let '(f2, g) := rand 0.96 1.04 g in
  let '(f3, g) := rand 0.95 1.06 g in
  (DNA.mk (P5.constrain (DNA.maxSpeed dna * f1) 140 320)
          (P5.constrain (DNA.accel dna * f2) 260 700)
          (P5.constrain (DNA.harvest dna * f3) 8 40), g).

(** [new Probe(x, y, isPlayer, dna)]; the probe id counter is threaded. *)
Definition construct (x y : Q) (isPlayer : bool) (dna : DNA.T)
    (pid : Z) (g : Rng) : Probe.T * Z * Rng :=
  let '(id, pid) := if isPlayer then (0%Z, pid) else (pid, (pid + 1)%Z) in
  let '(a, g) := rand 0 TWO_PI g in
  let '(heading, g) := rand 0 TWO_PI g in
  let '(resources, g) := if isPlayer then (0, g) else rand 0 8 g in
  let '(radarCooldown, g) := rand 0.2 1.2 g in
  let '(wanderT, g) := rand 0.2 1.2 g in
  (Probe.mk id isPlayer x y (cos a * 20) (sin a * 20) heading resources dna
     (-1)%Z radarCooldown wanderT 0 None false 0 false None,
   pid, g).

(** [clampVel(p, maxSpeed)]. *)
Definition clampVel (p : Probe.T) (maxSpeed : Q) : Probe.T :=
  let v2 := Probe.vx p * Probe.vx p + Probe.vy p * Probe.vy p in
  let ms2 := maxSpeed * maxSpeed in
  if Qgtb v2 ms2 then
    let inv := maxSpeed / sqrt v2 in
    Probe.set_vy (Probe.vy p * inv) (Probe.set_vx (Probe.vx p * inv) p)
  else p.

(** The acceleration step shared by the steering methods:
    [vx += ux * accel * dt; vy += uy * accel * dt; heading = atan2(uy, ux)]. *)
Definition thrust (ux uy accel dt : Q) (p : Probe.T) : Probe.T :=
  Probe.set_heading (atan2 uy ux)
    (Probe.set_vy (Probe.vy p + uy * accel * dt)
       (Probe.set_vx (Probe.vx p + ux * accel * dt) p)).

(** [masterActive = master.state !== "NORMAL" && master.waypoint]. *)
Definition masterActive (m : Master.T) : option Point.T :=
  if is_NORMAL (Master.state m) then None else Master.waypoint m.

(** [playerControl(dt)]. *)
Definition playerControl (dt : Q) (keyIsDown : Keys) (m : Master.T)
    (p : Probe.T) : Probe.T :=
  let ax := 0 in
  let ay := 0 in
  let ax := if keyIsDown LEFT_ARROW || keyIsDown 65%Z then ax - 1 else ax in
  let ax := if keyIsDown RIGHT_ARROW || keyIsDown 68%Z then ax + 1 else ax in
  let ay := if keyIsDown UP_ARROW || keyIsDown 87%Z then ay - 1 else ay in
  let ay := if keyIsDown DOWN_ARROW || keyIsDown 83%Z then ay + 1 else ay in
  let boost := if keyIsDown SHIFT then 1.55 else 1.0 in
  let p :=
    match masterActive m with
    | Some wp =>
        if Qeq_bool ax 0 && Qeq_bool ay 0 then
          let dx := wrapDeltaFast (Point.x wp - Probe.x p) WORLD_w in
          let dy := wrapDeltaFast (Point.y wp - Probe.y p) WORLD_h in
          let d2 := dx * dx + dy * dy in
          if Qgtb d2 0.000001 then
            let inv := 1 / sqrt d2 in
            let ux := dx * inv in
            let uy := dy * inv in
            let accel := DNA.accel (Probe.dna p) * 0.85 in
            thrust ux uy accel dt p
          else p
        else p
    | None => p
    end in
  let p :=
    if negb (Qeq_bool ax 0) || negb (Qeq_bool ay 0) then
      let mag := sqrt (ax * ax + ay * ay) in
      let ux := ax / mag in
      let uy := ay / mag in
      let accel := DNA.accel (Probe.dna p) * boost in
      thrust ux uy accel dt p
    else p in
  let ms := DNA.maxSpeed (Probe.dna p) * boost in
  clampVel p ms.

(** [steerToWaypoint(dt)]. *)
Definition steerToWaypoint (dt : Q) (p : Probe.T) : Probe.T :=
  match Probe.waypoint p with
  | None => p
  | Some wp =>
      let dx := wrapDeltaFast (Point.x wp - Probe.x p) WORLD_w in
      let dy := wrapDeltaFast (Point.y wp - Probe.y p) WORLD_h in
      let d2 := dx * dx + dy * dy in
      if Qltb d2 1 then p
      else
        let dist := sqrt d2 in
        let ux := dx / dist in
        let uy := dy / dist in
        let slow := map_clamped dist 0 420 0.25 1.0 in
        let accel := DNA.accel (Probe.dna p) * 0.75 * slow in
        clampVel (thrust ux uy accel dt p) (DNA.maxSpeed (Probe.dna p))
  end.

(** [chaseTarget(dt, r)]. *)
Definition chaseTarget (dt : Q) (r : Resource.T) (p : Probe.T) : Probe.T :=
  let dx := wrapDeltaFast (Resource.x r - Probe.x p) WORLD_w in
  let dy := wrapDeltaFast (Resource.y r - Probe.y p) WORLD_h in
  let d2 := dx * dx + dy * dy in
  if Qltb d2 0.000001 then p
  else
    let dist := sqrt d2 in
    let ux := dx / dist in
    let uy := dy / dist in
    let slow := map_clamped dist 0 240 0.2 1.0 in
    let accel := DNA.accel (Probe.dna p) * 0.78 * slow in
    clampVel (thrust ux uy accel dt p) (DNA.maxSpeed (Probe.dna p)).

(** [d2 < bestD2], where [bestD2] starts as [Infinity] ([None]). *)
Definition lt_best (d2 : Q) (bestD2 : option Q) : bool :=
  match bestD2 with
  | None => true
  | Some b => Qltb d2 b
  end.

(** The inner loop of [radarPing] over one cell. *)
Fixpoint radar_cell (w : World.T) (p : Probe.T) (cell : list Z)
    (best : Z * option Q) : Z * option Q :=
  match cell with
  | [] => best
  | ridx :: rest =>
      let best :=
        match at_ (World.resources w) ridx with
        | None => best
        | Some r =>
            if Qleb (Resource.amt r) 0.001 then best
            else
              let dx := wrapDeltaFast (Resource.x r - Probe.x p) WORLD_w in
              let dy := wrapDeltaFast (Resource.y r - Probe.y p) WORLD_h in
              let d2 := dx * dx + dy * dy in
              if Qleb d2 RADAR_RANGE2 && lt_best d2 (snd best)
              then (ridx, Some d2) else best
        end in
      radar_cell w p rest best
  end.

(** The outer loop of [radarPing] over the neighbour cells. *)
Fixpoint radar_cells (w : World.T) (p : Probe.T) (neigh : list Z)
    (best : Z * option Q) : outcome (Z * option Q) :=
  match neigh with
  | [] => Ret best
  | n :: rest =>
      cell ← get (World.resGrid w) n;
      radar_cells w p rest (radar_cell w p cell best)
  end.

(** A neighbour table, [null] until [buildNeighborLists] has run. *)
Definition table (t : option (list (list Z))) : outcome (list (list Z)) :=
  match t with
  | Some t => Ret t
  | None => TypeError
  end.

(** [radarPing()]. *)
Definition radarPing (w : World.T) (p : Probe.T) : outcome Z :=
  if (len (World.resourceActive w) <=? 0)%Z then Ret (-1)%Z
  else
    let ci := Pool.cellIndexForPos w (Probe.x p) (Probe.y p) in
    t ← table (World.radarCellNeighbors w);
    neigh ← get t ci;
    best ← radar_cells w p neigh ((-1)%Z, None);
    Ret (fst best).

(** The end of [aiControl]: wander along the heading. *)
Definition wander (dt : Q) (p : Probe.T) (g : Rng) : Probe.T * Rng :=
  let '(p, g) :=
    if Qleb (Probe.wanderT p) 0 then
      let '(u, g) := Math_random g in
      if Qltb u 0.03 then
        let '(dh, g) := rand (-0.7) 0.7 g in
        (Probe.set_heading (Probe.heading p + dh) p, g)
      else (p, g)
    else (p, g) in
  let ux := cos (Probe.heading p) in
  let uy := sin (Probe.heading p) in
  let accel := DNA.accel (Probe.dna p) * 0.33 in
  let p := Probe.set_vy (Probe.vy p + uy * accel * dt)
             (Probe.set_vx (Probe.vx p + ux * accel * dt) p) in
  (clampVel p (DNA.maxSpeed (Probe.dna p)), g).

(** The radar-wander part of [aiControl], entered without a target. *)
Definition radarWander (dt : Q) (w : World.T) (p : Probe.T) (g : Rng)
    : outcome (Probe.T * Rng) :=
  let p := Probe.set_radarCooldown (Probe.radarCooldown p - dt) p in
  let p := Probe.set_wanderT (P5.max 0 (Probe.wanderT p - dt)) p in
  if Qleb (Probe.radarCooldown p) 0 then
    foundIdx ← radarPing w p;
    if (foundIdx >=? 0)%Z then
      let p := Probe.set_target foundIdx p in
      let '(c, g) := rand RADAR_COOLDOWN_MIN RADAR_COOLDOWN_MAX g in
      Ret (Probe.set_radarCooldown c p, g)
    else
      let '(h, g) := rand 0 TWO_PI g in
      let p := Probe.set_heading h p in
      let '(wt, g) := rand WANDER_MIN WANDER_MAX g in
      let p := Probe.set_wanderT wt p in
      let '(c, g) := rand RADAR_COOLDOWN_MIN RADAR_COOLDOWN_MAX g in
      let p := Probe.set_radarCooldown (Probe.wanderT p + c) p in
      Ret (wander dt p g)
  else Ret (wander dt p g).

(** [aiControl(dt)]. *)
Definition aiControl (dt : Q) (w : World.T) (m : Master.T) (p : Probe.T)
    (g : Rng) : outcome (Probe.T * Rng) :=
  let p := Probe.set_replCooldown (P5.max 0 (Probe.replCooldown p - dt)) p in
  match masterActive m with
  | Some wp =>
      let p := Probe.set_waypoint (Some wp) p in
      Ret (steerToWaypoint dt p, g)
  | None =>
      if (Probe.target p >=? 0)%Z then
        match at_ (World.resources w) (Probe.target p) with
        | Some r =>
            if Qgtb (Resource.amt r) 0.001 then
              let p := chaseTarget dt r p in
              let dx := wrapDeltaFast (Resource.x r - Probe.x p) WORLD_w in
              let dy := wrapDeltaFast (Resource.y r - Probe.y p) WORLD_h in
              let d2 := dx * dx + dy * dy in
              if Qgtb d2 (RADAR_RANGE2 * 3.2)
              then Ret (Probe.set_target (-1) p, g)
              else Ret (p, g)
            else radarWander dt w (Probe.set_target (-1) p) g
        | None => radarWander dt w (Probe.set_target (-1) p) g
        end
      else radarWander dt w p g
  end.

(** [sacrificeBehavior(dt)]. *)
Definition sacrificeBehavior (dt : Q) (p : Probe.T) : Probe.T :=
  let p :=
    match Probe.waypoint p with
    | Some wp =>
        let dx := wrapDeltaFast (Point.x wp - Probe.x p) WORLD_w in
        let dy := wrapDeltaFast (Point.y wp - Probe.y p) WORLD_h in
        let d2 := dx * dx + dy * dy in
        if Qgtb d2 1 then
          let inv := 1 / sqrt d2 in
          let ux := dx * inv in
          let uy := dy * inv in
          let accel := DNA.accel (Probe.dna p) * 1.1 in
          thrust ux uy accel dt p
        else p
    | None => p
    end in
  let p := clampVel p (DNA.maxSpeed (Probe.dna p) * 1.15) in
  let p := Probe.set_sacrificeT (Probe.sacrificeT p - dt) p in
  if Qleb (Probe.sacrificeT p) 0 then Probe.set_dead true p else p.

(** [update(dt)]. *)
Definition update (dt : Q) (keyIsDown : Keys) (w : World.T) (m : Master.T)
    (p : Probe.T) (g : Rng) : outcome (Probe.T * Rng) :=
  if Probe.dead p || Qleb dt 0 then Ret (p, g)
  else
    '(p, g) ←
      (if Probe.sacrificing p then Ret (sacrificeBehavior dt p, g)
       else if Probe.isPlayer p then Ret (playerControl dt keyIsDown m p, g)
       else aiControl dt w m p g);
    let p := Probe.set_x (Probe.x p + Probe.vx p * dt) p in
    let p := Probe.set_y (Probe.y p + Probe.vy p * dt) p in
    let damp := DAMP_FACTOR in
    let p := Probe.set_vx (Probe.vx p * damp) p in
    let p := Probe.set_vy (Probe.vy p * damp) p in
    let p := Probe.set_x (wrap01Fast (Probe.x p) WORLD_w) p in
    let p := Probe.set_y (wrap01Fast (Probe.y p) WORLD_h) p in
    Ret (p, g).

(** [beginSacrifice(wp)]. *)
Definition beginSacrifice (wp : option Point.T) (p : Probe.T) (g : Rng)
    : Probe.T * Rng :=
  if Probe.isPlayer p then (p, g)
  else
    let p := Probe.set_sacrificing true p in
    let '(st, g) := rand 0.7 1.25 g in
    let p := Probe.set_sacrificeT st p in
    let p := Probe.set_waypoint wp p in
    (Probe.set_target (-1) p, g).

(** [_harvestFrom(ridx, dt)]. *)
Definition _harvestFrom (ridx : Z) (dt : Q) (p : Probe.T) (w : World.T)
    : outcome (Probe.T * World.T) :=
  match at_ (World.resources w) ridx with
  | None => Ret (p, w)
  | Some r =>
      if Qleb (Resource.amt r) 0.001 then Ret (p, w)
      else
        let take := P5.min (Resource.amt r) (DNA.harvest (Probe.dna p) * dt) in
        let r := Resource.set_amt (Resource.amt r - take) r in
        rs ← put (World.resources w) ridx r;
        let w := World.set_resources rs w in
        let p := Probe.set_resources (Probe.resources p + take) p in
        let w := World.set_systemRemainingTotal
                   (P5.max 0 (World.systemRemainingTotal w - take)) w in
        if Qleb (Resource.amt r) 0.001 then
          rs ← put (World.resources w) ridx (Resource.set_amt 0 r);
          let w := World.set_resources rs w in
          w ← Pool.deactivateResource ridx w;
          let p := if (Probe.target p =? ridx)%Z
                   then Probe.set_target (-1) p else p in
          Ret (p, w)
        else Ret (p, w)
  end.

(** The inner loop of the second part of [harvest] over one cell. *)
Fixpoint harvest_cell (w : World.T) (p : Probe.T) (cell : list Z)
    (best : Z * option Q) : Z * option Q :=
  match cell with
  | [] => best
  | ridx :: rest =>
      let best :=
        match at_ (World.resources w) ridx with
        | None => best
        | Some r =>
            if Qleb (Resource.amt r) 0.001 then best
            else
              let dx := wrapDeltaFast (Resource.x r - Probe.x p) WORLD_w in
              let dy := wrapDeltaFast (Resource.y r - Probe.y p) WORLD_h in
              let touch := PROBE_RADIUS + Resource.radius r + TOUCH_PAD in
              let d2 := dx * dx + dy * dy in
              if Qleb d2 (touch * touch) && lt_best d2 (snd best)
              then (ridx, Some d2) else best
        end in
      harvest_cell w p rest best
  end.

(** The outer loop over the 3x3 block of cells. *)
Fixpoint harvest_cells (w : World.T) (p : Probe.T) (neigh : list Z)
    (best : Z * option Q) : outcome (Z * option Q) :=
  match neigh with
  | [] => Ret best
  | n :: rest =>
      cell ← get (World.resGrid w) n;
      harvest_cells w p rest (harvest_cell w p cell best)
  end.

(** The second part of [harvest]: the nearest touching resource of the
    neighbouring cells. *)
Definition harvestNearby (dt : Q) (p : Probe.T) (w : World.T)
    : outcome (Probe.T * World.T) :=
  let ci := Pool.cellIndexForPos w (Probe.x p) (Probe.y p) in
  t ← table (World.harvestCellNeighbors w);
  neigh ← get t ci;
  best ← harvest_cells w p neigh ((-1)%Z, None);
  if (fst best >=? 0)%Z then _harvestFrom (fst best) dt p w
  else Ret (p, w).

(** [harvest(dt)]. *)
Definition harvest (dt : Q) (p : Probe.T) (w : World.T)
    : outcome (Probe.T * World.T) :=
  if Probe.dead p || Qleb dt 0 then Ret (p, w)
  else if (len (World.resourceActive w) <=? 0)%Z then Ret (p, w)
  else if (Probe.target p >=? 0)%Z then
    match at_ (World.resources w) (Probe.target p) with
    | Some r =>
        if Qgtb (Resource.amt r) 0.001 then
          let dx := wrapDeltaFast (Resource.x r - Probe.x p) WORLD_w in
          let dy := wrapDeltaFast (Resource.y r - Probe.y p) WORLD_h in
          let touch := PROBE_RADIUS + Resource.radius r + TOUCH_PAD in
          if Qleb (dx * dx + dy * dy) (touch * touch)
          then _harvestFrom (Probe.target p) dt p w
          else harvestNearby dt p w
        else harvestNearby dt (Probe.set_target (-1) p) w
    | None => harvestNearby dt (Probe.set_target (-1) p) w
    end
  else harvestNearby dt p w.

(** [replicate(cost)], called on [probes[i]]. *)
Definition replicate (cost : Q) (i : Z) (s : Sim.T) : outcome Sim.T :=
  this ← get (Sim.probes s) i;
  if (len (Sim.probes s) >=? HARD_PROBE_CAP)%Z then Ret s
  else if Qltb (Probe.resources this) cost then Ret s
  else if negb (is_NORMAL (Master.state (Sim.master s))) then Ret s
  else
    let this := Probe.set_resources (Probe.resources this - cost) this in
    ps ← put (Sim.probes s) i this;
    let g := Sim.rng s in
    let '(a, g) := rand 0 TWO_PI g in
    let '(m, g) := rand 22 45 g in
    let cx := wrap01Fast (Probe.x this + cos a * m) WORLD_w in
    let cy := wrap01Fast (Probe.y this + sin a * m) WORLD_h in
    let '(childDNA, g) := mutateDNA (Probe.dna this) g in
    let '(child, pid, g) := construct cx cy false childDNA (Sim._probeId s) g in
    let child := Probe.set_resources CHILD_START_RES child in
    let '(av, g) := rand 0 TWO_PI g in
    let '(mv, g) := rand 30 90 g in
    let child := Probe.set_vx (cos av * mv) child in
    let child := Probe.set_vy (sin av * mv) child in
    Ret (Sim.set_rng g (Sim.set__probeId pid (Sim.set_probes (ps ++ [child]) s))).

(** [tryAutoReplicate(dt)], called on [probes[i]]. *)
Definition tryAutoReplicate (dt : Q) (i : Z) (s : Sim.T) : outcome Sim.T :=
  this ← get (Sim.probes s) i;
  if Probe.dead this || Probe.isPlayer this then Ret s
  else if Qleb dt 0 then Ret s
  else if (len (Sim.probes s) >=? HARD_PROBE_CAP)%Z then Ret s
  else if negb (is_NORMAL (Master.state (Sim.master s))) then Ret s
  else if Qgtb (Probe.replCooldown this) 0 then Ret s
  else
    let cost := replicateCost in
    if Qgeb (Probe.resources this) (cost * 1.08) then
      s ← replicate cost i s;
      this ← get (Sim.probes s) i;
      let '(c, g) := rand 1.8 3.4 (Sim.rng s) in
      ps ← put (Sim.probes s) i (Probe.set_replCooldown c this);
      Ret (Sim.set_rng g (Sim.set_probes ps s))
    else Ret s.

End WithMath.
End ProbeMethods.

(** ** K-closest selection over probes

    The candidate array holds references to probe objects.  A reference is
    the position of the probe in the list [heap] of probe objects (the
    global [probes] when called from [startBuild]); writing [_d2tmp] through
    a reference is seen through every other reference to the same probe. *)
Module Selection.
Import Geometry.

(** The wrapped squared distance cached by the first loop. *)
Definition d2To (wp : Point.T) (p : Probe.T) : Q :=
  let dx := wrapDeltaFast (Probe.x p - Point.x wp) WORLD_w in
  let dy := wrapDeltaFast (Probe.y p - Point.y wp) WORLD_h in
  dx * dx + dy * dy.

(** The first loop of [selectKClosestInPlace]. *)
Fixpoint annotate (arr : list nat) (wp : Point.T) (heap : list Probe.T)
    : outcome (list Probe.T) :=
  match arr with
  | [] => Ret heap
  | r :: rest =>
      p ← get heap (Z.of_nat r);
      heap ← put heap (Z.of_nat r) (Probe.set__d2tmp (Some (d2To wp p)) p);
      annotate rest wp heap
  end.

(** [p._d2tmp] read through a reference. *)
Definition d2tmp_of (heap : list Probe.T) (r : nat) : option Q :=
  match heap !! r with
  | Some p => Probe._d2tmp p
  | None => None
  end.

(** [selectKClosestInPlace(arr, k, wp)].  The [while (true)] loop gets one
    turn more than the array has elements. *)
Definition selectKClosestInPlace (heap : list Probe.T) (arr : list nat)
    (k : Z) (wp : Point.T) : outcome (list Probe.T * list nat) :=
  heap ← annotate arr wp heap;
  arr ← Select.select_loop (d2tmp_of heap) (S (length arr)) arr k 0
          (len arr - 1)%Z;
  Ret (heap, arr).

End Selection.

(** ** Systems and the Master AI *)

Module Engine.
Import Geometry.
Section WithMath.
Context `{MathLib}.

(** The scan of [pickWeightedCluster]: the first cluster at which the
    running remainder drops to zero or below. *)
Fixpoint pick_loop (clusters : list Cluster.T) (r : Q) : option Cluster.T :=
  match clusters with
  | [] => None
  | c :: rest =>
      let r := r - Cluster.w c in
      if Qleb r 0 then Some c else pick_loop rest r
  end.

(** [pickWeightedCluster(clusters)]; [None] is the [undefined] returned for
    an empty list. *)
Definition pickWeightedCluster (clusters : list Cluster.T) (g : Rng)
    : option Cluster.T * Rng :=
  let sum := fold_left (fun s c => s + Cluster.w c) clusters 0 in
  let '(r, g) := rand 0 sum g in
  (match pick_loop clusters r with
   | Some c => Some c
   | None => last clusters
   end, g).

(** [makeResource(id, kind, clusters)]. *)
Definition makeResource (id kind : Z) (clusters : list Cluster.T) (g : Rng)
    : outcome (Resource.T * Rng) :=
  let clusterProb :=
    if (kind =? 0)%Z then CLUSTER_PROB_COMMON else CLUSTER_PROB_RICH in
  let '(useCluster, g) :=
    if (len clusters =? 0)%Z then (false, g)
    else let '(u, g) := Math_random g in (Qltb u clusterProb, g) in
  '(x, y, g) ←
    (if negb useCluster then
       let '(x, g) := rand 0 WORLD_w g in
       let '(y, g) := rand 0 WORLD_h g in
       Ret (x, y, g)
     else
       let '(cl, g) := pickWeightedCluster clusters g in
       match cl with
       | None => TypeError
       | Some cl =>
           let '(n1, g) := randomGaussian g in
           let dx := n1 * Cluster.spread cl in
           let '(n2, g) := randomGaussian g in
           let dy := n2 * Cluster.spread cl in
           Ret (wrap01Fast (Cluster.x cl + dx) WORLD_w,
                wrap01Fast (Cluster.y cl + dy) WORLD_h, g)
       end);
  let '(maxAmt, g) := if (kind =? 0)%Z then rand 18 110 g else rand 140 420 g in
  Ret (Resource.mk id kind x y maxAmt maxAmt
         (RESOURCE_BASE_R + sqrt maxAmt * (if (kind =? 0)%Z then 0.52 else 0.62))
         false (-1) (-1) (-1) (-1), g).

(** The cluster loop of [spawnSystem]. *)
Fixpoint make_clusters (n : nat) (g : Rng) : list Cluster.T * Rng :=
  match n with
  | O => ([], g)
  | S n' =>
      let '(x, g) := rand 0 WORLD_w g in
      let '(y, g) := rand 0 WORLD_h g in
      let '(spread, g) := rand CLUSTER_SPREAD_MIN CLUSTER_SPREAD_MAX g in
      let '(w, g) := rand 0.6 1.6 g in
      let '(rest, g) := make_clusters n' g in
      (Cluster.mk x y spread w :: rest, g)
  end.

(** One of the two resource loops of [spawnSystem], for [n] resources of
    one kind; the running [id] is threaded. *)
Fixpoint spawn_loop (n : nat) (kind : Z) (clusters : list Cluster.T)
    (id : Z) (w : World.T) (g : Rng) : outcome (Z * World.T * Rng) :=
  match n with
  | O => Ret (id, w, g)
  | S n' =>
      '(r, g) ← makeResource id kind clusters g;
      let id := (id + 1)%Z in
      let idx := len (World.resources w) in
      let r := Resource.set__arrIndex idx r in
      let w := World.set_resources (World.resources w ++ [r]) w in
      w ← Pool.activateResource idx w;
      let w := World.set_systemInitialTotal
                 (World.systemInitialTotal w + Resource.maxAmt r) w in
      spawn_loop n' kind clusters id w g
  end.

(** [spawnSystem()]. *)
Definition spawnSystem (w : World.T) (g : Rng) : outcome (World.T * Rng) :=
  let w := World.set_resources [] w in
  let w := World.set_resourceActive [] w in
  let w := World.set_systemInitialTotal 0 w in
  let w := World.set_systemRemainingTotal 0 w in
  let w := Pool.initResGrid w in
  let '(c, g) := rand CLUSTER_COUNT_MIN (CLUSTER_COUNT_MAX + 1) g in
  let CL := P5.floor c in
  let '(clusters, g) := make_clusters (Z.to_nat CL) g in
  '(id, w, g) ← spawn_loop NUM_RES_COMMON 0 clusters 0 w g;
  '(id, w, g) ← spawn_loop NUM_RES_RICH 1 clusters id w g;
  let w := World.set_systemRemainingTotal (World.systemInitialTotal w) w in
  Ret (Pool.buildNeighborLists w, g).

(** [countArrivedAtWaypointSq(radiusSq)]. *)
Definition countArrivedAtWaypointSq (radiusSq : Q) (s : Sim.T) : Z :=
  match Master.waypoint (Sim.master s) with
  | None => 0%Z
  | Some wp =>
      fold_left
        (fun c p =>
           if Probe.dead p then c
           else
             let dx := wrapDeltaFast (Point.x wp - Probe.x p) WORLD_w in
             let dy := wrapDeltaFast (Point.y wp - Probe.y p) WORLD_h in
             if Qleb (dx * dx + dy * dy) radiusSq then (c + 1)%Z else c)
        (Sim.probes s) 0%Z
  end.

(** [startRally()]. *)
Definition startRally (s : Sim.T) : Sim.T :=
  let g := Sim.rng s in
  let '(wx, g) := rand 0 WORLD_w g in
  let '(wy, g) := rand 0 WORLD_h g in
  let wp := Some (Point.mk wx wy) in
  let m := Master.mk RALLY wp 0 0 0 None in
  let ps := List.map (Probe.set_waypoint wp) (Sim.probes s) in
  Sim.set_rng g (Sim.set_probes ps (Sim.set_master m s)).

(** The candidates of [startBuild]: references to the probes that are
    neither the player nor dead, in list order. *)
Fixpoint collect_ai (ps : list Probe.T) (i : nat) : list nat :=
  match ps with
  | [] => []
  | p :: rest =>
      if negb (Probe.isPlayer p) && negb (Probe.dead p)
      then i :: collect_ai rest (S i)
      else collect_ai rest (S i)
  end.

(** The last loop of [startBuild]: [ai[i].beginSacrifice(wp)] for the
    [n] indices from [i] on. *)
Fixpoint sacrifice_loop (n : nat) (i : Z) (ai : list nat)
    (wp : option Point.T) (heap : list Probe.T) (g : Rng)
    : outcome (list Probe.T * Rng) :=
  match n with
  | O => Ret (heap, g)
  | S n' =>
      r ← get ai i;
      p ← get heap (Z.of_nat r);
      let '(p, g) := ProbeMethods.beginSacrifice wp p g in
      heap ← put heap (Z.of_nat r) p;
      sacrifice_loop n' (i + 1)%Z ai wp heap g
  end.

(** [startBuild()]. *)
Definition startBuild (s : Sim.T) : outcome Sim.T :=
  let m := Sim.master s in
  let m := Master.set_sacrificed 0 (Master.set_t 0 (Master.set_state BUILD m)) in
  let wp :=
    match Master.waypoint m with
    | Some wp => wp
    | None => Point.mk (WORLD_w * 0.5) (WORLD_h * 0.5)
    end in
  let m := Master.set_waypoint (Some wp) m in
  let '(spin, g) := rand 0 TWO_PI (Sim.rng s) in
  let m := Master.set_warpMachine
             (Some (WarpMachine.mk (Point.x wp) (Point.y wp) spin BUILD 0)) m in
  let ai := collect_ai (Sim.probes s) 0 in
  let toSac := P5.floor (inject_Z (len ai) * 0.10) in
  let m := Master.set_toSacrifice toSac m in
  let s := Sim.set_rng g (Sim.set_master m s) in
  if (toSac <=? 0)%Z then Ret s
  else
    '(heap, ai) ← Selection.selectKClosestInPlace (Sim.probes s) ai toSac wp;
    '(heap, g) ← sacrifice_loop (Z.to_nat toSac) 0 ai (Some wp) heap g;
    Ret (Sim.set_rng g (Sim.set_probes heap s)).

(** [startCharge()]. *)
Definition startCharge (s : Sim.T) : Sim.T :=
  let m := Sim.master s in
  let m := Master.set_t 0 (Master.set_state CHARGE m) in
  let m :=
    match Master.warpMachine m with
    | Some wm =>
        Master.set_warpMachine
          (Some (WarpMachine.mk (WarpMachine.x wm) (WarpMachine.y wm)
                   (WarpMachine.spin wm) CHARGE (WarpMachine.pulse wm))) m
    | None => m
    end in
  Sim.set_master m s.

(** The relocation of one survivor in [performWarp]. *)
Definition warp_probe (p : Probe.T) (g : Rng) : Probe.T * Rng :=
  let cx := WORLD_w * 0.5 in
  let cy := WORLD_h * 0.5 in
  let '(a, g) := rand 0 TWO_PI g in
  let '(m, g) := rand 40 560 g in
  let p := Probe.set_x (wrap01Fast (cx + cos a * m) WORLD_w) p in
  let p := Probe.set_y (wrap01Fast (cy + sin a * m) WORLD_h) p in
  let '(av, g) := rand 0 TWO_PI g in
  let '(mv, g) := rand 10 70 g in
  let p := Probe.set_vx (cos av * mv) p in
  let p := Probe.set_vy (sin av * mv) p in
  let p := Probe.set_target (-1) p in
  let p := Probe.set_waypoint None p in
  let '(p, g) :=
    if negb (Probe.isPlayer p) then
      let '(rc, g) := rand 0.2 1.1 g in
      let '(wt, g) := rand 0.2 0.9 g in
      let '(h, g) := rand 0 TWO_PI g in
      (Probe.set_heading h (Probe.set_wanderT wt (Probe.set_radarCooldown rc p)), g)
    else (p, g) in
  (Probe.set_replCooldown (P5.max (Probe.replCooldown p) 0.5) p, g).

(** The probe loop of [performWarp]. *)
Fixpoint warp_loop (ps : list Probe.T) (g : Rng) : list Probe.T * Rng :=
  match ps with
  | [] => ([], g)
  | p :: rest =>
      let '(p, g) := warp_probe p g in
      let '(rest, g) := warp_loop rest g in
      (p :: rest, g)
  end.

(** [performWarp()]. *)
Definition performWarp (s : Sim.T) : outcome Sim.T :=
  let m := Master.set_t 0 (Master.set_state WARP (Sim.master s)) in
  let s := Sim.set_master m s in
  let s := Sim.set_systemIndex (Sim.systemIndex s + 1)%Z s in
  '(w, g) ← spawnSystem (Sim.world s) (Sim.rng s);
  let s := Sim.set_rng g (Sim.set_world w s) in
  let '(ps, g) := warp_loop (Sim.probes s) (Sim.rng s) in
  let s := Sim.set_rng g (Sim.set_probes ps s) in
  let m := Sim.master s in
  let m := Master.set_warpMachine None (Master.set_waypoint None m) in
  let m := Master.set_t 0 (Master.set_state NORMAL m) in
  Ret (Sim.set_master m s).

(** [masterUpdate(dt)]. *)
Definition masterUpdate (dt : Q) (s : Sim.T) : outcome Sim.T :=
  if Qleb dt 0 then Ret s
  else
    let m := Sim.master s in
    let w := Sim.world s in
    match Master.state m with
    | NORMAL =>
        if Qgtb (World.systemInitialTotal w) 0 then
          let remainingFrac :=
            World.systemRemainingTotal w / World.systemInitialTotal w in
          if Qleb remainingFrac (1 - MASTER_TRIGGER_DEPLETION)
             && (len (Sim.probes s) >=? 1)%Z
          then Ret (startRally s)
          else Ret s
        else Ret s
    | ph =>
        let m := Master.set_t (Master.t m + dt) m in
        let s := Sim.set_master m s in
        match ph with
        | RALLY =>
            let alive := len (Sim.probes s) in
            let arrived := countArrivedAtWaypointSq RALLY_RADIUS2 s in
            let need := Z.max 1 (P5.floor (inject_Z alive * RALLY_FRACTION)) in
            let timeoutOk :=
              Qgeb (Master.t m) RALLY_TIMEOUT
              && (arrived >=? Z.max 1 (P5.floor (inject_Z alive * 0.45)))%Z in
            if (arrived >=? need)%Z || timeoutOk then startBuild s else Ret s
        | BUILD =>
            if (Master.sacrificed m >=? Master.toSacrifice m)%Z
            then Ret (startCharge s) else Ret s
        | CHARGE =>
            if Qgeb (Master.t m) WARP_CHARGE_TIME then performWarp s else Ret s
        | _ => Ret s
        end
    end.

(** The compaction loop of [purgeSacrificed], with [n] probes left to
    visit: [i] reads, [w] writes, [died] counts. *)
Fixpoint purge_loop (n : nat) (i w died : Z) (probes : list Probe.T)
    : outcome (list Probe.T * Z * Z) :=
  match n with
  | O => Ret (probes, w, died)
  | S n' =>
      p ← get probes i;
      if Probe.dead p then purge_loop n' (i + 1)%Z w (died + 1)%Z probes
      else
        probes ← put probes w p;
        purge_loop n' (i + 1)%Z (w + 1)%Z died probes
  end.

(** [purgeSacrificed()]. *)
Definition purgeSacrificed (s : Sim.T) : outcome Sim.T :=
  '(probes, w, died) ← purge_loop (length (Sim.probes s)) 0 0 0 (Sim.probes s);
  if (died >? 0)%Z then
    let m := Sim.master s in
    let m := Master.set_sacrificed (Master.sacrificed m + died)%Z m in
    Ret (Sim.set_master m (Sim.set_probes (take (Z.to_nat w) probes) s))
  else Ret (Sim.set_probes probes s).

(** The first loop of [simStep]: [probes[i].update(dt)]. *)
Fixpoint update_loop (n : nat) (i : Z) (dt : Q) (keyIsDown : Keys)
    (s : Sim.T) : outcome Sim.T :=
  match n with
  | O => Ret s
  | S n' =>
      p ← get (Sim.probes s) i;
      '(p, g) ← ProbeMethods.update dt keyIsDown (Sim.world s) (Sim.master s)
                  p (Sim.rng s);
      ps ← put (Sim.probes s) i p;
      update_loop n' (i + 1)%Z dt keyIsDown (Sim.set_rng g (Sim.set_probes ps s))
  end.

(** The second loop: [probes[i].harvest(dt)]. *)
Fixpoint harvest_loop (n : nat) (i : Z) (dt : Q) (s : Sim.T)
    : outcome Sim.T :=
  match n with
  | O => Ret s
  | S n' =>
      p ← get (Sim.probes s) i;
      '(p, w) ← ProbeMethods.harvest dt p (Sim.world s);
      ps ← put (Sim.probes s) i p;
      harvest_loop n' (i + 1)%Z dt (Sim.set_world w (Sim.set_probes ps s))
  end.

(** The third loop: [probes[i].tryAutoReplicate(dt)].  The list grows while
    it is walked, so the loop re-reads [probes.length] on every turn and is
    cut off after [fuel] turns. *)
Fixpoint replicate_loop (fuel : nat) (i : Z) (dt : Q) (s : Sim.T)
    : outcome Sim.T :=
  match fuel with
  | O => OutOfFuel
  | S fuel' =>
      if (i <? len (Sim.probes s))%Z then
        s ← ProbeMethods.tryAutoReplicate dt i s;
        replicate_loop fuel' (i + 1)%Z dt s
      else Ret s
  end.

(** Turns granted to the replication loop: the list never grows beyond
    the larger of its length and the population cap. *)
Definition replicate_fuel (s : Sim.T) : nat :=
  S (Z.to_nat (Z.max (len (Sim.probes s)) HARD_PROBE_CAP)).

(** [simStep(dt)]. *)
Definition simStep (dt : Q) (keyIsDown : Keys) (s : Sim.T) : outcome Sim.T :=
  s ← update_loop (length (Sim.probes s)) 0 dt keyIsDown s;
  s ← harvest_loop (length (Sim.probes s)) 0 dt s;
  s ← (if is_NORMAL (Master.state (Sim.master s))
       then replicate_loop (replicate_fuel s) 0 dt s
       else Ret s);
  s ← masterUpdate dt s;
  purgeSacrificed s.

(** The star loop of [setup]: the stars are scenery, but each takes four
    draws from the random source. *)
Fixpoint star_loop (n : nat) (g : Rng) : Rng :=
  match n with
  | O => g
  | S n' =>
      let '(_, g) := rand 0 WORLD_w g in
      let '(_, g) := rand 0 WORLD_h g in
      let '(_, g) := rand 0.3 1.0 g in
      let '(_, g) := rand 0.6 2.0 g in
      star_loop n' g
  end.

(** The globals as they are declared. *)
Definition initial_world : World.T := World.mk [] [] 0 0 [] None None 0 0.
Definition initial_master : Master.T := Master.mk NORMAL None 0 0 0 None.

(** [setup()], without the canvas: the stars, the first system, the
    player in the middle of the world. *)
Definition setup (g : Rng) : outcome Sim.T :=
  let g := star_loop NUM_STARS g in
  '(w, g) ← spawnSystem initial_world g;
  let '(dna, g) := ProbeMethods.makeDNA true g in
  let '(player, pid, g) :=
    ProbeMethods.construct (WORLD_w * 0.5) (WORLD_h * 0.5) true dna 1 g in
  Ret (Sim.mk [player] w initial_master 1 pid g).

(** [renderScene(dt)], as far as it writes the state of the simulation:
    [drawMasterMarkers] advances the animation clock of the warp machine.
    The canvas and the camera are not part of the state. *)
Definition renderScene (dt : Q) (s : Sim.T) : Sim.T :=
  match Master.warpMachine (Sim.master s) with
  | Some wm =>
      Sim.set_master
        (Master.set_warpMachine (Some (WarpMachine.update dt wm)) (Sim.master s))
        s
  | None => s
  end.

(** The [while] loop of [draw], cut off after [fuel] turns. *)
Fixpoint step_loop (fuel : nat) (keyIsDown : Keys) (simAcc : Q) (steps : Z)
    (s : Sim.T) : outcome (Q * Z * Sim.T) :=
  match fuel with
  | O => OutOfFuel
  | S fuel' =>
      if Qgeb simAcc FIXED_DT && (steps <? MAX_STEPS_PER_FRAME)%Z then
        s ← simStep FIXED_DT keyIsDown s;
        step_loop fuel' keyIsDown (simAcc - FIXED_DT) (steps + 1)%Z s
      else Ret (simAcc, steps, s)
  end.

(** [draw()], on the accumulator [simAcc] and the state of the simulation.
    [deltaTime] is [None] when it is not a finite number; the keys are
    those held down during the frame. *)
Definition draw (paused : bool) (deltaTime : option Q) (keyIsDown : Keys)
    (simAcc : Q) (s : Sim.T) : outcome (Q * Sim.T) :=
  if paused then Ret (simAcc, renderScene 0 s)
  else
    let frameDt :=
      match deltaTime with
      | Some d => let frameDt := d / 1000 in
                  if Qltb frameDt 0 then 0 else frameDt
      | None => 0
      end in
    let frameDt := P5.min frameDt 0.25 in
    let simAcc := simAcc + frameDt in
    '(simAcc, steps, s) ←
      step_loop (S (Z.to_nat MAX_STEPS_PER_FRAME)) keyIsDown simAcc 0 s;
    let simAcc := if (steps =? MAX_STEPS_PER_FRAME)%Z then 0 else simAcc in
    Ret (simAcc, renderScene FIXED_DT s).

End WithMath.

(** [mouseWheel(e)], on the zoom factor: [delta] is [e.delta]. *)
Definition mouseWheel (delta : Q) (zoom : Q) : Q :=
  let factor := 1 - delta * 0.0012 in
  let zoom := zoom * factor in
  P5.constrain zoom 0.35 2.2.

End Engine.

(** * Vocabulary of the properties

    The predicates and relations in which the properties below are stated. *)

(** ** Quickselect *)

Module SelectSpec.
Section Spec.
Context {A : Type} (d2tmp : A -> option Q).
Implicit Types (arr : list A).

(** The index map of a swap of slots [i] and [j]. *)
Definition transp (i j x : Z) : Z :=
  if (x =? i)%Z then j else if (x =? j)%Z then i else x.

(** [Shuffle lo hi arr arr']: [arr'] comes from [arr] by swaps of slots
    inside [[lo, hi]]. *)
Inductive Shuffle (lo hi : Z) (arr : list A) : list A -> Prop :=
| Shuffle_refl : Shuffle lo hi arr arr
| Shuffle_swap arr1 arr2 i j :
    Shuffle lo hi arr arr1 ->
    (lo <= i <= hi)%Z -> (lo <= j <= hi)%Z ->
    (0 <= i < len arr1)%Z -> (0 <= j < len arr1)%Z ->
    Select.swap arr1 i j = Ret arr2 ->
    Shuffle lo hi arr arr2.

(** The invariant of the partition loop for the pivot value [pv]: below
    [store] the keys are smaller than [pv], from [store] up to the scan
    position [i] they are not. *)
Definition Split (pv : option Q) (lo store i : Z) arr : Prop :=
  (forall x a, (lo <= x < store)%Z -> at_ arr x = Some a ->
     Select.js_lt (d2tmp a) pv = true) /\
  (forall x a, (store <= x < i)%Z -> at_ arr x = Some a ->
     Select.js_lt (d2tmp a) pv = false).

(** Every element of the array has its key cached. *)
Definition Keyed (key : A -> Q) arr : Prop :=
  Forall (fun a => d2tmp a = Some (key a)) arr.

(** [Cut key c arr]: no key before slot [c] exceeds a key from slot [c] on. *)
Definition Cut (key : A -> Q) (c : Z) arr : Prop :=
  forall i j a b, at_ arr i = Some a -> at_ arr j = Some b ->
    (i < c <= j)%Z -> key a <= key b.

End Spec.
End SelectSpec.

(** ** K-closest selection over probes *)

Module SelectionSpec.
Import Selection.

(** Two probe objects that differ at most in the cached [_d2tmp]. *)
Definition same_but_d2 (p p' : Probe.T) : Prop :=
  Probe.set__d2tmp None p' = Probe.set__d2tmp None p.

(** The wrapped squared distance to [wp] of the probe behind a reference. *)
Definition dist (wp : Point.T) (heap : list Probe.T) (r : nat) : Q :=
  match heap !! r with
  | Some p => d2To wp p
  | None => 0
  end.

(** The probe behind [q] carries its own distance to [wp] in [_d2tmp]. *)
Definition Annot (wp : Point.T) (heap : list Probe.T) (q : nat) : Prop :=
  exists p, heap !! q = Some p /\ Probe._d2tmp p = Some (d2To wp p).

(** The order of a full sort by distance. *)
Definition closer (wp : Point.T) (heap : list Probe.T) : relation nat :=
  fun r1 r2 => dist wp heap r1 <= dist wp heap r2.

End SelectionSpec.

(** ** Spatial grid and resource pool *)

Module PoolSpec.
Import Resource World Pool.

(** The resource object behind an index. *)
Definition res (w : World.T) (i : Z) : option Resource.T :=
  at_ (resources w) i.

(** Resource [i] sits in slot [gi] of cell [ci]. *)
Definition InCell (w : World.T) (ci gi i : Z) : Prop :=
  exists cell, at_ (resGrid w) ci = Some cell /\ at_ cell gi = Some i.

(** Resource [i] appears in no cell of the grid. *)
Definition NotInGrid (w : World.T) (i : Z) : Prop :=
  forall ci gi, ~ InCell w ci gi i.

(** Resource [i], the object [r], is stored in exactly the cell computed
    from its position, at the slot its back-references name. *)
Definition StoredAt (w : World.T) (i : Z) (r : Resource.T) : Prop :=
  _gridCell r = cellIndexForPos w (Resource.x r) (Resource.y r) /\
  InCell w (_gridCell r) (_gridIndex r) i /\
  forall ci gi, InCell w ci gi i -> ci = _gridCell r /\ gi = _gridIndex r.

(** The grid invariant, at the level of [gridAddResource] and
    [gridRemoveResource]: every resource has a cell for its position; every
    entry of a cell is a resource whose back-references name that very slot
    of the cell computed from its position; the two back-references are set
    together; and when set they name a slot that holds the resource. *)
Record GridOK (w : World.T) : Prop := {
  grid_cell_exists : forall i r, res w i = Some r ->
    exists cell,
      at_ (resGrid w) (cellIndexForPos w (Resource.x r) (Resource.y r))
        = Some cell;
  grid_entry : forall ci gi i, InCell w ci gi i ->
    exists r, res w i = Some r /\ _gridCell r = ci /\ _gridIndex r = gi /\
      cellIndexForPos w (Resource.x r) (Resource.y r) = ci;
  grid_backref_sign : forall i r, res w i = Some r ->
    (0 <= _gridCell r)%Z -> (0 <= _gridIndex r)%Z;
  grid_backref : forall i r, res w i = Some r ->
    (0 <= _gridCell r)%Z ->
    InCell w (_gridCell r) (_gridIndex r) i
}.

(** Two resource objects that differ at most in the grid back-references. *)
Definition same_but_grid (r r' : Resource.T) : Prop :=
  r' = set__gridIndex (_gridIndex r') (set__gridCell (_gridCell r') r).

(** Two resource objects with the same position, amounts and radius: the
    fields that the bookkeeping of the pool never writes. *)
Definition same_payload (r r' : Resource.T) : Prop :=
  Resource.x r' = Resource.x r /\ Resource.y r' = Resource.y r /\
  amt r' = amt r /\ maxAmt r' = maxAmt r /\ radius r' = radius r.

(** The invariant of the pool, at the level of [activateResource] and
    [deactivateResource]: the grid invariant; a resource is active exactly
    when its back-references are set; and [resourceActive] lists exactly the
    active resources, each at its [activeIndex]. *)
Record PoolOK (w : World.T) : Prop := {
  pool_grid : GridOK w;
  pool_active_backref : forall i r, res w i = Some r -> active r = true ->
    (0 <= _gridCell r)%Z;
  pool_inactive_backref : forall i r, res w i = Some r -> active r = false ->
    (_gridCell r < 0)%Z;
  pool_list_entry : forall k i, at_ (resourceActive w) k = Some i ->
    exists r, res w i = Some r /\ active r = true /\ activeIndex r = k;
  pool_list_backref : forall i r, res w i = Some r -> active r = true ->
    at_ (resourceActive w) (activeIndex r) = Some i
}.

End PoolSpec.

(** ** Ranges *)

Module Ranges.

(** A position inside the world. *)
Definition InWorld (x y : Q) : Prop :=
  (0 <= x /\ x < WORLD_w) /\ (0 <= y /\ y < WORLD_h).

(** [Math.random] draws from [[0, 1)]. *)
Definition RngOK (g : Rng) : Prop :=
  forall n, 0 <= uniform g n /\ uniform g n < 1.

End Ranges.

(** ** Replication *)

Module ReplicationSpec.
Import Ranges.

(** The outcome of a replication that went through: the parent, still at
    index [i], has paid [cost] (and, after [tryAutoReplicate], has a new
    cooldown); exactly one probe has been appended, an autonomous one that
    carries [CHILD_START_RES] and lies inside the world; pool and Master AI
    are untouched, and the random source has only been drawn from. *)
Definition Replicated (cost : Q) (i : Z) (s s' : Sim.T) : Prop :=
  exists this parent child,
    at_ (Sim.probes s) i = Some this /\
    Sim.probes s' = <[Z.to_nat i := parent]> (Sim.probes s) ++ [child] /\
    Probe.resources parent = Probe.resources this - cost /\
    Probe.set_replCooldown 0 (Probe.set_resources 0 parent)
      = Probe.set_replCooldown 0 (Probe.set_resources 0 this) /\
    Probe.resources child = CHILD_START_RES /\
    Probe.isPlayer child = false /\
    Probe.dead child = false /\
    Probe.sacrificing child = false /\
    Sim.world s' = Sim.world s /\
    Sim.master s' = Sim.master s /\
    InWorld (Probe.x child) (Probe.y child) /\
    (RngOK (Sim.rng s) -> RngOK (Sim.rng s')).

End ReplicationSpec.

(** ** Resource totals and the invariant of the world *)

Module WorldSpec.
Export Ranges.
Import Resource World Pool PoolSpec.

(** The sum of [amt] over all resources. *)
Definition sum_amt (rs : list Resource.T) : Q :=
  fold_right (fun r acc => amt r + acc) 0 rs.

(** The number of resources at or below the depletion threshold of the
    code, [amt <= 0.001]. *)
Definition exhausted (rs : list Resource.T) : Z :=
  len (List.filter (fun r => Qleb (amt r) 0.001) rs).

(** 1 for an exhausted resource, 0 for any other. *)
Definition is_exhausted (r : Resource.T) : Z :=
  if Qleb (amt r) 0.001 then 1%Z else 0%Z.

(** Two resource objects with the same bookkeeping: flags, back-references
    and position. *)
Definition same_book (r r' : Resource.T) : Prop :=
  active r' = active r /\ activeIndex r' = activeIndex r /\
  _gridCell r' = _gridCell r /\ _gridIndex r' = _gridIndex r /\
  Resource.x r' = Resource.x r /\ Resource.y r' = Resource.y r.

(** A table has one entry per cell, each a list of cells of the grid. *)
Definition table_ok (t : list (list Z)) : bool :=
  (len t =? 1225)%Z
  && forallb (forallb (fun c => (0 <=? c)%Z && (c <? 1225)%Z)) t.

(** Conservation as the code keeps it: no amount is negative, and
    [systemRemainingTotal] is at least the sum of the amounts and exceeds it
    by at most 0.001 for every exhausted resource. *)
Record Conserved (w : World.T) : Prop := {
  amt_nonneg : Forall (fun r => 0 <= amt r) (resources w);
  total_ge : sum_amt (resources w) <= systemRemainingTotal w;
  total_le : systemRemainingTotal w
             <= sum_amt (resources w)
                + 0.001 * inject_Z (exhausted (resources w))
}.

(** The pool while [spawnSystem] fills it: consistent, over the 35 x 35
    grid, with no negative amount, and [systemInitialTotal] the sum of
    what has been created so far. *)
Record Spawning (w : World.T) : Prop := {
  spawn_pool : PoolOK w;
  spawn_W : resGridW w = 35%Z;
  spawn_H : resGridH w = 35%Z;
  spawn_grid_len : len (resGrid w) = 1225%Z;
  spawn_nonneg : Forall (fun r => 0 <= amt r) (resources w);
  spawn_total : systemInitialTotal w == sum_amt (resources w)
}.

(** The invariant of the world between two calls: the pool is consistent,
    the grid is the 35 x 35 grid of [initResGrid] with the neighbour tables
    of [buildNeighborLists], and the totals are conserved. *)
Record WorldOK (w : World.T) : Prop := {
  world_pool : PoolOK w;
  world_W : resGridW w = 35%Z;
  world_H : resGridH w = 35%Z;
  world_grid_len : len (resGrid w) = 1225%Z;
  world_radar : radarCellNeighbors w = Some (neighborTable w 3);
  world_harvest : harvestCellNeighbors w = Some (neighborTable w 1);
  world_conserved : Conserved w
}.

End WorldSpec.

(** ** The invariant of the simulation *)

Module SimSpec.
Export WorldSpec.

(** A probe that differs from another at most in what it carries and in
    its target. *)
Definition same_but_cargo (p p' : Probe.T) : Prop :=
  p' = Probe.set_target (Probe.target p') (Probe.set_resources (Probe.resources p') p).

(** The role and the position of a probe. *)
Definition flags (p : Probe.T) : bool * bool * bool * DNA.T :=
  (Probe.isPlayer p, Probe.sacrificing p, Probe.dead p, Probe.dna p).

Definition pos (p : Probe.T) : Q * Q := (Probe.x p, Probe.y p).

(** What the control methods guarantee: they return, and they touch
    neither the role nor the position of the probe. *)
Definition Steered (p : Probe.T) (g : Rng)
    (result : outcome (Probe.T * Rng)) : Prop :=
  exists p' g', result = Ret (p', g') /\
    flags p' = flags p /\ pos p' = pos p /\ (RngOK g -> RngOK g').

(** What a tick may do to the role of a probe: it stays the player or
    autonomous, it stays sacrificing or not, it keeps its DNA, and it dies
    only while sacrificing. *)
Definition Aged (p p' : Probe.T) : Prop :=
  Probe.isPlayer p' = Probe.isPlayer p /\
  Probe.sacrificing p' = Probe.sacrificing p /\
  Probe.dna p' = Probe.dna p /\
  (Probe.dead p' = true -> Probe.dead p = true \/ Probe.sacrificing p = true).

(** What the Master AI may do to a probe when it changes phase: the probe
    stays the player or autonomous, alive or dead, where it is, with its
    DNA. *)
Definition Enlisted (p p' : Probe.T) : Prop :=
  Probe.isPlayer p' = Probe.isPlayer p /\ Probe.dead p' = Probe.dead p /\
  Probe.dna p' = Probe.dna p /\ pos p' = pos p.

(** The probes on their way into the warp machine. *)
Definition sacrificing_count (ps : list Probe.T) : Z :=
  len (List.filter Probe.sacrificing ps).

(** The candidates of [startBuild]: living probes other than the player. *)
Definition ai_count (ps : list Probe.T) : Z :=
  len (List.filter (fun p => negb (Probe.isPlayer p) && negb (Probe.dead p)) ps).

(** A probe that [purgeSacrificed] keeps. *)
Definition alive (p : Probe.T) : bool := negb (Probe.dead p).

(** No probe is sacrificing or dead. *)
Definition Calm (ps : list Probe.T) : Prop :=
  Forall (fun p => Probe.sacrificing p = false /\ Probe.dead p = false) ps.

(** The bookkeeping of the sacrifice, as it stands at any point of a tick:
    outside BUILD no probe is sacrificing or dead; during BUILD only
    autonomous probes are sacrificing, only sacrificing probes are dead, and
    those already counted together with those still in the list make up
    [toSacrifice]; during CHARGE the count is complete. *)
Definition PhaseMid (m : Master.T) (ps : list Probe.T) : Prop :=
  match Master.state m with
  | BUILD =>
      Forall (fun p => (Probe.dead p = true -> Probe.sacrificing p = true) /\
                       (Probe.sacrificing p = true -> Probe.isPlayer p = false))
        ps /\
      (Master.sacrificed m + sacrificing_count ps = Master.toSacrifice m)%Z
  | CHARGE => Calm ps /\ Master.sacrificed m = Master.toSacrifice m
  | _ => Calm ps
  end.

(** The invariant inside a tick. *)
Record SimMid (s : Sim.T) : Prop := {
  sim_world : WorldOK (Sim.world s);
  sim_probes : Forall (fun p => InWorld (Probe.x p) (Probe.y p)) (Sim.probes s);
  sim_cap : (len (Sim.probes s) <= HARD_PROBE_CAP)%Z;
  sim_rng : RngOK (Sim.rng s);
  sim_phase : PhaseMid (Sim.master s) (Sim.probes s)
}.

(** The invariant at a tick boundary: the dead have been purged. *)
Definition SimOK (s : Sim.T) : Prop :=
  SimMid s /\ Forall (fun p => Probe.dead p = false) (Sim.probes s).

Section Runs.
Context `{MathLib}.

(** The part of [simStep] that comes before [masterUpdate]: the three loops
    over the probes. *)
Definition probe_loops (dt : Q) (keyIsDown : Keys) (s : Sim.T)
    : outcome Sim.T :=
  s ← Engine.update_loop (length (Sim.probes s)) 0 dt keyIsDown s;
  s ← Engine.harvest_loop (length (Sim.probes s)) 0 dt s;
  if is_NORMAL (Master.state (Sim.master s))
  then Engine.replicate_loop (Engine.replicate_fuel s) 0 dt s
  else Ret s.

(** [n] calls of [simStep(dt)]; the call number [j] sees the keys
    [keys j]. *)
Fixpoint ticks (n : nat) (dt : Q) (keys : nat -> Keys) (s : Sim.T)
    : outcome Sim.T :=
  match n with
  | O => Ret s
  | S n' => s ← ticks n' dt keys s; Engine.simStep dt (keys n') s
  end.

(** The test of [masterUpdate] in the NORMAL phase. *)
Definition depleted (s : Sim.T) : bool :=
  Qgtb (World.systemInitialTotal (Sim.world s)) 0
  && Qleb (World.systemRemainingTotal (Sim.world s)
           / World.systemInitialTotal (Sim.world s))
          (1 - MASTER_TRIGGER_DEPLETION)
  && (len (Sim.probes s) >=? 1)%Z.

(** The state in which call number [j] of [simStep] enters
    [masterUpdate], and the outcome of the test for depletion there. *)
Definition checkpoint (j : nat) (dt : Q) (keys : nat -> Keys) (s : Sim.T)
    : outcome Sim.T :=
  s ← ticks j dt keys s; probe_loops dt (keys j) s.

Definition depleted_at (j : nat) (dt : Q) (keys : nat -> Keys) (s : Sim.T)
    : bool :=
  match checkpoint j dt keys s with
  | Ret c => depleted c
  | _ => false
  end.

(** The phase after [n] calls. *)
Definition phase_after (n : nat) (dt : Q) (keys : nat -> Keys) (s : Sim.T)
    : option Phase :=
  match ticks n dt keys s with
  | Ret s' => Some (Master.state (Sim.master s'))
  | _ => None
  end.

(** What one call of [masterUpdate] does, phase by phase: nothing but the
    phase clock moves; or NORMAL turns into RALLY; or RALLY into BUILD, with
    the sacrifice set up; or BUILD into CHARGE, once the count is complete;
    or CHARGE ends in a warp to a fresh system, back in NORMAL. *)
Inductive MasterStep (c m : Sim.T) : Prop :=
| master_idle :
    Master.state (Sim.master m) = Master.state (Sim.master c) ->
    Master.sacrificed (Sim.master m) = Master.sacrificed (Sim.master c) ->
    Master.toSacrifice (Sim.master m) = Master.toSacrifice (Sim.master c) ->
    Sim.probes m = Sim.probes c -> Sim.world m = Sim.world c ->
    Sim.systemIndex m = Sim.systemIndex c ->
    MasterStep c m
| master_rally :
    Master.state (Sim.master c) = NORMAL ->
    Master.state (Sim.master m) = RALLY ->
    Forall2 Enlisted (Sim.probes c) (Sim.probes m) ->
    Sim.world m = Sim.world c ->
    Sim.systemIndex m = Sim.systemIndex c ->
    MasterStep c m
| master_build :
    Master.state (Sim.master c) = RALLY ->
    Master.state (Sim.master m) = BUILD ->
    Master.toSacrifice (Sim.master m)
      = P5.floor (inject_Z (ai_count (Sim.probes c)) * 0.10) ->
    Master.sacrificed (Sim.master m) = 0%Z ->
    sacrificing_count (Sim.probes m) = Master.toSacrifice (Sim.master m) ->
    Forall2 Enlisted (Sim.probes c) (Sim.probes m) ->
    Sim.world m = Sim.world c ->
    Sim.systemIndex m = Sim.systemIndex c ->
    MasterStep c m
| master_charge :
    Master.state (Sim.master c) = BUILD ->
    Master.state (Sim.master m) = CHARGE ->
    (Master.toSacrifice (Sim.master c) <= Master.sacrificed (Sim.master c))%Z ->
    Master.sacrificed (Sim.master m) = Master.sacrificed (Sim.master c) ->
    Master.toSacrifice (Sim.master m) = Master.toSacrifice (Sim.master c) ->
    Sim.probes m = Sim.probes c -> Sim.world m = Sim.world c ->
    Sim.systemIndex m = Sim.systemIndex c ->
    MasterStep c m
| master_warp :
    Master.state (Sim.master c) = CHARGE ->
    Master.state (Sim.master m) = NORMAL ->
    Forall2 Aged (Sim.probes c) (Sim.probes m) ->
    World.systemRemainingTotal (Sim.world m)
      == sum_amt (World.resources (Sim.world m)) ->
    World.systemRemainingTotal (Sim.world m)
      = World.systemInitialTotal (Sim.world m) ->
    Sim.systemIndex m = (Sim.systemIndex c + 1)%Z ->
    MasterStep c m.

End Runs.

End SimSpec.

(** ** A fresh system *)

Module SpawnSpec.
Import Ranges.

(** A resource of the given kind as [spawnSystem] leaves it: active,
    inside the world, full, with an amount drawn from the range of its
    kind. *)
Definition Stocked (kind : Z) (r : Resource.T) : Prop :=
  Resource.kind r = kind /\ Resource.active r = true /\
  InWorld (Resource.x r) (Resource.y r) /\
  Resource.amt r = Resource.maxAmt r /\
  (if (kind =? 0)%Z
   then 18 <= Resource.amt r /\ Resource.amt r < 110
   else 140 <= Resource.amt r /\ Resource.amt r < 420).

(** What the warp does to a probe: it is moved to some place inside the
    world and loses target and waypoint, its replication cooldown is raised
    to 0.5 at least, and it keeps its id, its role, its cargo and its
    DNA. *)
Definition Warped (p p' : Probe.T) : Prop :=
  Probe.id p' = Probe.id p /\ Probe.isPlayer p' = Probe.isPlayer p /\
  Probe.resources p' = Probe.resources p /\ Probe.dna p' = Probe.dna p /\
  Probe.sacrificing p' = Probe.sacrificing p /\
  Probe.dead p' = Probe.dead p /\
  Probe.target p' = (-1)%Z /\ Probe.waypoint p' = None /\
  InWorld (Probe.x p') (Probe.y p') /\
  0.5 <= Probe.replCooldown p' /\
  Probe.replCooldown p <= Probe.replCooldown p'.

(** The total weight of a list of clusters. *)
Definition total_w (cs : list Cluster.T) : Q :=
  fold_right (fun c acc => Cluster.w c + acc) 0 cs.

End SpawnSpec.

(** ** Probes over several ticks, and frames *)

Module ProbeSpec.
Import Geometry.

(** The wrapped squared distance from a probe to a resource, as
    [radarPing] and [harvest] compute it. *)
Definition reach2 (p : Probe.T) (r : Resource.T) : Q :=
  let dx := wrapDeltaFast (Resource.x r - Probe.x p) WORLD_w in
  let dy := wrapDeltaFast (Resource.y r - Probe.y p) WORLD_h in
  dx * dx + dy * dy.

(** A resource that [radarPing] accepts for the probe: it holds more than
    the depletion threshold, and it is within radar range. *)
Definition in_radar (p : Probe.T) (r : Resource.T) : Prop :=
  0.001 < Resource.amt r /\ reach2 p r <= RADAR_RANGE2.

(** The state of the search of [radarPing] after the resources [seen]:
    nothing yet, and none of them is acceptable; or the index of an
    acceptable one among them, with its distance, which no acceptable one
    among them undercuts. *)
Definition Nearest (w : World.T) (p : Probe.T) (seen : list Z)
    (best : Z * option Q) : Prop :=
  match snd best with
  | None =>
      fst best = (-1)%Z /\
      forall j r, j ∈ seen -> at_ (World.resources w) j = Some r ->
        ~ in_radar p r
  | Some d =>
      (fst best ∈ seen /\
       exists r, at_ (World.resources w) (fst best) = Some r /\
         in_radar p r /\ d = reach2 p r) /\
      forall j r, j ∈ seen -> at_ (World.resources w) j = Some r ->
        in_radar p r -> d <= reach2 p r
  end.

(** The roles in the probe list, and the list with the player in front
    and autonomous probes behind. *)
Definition roles (ps : list Probe.T) : list bool := List.map Probe.isPlayer ps.

Definition OnePlayer (ps : list Probe.T) : Prop :=
  exists k : nat, roles ps = true :: replicate k false.

(** The ids in the probe list; they are in order when no two probes share
    an id and every id is below the counter [_probeId] from which the next
    autonomous probe takes its id, none of them negative. *)
Definition ids (ps : list Probe.T) : list Z := List.map Probe.id ps.

Definition IdsOK (s : Sim.T) : Prop :=
  NoDup (ids (Sim.probes s)) /\
  Forall (fun i => (0 <= i < Sim._probeId s)%Z) (ids (Sim.probes s)) /\
  (0 <= Sim._probeId s)%Z.


Section Runs.
Context `{MathLib}.


End Runs.
End ProbeSpec.

(** ** Concrete inputs *)

Module Fixtures.

(** A probe at rest at [(x, y)], with the DNA of the player. *)
Definition probe_at (id : Z) (isPlayer : bool) (x y : Q) : Probe.T :=
  Probe.mk id isPlayer x y 0 0 0 0 (DNA.mk 260 520 22) (-1) 1 1 0
    None false 0 false None.

(** Five probes around the waypoint [(100, 100)] of a world that wraps at
    24000: the distances are 5000, 200 (across the edge), 50, 5000, 0. *)
Definition five_probes : list Probe.T :=
  [ probe_at 0 true 100 5100;
    probe_at 1 false 23900 100;
    probe_at 2 false 150 100;
    probe_at 3 false 5100 100;
    probe_at 4 false 100 100 ].

Definition near_origin : Point.T := Point.mk 100 100.

(** A common resource of radius 10, not yet activated. *)
Definition resource_at (id : Z) (x y amt : Q) : Resource.T :=
  Resource.mk id 0 x y amt amt 10 false (-1) (-1) (-1) (-1).

(** The empty pool over the 35 x 35 grid of [initResGrid]. *)
Definition empty_world : World.T :=
  Pool.initResGrid (World.mk [] [] 0 0 [] None None 0 0).

(** Two resources of the same cell, created but not yet activated. *)
Definition two_idle : World.T :=
  World.set_resources
    [resource_at 0 100 100 50; resource_at 1 150 100 (4405 # 10000)]
    empty_world.

(** The same pool after [activateResource(0)] and [activateResource(1)]. *)
Definition two_active : World.T :=
  match Pool.activateResource 0 two_idle ≫= Pool.activateResource 1 with
  | Ret w => w
  | _ => two_idle
  end.

(** Coarse rational stand-ins for the mathematical library, all rounded
    down to thousandths: two Newton steps for the square root, the leading
    Taylor terms of the cosine and of the sine, and linear stand-ins for
    [atan2] and [pow]. *)
Definition round3 (q : Q) : Q := Qred (Qfloor (q * 1000) # 1000).

Definition coarse_sqrt (x : Q) : Q :=
  let x := round3 x in
  if Qle_bool x 0 then 0
  else
    let y := (x + 1) / 2 in
    let y := (y + x / y) / 2 in
    round3 ((y + x / y) / 2).

#[export] Instance coarse_math : MathLib := {|
  sqrt := coarse_sqrt;
  cos := fun x => round3 (1 - x * x / 2);
  sin := fun x => round3 x;
  atan2 := fun y x => round3 (y - x);
  pow := fun x y => round3 (1 + y * (x - 1));
  TWO_PI := 6.283
|}.

(** A random source whose uniform draws are all 1/2 and whose Gaussian
    draws are all 0. *)
Definition steady_rng : Rng :=
  {| uniform := fun _ => 1 # 2; gaussian := fun _ => 0 |}.

(** No key is held down. *)
Definition no_keys : Keys := fun _ => false.

(** The Master AI at rest. *)
Definition master_at (ph : Phase) : Master.T := Master.mk ph None 0 0 0 None.

(** A probe at [(x, y)] that carries [res] resources. *)
Definition probe_carrying (id : Z) (isPlayer : bool) (x y res : Q) : Probe.T :=
  Probe.set_resources res (probe_at id isPlayer x y).

(** The two-resource pool with its neighbour tables built, late in a
    system that began with 493 units: 50.4405 are left, all of them in the
    two resources. *)
Definition worn_world : World.T :=
  World.set_systemRemainingTotal (50 + (4405 # 10000))
    (World.set_systemInitialTotal 493 (Pool.buildNeighborLists two_active)).

(** The player next to an autonomous probe, over the worn pool; the player
    carries 100 resources, the other probe 130. *)
Definition two_probes (ph : Phase) : Sim.T :=
  Sim.mk [probe_carrying 0 true 100 100 100; probe_carrying 1 false 150 100 130]
         worn_world (master_at ph) 1 2 steady_rng.

(** The player and ten autonomous probes, gathered within 100 units of the
    waypoint of a rally. *)
Definition fleet : list Probe.T :=
  probe_at 0 true 100 100
  :: List.map (fun i => probe_at i false (100 + 10 * inject_Z i) 100)
       [1; 2; 3; 4; 5; 6; 7; 8; 9; 10]%Z.

Definition rallying : Sim.T :=
  Sim.mk fleet worn_world (Master.mk RALLY (Some near_origin) 0 0 0 None)
         1 11 steady_rng.

End Fixtures.
(** * Properties *)

(** ** Comparisons *)

Lemma Qleb_le a b : Qleb a b = true <-> a <= b.
Proof. apply Qle_bool_iff. Qed.

Lemma Qltb_lt a b : Qltb a b = true <-> a < b.
Proof.
  unfold Qltb. rewrite negb_true_iff. split.
  - intros H. destruct (Qlt_le_dec a b) as [|Hle]; [assumption|].
    apply Qle_bool_iff in Hle. congruence.
  - intros H. destruct (Qle_bool b a) eqn:E; [|reflexivity].
    apply Qle_bool_iff in E. lra.
Qed.

Lemma Qltb_ge a b : Qltb a b = false <-> b <= a.
Proof.
  unfold Qltb. rewrite negb_false_iff. apply Qle_bool_iff.
Qed.

Lemma Qleb_gt a b : Qleb a b = false <-> b < a.
Proof.
  rewrite <- Qltb_lt. unfold Qltb, Qleb.
  destruct (Qle_bool a b); simpl; split; congruence.
Qed.

Lemma Qgeb_ge a b : Qgeb a b = true <-> b <= a.
Proof. apply Qleb_le. Qed.

Lemma Qgeb_lt a b : Qgeb a b = false <-> a < b.
Proof. apply Qleb_gt. Qed.

Lemma Qgtb_gt a b : Qgtb a b = true <-> b < a.
Proof. apply Qltb_lt. Qed.

Lemma Qgtb_le a b : Qgtb a b = false <-> a <= b.
Proof. apply Qltb_ge. Qed.

(** Case analysis on every comparison of the goal, leaving the order facts
    in the context. *)
Ltac qcases :=
  repeat match goal with
  | |- context [Qltb ?a ?b] =>
      let E := fresh "E" in
      destruct (Qltb a b) eqn:E;
      [apply Qltb_lt in E | apply Qltb_ge in E]
  | |- context [Qgtb ?a ?b] =>
      let E := fresh "E" in
      destruct (Qgtb a b) eqn:E;
      [apply Qgtb_gt in E | apply Qgtb_le in E]
  | |- context [Qleb ?a ?b] =>
      let E := fresh "E" in
      destruct (Qleb a b) eqn:E;
      [apply Qleb_le in E | apply Qleb_gt in E]
  | |- context [Qgeb ?a ?b] =>
      let E := fresh "E" in
      destruct (Qgeb a b) eqn:E;
      [apply Qgeb_ge in E | apply Qgeb_lt in E]
  end.

(** ** Truncation and remainder *)

Lemma Qtrunc_nonneg q : 0 <= q -> inject_Z (Qtrunc q) <= q < inject_Z (Qtrunc q) + 1.
Proof.
  destruct q as [n d]. unfold Qtrunc, Qle, Qlt. simpl. intros Hn.
  assert (0 <= n)%Z as Hn' by lia.
  rewrite Z.quot_div_nonneg by lia.
  pose proof (Z.mul_div_le n (Z.pos d) ltac:(lia)).
  pose proof (Z.mul_succ_div_gt n (Z.pos d) ltac:(lia)).
  nia.
Qed.

Lemma Qtrunc_nonpos q : q <= 0 -> inject_Z (Qtrunc q) - 1 < q <= inject_Z (Qtrunc q).
Proof.
  destruct q as [n d]. unfold Qtrunc, Qle, Qlt. simpl. intros Hn.
  assert (n <= 0)%Z as Hn' by lia.
  replace n with (- (- n))%Z by lia.
  rewrite Z.quot_opp_l by lia.
  rewrite Z.quot_div_nonneg by lia.
  pose proof (Z.mul_div_le (- n) (Z.pos d) ltac:(lia)).
  pose proof (Z.mul_succ_div_gt (- n) (Z.pos d) ltac:(lia)).
  nia.
Qed.

(** The remainder keeps the sign of the dividend and is smaller than the
    divisor in absolute value. *)
Lemma js_rem_nonneg v s : 0 < s -> 0 <= v -> 0 <= js_rem v s < s.
Proof.
  intros Hs Hv. unfold js_rem.
  assert (0 <= v / s) as Hq.
  { apply Qle_shift_div_l; lra. }
  pose proof (Qtrunc_nonneg _ Hq) as [H1 H2].
  assert (v == (v / s) * s) as Hvs by (field; lra).
  set (t := inject_Z (Qtrunc (v / s))) in *.
  set (q := v / s) in *.
  split.
  - assert (s * t <= s * q) by (apply Qmult_le_l; assumption). lra.
  - assert (s * q < s * (t + 1)) by (apply Qmult_lt_l; assumption). lra.
Qed.

Lemma js_rem_nonpos v s : 0 < s -> v <= 0 -> - s < js_rem v s <= 0.
Proof.
  intros Hs Hv. unfold js_rem.
  assert (v / s <= 0) as Hq.
  { apply Qle_shift_div_r; lra. }
  pose proof (Qtrunc_nonpos _ Hq) as [H1 H2].
  assert (v == (v / s) * s) as Hvs by (field; lra).
  set (t := inject_Z (Qtrunc (v / s))) in *.
  set (q := v / s) in *.
  split.
  - assert (s * (t - 1) < s * q) by (apply Qmult_lt_l; assumption). lra.
  - assert (s * q <= s * t) by (apply Qmult_le_l; assumption). lra.
Qed.

(** ** Toroidal geometry *)

Module GeometryFacts.
Import Geometry.

(** A value already inside [[0, size)] is returned as it is. *)
Lemma wrap01Fast_id v size : 0 <= v -> v < size -> wrap01Fast v size = v.
Proof.
  intros H0 Hs. unfold wrap01Fast.
  assert (Qltb v 0 = false) as -> by (apply Qltb_ge; assumption).
  assert (Qgeb v size = false) as -> by (apply Qgeb_lt; assumption).
  simpl.
  assert (Qltb v 0 = false) as -> by (apply Qltb_ge; assumption).
  assert (Qgeb v size = false) as -> by (apply Qgeb_lt; assumption).
  reflexivity.
Qed.

Lemma wrap01Fast_range v size : 0 < size -> 0 <= wrap01Fast v size < size.
Proof.
  intros Hs. unfold wrap01Fast.
  set (v1 := if Qltb v 0 then v + size else if Qgeb v size then v - size else v).
  destruct (Qltb v1 0) eqn:E1; simpl.
  - apply Qltb_lt in E1.
    pose proof (js_rem_nonpos v1 size Hs ltac:(lra)) as [Ha Hb].
    qcases; lra.
  - apply Qltb_ge in E1.
    destruct (Qgeb v1 size) eqn:E2.
    + pose proof (js_rem_nonneg v1 size Hs E1) as [Ha Hb].
      qcases; lra.
    + apply Qgeb_lt in E2. lra.
Qed.

(** C7: wrapping is idempotent and always lands in [[0, s)], also through
    the modulo fallback taken for out-of-range magnitudes. *)
Theorem wrap01Fast_idempotent_in_range (v s : Q) :
  0 < s ->
  wrap01Fast (wrap01Fast v s) s = wrap01Fast v s /\
  0 <= wrap01Fast v s /\ wrap01Fast v s < s.
Proof.
  intros Hs. pose proof (wrap01Fast_range v s Hs) as [H0 H1].
  split; [|split; assumption].
  apply wrap01Fast_id; assumption.
Qed.

Lemma wrap01Fast_idempotent_in_range_witness :
  wrap01Fast (wrap01Fast (-(61000 # 1)) WORLD_w) WORLD_w
    = wrap01Fast (-(61000 # 1)) WORLD_w /\
  0 <= wrap01Fast (-(61000 # 1)) WORLD_w /\
  wrap01Fast (-(61000 # 1)) WORLD_w < WORLD_w.
Proof.
  apply (wrap01Fast_idempotent_in_range (-(61000 # 1)) WORLD_w).
  reflexivity.
Defined.

End GeometryFacts.

(** ** Shortest signed difference *)

Module DeltaFacts.
Import Geometry.

(** The wrapped difference is the raw one shifted by at most one world
    size. *)
Lemma wrapDeltaFast_shift d size :
  wrapDeltaFast d size = d - size \/
  wrapDeltaFast d size = d + size \/
  wrapDeltaFast d size = d.
Proof.
  unfold wrapDeltaFast. cbv zeta.
  destruct (Qgtb d (size * (1 # 2))); [now left|].
  destruct (Qltb d (- (size * (1 # 2)))); [right; now left|right; now right].
Qed.

Lemma wrapDeltaFast_congruent d size : congruent (wrapDeltaFast d size) d size.
Proof.
  unfold congruent.
  destruct (wrapDeltaFast_shift d size) as [-> | [-> | ->]].
  - exists (-1)%Z. simpl. ring.
  - exists 1%Z. simpl. ring.
  - exists 0%Z. simpl. ring.
Qed.

(** C6, as the code has it: for a raw difference in [[-size, size]] the
    result is congruent to it modulo [size] and lies in the closed interval
    [[-size/2, size/2]]; the lower end is reached only by [d = -size/2],
    which is returned as it is. *)
Theorem wrapDeltaFast_closed_interval (d size : Q) :
  - size <= d <= size ->
  congruent (wrapDeltaFast d size) d size /\
  - (size / 2) <= wrapDeltaFast d size <= size / 2 /\
  (wrapDeltaFast d size == - (size / 2) -> d == - (size / 2)).
Proof.
  intros [Hlo Hhi]. split; [apply wrapDeltaFast_congruent|].
  assert (size / 2 == size * (1 # 2)) as Hhalf by (field).
  unfold wrapDeltaFast. cbv zeta. qcases; lra.
Qed.

Lemma wrapDeltaFast_closed_interval_witness :
  congruent (wrapDeltaFast 23000 WORLD_w) 23000 WORLD_w /\
  - (WORLD_w / 2) <= wrapDeltaFast 23000 WORLD_w <= WORLD_w / 2 /\
  (wrapDeltaFast 23000 WORLD_w == - (WORLD_w / 2) -> 23000 == - (WORLD_w / 2)).
Proof.
  apply (wrapDeltaFast_closed_interval 23000 WORLD_w).
  split; vm_compute; discriminate.
Defined.

(** C6 as stated fails at the lower end: the difference [-12000] of two
    coordinates of the 24000-wide world is inside [[-size, size]] and is
    returned unchanged, which is not inside [(-size/2, size/2]]. *)
Lemma wrapDeltaFast_half_open_fails :
  - WORLD_w <= - (12000) <= WORLD_w /\
  wrapDeltaFast (- (12000)) WORLD_w == - (12000) /\
  ~ (- (WORLD_w / 2) < wrapDeltaFast (- (12000)) WORLD_w
     /\ wrapDeltaFast (- (12000)) WORLD_w <= WORLD_w / 2).
Proof.
  split; [split; vm_compute; discriminate|].
  split; [reflexivity|].
  intros [Hlt _]. vm_compute in Hlt. discriminate.
Qed.

End DeltaFacts.

(** ** Arrays *)

Section ArrayFacts.
Context {A : Type}.
Implicit Types (l : list A) (i j : Z) (a : A).

Lemma at_Some l i a :
  at_ l i = Some a <-> (0 <= i)%Z /\ l !! Z.to_nat i = Some a.
Proof.
  unfold at_. destruct (Z.ltb_spec i 0); split.
  - discriminate.
  - intros [? _]. lia.
  - intros ?. split; [lia|assumption].
  - intros [_ ?]. assumption.
Qed.

Lemma at_in_range l i a : at_ l i = Some a -> (0 <= i < len l)%Z.
Proof.
  intros [H0 Hl]%at_Some. apply lookup_lt_Some in Hl. unfold len. lia.
Qed.

Lemma at_is_Some l i : (0 <= i < len l)%Z -> exists a, at_ l i = Some a.
Proof.
  intros [H0 H1]. unfold len in H1.
  destruct (lookup_lt_is_Some_2 l (Z.to_nat i)) as [a Ha]; [lia|].
  exists a. apply at_Some. auto.
Qed.

Lemma at_None l i : (i < 0 \/ len l <= i)%Z -> at_ l i = None.
Proof.
  intros Hr. destruct (at_ l i) eqn:E; [|reflexivity].
  apply at_in_range in E. lia.
Qed.

Lemma at_of_nat l (n : nat) : at_ l (Z.of_nat n) = l !! n.
Proof.
  unfold at_. destruct (Z.ltb_spec (Z.of_nat n) 0); [lia|].
  now rewrite Nat2Z.id.
Qed.

Lemma get_Ret l i a : get l i = Ret a <-> at_ l i = Some a.
Proof.
  unfold get. destruct (at_ l i); split; congruence.
Qed.

Lemma get_at l i a : at_ l i = Some a -> get l i = Ret a.
Proof. apply get_Ret. Qed.

Lemma put_Ret l i a :
  (0 <= i < len l)%Z -> put l i a = Ret (<[Z.to_nat i := a]> l).
Proof.
  intros [H0 H1]. unfold put, len in *.
  destruct (Z.leb_spec 0 i); [|lia].
  destruct (Z.ltb_spec i (Z.of_nat (length l))); [|lia].
  reflexivity.
Qed.

Lemma put_inv l i a l' :
  put l i a = Ret l' -> (0 <= i < len l)%Z /\ l' = <[Z.to_nat i := a]> l.
Proof.
  unfold put, len.
  destruct (Z.leb_spec 0 i); destruct (Z.ltb_spec i (Z.of_nat (length l)));
    simpl; intros Heq; inversion Heq; subst; split; auto; lia.
Qed.

Lemma len_insert l (n : nat) a : len (<[n := a]> l) = len l.
Proof. unfold len. now rewrite length_insert. Qed.

Lemma len_app l l' : len (l ++ l') = (len l + len l')%Z.
Proof. unfold len. rewrite length_app. lia. Qed.

Lemma at_insert l i j a :
  (0 <= i < len l)%Z ->
  at_ (<[Z.to_nat i := a]> l) j = if (j =? i)%Z then Some a else at_ l j.
Proof.
  intros [H0 H1]. unfold at_, len in *.
  destruct (Z.eqb_spec j i) as [->|Hne].
  - destruct (Z.ltb_spec i 0); [lia|].
    apply list_lookup_insert_eq. lia.
  - destruct (Z.ltb_spec j 0); [reflexivity|].
    apply list_lookup_insert_ne. lia.
Qed.

Lemma at_app_l l l' i : (i < len l)%Z -> at_ (l ++ l') i = at_ l i.
Proof.
  intros Hi. unfold at_, len in *. destruct (Z.ltb_spec i 0); [reflexivity|].
  apply lookup_app_l. lia.
Qed.

Lemma at_app_last l a : at_ (l ++ [a]) (len l) = Some a.
Proof.
  unfold len. rewrite at_of_nat. rewrite lookup_app_r by lia.
  now rewrite Nat.sub_diag.
Qed.

Lemma len_pop l : l <> [] -> len (pop l) = (len l - 1)%Z.
Proof.
  intros Hne. unfold pop, len. rewrite length_take_le.
  2:{ lia. }
  destruct l; [congruence|]. cbn [length]. lia.
Qed.

Lemma at_pop l i : (i < len l - 1)%Z -> at_ (pop l) i = at_ l i.
Proof.
  intros Hi. unfold at_, pop, len in *.
  destruct (Z.ltb_spec i 0); [reflexivity|].
  apply lookup_take_lt. lia.
Qed.

Lemma at_pop_ge l i : (len l - 1 <= i)%Z -> at_ (pop l) i = None.
Proof.
  intros Hi. apply at_None.
  destruct (Z.ltb_spec i 0); [now left|right].
  unfold pop, len in *. rewrite length_take_le by lia. lia.
Qed.

End ArrayFacts.

(** Inversion of a monadic bind that returned. *)
Lemma bind_Ret {A B} (m : outcome A) (f : A -> outcome B) b :
  m ≫= f = Ret b -> exists a, m = Ret a /\ f a = Ret b.
Proof.
  destruct m; simpl; intros Hb; try discriminate. eauto.
Qed.
(** ** Positions and random draws *)

Module RangeFacts.
Import Geometry Ranges GeometryFacts.

Lemma InWorld_wrap x y : InWorld (wrap01Fast x WORLD_w) (wrap01Fast y WORLD_h).
Proof.
  split; apply wrap01Fast_range; reflexivity.
Qed.

Lemma Math_random_ok g u g' :
  Math_random g = (u, g') -> RngOK g -> (0 <= u /\ u < 1) /\ RngOK g'.
Proof.
  unfold Math_random. intros Heq Hg. inversion Heq; subst. split; [apply Hg|].
  intros n. apply Hg.
Qed.

Lemma randomGaussian_ok g v g' :
  randomGaussian g = (v, g') -> RngOK g -> RngOK g'.
Proof.
  unfold randomGaussian. intros Heq Hg. inversion Heq; subst.
  intros n. apply Hg.
Qed.

(** [rand(a, b)] draws from [[a, b)]. *)
Lemma rand_ok a b g v g' :
  rand a b g = (v, g') -> RngOK g -> a <= b ->
  (a <= v /\ v <= b) /\ (a < b -> v < b) /\ RngOK g'.
Proof.
  unfold rand. destruct (Math_random g) as [u g1] eqn:Hu. intros Heq Hg Hab.
  inversion Heq; subst.
  destruct (Math_random_ok _ _ _ Hu Hg) as [[H0 H1] Hg'].
  split; [split; nra|]. split; [intros; nra|assumption].
Qed.

Lemma rand_RngOK a b g : RngOK g -> RngOK (snd (rand a b g)).
Proof.
  intros Hg n. unfold rand, Math_random. cbn. apply Hg.
Qed.

End RangeFacts.

(** ** Quickselect *)

Module SelectFacts.
Import Select SelectSpec.
Section Facts.
Context {A : Type} (d2tmp : A -> option Q).
Implicit Types (arr : list A) (i j k left right : Z).
Local Abbreviation Split := (SelectSpec.Split d2tmp).
Local Abbreviation Keyed := (SelectSpec.Keyed d2tmp).


Lemma swap_spec arr i j :
  (0 <= i < len arr)%Z -> (0 <= j < len arr)%Z ->
  exists arr', swap arr i j = Ret arr' /\
    len arr' = len arr /\
    arr' ≡ₚ arr /\
    forall x, at_ arr' x = at_ arr (transp i j x).
Proof.
  intros Hi Hj.
  destruct (at_is_Some arr i Hi) as [a Ha].
  destruct (at_is_Some arr j Hj) as [b Hb].
  unfold swap. rewrite Ha, Hb. rewrite put_Ret by assumption. simpl.
  rewrite put_Ret by (rewrite len_insert; assumption).
  eexists. split; [reflexivity|].
  split; [now rewrite !len_insert|].
  split.
  - apply at_Some in Ha as [_ Ha]. apply at_Some in Hb as [_ Hb].
    now apply Permutation_insert_swap.
  - intros x. rewrite at_insert by (rewrite len_insert; assumption).
    rewrite at_insert by assumption. unfold transp.
    destruct (Z.eqb_spec x j) as [->|Hxj].
    + destruct (Z.eqb_spec j i) as [Hji|]; congruence.
    + destruct (Z.eqb_spec x i) as [->|]; [congruence|reflexivity].
Qed.


Lemma Shuffle_len lo hi arr arr' : Shuffle lo hi arr arr' -> len arr' = len arr.
Proof.
  induction 1 as [|arr1 arr2 i j _ IH Hi Hj Hir Hjr Hsw]; [reflexivity|].
  destruct (swap_spec arr1 i j Hir Hjr) as (arr3 & Heq & Hlen & _).
  congruence.
Qed.

Lemma Shuffle_perm lo hi arr arr' : Shuffle lo hi arr arr' -> arr' ≡ₚ arr.
Proof.
  induction 1 as [|arr1 arr2 i j _ IH Hi Hj Hir Hjr Hsw]; [reflexivity|].
  destruct (swap_spec arr1 i j Hir Hjr) as (arr3 & Heq & _ & Hp & _).
  rewrite Hsw in Heq. inversion Heq; subst. now rewrite Hp.
Qed.

Lemma Shuffle_trans lo hi arr1 arr2 arr3 :
  Shuffle lo hi arr1 arr2 -> Shuffle lo hi arr2 arr3 -> Shuffle lo hi arr1 arr3.
Proof.
  intros H12 H23.
  induction H23 as [|arrA arrB i j _ IH Hi Hj Hir Hjr Hsw]; [assumption|].
  exact (Shuffle_swap lo hi arr1 arrA arrB i j IH Hi Hj Hir Hjr Hsw).
Qed.

Lemma Shuffle_mono lo hi lo' hi' arr arr' :
  (lo' <= lo)%Z -> (hi <= hi')%Z ->
  Shuffle lo hi arr arr' -> Shuffle lo' hi' arr arr'.
Proof.
  intros Hlo Hhi.
  induction 1 as [|arrA arrB i j _ IH Hi Hj Hir Hjr Hsw]; [constructor|].
  apply (Shuffle_swap lo' hi' arr arrA arrB i j IH); auto; lia.
Qed.

Lemma Shuffle_one lo hi arr arr' i j :
  (lo <= i <= hi)%Z -> (lo <= j <= hi)%Z ->
  (0 <= i < len arr)%Z -> (0 <= j < len arr)%Z ->
  swap arr i j = Ret arr' -> Shuffle lo hi arr arr'.
Proof.
  intros Hi Hj Hir Hjr Hsw.
  exact (Shuffle_swap lo hi arr arr arr' i j (Shuffle_refl _ _ _) Hi Hj Hir Hjr Hsw).
Qed.

(** Slots outside the range keep their element. *)
Lemma Shuffle_outside lo hi arr arr' x :
  Shuffle lo hi arr arr' -> (x < lo \/ hi < x)%Z -> at_ arr' x = at_ arr x.
Proof.
  intros Hs Hx. induction Hs as [|arr1 arr2 i j _ IH Hi Hj Hir Hjr Hsw];
    [reflexivity|].
  destruct (swap_spec arr1 i j Hir Hjr) as (arr3 & Heq & _ & _ & Hat).
  rewrite Hsw in Heq. inversion Heq; subst. rewrite Hat, <- IH.
  unfold transp.
  destruct (Z.eqb_spec x i); [lia|]. destruct (Z.eqb_spec x j); [lia|].
  reflexivity.
Qed.

(** An element found inside the range after the shuffle was inside the
    range before. *)
Lemma Shuffle_inside lo hi arr arr' x a :
  Shuffle lo hi arr arr' -> (lo <= x <= hi)%Z -> at_ arr' x = Some a ->
  exists y, (lo <= y <= hi)%Z /\ at_ arr y = Some a.
Proof.
  intros Hs. revert x.
  induction Hs as [|arr1 arr2 i j _ IH Hi Hj Hir Hjr Hsw]; intros x Hx Ha.
  - eauto.
  - destruct (swap_spec arr1 i j Hir Hjr) as (arr3 & Heq & _ & _ & Hat).
    rewrite Hsw in Heq. inversion Heq; subst. rewrite Hat in Ha.
    apply (IH (transp i j x)); [|assumption].
    unfold transp.
    destruct (Z.eqb_spec x i); [lia|]. destruct (Z.eqb_spec x j); lia.
Qed.

(** ** The partition *)

Section Partition.
Variable pv : option Q.


Lemma partition_loop_spec n : forall arr lo hi i store,
  (0 <= lo <= store)%Z -> (store <= i)%Z ->
  (i + Z.of_nat n = hi)%Z -> (hi < len arr)%Z ->
  Split pv lo store i arr ->
  exists arr' store',
    partition_loop d2tmp n pv i store arr = Ret (arr', store') /\
    (store <= store' <= hi)%Z /\
    Shuffle lo (hi - 1) arr arr' /\
    Split pv lo store' hi arr'.
Proof.
  induction n as [|n IH]; intros arr lo hi i store Hlo Hsi Hn Hhi [Hlt Hge].
  - simpl. exists arr, store. split; [reflexivity|].
    split; [lia|]. split; [constructor|].
    replace hi with i by lia. split; assumption.
  - cbn [partition_loop].
    destruct (at_is_Some arr i ltac:(lia)) as [a Ha].
    rewrite (get_at _ _ _ Ha). simpl.
    destruct (js_lt (d2tmp a) pv) eqn:Hcmp.
    + destruct (swap_spec arr store i ltac:(lia) ltac:(lia))
        as (arr1 & Hsw & Hlen1 & _ & Hat1).
      rewrite Hsw. simpl.
      destruct (IH arr1 lo hi (i + 1)%Z (store + 1)%Z)
        as (arr' & store' & Hrun & Hst & Hsh & Hsplit);
        try lia.
      { split; intros x b Hx Hb; rewrite Hat1 in Hb; unfold transp in Hb.
        - destruct (Z.eqb_spec x store) as [->|Hne].
          + rewrite Ha in Hb. inversion Hb; subst. assumption.
          + destruct (Z.eqb_spec x i); [lia|]. apply (Hlt x); [lia|assumption].
        - destruct (Z.eqb_spec x store) as [->|Hne]; [lia|].
          destruct (Z.eqb_spec x i) as [->|Hni].
          + apply (Hge store); [lia|assumption].
          + apply (Hge x); [lia|assumption]. }
      exists arr', store'. split; [assumption|]. split; [lia|].
      split; [|assumption].
      eapply Shuffle_trans; [|eassumption].
      apply (Shuffle_one lo (hi - 1) arr arr1 store i); try lia; assumption.
    + destruct (IH arr lo hi (i + 1)%Z store)
        as (arr' & store' & Hrun & Hst & Hsh & Hsplit);
        try lia.
      { split; [assumption|]. intros x b Hx Hb.
        destruct (Z.eq_dec x i) as [->|Hne].
        - rewrite Ha in Hb. inversion Hb; subst. assumption.
        - apply (Hge x); [lia|assumption]. }
      exists arr', store'. repeat split; try assumption; try lia.
      all: apply Hsplit.
Qed.

End Partition.

(** [partitionByD2] returns an index inside [[left, right]], having only
    permuted that range; to the left of the index the keys are smaller than
    the pivot's, from the index on they are not, and the pivot sits at the
    index. *)
Lemma partitionByD2_spec arr left right pivotIndex :
  (0 <= left)%Z -> (left < right)%Z -> (right < len arr)%Z ->
  (left <= pivotIndex <= right)%Z ->
  exists arr' p pivot,
    partitionByD2 d2tmp arr left right pivotIndex = Ret (arr', p) /\
    (left <= p <= right)%Z /\
    Shuffle left right arr arr' /\
    at_ arr pivotIndex = Some pivot /\
    at_ arr' p = Some pivot /\
    Split (d2tmp pivot) left p (right + 1) arr'.
Proof.
  intros Hl Hlr Hr Hp. unfold partitionByD2.
  destruct (at_is_Some arr pivotIndex ltac:(lia)) as [pivot Hpiv].
  rewrite (get_at _ _ _ Hpiv). simpl.
  destruct (swap_spec arr pivotIndex right ltac:(lia) ltac:(lia))
    as (arr1 & Hsw1 & Hlen1 & _ & Hat1).
  rewrite Hsw1. simpl.
  destruct (partition_loop_spec (d2tmp pivot) (Z.to_nat (right - left))
              arr1 left right left left)
    as (arr2 & store & Hrun & Hst & Hsh2 & Hlt & Hge); try lia.
  { split; intros; lia. }
  rewrite Hrun. simpl.
  pose proof (Shuffle_len _ _ _ _ Hsh2) as Hlen2.
  destruct (swap_spec arr2 right store ltac:(lia) ltac:(lia))
    as (arr3 & Hsw3 & Hlen3 & _ & Hat3).
  rewrite Hsw3. simpl.
  assert (at_ arr2 right = Some pivot) as Hpr.
  { rewrite (Shuffle_outside _ _ _ _ right Hsh2) by lia.
    rewrite Hat1. unfold transp.
    destruct (Z.eqb_spec right pivotIndex) as [->|]; [assumption|].
    rewrite Z.eqb_refl. assumption. }
  exists arr3, store, pivot. split; [reflexivity|]. split; [lia|].
  split.
  { apply (Shuffle_trans _ _ _ arr1);
      [apply (Shuffle_one _ _ _ _ pivotIndex right); try lia; assumption|].
    apply (Shuffle_trans _ _ _ arr2);
      [apply (Shuffle_mono left (right - 1)); try lia; assumption|].
    apply (Shuffle_one _ _ _ _ right store); try lia; assumption. }
  split; [assumption|].
  split.
  { rewrite Hat3. unfold transp.
    destruct (Z.eqb_spec store right) as [->|]; [assumption|].
    now rewrite Z.eqb_refl. }
  split; intros x b Hx Hb; rewrite Hat3 in Hb; unfold transp in Hb.
  - destruct (Z.eqb_spec x right); [lia|].
    destruct (Z.eqb_spec x store); [lia|].
    apply (Hlt x); [lia|assumption].
  - destruct (Z.eqb_spec x right) as [->|Hxr].
    + destruct (Z.eq_dec store right) as [->|Hsr].
      * rewrite Hpr in Hb. inversion Hb; subst.
        unfold js_lt. destruct (d2tmp b); [|reflexivity].
        apply Qltb_ge. lra.
      * apply (Hge store); [lia|assumption].
    + destruct (Z.eqb_spec x store) as [->|Hxs].
      * rewrite Hpr in Hb. inversion Hb; subst.
        unfold js_lt. destruct (d2tmp b); [|reflexivity].
        apply Qltb_ge. lra.
      * apply (Hge x); [lia|assumption].
Qed.

(** ** The selection loop *)

Lemma toInt32_small z : (- 2 ^ 31 <= z < 2 ^ 31)%Z -> toInt32 z = z.
Proof.
  intros Hz. unfold toInt32. rewrite Z.mod_small; lia.
Qed.

(** The pivot position [(left + right) >> 1] lies inside the range, as long
    as the sum fits the 32-bit integers of [>>]. *)
Lemma pivot_in_range left right :
  (0 <= left)%Z -> (left < right)%Z -> (right < 2 ^ 30)%Z ->
  (left <= Z.shiftr (toInt32 (left + right)) 1 <= right)%Z.
Proof.
  intros H0 Hlr Hr. rewrite toInt32_small by lia.
  rewrite Z.shiftr_div_pow2 by lia. change (2 ^ 1)%Z with 2%Z.
  split.
  - apply Z.div_le_lower_bound; lia.
  - apply Z.div_le_upper_bound; lia.
Qed.

(** One turn of the loop: it returns, or it goes on with a strictly smaller
    range inside the old one. *)
Lemma select_step_spec arr k left right :
  (0 <= left)%Z -> (right < len arr)%Z -> (len arr <= 2 ^ 30)%Z ->
  (exists arr', select_step d2tmp arr k left right = Ret (inl arr') /\
     Shuffle left right arr arr' /\
     ((right <= left)%Z /\ arr' = arr \/
      exists pivot, (left <= k - 1 <= right)%Z /\
        at_ arr' (k - 1) = Some pivot /\
        Split (d2tmp pivot) left (k - 1) (right + 1) arr')) \/
  (exists arr' l' r' p pivot,
     select_step d2tmp arr k left right = Ret (inr (arr', l', r')) /\
     (left < right)%Z /\
     Shuffle left right arr arr' /\
     (left <= p <= right)%Z /\
     at_ arr' p = Some pivot /\
     Split (d2tmp pivot) left p (right + 1) arr' /\
     ((k - 1 < p)%Z /\ l' = left /\ r' = (p - 1)%Z \/
      (p < k - 1)%Z /\ l' = (p + 1)%Z /\ r' = right)).
Proof.
  intros Hl Hr Hcap. unfold select_step.
  destruct (Z.geb_spec left right) as [Hge|Hlt].
  { left. exists arr. split; [reflexivity|]. split; [constructor|].
    left. split; [lia|reflexivity]. }
  destruct (partitionByD2_spec arr left right
              (Z.shiftr (toInt32 (left + right)) 1))
    as (arr' & p & pivot & Hrun & Hp & Hsh & _ & Hat & Hsplit);
    try lia.
  { apply pivot_in_range; lia. }
  rewrite Hrun. simpl.
  destruct (Z.eqb_spec (k - 1) p) as [Hkp|Hkp].
  { left. exists arr'. split; [reflexivity|]. split; [assumption|].
    right. exists pivot. rewrite Hkp.
    split; [lia|]. split; assumption. }
  right. destruct (Z.ltb_spec (k - 1) p) as [Hlt'|Hge'].
  - exists arr', left, (p - 1)%Z, p, pivot.
    split; [reflexivity|]. split; [lia|]. split; [assumption|].
    split; [lia|]. split; [assumption|]. split; [assumption|].
    left. repeat split; lia.
  - exists arr', (p + 1)%Z, right, p, pivot.
    split; [reflexivity|]. split; [lia|]. split; [assumption|].
    split; [lia|]. split; [assumption|]. split; [assumption|].
    right. repeat split; lia.
Qed.

(** *** Order facts, for keys that are all defined *)

Section Ordered.
Variable key : A -> Q.


Lemma Keyed_at arr x a : Keyed key arr -> at_ arr x = Some a -> d2tmp a = Some (key a).
Proof.
  intros Hk [_ Ha]%at_Some. unfold SelectSpec.Keyed in Hk. rewrite Forall_forall in Hk.
  apply Hk. eapply list_elem_of_lookup_2. eassumption.
Qed.

Lemma Keyed_Shuffle lo hi arr arr' : Shuffle lo hi arr arr' -> Keyed key arr -> Keyed key arr'.
Proof.
  intros Hs Hk. unfold SelectSpec.Keyed. now rewrite (Shuffle_perm _ _ _ _ Hs).
Qed.

Lemma Cut_Shuffle lo hi c arr arr' :
  Shuffle lo hi arr arr' -> (c <= lo \/ hi < c)%Z -> Cut key c arr -> Cut key c arr'.
Proof.
  intros Hs Hc Hcut i j a b Ha Hb Hij.
  assert (exists i', (i' < c)%Z /\ at_ arr i' = Some a) as (i' & Hi' & Ha').
  { destruct (Z.ltb_spec i lo); [|destruct (Z.ltb_spec hi i)].
    - exists i. split; [lia|]. now rewrite <- (Shuffle_outside _ _ _ _ i Hs) by lia.
    - exists i. split; [lia|]. now rewrite <- (Shuffle_outside _ _ _ _ i Hs) by lia.
    - destruct (Shuffle_inside _ _ _ _ i a Hs ltac:(lia) Ha) as (y & Hy & Hay).
      exists y. split; [lia|assumption]. }
  assert (exists j', (c <= j')%Z /\ at_ arr j' = Some b) as (j' & Hj' & Hb').
  { destruct (Z.ltb_spec j lo); [|destruct (Z.ltb_spec hi j)].
    - exists j. split; [lia|]. now rewrite <- (Shuffle_outside _ _ _ _ j Hs) by lia.
    - exists j. split; [lia|]. now rewrite <- (Shuffle_outside _ _ _ _ j Hs) by lia.
    - destruct (Shuffle_inside _ _ _ _ j b Hs ltac:(lia) Hb) as (y & Hy & Hby).
      exists y. split; [lia|assumption]. }
  apply (Hcut i' j'); auto; lia.
Qed.

(** What [Split] says for defined keys. *)
Lemma Split_keys arr pivot lo p hi :
  Keyed key arr -> d2tmp pivot = Some (key pivot) ->
  Split (d2tmp pivot) lo p hi arr ->
  (forall x a, (lo <= x < p)%Z -> at_ arr x = Some a -> key a < key pivot) /\
  (forall x a, (p <= x < hi)%Z -> at_ arr x = Some a -> key pivot <= key a).
Proof.
  intros Hk Hpk [Hlt Hge]. split; intros x a Hx Ha.
  - specialize (Hlt x a Hx Ha). rewrite (Keyed_at _ _ _ Hk Ha), Hpk in Hlt.
    simpl in Hlt. now apply Qltb_lt.
  - specialize (Hge x a Hx Ha). rewrite (Keyed_at _ _ _ Hk Ha), Hpk in Hge.
    simpl in Hge. now apply Qltb_ge.
Qed.

(** After a partition at [p] the array is cut both at [p] and after it. *)
Lemma Cut_partition arr pivot left p right :
  Keyed key arr -> (left <= p <= right)%Z ->
  at_ arr p = Some pivot ->
  Split (d2tmp pivot) left p (right + 1) arr ->
  Cut key left arr -> Cut key (right + 1) arr ->
  Cut key p arr /\ Cut key (p + 1) arr.
Proof.
  intros Hk Hp Hat Hsplit Hcl Hcr.
  pose proof (Keyed_at _ _ _ Hk Hat) as Hpk.
  destruct (Split_keys _ _ _ _ _ Hk Hpk Hsplit) as [Hlt Hge].
  split; intros i j a b Ha Hb Hij.
  - destruct (Z.ltb_spec i left); [apply (Hcl i j); auto; lia|].
    destruct (Z.ltb_spec right j); [apply (Hcr i j); auto; lia|].
    pose proof (Hlt i a ltac:(lia) Ha). pose proof (Hge j b ltac:(lia) Hb).
    lra.
  - destruct (Z.ltb_spec i left); [apply (Hcl i j); auto; lia|].
    destruct (Z.ltb_spec right j); [apply (Hcr i j); auto; lia|].
    pose proof (Hge j b ltac:(lia) Hb).
    destruct (Z.eq_dec i p) as [->|Hne].
    + rewrite Hat in Ha. inversion Ha; subst. assumption.
    + pose proof (Hlt i a ltac:(lia) Ha). lra.
Qed.

End Ordered.

(** The loop returns within [right - left + 1] turns, for every [k]; when
    the keys are defined and [left <= k <= right + 1] holds with the array
    cut at both ends of the range, the returned array is cut at [k]. *)
Lemma select_loop_spec key fuel : forall arr k left right,
  (0 <= left)%Z -> (right < len arr)%Z -> (len arr <= 2 ^ 30)%Z ->
  (0 < fuel)%nat -> (right - left < Z.of_nat fuel)%Z ->
  exists arr', select_loop d2tmp fuel arr k left right = Ret arr' /\
    Shuffle left right arr arr' /\
    (Keyed key arr -> (left <= k <= right + 1)%Z ->
     Cut key left arr -> Cut key (right + 1) arr -> Cut key k arr').
Proof.
  induction fuel as [|fuel IH];
    intros arr k left right Hl Hr Hcap Hpos Hfuel; [lia|].
  cbn [select_loop].
  destruct (select_step_spec arr k left right Hl Hr Hcap)
    as [(arr' & Hrun & Hsh & Hdone)
       |(arr' & l' & r' & p & pivot & Hrun & Hlr & Hsh & Hp & Hat & Hsplit
           & Hnext)].
  - rewrite Hrun. simpl. exists arr'. split; [reflexivity|].
    split; [assumption|]. intros Hk Hkr Hcl Hcr.
    destruct Hdone as [[Hle ->]|(pivot & Hkp & Hat & Hsplit)].
    + destruct (Z.eq_dec k left) as [->|]; [assumption|].
      replace k with (right + 1)%Z by lia. assumption.
    + pose proof (Keyed_Shuffle key _ _ _ _ Hsh Hk) as Hk'.
      pose proof (Cut_Shuffle key _ _ left _ _ Hsh ltac:(lia) Hcl) as Hcl'.
      pose proof (Cut_Shuffle key _ _ (right + 1) _ _ Hsh ltac:(lia) Hcr) as Hcr'.
      destruct (Cut_partition key arr' pivot left (k - 1) right Hk' Hkp Hat
                  Hsplit Hcl' Hcr') as [_ Hc].
      now replace (k - 1 + 1)%Z with k in Hc by lia.
  - rewrite Hrun. simpl.
    pose proof (Shuffle_len _ _ _ _ Hsh) as Hlen.
    destruct (IH arr' k l' r') as (arr'' & Hrun' & Hsh' & Hcut');
      try (destruct Hnext as [(? & -> & ->)|(? & -> & ->)]; lia).
    exists arr''. split; [assumption|]. split.
    { eapply Shuffle_trans; [eassumption|].
      eapply Shuffle_mono; [| |eassumption];
        destruct Hnext as [(? & -> & ->)|(? & -> & ->)]; lia. }
    intros Hk Hkr Hcl Hcr.
    pose proof (Keyed_Shuffle key _ _ _ _ Hsh Hk) as Hk'.
    pose proof (Cut_Shuffle key _ _ left _ _ Hsh ltac:(lia) Hcl) as Hcl'.
    pose proof (Cut_Shuffle key _ _ (right + 1) _ _ Hsh ltac:(lia) Hcr) as Hcr'.
    destruct (Cut_partition key arr' pivot left p right Hk' Hp Hat
                Hsplit Hcl' Hcr') as [Hcp Hcp1].
    apply Hcut'; [assumption| | |].
    + destruct Hnext as [(? & -> & ->)|(? & -> & ->)]; lia.
    + destruct Hnext as [(? & -> & ->)|(? & -> & ->)]; assumption.
    + destruct Hnext as [(? & -> & ->)|(? & -> & ->)];
        [now replace (p - 1 + 1)%Z with p by lia|assumption].
Qed.

End Facts.
End SelectFacts.

(** ** K-closest selection over probes *)

Module SelectionFacts.
Import Selection SelectSpec SelectFacts SelectionSpec.


Lemma same_but_d2_refl p : same_but_d2 p p.
Proof. reflexivity. Qed.

Lemma same_but_d2_trans p1 p2 p3 :
  same_but_d2 p1 p2 -> same_but_d2 p2 p3 -> same_but_d2 p1 p3.
Proof. unfold same_but_d2. congruence. Qed.

Lemma same_but_d2_set v p : same_but_d2 p (Probe.set__d2tmp v p).
Proof. reflexivity. Qed.

Lemma same_but_d2_d2To wp p p' : same_but_d2 p p' -> d2To wp p' = d2To wp p.
Proof.
  unfold same_but_d2, d2To. intros Heq.
  assert (Probe.x p' = Probe.x p) as -> by
    (change (Probe.x (Probe.set__d2tmp None p') = Probe.x (Probe.set__d2tmp None p));
     now rewrite Heq).
  assert (Probe.y p' = Probe.y p) as -> by
    (change (Probe.y (Probe.set__d2tmp None p') = Probe.y (Probe.set__d2tmp None p));
     now rewrite Heq).
  reflexivity.
Qed.

Lemma Forall2_same_refl heap : Forall2 same_but_d2 heap heap.
Proof. apply Forall_Forall2_diag, Forall_forall. intros; apply same_but_d2_refl. Qed.

Lemma Forall2_same_trans h1 h2 h3 :
  Forall2 same_but_d2 h1 h2 -> Forall2 same_but_d2 h2 h3 ->
  Forall2 same_but_d2 h1 h3.
Proof.
  intros H12. revert h3. induction H12; intros h3 H23; inversion H23; subst;
    constructor; eauto using same_but_d2_trans.
Qed.

Lemma Forall2_same_dist wp heap heap' r :
  Forall2 same_but_d2 heap heap' -> dist wp heap' r = dist wp heap r.
Proof.
  intros HF. unfold dist.
  destruct (heap !! r) as [p|] eqn:Hp.
  - destruct (Forall2_lookup_l _ _ _ _ _ HF Hp) as (p' & -> & Hs).
    now apply same_but_d2_d2To.
  - apply lookup_ge_None in Hp. rewrite (Forall2_length _ _ _ HF) in Hp.
    apply lookup_ge_None in Hp. now rewrite Hp.
Qed.

(** The first loop: every referenced probe gets its distance cached, and
    nothing else changes. *)
Lemma annotate_spec wp arr : forall heap,
  Forall (fun r => (r < length heap)%nat) arr ->
  exists heap', annotate arr wp heap = Ret heap' /\
    Forall2 same_but_d2 heap heap' /\
    (forall q, Annot wp heap q -> Annot wp heap' q) /\
    (forall q, q ∈ arr -> Annot wp heap' q).
Proof.
  induction arr as [|r rest IH]; intros heap Hvalid.
  - exists heap. split; [reflexivity|]. split; [apply Forall2_same_refl|].
    split; [auto|]. intros q Hq. inversion Hq.
  - inversion Hvalid as [|? ? Hr Hrest]; subst. cbn [annotate].
    destruct (lookup_lt_is_Some_2 heap r Hr) as [p Hp].
    rewrite (get_at heap (Z.of_nat r) p) by (now rewrite at_of_nat).
    simpl. rewrite put_Ret by (unfold len; lia). simpl. rewrite Nat2Z.id.
    set (p1 := Probe.set__d2tmp (Some (d2To wp p)) p).
    set (heap1 := <[r := p1]> heap).
    assert (Forall2 same_but_d2 heap heap1) as H01.
    { apply Forall2_same_length_lookup. split.
      - unfold heap1. now rewrite length_insert.
      - intros i a b Ha Hb. unfold heap1 in Hb.
        destruct (decide (i = r)) as [->|Hne].
        + rewrite list_lookup_insert_eq in Hb by assumption.
          inversion Hb; subst. rewrite Hp in Ha. inversion Ha; subst.
          apply same_but_d2_set.
        + rewrite list_lookup_insert_ne in Hb by congruence.
          rewrite Ha in Hb. inversion Hb. apply same_but_d2_refl. }
    assert (Annot wp heap1 r) as Hr1.
    { exists p1. split.
      - unfold heap1. now apply list_lookup_insert_eq.
      - reflexivity. }
    assert (forall q, Annot wp heap q -> Annot wp heap1 q) as Hmono.
    { intros q (pq & Hq & Hd). destruct (decide (q = r)) as [->|Hne];
        [assumption|].
      exists pq. split; [|assumption].
      unfold heap1. now rewrite list_lookup_insert_ne by congruence. }
    destruct (IH heap1) as (heap' & Hrun & H1' & Hkeep & Hnew).
    { unfold heap1. eapply Forall_impl; [eassumption|].
      intros q Hq. simpl. now rewrite length_insert. }
    exists heap'. split; [assumption|].
    split; [eapply Forall2_same_trans; eassumption|].
    split; [auto|].
    intros q Hq. apply elem_of_cons in Hq as [->|Hq]; auto.
Qed.

Lemma Annot_Keyed wp heap heap' arr :
  Forall2 same_but_d2 heap heap' ->
  (forall q, q ∈ arr -> Annot wp heap' q) ->
  Keyed (d2tmp_of heap') (dist wp heap) arr.
Proof.
  intros HF Hann. apply Forall_forall. intros q Hq.
  destruct (Hann q Hq) as (p' & Hp' & Hd).
  rewrite <- (Forall2_same_dist wp heap heap' q HF).
  unfold d2tmp_of, dist. now rewrite Hp'.
Qed.

#[local] Instance Qle_dec (a b : Q) : Decision (a <= b).
Proof.
  destruct (Qlt_le_dec b a) as [Hlt|Hle]; [right|left; assumption].
  intros Hle. apply (Qlt_irrefl a). eapply Qle_lt_trans; eassumption.
Defined.


#[local] Instance closer_dec wp heap r1 r2 : Decision (closer wp heap r1 r2).
Proof. unfold closer. apply _. Defined.

#[local] Instance closer_trans wp heap : Transitive (closer wp heap).
Proof. intros a b c. unfold closer. apply Qle_trans. Qed.

#[local] Instance closer_total wp heap : Total (closer wp heap).
Proof.
  intros a b. unfold closer.
  destruct (Qlt_le_dec (dist wp heap b) (dist wp heap a)); [right|left];
    [apply Qlt_le_weak|]; assumption.
Qed.

(** An array cut at [n] agrees on its first [n] slots with a full sort. *)
Lemma cut_sorted wp heap (arr : list nat) (n : nat) :
  (n <= length arr)%nat ->
  (forall a b, a ∈ take n arr -> b ∈ drop n arr -> closer wp heap a b) ->
  exists sorted, sorted ≡ₚ arr /\
    StronglySorted (closer wp heap) sorted /\
    take n arr ≡ₚ take n sorted.
Proof.
  intros Hn Hcut.
  exists (merge_sort (closer wp heap) (take n arr)
          ++ merge_sort (closer wp heap) (drop n arr)).
  split; [|split].
  - rewrite !merge_sort_Permutation. now rewrite take_drop.
  - apply StronglySorted_app_2.
    + intros a b Ha Hb. rewrite merge_sort_Permutation in Ha, Hb. auto.
    + apply StronglySorted_merge_sort; apply _.
    + apply StronglySorted_merge_sort; apply _.
  - rewrite take_app_length'.
    + now rewrite merge_sort_Permutation.
    + rewrite (Permutation_length (merge_sort_Permutation _ _)).
      rewrite length_take. lia.
Qed.

End SelectionFacts.

Module SelectionTheorems.
Import Selection SelectSpec SelectFacts SelectionSpec SelectionFacts.

Lemma Cut_take_drop wp heap (arr : list nat) (k : Z) :
  (0 <= k)%Z ->
  Cut (dist wp heap) k arr ->
  forall a b, a ∈ take (Z.to_nat k) arr -> b ∈ drop (Z.to_nat k) arr ->
    closer wp heap a b.
Proof.
  intros Hk Hcut a b Ha Hb.
  apply list_elem_of_lookup in Ha as [i Hi].
  apply list_elem_of_lookup in Hb as [j Hj].
  pose proof (lookup_lt_Some _ _ _ Hi) as Hlt. rewrite length_take in Hlt.
  rewrite lookup_take_lt in Hi by lia.
  rewrite lookup_drop in Hj.
  apply (Hcut (Z.of_nat i) (Z.of_nat (Z.to_nat k + j))).
  - now rewrite at_of_nat.
  - now rewrite at_of_nat.
  - lia.
Qed.

(** C2: for every candidate array of at most 2^30 references to probes of
    the heap (the population is capped at [HARD_PROBE_CAP]) and every [K]
    with [0 <= K <= N], the call returns; it has permuted the array and
    changed no probe except for the cached [_d2tmp]; no probe among the
    first [K] is farther from [wp] than a probe behind them; and the first
    [K] are, as a multiset, the first [K] of a full sort by wrapped squared
    distance. *)
Theorem selectKClosestInPlace_selects
    (heap : list Probe.T) (arr : list nat) (k : Z) (wp : Point.T) :
  Forall (fun r => (r < length heap)%nat) arr ->
  (len arr <= 2 ^ 30)%Z ->
  (0 <= k <= len arr)%Z ->
  exists heap' arr',
    selectKClosestInPlace heap arr k wp = Ret (heap', arr') /\
    Forall2 same_but_d2 heap heap' /\
    arr' ≡ₚ arr /\
    (forall a b, a ∈ take (Z.to_nat k) arr' -> b ∈ drop (Z.to_nat k) arr' ->
       dist wp heap a <= dist wp heap b) /\
    exists sorted, sorted ≡ₚ arr /\
      StronglySorted (closer wp heap) sorted /\
      take (Z.to_nat k) arr' ≡ₚ take (Z.to_nat k) sorted.
Proof.
  intros Hvalid Hcap Hk. unfold selectKClosestInPlace.
  destruct (annotate_spec wp arr heap Hvalid) as (heap' & Hann & HF & _ & Hnew).
  rewrite Hann. cbn [mbind outcome_bind].
  destruct (select_loop_spec (d2tmp_of heap') (dist wp heap) (S (length arr))
              arr k 0 (len arr - 1)%Z)
    as (arr' & Hrun & Hsh & Hcut); try (unfold len in *; lia).
  rewrite Hrun. cbn [mbind outcome_bind]. exists heap', arr'. split; [reflexivity|].
  split; [assumption|].
  pose proof (Shuffle_perm _ _ _ _ Hsh) as Hperm.
  split; [assumption|].
  assert (Cut (dist wp heap) k arr') as Hc.
  { apply Hcut.
    - eapply Annot_Keyed; eassumption.
    - lia.
    - intros i j a b Ha _ Hij. apply at_in_range in Ha. lia.
    - intros i j a b _ Hb Hij. apply at_in_range in Hb. lia. }
  pose proof (Cut_take_drop wp heap arr' k ltac:(lia) Hc) as Hcl.
  split; [exact Hcl|].
  destruct (cut_sorted wp heap arr' (Z.to_nat k)) as (sorted & Hp & Hs & Ht).
  - rewrite (Permutation_length Hperm). unfold len in Hk. lia.
  - assumption.
  - exists sorted. split; [now rewrite Hp|]. split; assumption.
Qed.

(** C10: the call returns for every array of at most 2^30 references and
    every [k], within the [N + 1] turns it is given; and every turn of the
    loop either returns or goes on with a range that is strictly smaller
    and inside the old one, because the partition returns an index inside
    [[left, right]] that the next range leaves out. *)
Theorem selectKClosestInPlace_terminates
    (heap : list Probe.T) (arr : list nat) (k : Z) (wp : Point.T) :
  Forall (fun r => (r < length heap)%nat) arr ->
  (len arr <= 2 ^ 30)%Z ->
  (exists heap' arr', selectKClosestInPlace heap arr k wp = Ret (heap', arr')) /\
  (forall (h : list Probe.T) (a : list nat) (left right : Z),
     len a = len arr -> (0 <= left)%Z -> (right < len a)%Z ->
     (exists a', Select.select_step (d2tmp_of h) a k left right = Ret (inl a')) \/
     (exists a' l' r' p,
        Select.partitionByD2 (d2tmp_of h) a left right
          (Z.shiftr (toInt32 (left + right)) 1) = Ret (a', p) /\
        (left <= p <= right)%Z /\
        Select.select_step (d2tmp_of h) a k left right = Ret (inr (a', l', r')) /\
        (l' = left /\ r' = (p - 1)%Z \/ l' = (p + 1)%Z /\ r' = right) /\
        len a' = len a /\
        (r' - l' < right - left)%Z)).
Proof.
  intros Hvalid Hcap. split.
  - unfold selectKClosestInPlace.
    destruct (annotate_spec wp arr heap Hvalid) as (heap' & Hann & _).
    rewrite Hann. cbn [mbind outcome_bind].
    destruct (select_loop_spec (d2tmp_of heap') (fun _ => 0) (S (length arr))
                arr k 0 (len arr - 1)%Z)
      as (arr' & Hrun & _); try (unfold len in *; lia).
    rewrite Hrun. cbn [mbind outcome_bind]. eauto.
  - intros h a left right Hlen Hl Hr.
    destruct (select_step_spec (d2tmp_of h) a k left right Hl Hr ltac:(lia))
      as [(a' & Hrun & _)
         |(a' & l' & r' & p & pivot & Hrun & Hlr & Hsh & Hp & _ & _ & Hnext)].
    + left. eauto.
    + right. exists a', l', r', p.
      pose proof (Shuffle_len _ _ _ _ Hsh) as Hlen'.
      unfold Select.select_step in Hrun.
      destruct (Z.geb_spec left right) as [|_]; [lia|].
      destruct (Select.partitionByD2 (d2tmp_of h) a left right
                  (Z.shiftr (toInt32 (left + right)) 1))
        as [[a1 p1]| | |] eqn:Hpart; simpl in Hrun; try discriminate.
      assert (a1 = a' /\ p1 = p) as [-> ->].
      { destruct (Z.eqb_spec (k - 1) p1); [discriminate|].
        destruct (Z.ltb_spec (k - 1) p1); inversion Hrun; subst;
          destruct Hnext as [(? & ? & ?)|(? & ? & ?)]; split; auto; lia. }
      split; [reflexivity|]. split; [assumption|].
      split.
      { unfold Select.select_step. destruct (Z.geb_spec left right); [lia|].
        rewrite Hpart. simpl. exact Hrun. }
      split; [destruct Hnext as [(? & ? & ?)|(? & ? & ?)]; auto|].
      split; [assumption|].
      destruct Hnext as [(? & -> & ->)|(? & -> & ->)]; lia.
Qed.

Lemma selectKClosestInPlace_selects_witness :
  exists heap' arr',
    selectKClosestInPlace Fixtures.five_probes [1; 2; 3; 4]%nat 2
      Fixtures.near_origin = Ret (heap', arr') /\
    Forall2 same_but_d2 Fixtures.five_probes heap' /\
    arr' ≡ₚ [1; 2; 3; 4]%nat /\
    (forall a b, a ∈ take (Z.to_nat 2) arr' -> b ∈ drop (Z.to_nat 2) arr' ->
       dist Fixtures.near_origin Fixtures.five_probes a
       <= dist Fixtures.near_origin Fixtures.five_probes b) /\
    exists sorted, sorted ≡ₚ [1; 2; 3; 4]%nat /\
      StronglySorted (closer Fixtures.near_origin Fixtures.five_probes) sorted /\
      take (Z.to_nat 2) arr' ≡ₚ take (Z.to_nat 2) sorted.
Proof.
  apply (selectKClosestInPlace_selects Fixtures.five_probes [1; 2; 3; 4]%nat 2
           Fixtures.near_origin).
  - repeat constructor; simpl; lia.
  - vm_compute; discriminate.
  - split; vm_compute; discriminate.
Defined.

Lemma selectKClosestInPlace_terminates_witness :
  (exists heap' arr',
     selectKClosestInPlace Fixtures.five_probes [0; 1; 2; 3; 4]%nat 9
       Fixtures.near_origin = Ret (heap', arr')) /\
  (forall (h : list Probe.T) (a : list nat) (left right : Z),
     len a = len [0; 1; 2; 3; 4]%nat -> (0 <= left)%Z -> (right < len a)%Z ->
     (exists a', Select.select_step (d2tmp_of h) a 9 left right = Ret (inl a')) \/
     (exists a' l' r' p,
        Select.partitionByD2 (d2tmp_of h) a left right
          (Z.shiftr (toInt32 (left + right)) 1) = Ret (a', p) /\
        (left <= p <= right)%Z /\
        Select.select_step (d2tmp_of h) a 9 left right = Ret (inr (a', l', r')) /\
        (l' = left /\ r' = (p - 1)%Z \/ l' = (p + 1)%Z /\ r' = right) /\
        len a' = len a /\
        (r' - l' < right - left)%Z)).
Proof.
  apply (selectKClosestInPlace_terminates Fixtures.five_probes
           [0; 1; 2; 3; 4]%nat 9 Fixtures.near_origin).
  - repeat constructor; simpl; lia.
  - vm_compute; discriminate.
Defined.

(** The selection on the five probes of the fixtures: the two nearest of
    the four autonomous ones come first; with [k] beyond the array, or
    below zero, the call still returns. *)
Example select_two_of_four :
  snd <$> selectKClosestInPlace Fixtures.five_probes [1; 2; 3; 4]%nat 2
            Fixtures.near_origin
  = Ret [4; 2; 3; 1]%nat.
Proof. vm_compute. reflexivity. Qed.

Example select_k_beyond :
  snd <$> selectKClosestInPlace Fixtures.five_probes [0; 1; 2; 3; 4]%nat 9
            Fixtures.near_origin
  = Ret [4; 2; 1; 3; 0]%nat.
Proof. vm_compute. reflexivity. Qed.

Example select_k_negative :
  snd <$> selectKClosestInPlace Fixtures.five_probes [0; 1; 2; 3; 4]%nat (-3)
            Fixtures.near_origin
  = Ret [4; 2; 0; 3; 1]%nat.
Proof. vm_compute. reflexivity. Qed.

End SelectionTheorems.

(** ** Spatial grid and resource pool *)

Module PoolFacts.
Import Resource World Pool PoolSpec.

Lemma cellIndexForPos_dims w w' x y :
  resGridW w' = resGridW w -> resGridH w' = resGridH w ->
  cellIndexForPos w' x y = cellIndexForPos w x y.
Proof. intros HW HH. unfold cellIndexForPos. now rewrite HW, HH. Qed.

Lemma res_in_range w i r : res w i = Some r -> (0 <= i < len (resources w))%Z.
Proof. apply at_in_range. Qed.

(** *** [gridAddResource] *)

(** What the call does to the store and to the grid. *)
Lemma gridAddResource_run w idx r cell :
  res w idx = Some r ->
  at_ (resGrid w) (cellIndexForPos w (Resource.x r) (Resource.y r)) = Some cell ->
  let ci := cellIndexForPos w (Resource.x r) (Resource.y r) in
  let r' := set__gridIndex (len cell) (set__gridCell ci r) in
  exists w', gridAddResource idx w = Ret w' /\
    resGridW w' = resGridW w /\ resGridH w' = resGridH w /\
    resourceActive w' = resourceActive w /\
    systemInitialTotal w' = systemInitialTotal w /\
    systemRemainingTotal w' = systemRemainingTotal w /\
    radarCellNeighbors w' = radarCellNeighbors w /\
    harvestCellNeighbors w' = harvestCellNeighbors w /\
    len (resources w') = len (resources w) /\
    len (resGrid w') = len (resGrid w) /\
    (forall j, res w' j = if (j =? idx)%Z then Some r' else res w j) /\
    (forall c, at_ (resGrid w') c =
       if (c =? ci)%Z then Some (cell ++ [idx]) else at_ (resGrid w) c).
Proof.
  intros Hr Hcell ci r'. unfold gridAddResource.
  unfold res in Hr. rewrite (get_at _ _ _ Hr). cbn [mbind outcome_bind].
  cbv zeta. rewrite (get_at _ _ _ Hcell). cbn [mbind outcome_bind].
  pose proof (at_in_range _ _ _ Hr) as Hir.
  pose proof (at_in_range _ _ _ Hcell) as Hcr.
  rewrite !put_Ret by assumption. cbn [mbind outcome_bind].
  eexists. split; [reflexivity|]. cbn.
  repeat split; try reflexivity.
  - apply len_insert.
  - apply len_insert.
  - intros j. unfold res. cbn. now apply at_insert.
  - intros c. now apply at_insert.
Qed.

(** In a consistent grid a resource occupies at most the slot its
    back-references name. *)
Lemma GridOK_slot_unique w i r ci gi :
  GridOK w -> res w i = Some r -> InCell w ci gi i ->
  ci = _gridCell r /\ gi = _gridIndex r.
Proof.
  intros HG Hr Hin.
  destruct (grid_entry w HG ci gi i Hin) as (r' & Hr' & Hc & Hg & _).
  rewrite Hr in Hr'. inversion Hr'; subst. auto.
Qed.

Lemma GridOK_stored w i r :
  GridOK w -> res w i = Some r -> (0 <= _gridCell r)%Z -> StoredAt w i r.
Proof.
  intros HG Hr Hc.
  pose proof (grid_backref w HG i r Hr Hc) as Hin.
  destruct (grid_entry w HG _ _ i Hin) as (r' & Hr' & _ & _ & Hpos).
  rewrite Hr in Hr'. inversion Hr'; subst r'.
  split; [now symmetry|]. split; [assumption|].
  intros ci gi Hin'. eapply GridOK_slot_unique; eassumption.
Qed.

Lemma GridOK_absent w i r :
  GridOK w -> res w i = Some r -> (_gridCell r < 0)%Z -> NotInGrid w i.
Proof.
  intros HG Hr Hneg ci gi Hin.
  destruct (GridOK_slot_unique w i r ci gi HG Hr Hin) as [-> ->].
  destruct Hin as (cell & Hcell & _). apply at_in_range in Hcell. lia.
Qed.

(** Two entries of a consistent grid that hold the same resource are the
    same slot. *)
Lemma GridOK_entry_inj w ci gi ci' gi' i :
  GridOK w -> InCell w ci gi i -> InCell w ci' gi' i -> ci = ci' /\ gi = gi'.
Proof.
  intros HG H1 H2.
  destruct (grid_entry w HG ci gi i H1) as (r & Hr & <- & <- & _).
  destruct (GridOK_slot_unique w i r ci' gi' HG Hr H2) as [-> ->]. auto.
Qed.

Lemma gridAddResource_ok w idx r :
  GridOK w -> res w idx = Some r -> (_gridCell r < 0)%Z ->
  exists w' r', gridAddResource idx w = Ret w' /\
    GridOK w' /\
    res w' idx = Some r' /\ StoredAt w' idx r' /\
    (0 <= _gridCell r')%Z /\
    same_but_grid r r' /\
    (forall j, j <> idx -> res w' j = res w j) /\
    resourceActive w' = resourceActive w /\
    resGridW w' = resGridW w /\ resGridH w' = resGridH w /\
    len (resGrid w') = len (resGrid w) /\
    len (resources w') = len (resources w) /\
    systemInitialTotal w' = systemInitialTotal w /\
    systemRemainingTotal w' = systemRemainingTotal w /\
    radarCellNeighbors w' = radarCellNeighbors w /\
    harvestCellNeighbors w' = harvestCellNeighbors w.
Proof.
  intros HG Hr Hout.
  destruct (grid_cell_exists w HG idx r Hr) as [cell Hcell].
  unfold same_but_grid.
  destruct (gridAddResource_run w idx r cell Hr Hcell)
    as (w' & Hrun & HW & HH & Hact & Hsi & Hsr & Hrn & Hhn & Hlr & Hlg
        & Hres & Hgrid).
  set (ci := cellIndexForPos w (Resource.x r) (Resource.y r)) in *.
  set (r' := set__gridIndex (len cell) (set__gridCell ci r)) in *.
  assert (forall x y, cellIndexForPos w' x y = cellIndexForPos w x y) as Hci
    by (intros; now apply cellIndexForPos_dims).
  assert (res w' idx = Some r') as Hr' by (now rewrite Hres, Z.eqb_refl).
  assert (forall j, j <> idx -> res w' j = res w j) as Hother.
  { intros j Hj. rewrite Hres. destruct (Z.eqb_spec j idx); congruence. }
  assert (NotIn : forall c g, ~ InCell w c g idx).
  { intros c g Hin.
    destruct (GridOK_slot_unique w idx r c g HG Hr Hin) as [-> ->].
    destruct Hin as (cl & Hcl & Hg). apply at_in_range in Hcl. lia. }
  pose proof (at_in_range _ _ _ Hcell) as Hcir.
  assert (HG' : GridOK w').
  { split.
    - intros j rj Hj. rewrite !Hci. rewrite Hgrid.
      destruct (Z.eqb_spec
                  (cellIndexForPos w (Resource.x rj) (Resource.y rj)) ci);
        [eauto|].
      rewrite Hres in Hj. destruct (Z.eqb_spec j idx).
      + inversion Hj; subst rj. exfalso. auto.
      + eapply (grid_cell_exists w HG); eassumption.
    - intros c g j (cl & Hcl & Hg). rewrite Hgrid in Hcl.
      destruct (Z.eqb_spec c ci) as [->|Hc].
      + inversion Hcl; subst cl.
        destruct (Z.eq_dec g (len cell)) as [->|Hgl].
        * rewrite at_app_last in Hg. inversion Hg; subst j.
          exists r'. rewrite Hci. repeat split; auto.
        * assert (g < len cell)%Z as Hlt.
          { apply at_in_range in Hg. rewrite len_app in Hg.
            change (len [idx]) with 1%Z in Hg. lia. }
          rewrite at_app_l in Hg by assumption.
          assert (InCell w ci g j) as Hin by (exists cell; auto).
          destruct (grid_entry w HG ci g j Hin) as (rj & Hrj & ? & ? & ?).
          exists rj. rewrite Hci. repeat split; auto.
          rewrite Hother; [assumption|]. intros ->. eapply NotIn; eassumption.
      + assert (InCell w c g j) as Hin by (exists cl; auto).
        destruct (grid_entry w HG c g j Hin) as (rj & Hrj & ? & ? & ?).
        exists rj. rewrite Hci. repeat split; auto.
        rewrite Hother; [assumption|]. intros ->. eapply NotIn; eassumption.
    - intros j rj Hj Hc. rewrite Hres in Hj.
      destruct (Z.eqb_spec j idx) as [->|Hne].
      + inversion Hj; subst rj. cbn. unfold len. lia.
      + eapply (grid_backref_sign w HG); eassumption.
    - intros j rj Hj Hc. rewrite Hres in Hj.
      destruct (Z.eqb_spec j idx) as [->|Hne].
      + inversion Hj; subst rj. cbn. exists (cell ++ [idx]).
        rewrite Hgrid, Z.eqb_refl. split; [reflexivity|apply at_app_last].
      + destruct (grid_backref w HG j rj Hj Hc) as (cl & Hcl & Hgl).
        destruct (Z.eq_dec (_gridCell rj) ci) as [Heq|Hneq].
        * rewrite Heq in *. rewrite Hcell in Hcl. inversion Hcl; subst cl.
          exists (cell ++ [idx]). rewrite Hgrid, Z.eqb_refl.
          split; [reflexivity|]. rewrite at_app_l; [assumption|].
          apply at_in_range in Hgl. lia.
        * exists cl. rewrite Hgrid.
          destruct (Z.eqb_spec (_gridCell rj) ci); [contradiction|]. auto. }
  exists w', r'. split; [assumption|]. split; [assumption|].
  split; [assumption|].
  split.
  { apply GridOK_stored; auto; cbn; lia. }
  repeat split; auto; cbn; lia.
Qed.

(** *** [gridRemoveResource] *)

(** A resource outside the grid is left alone. *)
Lemma gridRemoveResource_absent w idx r :
  res w idx = Some r ->
  ~ ((0 <= _gridCell r)%Z /\ (0 <= _gridIndex r)%Z) ->
  gridRemoveResource idx w = Ret w.
Proof.
  intros Hr Hout. unfold gridRemoveResource.
  unfold res in Hr. rewrite (get_at _ _ _ Hr). cbn [mbind outcome_bind].
  cbv zeta.
  destruct (Z.ltb_spec (_gridCell r) 0); [reflexivity|].
  destruct (Z.ltb_spec (_gridIndex r) 0); [reflexivity|].
  exfalso. apply Hout. lia.
Qed.

(** What the call does to the store and to the grid when the resource
    sits in slot [gi] of cell [ci], whose last entry is [lastIdx]. *)
Lemma gridRemoveResource_run w idx r cell lastIdx rl :
  res w idx = Some r ->
  (0 <= _gridCell r)%Z -> (0 <= _gridIndex r)%Z ->
  at_ (resGrid w) (_gridCell r) = Some cell ->
  (_gridIndex r < len cell)%Z ->
  at_ cell (len cell - 1) = Some lastIdx ->
  res w lastIdx = Some rl ->
  exists w', gridRemoveResource idx w = Ret w' /\
    resGridW w' = resGridW w /\ resGridH w' = resGridH w /\
    resourceActive w' = resourceActive w /\
    systemInitialTotal w' = systemInitialTotal w /\
    systemRemainingTotal w' = systemRemainingTotal w /\
    radarCellNeighbors w' = radarCellNeighbors w /\
    harvestCellNeighbors w' = harvestCellNeighbors w /\
    len (resources w') = len (resources w) /\
    len (resGrid w') = len (resGrid w) /\
    (forall j, res w' j =
       if (j =? idx)%Z then Some (set__gridIndex (-1) (set__gridCell (-1) r))
       else if (j =? lastIdx)%Z then Some (set__gridIndex (_gridIndex r) rl)
       else res w j) /\
    (forall c, at_ (resGrid w') c =
       if (c =? _gridCell r)%Z
       then Some (pop (<[Z.to_nat (_gridIndex r) := lastIdx]> cell))
       else at_ (resGrid w) c).
Proof.
  intros Hr Hc Hg Hcell Hgl Hlast Hrl. unfold gridRemoveResource.
  unfold res in Hr, Hrl. rewrite (get_at _ _ _ Hr). cbn [mbind outcome_bind].
  cbv zeta.
  destruct (Z.ltb_spec (_gridCell r) 0); [lia|].
  destruct (Z.ltb_spec (_gridIndex r) 0); [lia|]. cbn [orb].
  rewrite (get_at _ _ _ Hcell). cbn [mbind outcome_bind].
  rewrite (get_at _ _ _ Hlast). cbn [mbind outcome_bind].
  rewrite put_Ret by lia. cbn [mbind outcome_bind].
  rewrite (get_at _ _ _ Hrl). cbn [mbind outcome_bind].
  pose proof (at_in_range _ _ _ Hr) as Hir.
  pose proof (at_in_range _ _ _ Hrl) as Hlr.
  pose proof (at_in_range _ _ _ Hcell) as Hcr.
  rewrite (put_Ret (resources w) lastIdx) by assumption.
  cbn [mbind outcome_bind].
  assert (at_ (<[Z.to_nat lastIdx := set__gridIndex (_gridIndex r) rl]>
                 (resources w)) idx
          = Some (if (idx =? lastIdx)%Z
                  then set__gridIndex (_gridIndex r) rl else r)) as Hr1.
  { rewrite at_insert by assumption.
    destruct (Z.eqb_spec idx lastIdx); [reflexivity|assumption]. }
  rewrite (get_at _ _ _ Hr1). cbn [mbind outcome_bind].
  rewrite (put_Ret _ idx) by (rewrite len_insert; assumption).
  cbn [mbind outcome_bind].
  rewrite (put_Ret (resGrid w)) by assumption. cbn [mbind outcome_bind].
  eexists. split; [reflexivity|]. cbn.
  repeat split; try reflexivity.
  - now rewrite !len_insert.
  - apply len_insert.
  - intros j. unfold res. cbn.
    rewrite at_insert by (rewrite len_insert; assumption).
    destruct (Z.eqb_spec j idx) as [->|Hne].
    + destruct (Z.eqb_spec idx lastIdx) as [->|]; [|reflexivity].
      rewrite Hr in Hrl. inversion Hrl; subst. reflexivity.
    + now rewrite at_insert by assumption.
  - intros c. now apply at_insert.
Qed.

(** The cell after the removal. *)
Lemma at_swap_pop (cell : list Z) (gi lastIdx g : Z) :
  (0 <= gi < len cell)%Z ->
  at_ (pop (<[Z.to_nat gi := lastIdx]> cell)) g =
    if (g <? len cell - 1)%Z
    then (if (g =? gi)%Z then Some lastIdx else at_ cell g)
    else None.
Proof.
  intros Hgi.
  destruct (Z.ltb_spec g (len cell - 1)).
  - rewrite at_pop by (rewrite len_insert; lia). now apply at_insert.
  - apply at_pop_ge. rewrite len_insert. lia.
Qed.

Lemma gridRemoveResource_ok w idx r :
  GridOK w -> res w idx = Some r ->
  exists w', gridRemoveResource idx w = Ret w' /\
    GridOK w' /\
    NotInGrid w' idx /\
    (exists r', res w' idx = Some r' /\ (_gridCell r' < 0)%Z /\
       same_but_grid r r') /\
    (forall j rj, j <> idx -> res w j = Some rj ->
       exists rj', res w' j = Some rj' /\
         _gridCell rj' = _gridCell rj /\ same_but_grid rj rj') /\
    resourceActive w' = resourceActive w /\
    resGridW w' = resGridW w /\ resGridH w' = resGridH w /\
    len (resGrid w') = len (resGrid w) /\
    len (resources w') = len (resources w) /\
    systemInitialTotal w' = systemInitialTotal w /\
    systemRemainingTotal w' = systemRemainingTotal w /\
    radarCellNeighbors w' = radarCellNeighbors w /\
    harvestCellNeighbors w' = harvestCellNeighbors w.
Proof.
  intros HG Hr. unfold same_but_grid.
  destruct (Z.ltb_spec (_gridCell r) 0) as [Hneg|Hc].
  { exists w. rewrite (gridRemoveResource_absent w idx r Hr) by lia.
    split; [reflexivity|]. split; [assumption|].
    split; [eapply GridOK_absent; eassumption|].
    split; [exists r; repeat split; auto; now destruct r|].
    split; [|repeat split; reflexivity].
    intros j rj _ Hj. exists rj. repeat split; auto. now destruct rj. }
  pose proof (grid_backref_sign w HG idx r Hr Hc) as Hg.
  destruct (grid_backref w HG idx r Hr Hc) as (cell & Hcell & Hslot).
  pose proof (at_in_range _ _ _ Hslot) as Hgr.
  destruct (at_is_Some cell (len cell - 1) ltac:(lia)) as [lastIdx Hlast].
  assert (InCell w (_gridCell r) (len cell - 1) lastIdx) as Hlin
    by (exists cell; auto).
  destruct (grid_entry w HG _ _ _ Hlin) as (rl & Hrl & Hlc & Hlg & Hlpos).
  destruct (gridRemoveResource_run w idx r cell lastIdx rl Hr Hc Hg Hcell
              ltac:(lia) Hlast Hrl)
    as (w' & Hrun & HW & HH & Hact & Hsi & Hsr & Hrn & Hhn & Hlr & Hlgr
        & Hres & Hgrid).
  assert (forall x y, cellIndexForPos w' x y = cellIndexForPos w x y) as Hci
    by (intros; now apply cellIndexForPos_dims).
  set (ci := _gridCell r) in *. set (gi := _gridIndex r) in *.
  set (last := (len cell - 1)%Z) in *.
  set (cell' := pop (<[Z.to_nat gi := lastIdx]> cell)) in *.
  assert (Hcell' : forall g, at_ cell' g =
            if (g <? last)%Z
            then (if (g =? gi)%Z then Some lastIdx else at_ cell g)
            else None).
  { intros g. apply at_swap_pop. lia. }
  (* the slots of [idx] and of [lastIdx] in the old grid *)
  assert (Hidx_slot : forall c g, InCell w c g idx -> c = ci /\ g = gi).
  { intros c g Hin. eapply GridOK_slot_unique; eassumption. }
  assert (Hlast_slot : forall c g, InCell w c g lastIdx -> c = ci /\ g = last).
  { intros c g Hin.
    destruct (GridOK_slot_unique w lastIdx rl c g HG Hrl Hin) as [-> ->].
    auto. }
  assert (Hsame : idx = lastIdx -> gi = last).
  { intros <-. rewrite Hr in Hrl. inversion Hrl; subst rl. exact Hlg. }
  assert (Hdiff : gi = last -> idx = lastIdx).
  { intros Heq. unfold gi, last in *. rewrite Heq in Hslot. congruence. }
  exists w'. split; [assumption|].
  assert (HG' : GridOK w').
  { split.
    - (* every resource has a cell *)
      intros j rj Hj. rewrite !Hci.
      assert (exists rj0, res w j = Some rj0 /\
                Resource.x rj = Resource.x rj0 /\ Resource.y rj = Resource.y rj0)
        as (rj0 & Hj0 & -> & ->).
      { rewrite Hres in Hj. destruct (Z.eqb_spec j idx) as [->|].
        - inversion Hj; subst. eauto.
        - destruct (Z.eqb_spec j lastIdx) as [->|].
          + inversion Hj; subst. eauto.
          + eauto. }
      destruct (grid_cell_exists w HG j rj0 Hj0) as [cl Hcl].
      rewrite Hgrid.
      destruct (cellIndexForPos w (Resource.x rj0) (Resource.y rj0) =? ci)%Z;
        eauto.
    - (* every entry is backed by its resource *)
      intros c g j (cl & Hcl & Hgj). rewrite Hgrid in Hcl.
      destruct (Z.eqb_spec c ci) as [->|Hc'].
      + inversion Hcl; subst cl. rewrite Hcell' in Hgj.
        destruct (Z.ltb_spec g last) as [Hlt|]; [|discriminate].
        destruct (Z.eqb_spec g gi) as [->|Hgne].
        * inversion Hgj; subst j. exists (set__gridIndex gi rl).
          rewrite Hres, Hci.
          destruct (Z.eqb_spec lastIdx idx) as [->|]; [lia|].
          rewrite Z.eqb_refl. repeat split; auto.
        * assert (InCell w ci g j) as Hin by (exists cell; auto).
          destruct (grid_entry w HG _ _ _ Hin) as (rj & Hrj & ? & ? & ?).
          exists rj. rewrite Hres, Hci.
          destruct (Z.eqb_spec j idx) as [->|].
          { destruct (Hidx_slot _ _ Hin). lia. }
          destruct (Z.eqb_spec j lastIdx) as [->|].
          { destruct (Hlast_slot _ _ Hin). lia. }
          repeat split; auto.
      + assert (InCell w c g j) as Hin by (exists cl; auto).
        destruct (grid_entry w HG _ _ _ Hin) as (rj & Hrj & ? & ? & ?).
        exists rj. rewrite Hres, Hci.
        destruct (Z.eqb_spec j idx) as [->|].
        { destruct (Hidx_slot _ _ Hin). lia. }
        destruct (Z.eqb_spec j lastIdx) as [->|].
        { destruct (Hlast_slot _ _ Hin). lia. }
        repeat split; auto.
    - (* the back-references are set together *)
      intros j rj Hj Hcj. rewrite Hres in Hj.
      destruct (Z.eqb_spec j idx) as [->|].
      { inversion Hj; subst rj. cbn in Hcj. lia. }
      destruct (Z.eqb_spec j lastIdx) as [->|].
      { inversion Hj; subst rj. cbn. lia. }
      eapply (grid_backref_sign w HG); eassumption.
    - (* set back-references name the slot *)
      intros j rj Hj Hcj. rewrite Hres in Hj.
      destruct (Z.eqb_spec j idx) as [->|Hji].
      { inversion Hj; subst rj. cbn in Hcj. lia. }
      destruct (Z.eqb_spec j lastIdx) as [->|Hjl].
      { inversion Hj; subst rj. cbn. rewrite Hlc. exists cell'.
        rewrite Hgrid, Z.eqb_refl. split; [reflexivity|].
        rewrite Hcell'. assert (gi <> last) by (intros ?; apply Hji; symmetry; auto).
        destruct (Z.ltb_spec gi last); [|lia]. now rewrite Z.eqb_refl. }
      destruct (grid_backref w HG j rj Hj Hcj) as (cl & Hcl & Hgl).
      assert (InCell w (_gridCell rj) (_gridIndex rj) j) as Hin
        by (exists cl; auto).
      destruct (Z.eq_dec (_gridCell rj) ci) as [Heq|Hneq].
      + rewrite Heq in *. rewrite Hcell in Hcl. inversion Hcl; subst cl.
        exists cell'. rewrite Hgrid, Z.eqb_refl. split; [reflexivity|].
        rewrite Hcell'.
        assert (_gridIndex rj <> last).
        { intros Heq'. rewrite Heq' in Hgl. congruence. }
        assert (_gridIndex rj <> gi).
        { intros Heq'. rewrite Heq' in Hgl. congruence. }
        pose proof (at_in_range _ _ _ Hgl).
        destruct (Z.ltb_spec (_gridIndex rj) last); [|lia].
        destruct (Z.eqb_spec (_gridIndex rj) gi); [lia|assumption].
      + exists cl. rewrite Hgrid.
        destruct (Z.eqb_spec (_gridCell rj) ci); [contradiction|]. auto. }
  split; [assumption|].
  assert (Hidx' : res w' idx = Some (set__gridIndex (-1) (set__gridCell (-1) r)))
    by (now rewrite Hres, Z.eqb_refl).
  split.
  { eapply GridOK_absent; [eassumption|eassumption|]. cbn. lia. }
  split.
  { eexists. split; [eassumption|]. split; [cbn; lia|reflexivity]. }
  split.
  { intros j rj Hj Hrj. rewrite Hres.
    destruct (Z.eqb_spec j idx); [contradiction|].
    destruct (Z.eqb_spec j lastIdx) as [->|].
    - rewrite Hrl in Hrj. inversion Hrj; subst rj.
      eexists. split; [reflexivity|]. split; [reflexivity|].
      cbn. now destruct rl.
    - exists rj. repeat split; auto. now destruct rj. }
  repeat split; assumption.
Qed.

(** *** The pool level *)

Lemma same_but_grid_fields r r' :
  same_but_grid r r' ->
  active r' = active r /\ activeIndex r' = activeIndex r /\
  amt r' = amt r /\ maxAmt r' = maxAmt r /\ radius r' = radius r /\
  Resource.x r' = Resource.x r /\ Resource.y r' = Resource.y r.
Proof. unfold same_but_grid. intros ->. cbn. repeat split. Qed.

(** The grid invariant only reads the position and the back-references
    of the resources. *)
Lemma GridOK_ext w w' :
  resGrid w' = resGrid w ->
  resGridW w' = resGridW w -> resGridH w' = resGridH w ->
  (forall j r', res w' j = Some r' ->
     exists r, res w j = Some r /\
       _gridCell r' = _gridCell r /\ _gridIndex r' = _gridIndex r /\
       Resource.x r' = Resource.x r /\ Resource.y r' = Resource.y r) ->
  (forall j r, res w j = Some r -> exists r', res w' j = Some r') ->
  GridOK w -> GridOK w'.
Proof.
  intros Hgrid HW HH Hback Hfwd HG.
  assert (forall x y, cellIndexForPos w' x y = cellIndexForPos w x y) as Hci
    by (intros; now apply cellIndexForPos_dims).
  assert (forall c g i, InCell w' c g i <-> InCell w c g i) as Hin.
  { intros c g i. unfold InCell. now rewrite Hgrid. }
  split.
  - intros j r' Hj. destruct (Hback j r' Hj) as (r & Hr & _ & _ & -> & ->).
    rewrite Hci, Hgrid. eapply (grid_cell_exists w HG); eassumption.
  - intros c g i Hi. apply Hin in Hi.
    destruct (grid_entry w HG c g i Hi) as (r & Hr & Hc & Hg & Hpos).
    destruct (Hfwd i r Hr) as [r' Hr'].
    destruct (Hback i r' Hr') as (r0 & Hr0 & Hc' & Hg' & Hx & Hy).
    rewrite Hr in Hr0. inversion Hr0; subst r0.
    exists r'. rewrite Hci, Hx, Hy. repeat split; congruence.
  - intros j r' Hj Hc. destruct (Hback j r' Hj) as (r & Hr & Hc' & Hg' & _).
    rewrite Hg'. rewrite Hc' in Hc. eapply (grid_backref_sign w HG); eassumption.
  - intros j r' Hj Hc. destruct (Hback j r' Hj) as (r & Hr & Hc' & Hg' & _).
    apply Hin. rewrite Hc', Hg'. rewrite Hc' in Hc.
    eapply (grid_backref w HG); eassumption.
Qed.

(** The consequences of the pool invariant that the specification names:
    an active resource is stored in exactly the cell computed from its
    position, an inactive one appears in no cell. *)
Lemma PoolOK_active_stored w i r :
  PoolOK w -> res w i = Some r -> active r = true -> StoredAt w i r.
Proof.
  intros HP Hr Ha. apply GridOK_stored; [apply HP|assumption|].
  eapply (pool_active_backref w HP); eassumption.
Qed.

Lemma PoolOK_inactive_absent w i r :
  PoolOK w -> res w i = Some r -> active r = false -> NotInGrid w i.
Proof.
  intros HP Hr Ha. eapply GridOK_absent; [apply HP|eassumption|].
  eapply (pool_inactive_backref w HP); eassumption.
Qed.

Lemma activateResource_ok w idx r :
  PoolOK w -> res w idx = Some r -> active r = false ->
  exists w' r', activateResource idx w = Ret w' /\
    PoolOK w' /\
    res w' idx = Some r' /\ active r' = true /\ StoredAt w' idx r' /\
    amt r' = amt r /\ maxAmt r' = maxAmt r /\
    (forall j, j <> idx -> res w' j = res w j) /\
    resourceActive w' = resourceActive w ++ [idx] /\
    resGridW w' = resGridW w /\ resGridH w' = resGridH w /\
    len (resGrid w') = len (resGrid w) /\
    len (resources w') = len (resources w) /\
    systemInitialTotal w' = systemInitialTotal w /\
    systemRemainingTotal w' = systemRemainingTotal w /\
    radarCellNeighbors w' = radarCellNeighbors w /\
    harvestCellNeighbors w' = harvestCellNeighbors w.
Proof.
  intros HP Hr Hinact. unfold activateResource.
  pose proof Hr as Hr0. unfold res in Hr0.
  rewrite (get_at _ _ _ Hr0). cbn [mbind outcome_bind].
  pose proof (at_in_range _ _ _ Hr0) as Hir.
  rewrite put_Ret by assumption. cbn [mbind outcome_bind].
  set (r1 := set_activeIndex (len (resourceActive w)) (set_active true r)).
  set (w1 := set_resourceActive (resourceActive w ++ [idx])
               (set_resources (<[Z.to_nat idx := r1]> (resources w)) w)).
  assert (Hres1 : forall j, res w1 j = if (j =? idx)%Z then Some r1 else res w j).
  { intros j. unfold res, w1. cbn. now apply at_insert. }
  assert (HG1 : GridOK w1).
  { apply (GridOK_ext w w1); try reflexivity; [| |apply HP].
    - intros j r' Hj. rewrite Hres1 in Hj.
      destruct (Z.eqb_spec j idx) as [->|].
      + inversion Hj; subst r'. exists r. repeat split; auto.
      + exists r'. repeat split; auto.
    - intros j rj Hj. rewrite Hres1. destruct (j =? idx)%Z; eauto. }
  assert (Hr1 : res w1 idx = Some r1) by (now rewrite Hres1, Z.eqb_refl).
  destruct (gridAddResource_ok w1 idx r1 HG1 Hr1) as
    (w' & r' & Hrun & HG' & Hr' & Hst & Hc' & Hsame & Hother & Hact & HW & HH
     & Hlg & Hlr & Hsi & Hsr & Hrn & Hhn).
  { cbn. eapply (pool_inactive_backref w HP); eassumption. }
  destruct (same_but_grid_fields _ _ Hsame) as (Ha' & Hai' & Hamt & Hmax & _).
  exists w', r'. split; [assumption|].
  assert (Hold : forall j, j <> idx -> res w' j = res w j).
  { intros j Hj. rewrite Hother by assumption. rewrite Hres1.
    destruct (Z.eqb_spec j idx); congruence. }
  assert (len (resources w') = len (resources w)) as Hlr'.
  { rewrite Hlr. unfold w1. cbn. apply len_insert. }
  split;
    [|split; [assumption|]; split; [assumption|]; split; [assumption|];
      repeat split; auto; try congruence].
  split.
    + assumption.
    + intros i ri Hi Hai. destruct (Z.eq_dec i idx) as [->|Hne].
      * rewrite Hr' in Hi. inversion Hi; subst ri. assumption.
      * rewrite Hold in Hi by assumption.
        eapply (pool_active_backref w HP); eassumption.
    + intros i ri Hi Hai. destruct (Z.eq_dec i idx) as [->|Hne].
      * rewrite Hr' in Hi. inversion Hi; subst ri.
        rewrite Ha' in Hai. cbn in Hai. discriminate.
      * rewrite Hold in Hi by assumption.
        eapply (pool_inactive_backref w HP); eassumption.
    + intros k i Hk. rewrite Hact in Hk. cbn in Hk.
      destruct (Z.eq_dec k (len (resourceActive w))) as [->|Hne].
      * rewrite at_app_last in Hk. inversion Hk; subst i.
        exists r'. repeat split; auto.
      * assert (k < len (resourceActive w))%Z as Hlt.
        { apply at_in_range in Hk. rewrite len_app in Hk.
          change (len [idx]) with 1%Z in Hk. lia. }
        rewrite at_app_l in Hk by assumption.
        destruct (pool_list_entry w HP k i Hk) as (ri & Hi & Hai & Hki).
        exists ri. repeat split; auto. rewrite Hold; [assumption|].
        intros ->. congruence.
    + intros i ri Hi Hai. rewrite Hact. cbn.
      destruct (Z.eq_dec i idx) as [->|Hne].
      * rewrite Hr' in Hi. inversion Hi; subst ri.
        rewrite Hai'. cbn. apply at_app_last.
      * rewrite Hold in Hi by assumption.
        pose proof (pool_list_backref w HP i ri Hi Hai) as Hk.
        rewrite at_app_l; [assumption|]. apply at_in_range in Hk. lia.
Qed.

Lemma same_payload_refl r : same_payload r r.
Proof. repeat split. Qed.

Lemma same_payload_trans r1 r2 r3 :
  same_payload r1 r2 -> same_payload r2 r3 -> same_payload r1 r3.
Proof. unfold same_payload. intuition congruence. Qed.

Lemma same_but_grid_payload r r' : same_but_grid r r' -> same_payload r r'.
Proof. unfold same_but_grid. intros ->. repeat split. Qed.

(** What the call does to an active resource, once it is out of the grid:
    the last entry of [resourceActive] moves into its slot. *)
Lemma deactivateResource_run w w1 idx r r1 lastIdx rl :
  res w idx = Some r -> active r = true ->
  gridRemoveResource idx w = Ret w1 ->
  (0 <= activeIndex r < len (resourceActive w1))%Z ->
  at_ (resourceActive w1) (len (resourceActive w1) - 1) = Some lastIdx ->
  res w1 lastIdx = Some rl ->
  res w1 idx = Some r1 ->
  exists w', deactivateResource idx w = Ret w' /\
    resGrid w' = resGrid w1 /\
    resGridW w' = resGridW w1 /\ resGridH w' = resGridH w1 /\
    systemInitialTotal w' = systemInitialTotal w1 /\
    systemRemainingTotal w' = systemRemainingTotal w1 /\
    radarCellNeighbors w' = radarCellNeighbors w1 /\
    harvestCellNeighbors w' = harvestCellNeighbors w1 /\
    len (resources w') = len (resources w1) /\
    resourceActive w' =
      pop (<[Z.to_nat (activeIndex r) := lastIdx]> (resourceActive w1)) /\
    (forall j, res w' j =
       if (j =? idx)%Z then Some (set_activeIndex (-1) (set_active false r1))
       else if (j =? lastIdx)%Z then Some (set_activeIndex (activeIndex r) rl)
       else res w1 j).
Proof.
  intros Hr Hact Hrem Hai Hlast Hrl Hr1. unfold deactivateResource.
  unfold res in Hr, Hrl, Hr1. rewrite (get_at _ _ _ Hr).
  cbn [mbind outcome_bind]. rewrite Hact. cbn [negb].
  rewrite Hrem. cbn [mbind outcome_bind]. cbv zeta.
  rewrite (get_at _ _ _ Hlast). cbn [mbind outcome_bind].
  rewrite (put_Ret (resourceActive w1)) by assumption.
  cbn [mbind outcome_bind].
  rewrite (get_at _ _ _ Hrl). cbn [mbind outcome_bind].
  pose proof (at_in_range _ _ _ Hrl) as Hlr.
  pose proof (at_in_range _ _ _ Hr1) as Hir.
  rewrite (put_Ret (resources w1) lastIdx) by assumption.
  cbn [mbind outcome_bind].
  assert (at_ (<[Z.to_nat lastIdx := set_activeIndex (activeIndex r) rl]>
                 (resources w1)) idx
          = Some (if (idx =? lastIdx)%Z
                  then set_activeIndex (activeIndex r) rl else r1)) as Hr2.
  { rewrite at_insert by assumption.
    destruct (Z.eqb_spec idx lastIdx); [reflexivity|assumption]. }
  rewrite (get_at _ _ _ Hr2). cbn [mbind outcome_bind].
  rewrite (put_Ret _ idx) by (rewrite len_insert; assumption).
  cbn [mbind outcome_bind].
  eexists. split; [reflexivity|]. cbn.
  repeat split; try reflexivity.
  - now rewrite !len_insert.
  - intros j. unfold res. cbn.
    rewrite at_insert by (rewrite len_insert; assumption).
    destruct (Z.eqb_spec j idx) as [->|Hne].
    + destruct (Z.eqb_spec idx lastIdx) as [->|]; [|reflexivity].
      rewrite Hr1 in Hrl. inversion Hrl; subst. reflexivity.
    + now rewrite at_insert by assumption.
Qed.

Lemma deactivateResource_ok w idx r :
  PoolOK w -> res w idx = Some r ->
  exists w', deactivateResource idx w = Ret w' /\
    PoolOK w' /\
    NotInGrid w' idx /\
    (exists r', res w' idx = Some r' /\ active r' = false /\
       same_payload r r') /\
    (forall j rj, j <> idx -> res w j = Some rj ->
       exists rj', res w' j = Some rj' /\ active rj' = active rj /\
         same_payload rj rj') /\
    resGridW w' = resGridW w /\ resGridH w' = resGridH w /\
    len (resGrid w') = len (resGrid w) /\
    len (resources w') = len (resources w) /\
    systemInitialTotal w' = systemInitialTotal w /\
    systemRemainingTotal w' = systemRemainingTotal w /\
    radarCellNeighbors w' = radarCellNeighbors w /\
    harvestCellNeighbors w' = harvestCellNeighbors w.
Proof.
  intros HP Hr.
  destruct (active r) eqn:Hact.
  2:{ exists w. unfold deactivateResource. pose proof Hr as Hr0.
      unfold res in Hr0. rewrite (get_at _ _ _ Hr0). cbn [mbind outcome_bind].
      rewrite Hact. cbn [negb]. split; [reflexivity|]. split; [assumption|].
      split; [eapply PoolOK_inactive_absent; eassumption|].
      split; [exists r; auto using same_payload_refl|].
      split; [|repeat split; reflexivity].
      intros j rj _ Hj. exists rj. auto using same_payload_refl. }
  destruct (gridRemoveResource_ok w idx r (pool_grid w HP) Hr) as
    (w1 & Hrem & HG1 & Hout1 & (r1 & Hr1 & Hc1 & Hs1) & Hoth1 & Hra1 & HW1 & HH1
     & Hlg1 & Hlr1 & Hsi1 & Hsr1 & Hrn1 & Hhn1).
  pose proof (pool_list_backref w HP idx r Hr Hact) as Hslot.
  rewrite <- Hra1 in Hslot.
  pose proof (at_in_range _ _ _ Hslot) as Hair.
  destruct (at_is_Some (resourceActive w1) (len (resourceActive w1) - 1)
              ltac:(lia)) as [lastIdx Hlast].
  assert (exists rl0, res w lastIdx = Some rl0 /\ active rl0 = true /\
            activeIndex rl0 = (len (resourceActive w1) - 1)%Z)
    as (rl0 & Hrl0 & Hla0 & Hli0).
  { rewrite Hra1 in Hlast. rewrite Hra1.
    apply (pool_list_entry w HP). assumption. }
  (* the object behind [lastIdx] after the removal from the grid *)
  assert (exists rl, res w1 lastIdx = Some rl /\ active rl = true /\
            activeIndex rl = activeIndex rl0 /\ same_payload rl0 rl /\
            _gridCell rl = (if (lastIdx =? idx)%Z then _gridCell r1
                            else _gridCell rl0))
    as (rl & Hrl & Hla & Hli & Hlp & Hlc).
  { destruct (Z.eqb_spec lastIdx idx) as [->|Hne].
    - rewrite Hr in Hrl0. inversion Hrl0; subst rl0.
      destruct (same_but_grid_fields _ _ Hs1) as (? & ? & _).
      exists r1. split; [assumption|]. split; [congruence|].
      split; [congruence|]. split; [now apply same_but_grid_payload|].
      reflexivity.
    - destruct (Hoth1 lastIdx rl0 Hne Hrl0) as (rl & Hrl & Hgc & Hs).
      destruct (same_but_grid_fields _ _ Hs) as (? & ? & _).
      exists rl. split; [assumption|]. split; [congruence|].
      split; [congruence|]. split; [now apply same_but_grid_payload|].
      assumption. }
  destruct (deactivateResource_run w w1 idx r r1 lastIdx rl Hr Hact Hrem Hair
              Hlast Hrl Hr1)
    as (w' & Hrun & Hgrid & HW & HH & Hsi & Hsr & Hrn & Hhn & Hlr & Hra & Hres).
  set (ai := activeIndex r) in *.
  set (last := (len (resourceActive w1) - 1)%Z) in *.
  assert (Hra' : forall k, at_ (resourceActive w') k =
            if (k <? last)%Z
            then (if (k =? ai)%Z then Some lastIdx
                  else at_ (resourceActive w1) k)
            else None).
  { intros k. rewrite Hra. apply at_swap_pop. lia. }
  assert (Hsame : idx = lastIdx -> ai = last).
  { intros <-. rewrite Hr in Hrl0. inversion Hrl0; subst rl0. exact Hli0. }
  assert (Hdiff : ai = last -> idx = lastIdx).
  { intros Heq. unfold ai, last in *. rewrite Heq in Hslot. congruence. }
  (* every object of the old pool and its successor *)
  assert (Hobj : forall j rj, res w j = Some rj ->
            exists rj1, res w1 j = Some rj1 /\ active rj1 = active rj /\
              activeIndex rj1 = activeIndex rj /\ same_payload rj rj1 /\
              (j <> idx -> _gridCell rj1 = _gridCell rj)).
  { intros j rj Hj. destruct (Z.eq_dec j idx) as [->|Hne].
    - rewrite Hr in Hj. inversion Hj; subst rj.
      destruct (same_but_grid_fields _ _ Hs1) as (? & ? & _).
      exists r1. split; [assumption|]. split; [congruence|].
      split; [congruence|]. split; [now apply same_but_grid_payload|].
      congruence.
    - destruct (Hoth1 j rj Hne Hj) as (rj1 & Hj1 & Hgc & Hs).
      destruct (same_but_grid_fields _ _ Hs) as (? & ? & _).
      exists rj1. split; [assumption|]. split; [congruence|].
      split; [congruence|]. split; [now apply same_but_grid_payload|].
      auto. }
  assert (Hdom : forall j rj', res w' j = Some rj' -> exists rj, res w j = Some rj).
  { intros j rj' Hj. apply at_in_range in Hj. rewrite Hlr, Hlr1 in Hj.
    apply at_is_Some. assumption. }
  exists w'. split; [assumption|].
  assert (HG' : GridOK w').
  { apply (GridOK_ext w1 w'); auto.
    - intros j rj' Hj. rewrite Hres in Hj.
      destruct (Z.eqb_spec j idx) as [->|].
      { inversion Hj; subst rj'. exists r1. repeat split; auto. }
      destruct (Z.eqb_spec j lastIdx) as [->|].
      { inversion Hj; subst rj'. exists rl. repeat split; auto. }
      exists rj'. repeat split; auto.
    - intros j rj Hj. rewrite Hres.
      destruct (j =? idx)%Z; [eauto|]. destruct (j =? lastIdx)%Z; eauto. }
  assert (HP' : PoolOK w').
  { split.
    - assumption.
    - intros j rj' Hj Ha. rewrite Hres in Hj.
      destruct (Z.eqb_spec j idx) as [->|Hji].
      { inversion Hj; subst rj'. cbn in Ha. discriminate. }
      destruct (Z.eqb_spec j lastIdx) as [->|Hjl].
      { inversion Hj; subst rj'. cbn.
        destruct (Z.eqb_spec lastIdx idx); [contradiction|]. rewrite Hlc.
        eapply (pool_active_backref w HP); eassumption. }
      destruct (Hdom j rj') as [rj Hrj]; [rewrite Hres;
        destruct (Z.eqb_spec j idx); [contradiction|];
        destruct (Z.eqb_spec j lastIdx); [contradiction|]; assumption|].
      destruct (Hobj j rj Hrj) as (rj1 & Hj1 & Ha1 & _ & _ & Hgc).
      rewrite Hj in Hj1. inversion Hj1; subst rj1. rewrite Hgc by assumption.
      eapply (pool_active_backref w HP); [eassumption|congruence].
    - intros j rj' Hj Ha. rewrite Hres in Hj.
      destruct (Z.eqb_spec j idx) as [->|Hji].
      { inversion Hj; subst rj'. cbn. assumption. }
      destruct (Z.eqb_spec j lastIdx) as [->|Hjl].
      { inversion Hj; subst rj'. cbn in Ha. congruence. }
      destruct (Hdom j rj') as [rj Hrj]; [rewrite Hres;
        destruct (Z.eqb_spec j idx); [contradiction|];
        destruct (Z.eqb_spec j lastIdx); [contradiction|]; assumption|].
      destruct (Hobj j rj Hrj) as (rj1 & Hj1 & Ha1 & _ & _ & Hgc).
      rewrite Hj in Hj1. inversion Hj1; subst rj1. rewrite Hgc by assumption.
      eapply (pool_inactive_backref w HP); [eassumption|congruence].
    - intros k i Hk. rewrite Hra' in Hk.
      destruct (Z.ltb_spec k last) as [Hlt|]; [|discriminate].
      destruct (Z.eqb_spec k ai) as [->|Hka].
      + inversion Hk; subst i. exists (set_activeIndex ai rl).
        rewrite Hres.
        destruct (Z.eqb_spec lastIdx idx) as [Heq|]; [symmetry in Heq; auto; lia|].
        rewrite Z.eqb_refl. repeat split; auto.
      + rewrite Hra1 in Hk.
        destruct (pool_list_entry w HP k i Hk) as (ri & Hi & Hai & Hki).
        destruct (Hobj i ri Hi) as (ri1 & Hi1 & Ha1 & Hx1 & _).
        exists ri1. rewrite Hres.
        destruct (Z.eqb_spec i idx) as [->|].
        { rewrite Hr in Hi. inversion Hi; subst ri. unfold ai in Hka. lia. }
        destruct (Z.eqb_spec i lastIdx) as [->|].
        { rewrite Hrl0 in Hi. inversion Hi; subst ri. lia. }
        repeat split; congruence.
    - intros j rj' Hj Ha. rewrite Hres in Hj. rewrite Hra'.
      destruct (Z.eqb_spec j idx) as [->|Hji].
      { inversion Hj; subst rj'. cbn in Ha. discriminate. }
      destruct (Z.eqb_spec j lastIdx) as [->|Hjl].
      { inversion Hj; subst rj'. cbn.
        assert (ai <> last) by (intros ?; apply Hji; symmetry; auto).
        destruct (Z.ltb_spec ai last); [|lia]. now rewrite Z.eqb_refl. }
      destruct (Hdom j rj') as [rj Hrj]; [rewrite Hres;
        destruct (Z.eqb_spec j idx); [contradiction|];
        destruct (Z.eqb_spec j lastIdx); [contradiction|]; assumption|].
      destruct (Hobj j rj Hrj) as (rj1 & Hj1 & Ha1 & Hx1 & _).
      rewrite Hj in Hj1. inversion Hj1; subst rj1.
      pose proof (pool_list_backref w HP j rj Hrj ltac:(congruence)) as Hk.
      rewrite Hx1. rewrite <- Hra1 in Hk.
      assert (activeIndex rj <> last).
      { intros Heq. rewrite Heq in Hk. congruence. }
      assert (activeIndex rj <> ai).
      { intros Heq. rewrite Heq in Hk. congruence. }
      pose proof (at_in_range _ _ _ Hk).
      destruct (Z.ltb_spec (activeIndex rj) last); [|lia].
      destruct (Z.eqb_spec (activeIndex rj) ai); [lia|assumption]. }
  split; [assumption|].
  assert (Hidx' : res w' idx = Some (set_activeIndex (-1) (set_active false r1)))
    by (now rewrite Hres, Z.eqb_refl).
  split.
  { eapply PoolOK_inactive_absent; [eassumption|eassumption|reflexivity]. }
  split.
  { eexists. split; [eassumption|]. split; [reflexivity|].
    destruct (same_but_grid_payload _ _ Hs1) as (? & ? & ? & ? & ?).
    repeat split; cbn; assumption. }
  split.
  { intros j rj Hj Hrj. rewrite Hres.
    destruct (Z.eqb_spec j idx); [contradiction|].
    destruct (Hobj j rj Hrj) as (rj1 & Hj1 & Ha1 & Hx1 & Hp1 & _).
    destruct (Z.eqb_spec j lastIdx) as [->|].
    - rewrite Hrl in Hj1. inversion Hj1; subst rj1.
      eexists. split; [reflexivity|]. split; [cbn; assumption|].
      destruct Hp1 as (? & ? & ? & ? & ?). repeat split; cbn; assumption.
    - exists rj1. repeat split; auto; apply Hp1. }
  repeat split; congruence.
Qed.

(** A pool whose resources are all inactive and whose cells are all empty
    is consistent. *)
Lemma PoolOK_fresh w :
  resourceActive w = [] ->
  (forall c cell, at_ (resGrid w) c = Some cell -> cell = []) ->
  (forall i r, res w i = Some r ->
     active r = false /\ (_gridCell r < 0)%Z /\
     exists cell,
       at_ (resGrid w) (cellIndexForPos w (Resource.x r) (Resource.y r))
         = Some cell) ->
  PoolOK w.
Proof.
  intros Hra Hempty Hres.
  assert (forall c g i, ~ InCell w c g i) as Hno.
  { intros c g i (cell & Hc & Hg). rewrite (Hempty c cell Hc) in Hg.
    unfold at_ in Hg. destruct (g <? 0)%Z; discriminate. }
  split; [split|..].
  - intros i r Hr. apply (Hres i r Hr).
  - intros c g i Hin. exfalso. eapply Hno; eassumption.
  - intros i r Hr Hc. destruct (Hres i r Hr) as (_ & ? & _). lia.
  - intros i r Hr Hc. destruct (Hres i r Hr) as (_ & ? & _). lia.
  - intros i r Hr Ha. destruct (Hres i r Hr) as (? & _). congruence.
  - intros i r Hr _. apply (Hres i r Hr).
  - intros k i Hk. rewrite Hra in Hk. unfold at_ in Hk.
    destruct (k <? 0)%Z; discriminate.
  - intros i r Hr Ha. destruct (Hres i r Hr) as (? & _). congruence.
Qed.

Lemma two_idle_PoolOK : PoolOK Fixtures.two_idle.
Proof.
  apply PoolOK_fresh.
  - reflexivity.
  - intros c cell [_ Hc]%at_Some.
    change (resGrid Fixtures.two_idle)
      with (replicate (Z.to_nat (35 * 35)) (@nil Z)) in Hc.
    now apply lookup_replicate in Hc as [-> _].
  - intros i r [_ Hr]%at_Some.
    change (resources Fixtures.two_idle)
      with [Fixtures.resource_at 0 100 100 50;
            Fixtures.resource_at 1 150 100 (4405 # 10000)] in Hr.
    destruct (Z.to_nat i) as [|[|n]]; simpl in Hr; inversion Hr; subst r;
      (split; [reflexivity|]; split; [reflexivity|]);
      exists []; vm_compute; reflexivity.
Qed.

Lemma two_active_PoolOK : PoolOK Fixtures.two_active.
Proof.
  destruct (activateResource_ok Fixtures.two_idle 0
              (Fixtures.resource_at 0 100 100 50) two_idle_PoolOK
              eq_refl eq_refl)
    as (w1 & r1 & Hrun1 & HP1 & _ & _ & _ & _ & _ & Hoth1 & _).
  destruct (activateResource_ok w1 1
              (Fixtures.resource_at 1 150 100 (4405 # 10000)) HP1)
    as (w2 & r2 & Hrun2 & HP2 & _); [now rewrite Hoth1|reflexivity|].
  unfold Fixtures.two_active. rewrite Hrun1. cbn [mbind outcome_bind].
  now rewrite Hrun2.
Qed.

(** C8: in a consistent pool every active resource is stored in exactly
    the grid cell computed from its position, at the slot its
    back-references [_gridCell] and [_gridIndex] name, and an inactive
    resource appears in no cell.  The four operations return and keep this:
    [activateResource] (on an inactive resource) and [deactivateResource]
    keep the pool invariant, the resource then being stored in its cell,
    respectively gone from the grid; [gridAddResource] (on a resource
    outside the grid) and [gridRemoveResource] keep the grid invariant, with
    the same outcome for the resource. *)
Theorem grid_consistency (w : World.T) (idx : Z) (r : Resource.T) :
  PoolOK w -> res w idx = Some r ->
  (forall i ri, res w i = Some ri -> active ri = true -> StoredAt w i ri) /\
  (forall i ri, res w i = Some ri -> active ri = false -> NotInGrid w i) /\
  (active r = false ->
   exists w' r', activateResource idx w = Ret w' /\ PoolOK w' /\
     res w' idx = Some r' /\ active r' = true /\ StoredAt w' idx r') /\
  (exists w' r', deactivateResource idx w = Ret w' /\ PoolOK w' /\
     res w' idx = Some r' /\ active r' = false /\ NotInGrid w' idx) /\
  ((_gridCell r < 0)%Z ->
   exists w' r', gridAddResource idx w = Ret w' /\ GridOK w' /\
     res w' idx = Some r' /\ StoredAt w' idx r') /\
  (exists w', gridRemoveResource idx w = Ret w' /\ GridOK w' /\
     NotInGrid w' idx).
Proof.
  intros HP Hr.
  split; [intros i ri; now apply PoolOK_active_stored|].
  split; [intros i ri; now apply PoolOK_inactive_absent|].
  split.
  { intros Ha.
    destruct (activateResource_ok w idx r HP Hr Ha)
      as (w' & r' & Hrun & HP' & Hr' & Ha' & Hst & _).
    exists w', r'. auto. }
  split.
  { destruct (deactivateResource_ok w idx r HP Hr)
      as (w' & Hrun & HP' & Hout & (r' & Hr' & Ha' & _) & _).
    exists w', r'. auto. }
  split.
  { intros Hneg.
    destruct (gridAddResource_ok w idx r (pool_grid w HP) Hr Hneg)
      as (w' & r' & Hrun & HG' & Hr' & Hst & _).
    exists w', r'. auto. }
  destruct (gridRemoveResource_ok w idx r (pool_grid w HP) Hr)
    as (w' & Hrun & HG' & Hout & _).
  exists w'. auto.
Qed.

Lemma grid_consistency_witness :
  let w := Fixtures.two_active in
  let r := Resource.mk 1 0 150 100 (4405 # 10000) (4405 # 10000) 10
             true 1 (-1) 0 1 in
  (forall i ri, res w i = Some ri -> active ri = true -> StoredAt w i ri) /\
  (forall i ri, res w i = Some ri -> active ri = false -> NotInGrid w i) /\
  (active r = false ->
   exists w' r', activateResource 1 w = Ret w' /\ PoolOK w' /\
     res w' 1 = Some r' /\ active r' = true /\ StoredAt w' 1 r') /\
  (exists w' r', deactivateResource 1 w = Ret w' /\ PoolOK w' /\
     res w' 1 = Some r' /\ active r' = false /\ NotInGrid w' 1) /\
  ((_gridCell r < 0)%Z ->
   exists w' r', gridAddResource 1 w = Ret w' /\ GridOK w' /\
     res w' 1 = Some r' /\ StoredAt w' 1 r') /\
  (exists w', gridRemoveResource 1 w = Ret w' /\ GridOK w' /\
     NotInGrid w' 1).
Proof.
  apply (grid_consistency Fixtures.two_active 1).
  - apply two_active_PoolOK.
  - vm_compute. reflexivity.
Defined.

(** The swap-removal at work: deactivating resource 0 of the two-resource
    cell moves resource 1 into slot 0 of the cell and of [resourceActive],
    and rewrites its back-references. *)
Example deactivate_first_of_two :
  (fun w => (at_ (resGrid w) 0, resourceActive w,
             _gridIndex <$> res w 1, activeIndex <$> res w 1,
             _gridCell <$> res w 0, active <$> res w 0))
    <$> deactivateResource 0 Fixtures.two_active
  = Ret (Some [1%Z], [1%Z], Some 0%Z, Some 0%Z, Some (-1)%Z, Some false).
Proof. vm_compute. reflexivity. Qed.

End PoolFacts.

(** ** Replication *)

Module ReplicationFacts.
Import ProbeMethods Ranges RangeFacts ReplicationSpec.
Section WithMath.
Context `{MathLib}.

(** A request beyond the cap, or outside the NORMAL phase, is dropped. *)
Lemma replicate_dropped cost i s this :
  at_ (Sim.probes s) i = Some this ->
  (HARD_PROBE_CAP <= len (Sim.probes s))%Z \/
    Master.state (Sim.master s) <> NORMAL ->
  replicate cost i s = Ret s.
Proof.
  intros Hthis Hwhy. unfold replicate.
  rewrite (get_at _ _ _ Hthis). cbn [mbind outcome_bind].
  destruct (Z.geb_spec (len (Sim.probes s)) HARD_PROBE_CAP) as [|Hlt];
    [reflexivity|].
  destruct (Qltb (Probe.resources this) cost); [reflexivity|].
  destruct Hwhy as [?|Hst]; [lia|].
  destruct (Master.state (Sim.master s)); try reflexivity. congruence.
Qed.

Lemma tryAutoReplicate_dropped dt i s this :
  at_ (Sim.probes s) i = Some this ->
  (HARD_PROBE_CAP <= len (Sim.probes s))%Z \/
    Master.state (Sim.master s) <> NORMAL ->
  tryAutoReplicate dt i s = Ret s.
Proof.
  intros Hthis Hwhy. unfold tryAutoReplicate.
  rewrite (get_at _ _ _ Hthis). cbn [mbind outcome_bind].
  destruct (Probe.dead this || Probe.isPlayer this); [reflexivity|].
  destruct (Qleb dt 0); [reflexivity|].
  destruct (Z.geb_spec (len (Sim.probes s)) HARD_PROBE_CAP) as [|Hlt];
    [reflexivity|].
  destruct Hwhy as [?|Hst]; [lia|].
  destruct (Master.state (Sim.master s)); try reflexivity. congruence.
Qed.

(** A probe that cannot pay is turned away. *)
Lemma replicate_poor cost i s this :
  at_ (Sim.probes s) i = Some this ->
  Probe.resources this < cost ->
  replicate cost i s = Ret s.
Proof.
  intros Hthis Hpoor. unfold replicate.
  rewrite (get_at _ _ _ Hthis). cbn [mbind outcome_bind].
  destruct (len (Sim.probes s) >=? HARD_PROBE_CAP)%Z; [reflexivity|].
  apply Qltb_lt in Hpoor. now rewrite Hpoor.
Qed.

Lemma tryAutoReplicate_poor dt i s this :
  at_ (Sim.probes s) i = Some this ->
  Probe.resources this < replicateCost ->
  tryAutoReplicate dt i s = Ret s.
Proof.
  intros Hthis Hpoor. unfold tryAutoReplicate.
  rewrite (get_at _ _ _ Hthis). cbn [mbind outcome_bind].
  destruct (Probe.dead this || Probe.isPlayer this); [reflexivity|].
  destruct (Qleb dt 0); [reflexivity|].
  destruct (len (Sim.probes s) >=? HARD_PROBE_CAP)%Z; [reflexivity|].
  destruct (negb (is_NORMAL (Master.state (Sim.master s)))); [reflexivity|].
  destruct (Qgtb (Probe.replCooldown this) 0); [reflexivity|].
  cbv zeta.
  assert (Qgeb (Probe.resources this) (replicateCost * 1.08) = false) as ->.
  { apply Qgeb_lt. unfold replicateCost in *. lra. }
  reflexivity.
Qed.

(** The probe built by the constructor for a child. *)
Lemma construct_child x y dna pid g :
  exists child pid' g', construct x y false dna pid g = (child, pid', g') /\
    Probe.isPlayer child = false /\ Probe.dead child = false /\
    Probe.sacrificing child = false /\
    Probe.x child = x /\ Probe.y child = y.
Proof.
  unfold construct, rand, Math_random. cbn.
  eexists _, _, _. split; [reflexivity|]. cbn. repeat split.
Qed.

(** With the three guards passed the replication goes through. *)
Lemma replicate_success cost i s this :
  at_ (Sim.probes s) i = Some this ->
  (len (Sim.probes s) < HARD_PROBE_CAP)%Z ->
  cost <= Probe.resources this ->
  Master.state (Sim.master s) = NORMAL ->
  exists s', replicate cost i s = Ret s' /\ Replicated cost i s s'.
Proof.
  intros Hthis Hcap Hrich Hst. unfold replicate.
  rewrite (get_at _ _ _ Hthis). cbn [mbind outcome_bind].
  destruct (Z.geb_spec (len (Sim.probes s)) HARD_PROBE_CAP); [lia|].
  apply Qltb_ge in Hrich. rewrite Hrich. rewrite Hst. cbn [is_NORMAL negb].
  rewrite put_Ret by (eapply at_in_range; eassumption).
  cbn [mbind outcome_bind].
  unfold mutateDNA, construct, rand, Math_random. cbn.
  eexists. split; [reflexivity|].
  eexists this, _, _. split; [assumption|]. cbn.
  split; [reflexivity|]. cbn.
  do 8 (split; [reflexivity|]).
  split; [apply InWorld_wrap|]. intros Hg n. apply Hg.
Qed.

(** [replicate] either leaves the state as it is or goes through. *)
Lemma replicate_cases cost i s this :
  at_ (Sim.probes s) i = Some this ->
  replicate cost i s = Ret s \/
  (cost <= Probe.resources this /\
   exists s', replicate cost i s = Ret s' /\ Replicated cost i s s').
Proof.
  intros Hthis.
  destruct (Z.ltb_spec (len (Sim.probes s)) HARD_PROBE_CAP) as [Hcap|Hcap].
  2:{ left. apply (replicate_dropped cost i s this); auto. }
  destruct (Qlt_le_dec (Probe.resources this) cost) as [Hpoor|Hrich].
  { left. now apply (replicate_poor cost i s this). }
  destruct (Master.state (Sim.master s)) eqn:Hst.
  1:{ right. split; [assumption|].
      apply (replicate_success cost i s this); assumption. }
  all: left; apply (replicate_dropped cost i s this); auto; right; congruence.
Qed.

(** [tryAutoReplicate] either leaves the state as it is or goes through,
    at the fixed cost. *)
Lemma tryAutoReplicate_cases dt i s this :
  at_ (Sim.probes s) i = Some this ->
  tryAutoReplicate dt i s = Ret s \/
  (replicateCost * 1.08 <= Probe.resources this /\
   exists s', tryAutoReplicate dt i s = Ret s' /\
     Replicated replicateCost i s s').
Proof.
  intros Hthis. unfold tryAutoReplicate.
  rewrite (get_at _ _ _ Hthis). cbn [mbind outcome_bind].
  destruct (Probe.dead this || Probe.isPlayer this); [now left|].
  destruct (Qleb dt 0); [now left|].
  destruct (Z.geb_spec (len (Sim.probes s)) HARD_PROBE_CAP) as [|Hcap];
    [now left|].
  destruct (Master.state (Sim.master s)) eqn:Hst; cbn [is_NORMAL negb];
    try (now left).
  destruct (Qgtb (Probe.replCooldown this) 0); [now left|].
  cbv zeta.
  destruct (Qgeb (Probe.resources this) (replicateCost * 1.08)) eqn:Hrich;
    [|now left].
  apply Qgeb_ge in Hrich. right. split; [assumption|].
  destruct (replicate_success replicateCost i s this Hthis Hcap) as
    (s1 & Hrun & this' & parent & child & Hthis' & Hps & Hres & Hrest & Hchild
     & Hnp & Hnd & Hns & Hw & Hm & Hin & Hrng);
    [unfold replicateCost in *; lra|assumption|].
  rewrite Hrun. cbn [mbind outcome_bind].
  rewrite Hthis in Hthis'. inversion Hthis'; subst this'.
  pose proof (at_in_range _ _ _ Hthis) as Hir.
  assert (at_ (Sim.probes s1) i = Some parent) as Hparent.
  { rewrite Hps. rewrite at_app_l by (rewrite len_insert; lia).
    rewrite at_insert by assumption. now rewrite Z.eqb_refl. }
  rewrite (get_at _ _ _ Hparent). cbn [mbind outcome_bind].
  unfold rand, Math_random. cbn.
  rewrite put_Ret
    by (rewrite Hps, len_app, len_insert; change (len [child]) with 1%Z; lia).
  cbn [mbind outcome_bind]. eexists. split; [reflexivity|].
  exists this, (Probe.set_replCooldown
                  (1.8 + (3.4 - 1.8) * uniform (Sim.rng s1) 0%nat) parent), child.
  split; [assumption|]. cbn.
  split.
  { rewrite Hps. rewrite insert_app_l
      by (rewrite length_insert; unfold len in Hir; lia).
    now rewrite list_insert_insert_eq. }
  split; [assumption|]. split; [rewrite <- Hrest; reflexivity|].
  do 7 (split; [assumption|]).
  intros Hg n. apply (Hrng Hg).
Qed.

(** C5: a probe that carries less than the cost does not replicate, neither
    on command nor on its own; with the guards passed, [replicate] goes
    through; and whenever [replicate] or [tryAutoReplicate] does anything at
    all, the parent has lost exactly the cost (the fixed 100 for
    [tryAutoReplicate]) and exactly one child has been appended, which
    carries [CHILD_START_RES] = 12. *)
Theorem replication_cost_invariant (dt cost : Q) (i : Z) (s : Sim.T)
    (this : Probe.T) :
  at_ (Sim.probes s) i = Some this ->
  (Probe.resources this < cost -> replicate cost i s = Ret s) /\
  (Probe.resources this < replicateCost -> tryAutoReplicate dt i s = Ret s) /\
  ((len (Sim.probes s) < HARD_PROBE_CAP)%Z ->
   cost <= Probe.resources this ->
   Master.state (Sim.master s) = NORMAL ->
   exists s', replicate cost i s = Ret s' /\ Replicated cost i s s') /\
  (replicate cost i s = Ret s \/
   cost <= Probe.resources this /\
   exists s', replicate cost i s = Ret s' /\ Replicated cost i s s') /\
  (tryAutoReplicate dt i s = Ret s \/
   replicateCost <= Probe.resources this /\
   exists s', tryAutoReplicate dt i s = Ret s' /\
     Replicated replicateCost i s s') /\
  replicateCost == 100 /\ CHILD_START_RES == 12.
Proof.
  intros Hthis.
  split; [now apply replicate_poor|].
  split; [now apply tryAutoReplicate_poor|].
  split; [now apply (replicate_success cost i s this)|].
  split; [now apply (replicate_cases cost i s this)|].
  split; [|split; reflexivity].
  destruct (tryAutoReplicate_cases dt i s this Hthis) as [?|[Hrich ?]];
    [now left|right].
  split; [unfold replicateCost in *; lra|assumption].
Qed.

(** C9: a request made with the population at or above [HARD_PROBE_CAP],
    or while the Master AI is not in the NORMAL phase, returns without an
    error and leaves the whole simulation state as it was: the carried
    resources, the probe list, the random source and all the rest. *)
Theorem replication_silently_dropped (dt cost : Q) (i : Z) (s : Sim.T)
    (this : Probe.T) :
  at_ (Sim.probes s) i = Some this ->
  (HARD_PROBE_CAP <= len (Sim.probes s))%Z \/
    Master.state (Sim.master s) <> NORMAL ->
  replicate cost i s = Ret s /\ tryAutoReplicate dt i s = Ret s.
Proof.
  intros Hthis Hwhy. split.
  - now apply (replicate_dropped cost i s this).
  - now apply (tryAutoReplicate_dropped dt i s this).
Qed.

End WithMath.
End ReplicationFacts.

Module ReplicationExamples.
Import ProbeMethods ReplicationSpec ReplicationFacts Fixtures.

Lemma replication_cost_invariant_witness :
  let s := two_probes NORMAL in
  let this := probe_carrying 1 false 150 100 130 in
  (Probe.resources this < replicateCost -> replicate replicateCost 1 s = Ret s) /\
  (Probe.resources this < replicateCost ->
   tryAutoReplicate FIXED_DT 1 s = Ret s) /\
  ((len (Sim.probes s) < HARD_PROBE_CAP)%Z ->
   replicateCost <= Probe.resources this ->
   Master.state (Sim.master s) = NORMAL ->
   exists s', replicate replicateCost 1 s = Ret s' /\
     Replicated replicateCost 1 s s') /\
  (replicate replicateCost 1 s = Ret s \/
   replicateCost <= Probe.resources this /\
   exists s', replicate replicateCost 1 s = Ret s' /\
     Replicated replicateCost 1 s s') /\
  (tryAutoReplicate FIXED_DT 1 s = Ret s \/
   replicateCost <= Probe.resources this /\
   exists s', tryAutoReplicate FIXED_DT 1 s = Ret s' /\
     Replicated replicateCost 1 s s') /\
  replicateCost == 100 /\ CHILD_START_RES == 12.
Proof.
  apply (replication_cost_invariant FIXED_DT replicateCost 1 (two_probes NORMAL)
           (probe_carrying 1 false 150 100 130)).
  vm_compute. reflexivity.
Defined.

Lemma replication_silently_dropped_witness :
  replicate replicateCost 1 (two_probes RALLY) = Ret (two_probes RALLY) /\
  tryAutoReplicate FIXED_DT 1 (two_probes RALLY) = Ret (two_probes RALLY).
Proof.
  apply (replication_silently_dropped FIXED_DT replicateCost 1
           (two_probes RALLY) (probe_carrying 1 false 150 100 130)).
  - vm_compute. reflexivity.
  - right. vm_compute. discriminate.
Defined.

(** The autonomous probe of the fixtures carries 130: on its own it
    replicates, keeps 30, and the new third probe carries 12.  The player
    carries exactly 100: on command it replicates and keeps nothing; the
    automatic path never fires for it. *)
Example auto_replication_pays_100 :
  (fun s => List.map Probe.resources (Sim.probes s))
    <$> tryAutoReplicate FIXED_DT 1 (two_probes NORMAL)
  = Ret [100; 130 - 100; 12].
Proof. vm_compute. reflexivity. Qed.

Example manual_replication_pays_100 :
  (fun s => List.map Probe.resources (Sim.probes s))
    <$> replicate replicateCost 0 (two_probes NORMAL)
  = Ret [100 - 100; 130; 12].
Proof. vm_compute. reflexivity. Qed.

Example player_never_auto_replicates :
  tryAutoReplicate FIXED_DT 0 (two_probes NORMAL) = Ret (two_probes NORMAL).
Proof. vm_compute. reflexivity. Qed.

End ReplicationExamples.

(** ** Resource totals *)

Module WorldFacts.
Import Resource World Pool PoolSpec PoolFacts SimSpec.

Lemma sum_amt_app rs rs' : sum_amt (rs ++ rs') == sum_amt rs + sum_amt rs'.
Proof.
  induction rs as [|r rs IH]; simpl; [ring|]. rewrite IH. ring.
Qed.

Lemma exhausted_app rs rs' : exhausted (rs ++ rs') = (exhausted rs + exhausted rs')%Z.
Proof. unfold exhausted. now rewrite List.filter_app, len_app. Qed.

Lemma exhausted_nonneg rs : (0 <= exhausted rs)%Z.
Proof. unfold exhausted, len. lia. Qed.

(** A list split around one of its slots. *)
Lemma split_at {A} (l : list A) (i : Z) (a : A) :
  at_ l i = Some a ->
  l = take (Z.to_nat i) l ++ a :: drop (S (Z.to_nat i)) l.
Proof.
  intros [_ Ha]%at_Some. symmetry. now apply take_drop_middle.
Qed.

Lemma insert_split {A} (l : list A) (i : Z) (a b : A) :
  at_ l i = Some a ->
  <[Z.to_nat i := b]> l = take (Z.to_nat i) l ++ b :: drop (S (Z.to_nat i)) l.
Proof.
  intros [_ Ha]%at_Some.
  rewrite <- (take_drop_middle l (Z.to_nat i) a Ha) at 1.
  pose proof (lookup_lt_Some _ _ _ Ha) as Hlt.
  rewrite insert_app_r_alt by (rewrite length_take; lia).
  rewrite length_take, Nat.min_l by lia. now rewrite Nat.sub_diag.
Qed.

(** Writing one resource changes the sum by the difference of the amounts. *)
Lemma sum_amt_insert rs i r r' :
  at_ rs i = Some r ->
  sum_amt (<[Z.to_nat i := r']> rs) == sum_amt rs - amt r + amt r'.
Proof.
  intros Hr. rewrite (insert_split rs i r r' Hr).
  rewrite (split_at rs i r Hr) at 3.
  rewrite !sum_amt_app. simpl. ring.
Qed.

Lemma exhausted_insert rs i r r' :
  at_ rs i = Some r ->
  exhausted (<[Z.to_nat i := r']> rs)
  = (exhausted rs - is_exhausted r + is_exhausted r')%Z.
Proof.
  intros Hr. rewrite (insert_split rs i r r' Hr).
  rewrite (split_at rs i r Hr) at 3.
  rewrite !exhausted_app. unfold exhausted at 2 4, is_exhausted. simpl.
  destruct (Qleb (amt r) 0.001), (Qleb (amt r') 0.001); unfold len; simpl; lia.
Qed.

(** Two stores that agree on the amounts, slot by slot. *)
Lemma sum_amt_same rs rs' :
  Forall2 same_payload rs rs' ->
  sum_amt rs' = sum_amt rs /\ exhausted rs' = exhausted rs /\
  (Forall (fun r => 0 <= amt r) rs -> Forall (fun r => 0 <= amt r) rs').
Proof.
  induction 1 as [|r r' rs rs' Hr _ (IHs & IHe & IHn)].
  - repeat split; auto.
  - destruct Hr as (_ & _ & Ha & _). split; [|split].
    + simpl. now rewrite Ha, IHs.
    + change (r' :: rs') with ([r'] ++ rs'). change (r :: rs) with ([r] ++ rs).
      rewrite !exhausted_app, IHe. unfold exhausted. simpl. rewrite Ha.
      destruct (Qleb (amt r) 0.001); reflexivity.
    + intros Hn. inversion Hn as [|? ? Hr0 Hrs0]; subst.
      constructor; [rewrite Ha; exact Hr0|auto].
Qed.

(** *** The pool invariant does not read the amounts *)

Lemma PoolOK_ext w w' :
  resGrid w' = resGrid w -> resourceActive w' = resourceActive w ->
  resGridW w' = resGridW w -> resGridH w' = resGridH w ->
  (forall j r', res w' j = Some r' ->
     exists r, res w j = Some r /\ same_book r r') ->
  (forall j r, res w j = Some r -> exists r', res w' j = Some r') ->
  PoolOK w -> PoolOK w'.
Proof.
  intros Hgrid Hra HW HH Hback Hfwd HP.
  assert (Hboth : forall j r r', res w j = Some r -> res w' j = Some r' ->
            same_book r r').
  { intros j r r' Hr Hr'. destruct (Hback j r' Hr') as (r0 & Hr0 & Hs).
    rewrite Hr in Hr0. now inversion Hr0; subst. }
  split.
  - apply (GridOK_ext w w'); auto; [|apply HP].
    intros j r' Hj. destruct (Hback j r' Hj) as (r & Hr & _ & _ & ? & ? & ? & ?).
    exists r. auto.
  - intros j r' Hj Ha. destruct (Hback j r' Hj) as (r & Hr & Ha' & _ & Hc & _).
    rewrite Hc. eapply (pool_active_backref w HP); [eassumption|congruence].
  - intros j r' Hj Ha. destruct (Hback j r' Hj) as (r & Hr & Ha' & _ & Hc & _).
    rewrite Hc. eapply (pool_inactive_backref w HP); [eassumption|congruence].
  - intros k i Hk. rewrite Hra in Hk.
    destruct (pool_list_entry w HP k i Hk) as (r & Hr & Ha & Hi).
    destruct (Hfwd i r Hr) as [r' Hr'].
    destruct (Hboth i r r' Hr Hr') as (? & ? & _).
    exists r'. repeat split; congruence.
  - intros j r' Hj Ha. destruct (Hback j r' Hj) as (r & Hr & Ha' & Hi & _).
    rewrite Hra, Hi. eapply (pool_list_backref w HP); [eassumption|congruence].
Qed.

Lemma neighborTable_dims w w' R :
  resGridW w' = resGridW w -> resGridH w' = resGridH w ->
  neighborTable w' R = neighborTable w R.
Proof.
  intros HW HH. unfold neighborTable, neighborCells. now rewrite HW, HH.
Qed.

(** Index-wise agreement of two stores of the same length. *)
Lemma Forall2_of_at {A} (P : A -> A -> Prop) (l l' : list A) :
  len l' = len l ->
  (forall j a, at_ l j = Some a -> exists a', at_ l' j = Some a' /\ P a a') ->
  Forall2 P l l'.
Proof.
  intros Hlen Hat. apply Forall2_same_length_lookup. split.
  - unfold len in Hlen. lia.
  - intros i a a' Ha Ha'.
    destruct (Hat (Z.of_nat i) a) as (a0 & Ha0 & HP);
      [now rewrite at_of_nat|].
    rewrite at_of_nat in Ha0. congruence.
Qed.

(** Writing the amount of one resource keeps the pool consistent. *)
Lemma PoolOK_set_amt w ridx r v :
  PoolOK w -> res w ridx = Some r ->
  PoolOK (set_resources (<[Z.to_nat ridx := set_amt v r]> (resources w)) w).
Proof.
  intros HP Hr. pose proof (at_in_range _ _ _ Hr) as Hir.
  eapply PoolOK_ext; [..|exact HP]; try reflexivity.
  - intros j r' Hj. unfold res in Hj. cbn in Hj.
    rewrite at_insert in Hj by assumption.
    destruct (Z.eqb_spec j ridx) as [->|].
    + inversion Hj; subst r'. exists r. split; [assumption|]. repeat split.
    + exists r'. split; [assumption|]. repeat split.
  - intros j rj Hj. unfold res. cbn. rewrite at_insert by assumption.
    destruct (j =? ridx)%Z; eauto.
Qed.

Lemma sum_amt_nonneg rs : Forall (fun r => 0 <= amt r) rs -> 0 <= sum_amt rs.
Proof.
  induction 1 as [|r rs Hr _ IH]; simpl; lra.
Qed.

Lemma sum_amt_member rs i r :
  Forall (fun r => 0 <= amt r) rs -> at_ rs i = Some r -> amt r <= sum_amt rs.
Proof.
  intros Hn Hr. rewrite (split_at rs i r Hr) in Hn |- *.
  apply Forall_app in Hn as [Hl Hr']. inversion Hr'; subst.
  rewrite sum_amt_app. simpl.
  pose proof (sum_amt_nonneg _ Hl). pose proof (sum_amt_nonneg _ H2). lra.
Qed.

Lemma Forall_nonneg_insert rs i r' :
  Forall (fun r => 0 <= amt r) rs -> 0 <= amt r' ->
  Forall (fun r => 0 <= amt r) (<[i := r']> rs).
Proof. intros Hn Hr'. now apply Forall_insert. Qed.

(** A world that differs from a consistent one only in the amounts and in
    the remaining total. *)
Lemma WorldOK_payload w w' :
  PoolOK w' -> Conserved w' ->
  resGridW w' = resGridW w -> resGridH w' = resGridH w ->
  len (resGrid w') = len (resGrid w) ->
  radarCellNeighbors w' = radarCellNeighbors w ->
  harvestCellNeighbors w' = harvestCellNeighbors w ->
  WorldOK w -> WorldOK w'.
Proof.
  intros HP HC HW HH Hlen Hrn Hhn HO. split; auto.
  - rewrite HW. apply HO.
  - rewrite HH. apply HO.
  - rewrite Hlen. apply HO.
  - rewrite Hrn, (neighborTable_dims w w') by assumption. apply HO.
  - rewrite Hhn, (neighborTable_dims w w') by assumption. apply HO.
Qed.

End WorldFacts.

(** ** Harvesting *)

Module HarvestFacts.
Import Resource World Pool PoolSpec PoolFacts SimSpec WorldFacts.
Import ProbeMethods.

Lemma same_but_cargo_refl p : same_but_cargo p p.
Proof. unfold same_but_cargo. now destruct p. Qed.

Lemma P5_max_0 v : 0 <= v -> P5.max 0 v == v.
Proof. intros Hv. unfold P5.max. qcases; lra. Qed.

Lemma P5_min_le a b : P5.min a b <= a /\ P5.min a b <= b.
Proof. unfold P5.min. qcases; lra. Qed.

(** [_harvestFrom] returns and keeps the world consistent; the remaining
    total never grows when the harvest rate is not negative. *)
Lemma _harvestFrom_ok ridx dt p w :
  WorldOK w ->
  exists p' w', _harvestFrom ridx dt p w = Ret (p', w') /\
    WorldOK w' /\ same_but_cargo p p' /\
    systemInitialTotal w' = systemInitialTotal w /\
    (0 <= DNA.harvest (Probe.dna p) * dt ->
     systemRemainingTotal w' <= systemRemainingTotal w).
Proof.
  intros HO. unfold _harvestFrom.
  destruct (at_ (resources w) ridx) as [r0|] eqn:Hr0.
  2:{ exists p, w. repeat split; auto using same_but_cargo_refl; try apply HO.
      intros _. lra. }
  destruct (Qleb (amt r0) 0.001) eqn:Hlow.
  { exists p, w. split; [reflexivity|]. split; [assumption|].
    split; [apply same_but_cargo_refl|]. split; [reflexivity|]. intros _. lra. }
  apply Qleb_gt in Hlow.
  set (take := P5.min (amt r0) (DNA.harvest (Probe.dna p) * dt)).
  destruct (P5_min_le (amt r0) (DNA.harvest (Probe.dna p) * dt)) as [Hta Hth].
  fold take in Hta, Hth.
  pose proof (at_in_range _ _ _ Hr0) as Hir.
  rewrite put_Ret by assumption. cbn [mbind outcome_bind].
  pose proof HO as HO0.
  destruct HO as [HP HW HH Hlen Hrn Hhn [Hnn Hge Hle]].
  set (r1 := set_amt (amt r0 - take) r0).
  set (rs1 := <[Z.to_nat ridx := r1]> (resources w)).
  set (T1 := P5.max 0 (systemRemainingTotal w - take)).
  pose proof (sum_amt_member _ _ _ Hnn Hr0) as Hmem.
  assert (T1 == systemRemainingTotal w - take) as HT1.
  { apply P5_max_0. lra. }
  assert (sum_amt rs1 == sum_amt (resources w) - take) as HS1.
  { unfold rs1. rewrite (sum_amt_insert _ _ r0) by assumption. cbn. ring. }
  assert (Forall (fun r => 0 <= amt r) rs1) as Hnn1.
  { apply Forall_nonneg_insert; [assumption|]. cbn. lra. }
  assert (exhausted rs1 = (exhausted (resources w) + is_exhausted r1)%Z) as HE1.
  { unfold rs1. rewrite (exhausted_insert _ _ r0) by assumption.
    unfold is_exhausted at 1. apply Qleb_gt in Hlow. rewrite Hlow. lia. }
  set (w1 := set_systemRemainingTotal T1 (set_resources rs1 w)).
  assert (PoolOK w1) as HP1.
  { apply (PoolOK_ext (set_resources rs1 w) w1); try reflexivity.
    - intros j r' Hj. exists r'. split; [exact Hj|repeat split].
    - intros j r Hj. exists r. exact Hj.
    - exact (PoolOK_set_amt w ridx r0 (amt r0 - take) HP Hr0). }
  fold r1. fold rs1.
  change (set_systemRemainingTotal _ (set_resources rs1 w)) with w1.
  destruct (Qleb (amt r1) 0.001) eqn:Hsnap;
    change (amt r1) with (amt r0 - take) in Hsnap.
  - (* the resource is used up: snapped to zero and deactivated *)
    apply Qleb_le in Hsnap.
    change (resources w1) with rs1.
    assert (at_ rs1 ridx = Some r1) as Hr1.
    { unfold rs1. rewrite at_insert by assumption. now rewrite Z.eqb_refl. }
    rewrite put_Ret by (unfold rs1; rewrite len_insert; assumption).
    cbn [mbind outcome_bind].
    set (r2 := set_amt 0 r1).
    set (rs2 := <[Z.to_nat ridx := r2]> rs1).
    set (w2 := set_resources rs2 w1).
    assert (PoolOK w2) as HP2 by exact (PoolOK_set_amt w1 ridx r1 0 HP1 Hr1).
    assert (at_ rs2 ridx = Some r2) as Hr2.
    { unfold rs2. rewrite at_insert
        by (unfold rs1; rewrite len_insert; assumption).
      now rewrite Z.eqb_refl. }
    destruct (deactivateResource_ok w2 ridx r2 HP2 Hr2)
      as (w3 & Hrun & HP3 & _ & (r3 & Hr3 & _ & Hpay3) & Hoth & HW3 & HH3
          & Hlg3 & Hlr3 & Hsi3 & Hsr3 & Hrn3 & Hhn3).
    change (set_resources _ w1) with w2.
    rewrite Hrun. cbn [mbind outcome_bind].
    eexists _, w3. split; [reflexivity|].
    assert (Forall2 same_payload (resources w2) (resources w3)) as HF.
    { apply Forall2_of_at; [assumption|]. intros j a Ha.
      destruct (Z.eq_dec j ridx) as [->|Hne].
      - change (at_ (resources w2) ridx) with (at_ rs2 ridx) in Ha.
        rewrite Hr2 in Ha. inversion Ha; subst a. eauto.
      - destruct (Hoth j a Hne Ha) as (a' & Ha' & _ & Hp). eauto. }
    destruct (sum_amt_same _ _ HF) as (HS3 & HE3 & Hnn3).
    assert (sum_amt rs2 == sum_amt (resources w) - amt r0) as HS2.
    { unfold rs2. rewrite (sum_amt_insert _ _ r1) by assumption.
      rewrite HS1. cbn. ring. }
    assert (exhausted rs2 = (exhausted (resources w) + 1)%Z) as HE2.
    { unfold rs2. rewrite (exhausted_insert _ _ r1) by assumption.
      rewrite HE1. assert (is_exhausted r2 = 1%Z) as -> by reflexivity. lia. }
    split.
    { apply (WorldOK_payload w); try exact HO0; auto; try congruence.
      split.
      + apply Hnn3. unfold w2. cbn.
        apply Forall_nonneg_insert; [assumption|]. cbn. lra.
      + rewrite HS3, Hsr3. unfold w2, w1. cbn. rewrite HS2, HT1. lra.
      + rewrite HS3, HE3, Hsr3. unfold w2, w1. cbn.
        rewrite HS2, HE2, HT1. rewrite inject_Z_plus.
        change (inject_Z 1) with 1. lra. }
    split.
    { unfold same_but_cargo.
      destruct (_ =? ridx)%Z; now destruct p. }
    split; [rewrite Hsi3; reflexivity|].
    intros Hrate. rewrite Hsr3. unfold w2, w1. cbn. rewrite HT1.
    assert (0 <= take) by (unfold take, P5.min; qcases; lra). lra.
  - (* the resource keeps something *)
    apply Qleb_gt in Hsnap.
    eexists _, w1. split; [reflexivity|].
    split.
    { apply (WorldOK_payload w); try exact HO0; auto.
      split.
      + assumption.
      + unfold w1. cbn. rewrite HS1, HT1. lra.
      + unfold w1. cbn. rewrite HS1, HT1, HE1.
        unfold is_exhausted. change (amt r1) with (amt r0 - take).
        apply Qleb_gt in Hsnap. rewrite Hsnap. rewrite Z.add_0_r. lra. }
    split; [unfold same_but_cargo; now destruct p|].
    split; [reflexivity|].
    intros Hrate. unfold w1. cbn. rewrite HT1.
    assert (0 <= take) by (unfold take, P5.min; qcases; lra). lra.
Qed.

(** *** Cells and neighbour tables *)

Lemma Qtrunc_range q (n : Z) :
  0 <= q -> q < inject_Z n -> (0 <= Qtrunc q < n)%Z.
Proof.
  intros H0 Hn. destruct (Qtrunc_nonneg q H0) as [Hlo Hhi].
  split.
  - assert (inject_Z (-1) < inject_Z (Qtrunc q)) as Hlt.
    { change (inject_Z (-1)) with (-(1))%Q. lra. }
    rewrite <- Zlt_Qlt in Hlt. lia.
  - assert (inject_Z (Qtrunc q) < inject_Z n) as Hlt by lra.
    now rewrite <- Zlt_Qlt in Hlt.
Qed.

(** A position inside the world falls into a cell of the 35 x 35 grid. *)
Lemma cellIndexForPos_valid w x y :
  resGridW w = 35%Z -> resGridH w = 35%Z -> InWorld x y ->
  (0 <= cellIndexForPos w x y < 1225)%Z.
Proof.
  intros HW HH [[Hx0 Hx1] [Hy0 Hy1]]. unfold cellIndexForPos. rewrite HW, HH.
  unfold WORLD_w, WORLD_h, RES_CELL in *.
  assert (0 <= Qtrunc (x / 700) < 35)%Z as Hcx.
  { apply Qtrunc_range.
    - apply Qle_shift_div_l; lra.
    - apply Qlt_shift_div_r; [lra|]. change (inject_Z 35) with 35%Q. lra. }
  assert (0 <= Qtrunc (y / 700) < 35)%Z as Hcy.
  { apply Qtrunc_range.
    - apply Qle_shift_div_l; lra.
    - apply Qlt_shift_div_r; [lra|]. change (inject_Z 35) with 35%Q. lra. }
  rewrite !SelectFacts.toInt32_small by lia. cbv zeta.
  destruct (Z.geb_spec (Qtrunc (x / 700)) 35); [lia|].
  destruct (Z.geb_spec (Qtrunc (y / 700)) 35); [lia|]. lia.
Qed.

Lemma neighborTable_ok w R :
  resGridW w = 35%Z -> resGridH w = 35%Z -> (R = 1 \/ R = 3)%Z ->
  table_ok (neighborTable w R) = true.
Proof.
  intros HW HH HR.
  rewrite (neighborTable_dims Fixtures.empty_world w R) by (now rewrite ?HW, ?HH).
  destruct HR as [-> | ->]; vm_compute; reflexivity.
Qed.

Lemma table_ok_at t ci :
  table_ok t = true -> (0 <= ci < 1225)%Z ->
  exists neigh, at_ t ci = Some neigh /\
    Forall (fun c => (0 <= c < 1225)%Z) neigh.
Proof.
  unfold table_ok. intros [Hlen Hall]%andb_prop Hci.
  apply Z.eqb_eq in Hlen.
  destruct (at_is_Some t ci ltac:(lia)) as [neigh Hn].
  exists neigh. split; [assumption|].
  rewrite forallb_forall in Hall.
  apply at_Some in Hn as [_ Hn]. apply list_elem_of_lookup_2 in Hn.
  apply list_elem_of_In in Hn. specialize (Hall _ Hn).
  rewrite forallb_forall in Hall. apply Forall_forall. intros c Hc.
  apply list_elem_of_In in Hc. specialize (Hall _ Hc).
  apply andb_prop in Hall as [H1 H2].
  apply Z.leb_le in H1. apply Z.ltb_lt in H2. lia.
Qed.

(** The scan of the neighbouring cells never reads outside the grid. *)
Lemma harvest_cells_ok w p neigh : forall best,
  len (resGrid w) = 1225%Z ->
  Forall (fun c => (0 <= c < 1225)%Z) neigh ->
  exists best', harvest_cells w p neigh best = Ret best'.
Proof.
  induction neigh as [|n rest IH]; intros best Hlen Hall.
  - eexists. reflexivity.
  - inversion Hall; subst. cbn [harvest_cells].
    destruct (at_is_Some (resGrid w) n ltac:(lia)) as [cell Hc].
    rewrite (get_at _ _ _ Hc). cbn [mbind outcome_bind]. now apply IH.
Qed.

Lemma radar_cells_ok w p neigh : forall best,
  len (resGrid w) = 1225%Z ->
  Forall (fun c => (0 <= c < 1225)%Z) neigh ->
  exists best', radar_cells w p neigh best = Ret best'.
Proof.
  induction neigh as [|n rest IH]; intros best Hlen Hall.
  - eexists. reflexivity.
  - inversion Hall; subst. cbn [radar_cells].
    destruct (at_is_Some (resGrid w) n ltac:(lia)) as [cell Hc].
    rewrite (get_at _ _ _ Hc). cbn [mbind outcome_bind]. now apply IH.
Qed.

Lemma radarPing_ok w p :
  WorldOK w -> InWorld (Probe.x p) (Probe.y p) ->
  exists found, radarPing w p = Ret found.
Proof.
  intros HO Hin. unfold radarPing.
  destruct (len (resourceActive w) <=? 0)%Z; [eauto|].
  rewrite (world_radar w HO). cbn [table mbind outcome_bind].
  pose proof (cellIndexForPos_valid w _ _ (world_W w HO) (world_H w HO) Hin).
  destruct (table_ok_at (neighborTable w 3)
              (cellIndexForPos w (Probe.x p) (Probe.y p)))
    as (neigh & Hn & Hall); [|assumption|].
  { apply neighborTable_ok; auto; apply HO. }
  rewrite (get_at _ _ _ Hn). cbn [mbind outcome_bind].
  destruct (radar_cells_ok w p neigh ((-1)%Z, None) (world_grid_len w HO) Hall)
    as [best Hb].
  rewrite Hb. cbn [mbind outcome_bind]. eauto.
Qed.

(** *** [harvest] *)

Lemma harvestNearby_ok dt p w :
  WorldOK w -> InWorld (Probe.x p) (Probe.y p) ->
  exists p' w', harvestNearby dt p w = Ret (p', w') /\
    WorldOK w' /\ same_but_cargo p p' /\
    systemInitialTotal w' = systemInitialTotal w /\
    (0 <= DNA.harvest (Probe.dna p) * dt ->
     systemRemainingTotal w' <= systemRemainingTotal w).
Proof.
  intros HO Hin. unfold harvestNearby.
  rewrite (world_harvest w HO). cbn [table mbind outcome_bind].
  pose proof (cellIndexForPos_valid w _ _ (world_W w HO) (world_H w HO) Hin).
  destruct (table_ok_at (neighborTable w 1)
              (cellIndexForPos w (Probe.x p) (Probe.y p)))
    as (neigh & Hn & Hall); [|assumption|].
  { apply neighborTable_ok; auto; apply HO. }
  rewrite (get_at _ _ _ Hn). cbn [mbind outcome_bind].
  destruct (harvest_cells_ok w p neigh ((-1)%Z, None) (world_grid_len w HO) Hall)
    as [best Hb].
  rewrite Hb. cbn [mbind outcome_bind].
  destruct (fst best >=? 0)%Z.
  - now apply _harvestFrom_ok.
  - exists p, w. split; [reflexivity|]. split; [assumption|].
    split; [apply same_but_cargo_refl|]. split; [reflexivity|]. intros _. lra.
Qed.

Lemma same_but_cargo_set_target v p : same_but_cargo p (Probe.set_target v p).
Proof. unfold same_but_cargo. now destruct p. Qed.

Lemma same_but_cargo_trans p1 p2 p3 :
  same_but_cargo p1 p2 -> same_but_cargo p2 p3 -> same_but_cargo p1 p3.
Proof.
  unfold same_but_cargo. intros -> ->. now destruct p1.
Qed.

Lemma harvest_ok dt p w :
  WorldOK w -> InWorld (Probe.x p) (Probe.y p) ->
  exists p' w', harvest dt p w = Ret (p', w') /\
    WorldOK w' /\ same_but_cargo p p' /\
    systemInitialTotal w' = systemInitialTotal w /\
    (0 <= DNA.harvest (Probe.dna p) * dt ->
     systemRemainingTotal w' <= systemRemainingTotal w).
Proof.
  intros HO Hin. unfold harvest.
  assert (Hdone : exists p' w', Ret (p, w) = Ret (p', w') /\
    WorldOK w' /\ same_but_cargo p p' /\
    systemInitialTotal w' = systemInitialTotal w /\
    (0 <= DNA.harvest (Probe.dna p) * dt ->
     systemRemainingTotal w' <= systemRemainingTotal w)).
  { exists p, w. split; [reflexivity|]. split; [assumption|].
    split; [apply same_but_cargo_refl|]. split; [reflexivity|]. intros _. lra. }
  assert (Hdrop : exists p' w',
    harvestNearby dt (Probe.set_target (-1) p) w = Ret (p', w') /\
    WorldOK w' /\ same_but_cargo p p' /\
    systemInitialTotal w' = systemInitialTotal w /\
    (0 <= DNA.harvest (Probe.dna p) * dt ->
     systemRemainingTotal w' <= systemRemainingTotal w)).
  { destruct (harvestNearby_ok dt (Probe.set_target (-1) p) w HO Hin)
      as (p' & w' & Hrun & HO' & Hc & Hsi & Hsr).
    exists p', w'. split; [assumption|]. split; [assumption|].
    split; [|split; assumption].
    apply (same_but_cargo_trans p (Probe.set_target (-1) p) p');
      [apply same_but_cargo_set_target|assumption]. }
  destruct (Probe.dead p || Qleb dt 0); [assumption|].
  destruct (len (resourceActive w) <=? 0)%Z; [assumption|].
  destruct (Probe.target p >=? 0)%Z; [|now apply harvestNearby_ok].
  destruct (at_ (resources w) (Probe.target p)) as [r|]; [|assumption].
  destruct (Qgtb (amt r) 0.001); [|assumption].
  cbv zeta.
  destruct (Qleb _ _); [now apply _harvestFrom_ok|now apply harvestNearby_ok].
Qed.

End HarvestFacts.
(** ** One probe in one tick *)

Module ProbeFacts.
Import Geometry ProbeMethods SimSpec RangeFacts WorldFacts HarvestFacts.
Section WithMath.
Context `{MathLib}.

Ltac branches :=
  repeat match goal with
         | |- context [if ?c then _ else _] => destruct c
         | |- context [match ?c with Some _ => _ | None => _ end] => destruct c
         end.

Lemma clampVel_frame p ms :
  flags (clampVel p ms) = flags p /\ pos (clampVel p ms) = pos p.
Proof. unfold clampVel. branches; split; reflexivity. Qed.

Lemma thrust_frame ux uy a dt p :
  flags (thrust ux uy a dt p) = flags p /\ pos (thrust ux uy a dt p) = pos p.
Proof. split; reflexivity. Qed.

Lemma playerControl_frame dt keys m p :
  flags (playerControl dt keys m p) = flags p /\
  pos (playerControl dt keys m p) = pos p.
Proof.
  unfold playerControl. cbv zeta.
  rewrite (proj1 (clampVel_frame _ _)), (proj2 (clampVel_frame _ _)).
  branches; split; reflexivity.
Qed.

Lemma steerToWaypoint_frame dt p :
  flags (steerToWaypoint dt p) = flags p /\ pos (steerToWaypoint dt p) = pos p.
Proof.
  unfold steerToWaypoint. branches; cbv zeta;
    rewrite ?(proj1 (clampVel_frame _ _)), ?(proj2 (clampVel_frame _ _));
    split; reflexivity.
Qed.

Lemma chaseTarget_frame dt r p :
  flags (chaseTarget dt r p) = flags p /\ pos (chaseTarget dt r p) = pos p.
Proof.
  unfold chaseTarget. branches; cbv zeta;
    rewrite ?(proj1 (clampVel_frame _ _)), ?(proj2 (clampVel_frame _ _));
    split; reflexivity.
Qed.

Lemma wander_frame dt p g :
  flags (fst (wander dt p g)) = flags p /\
  pos (fst (wander dt p g)) = pos p /\
  (RngOK g -> RngOK (snd (wander dt p g))).
Proof.
  unfold wander, rand, Math_random.
  branches; cbn [fst snd];
    rewrite ?(proj1 (clampVel_frame _ _)), ?(proj2 (clampVel_frame _ _));
    (split; [reflexivity|]); (split; [reflexivity|]);
    intros Hg; try assumption; intros n; apply Hg.
Qed.

Lemma InWorld_pos p p' :
  pos p' = pos p -> InWorld (Probe.x p) (Probe.y p) ->
  InWorld (Probe.x p') (Probe.y p').
Proof. unfold pos. intros Heq. now inversion Heq. Qed.

Lemma Steered_wander dt p0 p g0 g :
  flags p = flags p0 -> pos p = pos p0 -> (RngOK g0 -> RngOK g) ->
  Steered p0 g0 (Ret (wander dt p g)).
Proof.
  intros Hf Hp Hg. destruct (wander_frame dt p g) as (Hf' & Hp' & Hg').
  exists (fst (wander dt p g)), (snd (wander dt p g)).
  split; [now destruct (wander dt p g)|].
  split; [congruence|]. split; [congruence|]. auto.
Qed.

Lemma radarWander_ok dt w p0 p g :
  WorldOK w -> InWorld (Probe.x p) (Probe.y p) ->
  flags p = flags p0 -> pos p = pos p0 ->
  Steered p0 g (radarWander dt w p g).
Proof.
  intros HO Hin Hf Hp. unfold radarWander. cbv zeta.
  destruct (Qleb _ 0).
  2:{ apply Steered_wander; auto. }
  match goal with |- context [radarPing w ?q] =>
    destruct (radarPing_ok w q HO Hin) as [found ->] end.
  cbn [mbind outcome_bind].
  destruct (found >=? 0)%Z.
  - unfold rand, Math_random. cbn. eexists _, _. split; [reflexivity|].
    split; [exact Hf|]. split; [exact Hp|]. intros Hg n. apply Hg.
  - unfold rand at 1 2 3, Math_random. cbn.
    apply Steered_wander; auto. intros Hg n. apply Hg.
Qed.

Lemma aiControl_ok dt w m p g :
  WorldOK w -> InWorld (Probe.x p) (Probe.y p) ->
  Steered p g (aiControl dt w m p g).
Proof.
  intros HO Hin. unfold aiControl. cbv zeta.
  destruct (masterActive m).
  { eexists _, _. split; [reflexivity|].
    rewrite (proj1 (steerToWaypoint_frame _ _)),
      (proj2 (steerToWaypoint_frame _ _)).
    split; [reflexivity|]. split; [reflexivity|]. auto. }
  cbn [Probe.target Probe.set_replCooldown].
  destruct (Probe.target p >=? 0)%Z;
    [|apply radarWander_ok; auto].
  destruct (at_ (World.resources w) (Probe.target p)) as [r|];
    [|apply radarWander_ok; auto].
  destruct (Qgtb (Resource.amt r) 0.001); [|apply radarWander_ok; auto].
  match goal with |- context [chaseTarget dt r ?q] =>
    destruct (chaseTarget_frame dt r q) as [Hf Hp] end.
  unfold flags, pos in Hf, Hp. cbn in Hf, Hp.
  inversion Hf as [[H1 H2 H3 H6]]. inversion Hp as [[H4 H5]].
  destruct (Qgtb _ _); eexists _, _; (split; [reflexivity|]);
    unfold flags, pos; cbn; rewrite ?H1, ?H2, ?H3, ?H4, ?H5, ?H6;
    (split; [reflexivity|]); (split; [reflexivity|]); auto.
Qed.

Lemma sacrificeBehavior_frame dt p :
  Probe.isPlayer (sacrificeBehavior dt p) = Probe.isPlayer p /\
  Probe.sacrificing (sacrificeBehavior dt p) = Probe.sacrificing p /\
  Probe.dna (sacrificeBehavior dt p) = Probe.dna p /\
  pos (sacrificeBehavior dt p) = pos p.
Proof.
  unfold sacrificeBehavior. cbv zeta.
  match goal with |- context [clampVel ?q0 _] => set (q := q0) end.
  assert (flags q = flags p /\ pos q = pos p) as [Hf Hp]
    by (subst q; branches; split; reflexivity).
  destruct (clampVel_frame q (DNA.maxSpeed (Probe.dna q) * 1.15)) as [Hf' Hp'].
  rewrite Hf in Hf'. rewrite Hp in Hp'. clearbody q.
  unfold flags, pos in Hf', Hp'.
  inversion Hf' as [[H1 H2 H3 H6]]. inversion Hp' as [[H4 H5]].
  destruct (Qleb _ 0); unfold pos; cbn; rewrite ?H1, ?H2, ?H4, ?H5, ?H6;
    repeat split; reflexivity.
Qed.

(** [update]: the probe ends the call inside the world, in its old role,
    dead only if it was sacrificing. *)
Lemma update_ok dt keys w m p g :
  WorldOK w -> InWorld (Probe.x p) (Probe.y p) ->
  exists p' g', update dt keys w m p g = Ret (p', g') /\
    InWorld (Probe.x p') (Probe.y p') /\ Aged p p' /\ (RngOK g -> RngOK g').
Proof.
  intros HO Hin. unfold update.
  destruct (Probe.dead p || Qleb dt 0) eqn:Hskip.
  { exists p, g. split; [reflexivity|]. split; [assumption|].
    split; [|auto]. repeat split. auto. }
  apply orb_false_elim in Hskip as [Hdead _].
  assert (Hmove : forall q g',
    (Probe.isPlayer q = Probe.isPlayer p /\
     Probe.sacrificing q = Probe.sacrificing p /\
     Probe.dna q = Probe.dna p /\
     (Probe.dead q = true -> Probe.sacrificing p = true)) ->
    (RngOK g -> RngOK g') ->
    exists p' g'',
      (let p0 := Probe.set_x (Probe.x q + Probe.vx q * dt) q in
       let p1 := Probe.set_y (Probe.y p0 + Probe.vy p0 * dt) p0 in
       let damp := DAMP_FACTOR in
       let p2 := Probe.set_vx (Probe.vx p1 * damp) p1 in
       let p3 := Probe.set_vy (Probe.vy p2 * damp) p2 in
       let p4 := Probe.set_x (wrap01Fast (Probe.x p3) WORLD_w) p3 in
       let p5 := Probe.set_y (wrap01Fast (Probe.y p4) WORLD_h) p4 in
       Ret (p5, g')) = Ret (p', g'') /\
      InWorld (Probe.x p') (Probe.y p') /\ Aged p p' /\ (RngOK g -> RngOK g'')).
  { intros q g' (Hq1 & Hq2 & Hq4 & Hq3) Hg'. eexists _, _. split; [reflexivity|].
    cbn. split; [apply InWorld_wrap|]. split; [|assumption].
    split; [assumption|]. split; [assumption|]. split; [assumption|]. auto. }
  destruct (Probe.sacrificing p) eqn:Hsac.
  - cbn [mbind outcome_bind].
    destruct (sacrificeBehavior_frame dt p) as (H1 & H2 & H3 & _).
    apply Hmove; [|auto]. rewrite Hsac in H2. auto.
  - destruct (Probe.isPlayer p) eqn:Hpl.
    + cbn [mbind outcome_bind].
      destruct (playerControl_frame dt keys m p) as [Hf _].
      unfold flags in Hf. inversion Hf as [[H1 H2 H3 H4]].
      apply Hmove; [|auto]. rewrite H1, H2, H3.
      split; [auto|]. split; [auto|]. split; [auto|]. congruence.
    + destruct (aiControl_ok dt w m p g HO Hin) as (q & g' & -> & Hf & _ & Hg').
      cbn [mbind outcome_bind].
      unfold flags in Hf. inversion Hf as [[H1 H2 H3 H4]].
      apply Hmove; [|auto]. rewrite H1, H2, H3.
      split; [auto|]. split; [auto|]. split; [auto|]. congruence.
Qed.

End WithMath.
End ProbeFacts.
(** ** The probe list in one tick *)

Module SimFacts.
Import Geometry ProbeMethods Engine SimSpec RangeFacts WorldFacts HarvestFacts
  ProbeFacts ReplicationSpec ReplicationFacts.

Lemma Aged_refl p : Aged p p.
Proof. repeat split. auto. Qed.

Lemma Aged_trans p1 p2 p3 : Aged p1 p2 -> Aged p2 p3 -> Aged p1 p3.
Proof.
  intros (A1 & A2 & A3 & A4) (B1 & B2 & B3 & B4).
  split; [congruence|]. split; [congruence|]. split; [congruence|].
  intros Hd. destruct (B4 Hd) as [Hd2|Hs2]; [auto|]. right. congruence.
Qed.

Lemma same_but_cargo_Aged p p' :
  same_but_cargo p p' -> Aged p p' /\ pos p' = pos p.
Proof.
  unfold same_but_cargo. intros ->. split; [|reflexivity].
  repeat split. auto.
Qed.

Lemma Forall2_Aged_refl ps : Forall2 Aged ps ps.
Proof. apply Forall_Forall2_diag, Forall_forall. intros; apply Aged_refl. Qed.

Lemma Forall2_Aged_trans ps1 ps2 ps3 :
  Forall2 Aged ps1 ps2 -> Forall2 Aged ps2 ps3 -> Forall2 Aged ps1 ps3.
Proof.
  intros H12. revert ps3. induction H12; intros ps3 H23; inversion H23; subst;
    constructor; eauto using Aged_trans.
Qed.

Lemma Forall2_Aged_insert ps i p p' :
  at_ ps i = Some p -> Aged p p' -> Forall2 Aged ps (<[Z.to_nat i := p']> ps).
Proof.
  intros [Hi Hp]%at_Some Ha. apply Forall2_same_length_lookup. split.
  - now rewrite length_insert.
  - intros j a b Hja Hjb. destruct (decide (j = Z.to_nat i)) as [->|Hne].
    + rewrite list_lookup_insert_eq in Hjb by (eapply lookup_lt_Some; eassumption).
      inversion Hjb; subst. rewrite Hp in Hja. now inversion Hja; subst.
    + rewrite list_lookup_insert_ne in Hjb by congruence.
      rewrite Hja in Hjb. inversion Hjb. apply Aged_refl.
Qed.

Lemma sacrificing_count_Aged ps ps' :
  Forall2 Aged ps ps' -> sacrificing_count ps' = sacrificing_count ps.
Proof.
  unfold sacrificing_count, len.
  induction 1 as [|p p' ps ps' (_ & Hs & _) _ IH]; [reflexivity|].
  simpl. rewrite Hs. destruct (Probe.sacrificing p); simpl; lia.
Qed.

Lemma Calm_Aged ps ps' : Forall2 Aged ps ps' -> Calm ps -> Calm ps'.
Proof.
  unfold Calm. induction 1 as [|p p' ps ps' (_ & Hs & _ & Hd) _ IH];
    intros HC; [constructor|].
  inversion HC as [|? ? [Hs0 Hd0] HC']; subst. constructor; [|auto].
  split; [congruence|].
  destruct (Probe.dead p') eqn:E; [|reflexivity].
  destruct (Hd eq_refl); congruence.
Qed.

(** The bookkeeping survives whatever ages the probes. *)
Lemma PhaseMid_Aged m ps ps' :
  Forall2 Aged ps ps' -> PhaseMid m ps -> PhaseMid m ps'.
Proof.
  intros HA. unfold PhaseMid.
  destruct (Master.state m); try (apply Calm_Aged; assumption).
  - intros [HF Hc]. split; [|now rewrite (sacrificing_count_Aged ps ps')].
    clear Hc. induction HA as [|p p' ps ps' (Hp & Hs & _ & Hd) _ IH];
      [constructor|].
    inversion HF as [|? ? [H1 H2] HF']; subst. constructor; [|auto].
    split.
    + intros Hd'. rewrite Hs. destruct (Hd Hd'); auto.
    + intros Hs'. rewrite Hp. apply H2. congruence.
  - intros [HC Hc]. split; [|assumption]. eapply Calm_Aged; eassumption.
Qed.

Lemma PhaseMid_master m m' ps :
  Master.state m' = Master.state m ->
  Master.sacrificed m' = Master.sacrificed m ->
  Master.toSacrifice m' = Master.toSacrifice m ->
  PhaseMid m ps -> PhaseMid m' ps.
Proof. unfold PhaseMid. intros -> -> ->. auto. Qed.

(** One probe is replaced by an aged one, and world and random source by
    sound ones. *)
Lemma SimMid_put s s' i p p' :
  SimMid s -> at_ (Sim.probes s) i = Some p ->
  Aged p p' -> InWorld (Probe.x p') (Probe.y p') ->
  Sim.probes s' = <[Z.to_nat i := p']> (Sim.probes s) ->
  Sim.master s' = Sim.master s ->
  WorldOK (Sim.world s') -> RngOK (Sim.rng s') ->
  SimMid s'.
Proof.
  intros HS Hp Ha Hin Hps Hm HO Hg. split; try assumption.
  - rewrite Hps. apply Forall_insert; [apply HS|assumption].
  - rewrite Hps, len_insert. apply HS.
  - rewrite Hps, Hm. eapply PhaseMid_Aged; [|apply HS].
    now apply (Forall2_Aged_insert _ i p).
Qed.

Section WithMath.
Context `{MathLib}.

(** The first loop. *)
Lemma update_loop_ok dt keys n : forall i s,
  SimMid s -> (0 <= i)%Z -> (i + Z.of_nat n = len (Sim.probes s))%Z ->
  exists s', update_loop n i dt keys s = Ret s' /\ SimMid s' /\
    Sim.world s' = Sim.world s /\ Sim.master s' = Sim.master s /\
    Forall2 Aged (Sim.probes s) (Sim.probes s').
Proof.
  induction n as [|n IH]; intros i s HS Hi Hlen.
  - exists s. split; [reflexivity|]. split; [assumption|].
    split; [reflexivity|]. split; [reflexivity|]. apply Forall2_Aged_refl.
  - cbn [update_loop].
    destruct (at_is_Some (Sim.probes s) i ltac:(lia)) as [p Hp].
    rewrite (get_at _ _ _ Hp). cbn [mbind outcome_bind].
    assert (InWorld (Probe.x p) (Probe.y p)) as Hin.
    { apply at_Some in Hp as [_ Hp].
      exact (proj1 (Forall_lookup _ _) (sim_probes s HS) _ _ Hp). }
    destruct (update_ok dt keys (Sim.world s) (Sim.master s) p (Sim.rng s)
                (sim_world s HS) Hin) as (p' & g' & -> & Hin' & Ha & Hg).
    cbn [mbind outcome_bind].
    rewrite put_Ret by (eapply at_in_range; eassumption).
    cbn [mbind outcome_bind].
    set (s1 := Sim.set_rng g' (Sim.set_probes _ s)).
    assert (SimMid s1) as HS1.
    { apply (SimMid_put s s1 i p p'); auto; try reflexivity.
      - apply HS. - apply Hg, HS. }
    destruct (IH (i + 1)%Z s1 HS1 ltac:(lia)) as (s' & Hrun & HS' & Hw & Hm & HA).
    { subst s1. cbn. rewrite len_insert. lia. }
    exists s'. split; [assumption|]. split; [assumption|].
    split; [now rewrite Hw|]. split; [now rewrite Hm|].
    eapply Forall2_Aged_trans; [|exact HA].
    now apply (Forall2_Aged_insert _ i p).
Qed.

(** The second loop: the world stays sound, the initial total is not
    touched, and the remaining total does not grow. *)
Lemma harvest_loop_ok dt n : forall i s,
  SimMid s -> (0 <= i)%Z -> (i + Z.of_nat n = len (Sim.probes s))%Z ->
  exists s', harvest_loop n i dt s = Ret s' /\ SimMid s' /\
    Sim.master s' = Sim.master s /\
    Forall2 Aged (Sim.probes s) (Sim.probes s') /\
    World.systemInitialTotal (Sim.world s')
      = World.systemInitialTotal (Sim.world s) /\
    (Forall (fun p => 0 <= DNA.harvest (Probe.dna p) * dt) (Sim.probes s) ->
     World.systemRemainingTotal (Sim.world s')
       <= World.systemRemainingTotal (Sim.world s)).
Proof.
  induction n as [|n IH]; intros i s HS Hi Hlen.
  - exists s. split; [reflexivity|]. split; [assumption|].
    split; [reflexivity|]. split; [apply Forall2_Aged_refl|].
    split; [reflexivity|]. intros _. lra.
  - cbn [harvest_loop].
    destruct (at_is_Some (Sim.probes s) i ltac:(lia)) as [p Hp].
    rewrite (get_at _ _ _ Hp). cbn [mbind outcome_bind].
    assert (InWorld (Probe.x p) (Probe.y p)) as Hin.
    { apply at_Some in Hp as [_ Hp].
      exact (proj1 (Forall_lookup _ _) (sim_probes s HS) _ _ Hp). }
    destruct (harvest_ok dt p (Sim.world s) (sim_world s HS) Hin)
      as (p' & w' & -> & HO' & Hc & Hsi & Hsr).
    cbn [mbind outcome_bind].
    rewrite put_Ret by (eapply at_in_range; eassumption).
    cbn [mbind outcome_bind].
    destruct (same_but_cargo_Aged p p' Hc) as [Ha Hpos].
    set (s1 := Sim.set_world w' (Sim.set_probes _ s)).
    assert (SimMid s1) as HS1.
    { apply (SimMid_put s s1 i p p'); auto; try reflexivity.
      - eapply InWorld_pos; eassumption.
      - apply HS. }
    destruct (IH (i + 1)%Z s1 HS1 ltac:(lia))
      as (s' & Hrun & HS' & Hm & HA & Hsi' & Hsr').
    { subst s1. cbn. rewrite len_insert. lia. }
    exists s'. split; [assumption|]. split; [assumption|].
    split; [now rewrite Hm|].
    split.
    { eapply Forall2_Aged_trans; [|exact HA].
      now apply (Forall2_Aged_insert _ i p). }
    split; [now rewrite Hsi'|].
    intros Hrate.
    assert (0 <= DNA.harvest (Probe.dna p) * dt) as Hp0.
    { apply at_Some in Hp as [_ Hp].
      exact (proj1 (Forall_lookup _ _) Hrate _ _ Hp). }
    apply Qle_trans with (World.systemRemainingTotal w'); [|auto].
    apply Hsr'. subst s1. cbn. apply Forall_insert; [assumption|].
    destruct Ha as (_ & _ & -> & _). assumption.
Qed.

(** A replication that went through keeps the invariant. *)
Lemma SimMid_Replicated cost i s s' :
  SimMid s -> Master.state (Sim.master s) = NORMAL ->
  (len (Sim.probes s) < HARD_PROBE_CAP)%Z ->
  Replicated cost i s s' ->
  SimMid s' /\ len (Sim.probes s') = (len (Sim.probes s) + 1)%Z.
Proof.
  intros HS Hst Hcap
    (this & parent & child & Hthis & Hps & _ & Hrest & _ & _ & Hcd & Hcs
     & Hw & Hm & Hin & Hrng).
  assert (Probe.x parent = Probe.x this /\ Probe.y parent = Probe.y this /\
          Probe.sacrificing parent = Probe.sacrificing this /\
          Probe.dead parent = Probe.dead this) as (Hx & Hy & Hs & Hd).
  { split; [exact (f_equal Probe.x Hrest)|].
    split; [exact (f_equal Probe.y Hrest)|].
    split; [exact (f_equal Probe.sacrificing Hrest)|].
    exact (f_equal Probe.dead Hrest). }
  pose proof Hthis as [_ Hlk]%at_Some.
  assert (len (Sim.probes s') = (len (Sim.probes s) + 1)%Z) as Hlen.
  { rewrite Hps, len_app, len_insert. reflexivity. }
  split; [|assumption]. split.
  - rewrite Hw. apply HS.
  - rewrite Hps. apply Forall_app. split; [|now constructor].
    apply Forall_insert; [apply HS|]. rewrite Hx, Hy.
    exact (proj1 (Forall_lookup _ _) (sim_probes s HS) _ _ Hlk).
  - lia.
  - apply Hrng, HS.
  - pose proof (sim_phase s HS) as HP. unfold PhaseMid in *.
    rewrite Hm, Hst. rewrite Hst in HP. unfold Calm in *.
    rewrite Hps. apply Forall_app. split; [|now constructor].
    apply Forall_insert; [assumption|]. rewrite Hs, Hd.
    exact (proj1 (Forall_lookup _ _) HP _ _ Hlk).
Qed.

(** The third loop returns within the turns it is given: the list grows by
    at most one probe a turn, and not beyond the cap. *)
Lemma replicate_loop_ok dt fuel : forall i s,
  SimMid s -> Master.state (Sim.master s) = NORMAL ->
  (0 <= i <= len (Sim.probes s))%Z ->
  (HARD_PROBE_CAP - i < Z.of_nat fuel)%Z ->
  exists s', replicate_loop fuel i dt s = Ret s' /\ SimMid s' /\
    Sim.world s' = Sim.world s /\ Sim.master s' = Sim.master s.
Proof.
  induction fuel as [|fuel IH]; intros i s HS Hst Hi Hfuel.
  { pose proof (sim_cap s HS). lia. }
  cbn [replicate_loop].
  destruct (Z.ltb_spec i (len (Sim.probes s))) as [Hlt|Hge].
  2:{ exists s. repeat split; auto; apply HS. }
  destruct (at_is_Some (Sim.probes s) i ltac:(lia)) as [this Hthis].
  assert (Hsame : exists s', replicate_loop fuel (i + 1) dt s = Ret s' /\
            SimMid s' /\ Sim.world s' = Sim.world s /\
            Sim.master s' = Sim.master s).
  { apply IH; auto; lia. }
  destruct (Z.le_gt_cases HARD_PROBE_CAP (len (Sim.probes s))) as [Hfull|Hroom].
  { rewrite (tryAutoReplicate_dropped dt i s this Hthis) by auto.
    exact Hsame. }
  destruct (tryAutoReplicate_cases dt i s this Hthis)
    as [->|(_ & s1 & -> & Hrep)]; [exact Hsame|].
  cbn [mbind outcome_bind].
  destruct (SimMid_Replicated _ i s s1 HS Hst Hroom Hrep) as [HS1 Hlen1].
  destruct Hrep as (? & ? & ? & _ & _ & _ & _ & _ & _ & _ & _ & Hw & Hm & _).
  destruct (IH (i + 1)%Z s1 HS1) as (s' & Hrun & HS' & Hw' & Hm').
  - now rewrite Hm.
  - lia.
  - lia.
  - exists s'. split; [assumption|]. split; [assumption|].
    split; congruence.
Qed.

(** The three loops together. *)
Lemma probe_loops_ok dt keys s :
  SimMid s ->
  exists c, probe_loops dt keys s = Ret c /\ SimMid c /\
    Sim.master c = Sim.master s /\
    World.systemInitialTotal (Sim.world c)
      = World.systemInitialTotal (Sim.world s) /\
    (Forall (fun p => 0 <= DNA.harvest (Probe.dna p) * dt) (Sim.probes s) ->
     World.systemRemainingTotal (Sim.world c)
       <= World.systemRemainingTotal (Sim.world s)) /\
    (Master.state (Sim.master s) <> NORMAL ->
     Forall2 Aged (Sim.probes s) (Sim.probes c)).
Proof.
  intros HS. unfold probe_loops.
  destruct (update_loop_ok dt keys (length (Sim.probes s)) 0 s HS)
    as (s1 & -> & HS1 & Hw1 & Hm1 & HA1); [lia|unfold len; lia|].
  cbn [mbind outcome_bind].
  destruct (harvest_loop_ok dt (length (Sim.probes s1)) 0 s1 HS1)
    as (s2 & -> & HS2 & Hm2 & HA2 & Hsi & Hsr); [lia|unfold len; lia|].
  cbn [mbind outcome_bind].
  assert (Hrates :
    Forall (fun p => 0 <= DNA.harvest (Probe.dna p) * dt) (Sim.probes s) ->
    World.systemRemainingTotal (Sim.world s2)
      <= World.systemRemainingTotal (Sim.world s)).
  { intros Hr. rewrite <- Hw1. apply Hsr. clear -Hr HA1.
    induction HA1 as [|p p' ps ps' (_ & _ & Hd & _) _ IH]; [constructor|].
    inversion Hr; subst. constructor; [now rewrite Hd|auto]. }
  destruct (Master.state (Sim.master s2)) eqn:Hst; cbn [is_NORMAL].
  1:{ destruct (replicate_loop_ok dt (replicate_fuel s2) 0 s2 HS2 Hst)
        as (c & -> & HSc & Hwc & Hmc).
      { unfold len. lia. }
      { unfold replicate_fuel. lia. }
      exists c. split; [reflexivity|]. split; [assumption|].
      split; [congruence|]. split; [rewrite Hwc; congruence|].
      split; [rewrite Hwc; assumption|].
      intros Hne. exfalso. apply Hne. congruence. }
  all: exists s2; (split; [reflexivity|]); (split; [assumption|]);
    (split; [congruence|]); (split; [congruence|]);
    (split; [assumption|]); intros _;
    eapply Forall2_Aged_trans; eassumption.
Qed.

End WithMath.

(** *** [purgeSacrificed] *)

Lemma purge_loop_spec ps0 n : forall i w died probes,
  len probes = len ps0 -> (0 <= w <= i)%Z ->
  (i + Z.of_nat n = len ps0)%Z ->
  take (Z.to_nat w) probes = List.filter alive (take (Z.to_nat i) ps0) ->
  drop (Z.to_nat i) probes = drop (Z.to_nat i) ps0 ->
  died = (i - w)%Z ->
  exists probes' w',
    purge_loop n i w died probes = Ret (probes', w', (len ps0 - w')%Z) /\
    len probes' = len ps0 /\ (0 <= w' <= len ps0)%Z /\
    take (Z.to_nat w') probes' = List.filter alive ps0.
Proof.
  induction n as [|n IH]; intros i w died probes Hlen Hw Hi Htake Hdrop ->.
  - exists probes, w. cbn [purge_loop].
    assert (i = len ps0) as -> by lia.
    split; [reflexivity|]. split; [assumption|]. split; [lia|].
    rewrite Htake. now rewrite firstn_all2 by (unfold len; lia).
  - cbn [purge_loop].
    destruct (at_is_Some ps0 i ltac:(lia)) as [p Hp].
    pose proof Hp as [_ Hlk]%at_Some.
    assert (at_ probes i = Some p) as Hp'.
    { apply at_Some. split; [lia|].
      rewrite <- (Nat.add_0_r (Z.to_nat i)), <- lookup_drop, Hdrop, lookup_drop.
      now rewrite Nat.add_0_r. }
    rewrite (get_at _ _ _ Hp'). cbn [mbind outcome_bind].
    assert (Z.to_nat (i + 1) = S (Z.to_nat i)) as Hi1 by lia.
    assert (take (Z.to_nat (i + 1)) ps0 = take (Z.to_nat i) ps0 ++ [p]) as Ht1.
    { rewrite Hi1. now apply take_S_r. }
    assert (Hd1 : forall l : list Probe.T,
              drop (S (Z.to_nat i)) l = drop 1 (drop (Z.to_nat i) l)).
    { intros l. rewrite drop_drop. f_equal. lia. }
    destruct (Probe.dead p) eqn:Hdead.
    + destruct (IH (i + 1)%Z w (i - w + 1)%Z probes) as (probes' & w' & Hrun & H');
        try assumption; try lia.
      * rewrite Ht1, List.filter_app. cbn. unfold alive at 2. rewrite Hdead.
        cbn. now rewrite app_nil_r.
      * rewrite Hi1, !Hd1. now rewrite Hdrop.
      * exists probes', w'. split; assumption.
    + rewrite put_Ret by lia. cbn [mbind outcome_bind].
      destruct (IH (i + 1)%Z (w + 1)%Z (i - w)%Z (<[Z.to_nat w := p]> probes))
        as (probes' & w' & Hrun & H'); try lia.
      * now rewrite len_insert.
      * assert (Z.to_nat (w + 1) = S (Z.to_nat w)) as -> by lia.
        rewrite (take_S_r _ _ p)
          by (apply list_lookup_insert_eq; unfold len in *; lia).
        rewrite take_insert_ge by lia. rewrite Htake, Ht1, List.filter_app.
        cbn. unfold alive at 3. now rewrite Hdead.
      * rewrite Hi1. rewrite drop_insert_lt by lia.
        rewrite !Hd1. now rewrite Hdrop.
      * exists probes', w'. split; assumption.
Qed.

(** [purgeSacrificed] keeps the living probes, in order, and adds the
    number of the dead to [master.sacrificed]. *)
Lemma purgeSacrificed_run s :
  exists s', purgeSacrificed s = Ret s' /\
    Sim.probes s' = List.filter alive (Sim.probes s) /\
    Sim.world s' = Sim.world s /\ Sim.rng s' = Sim.rng s /\
    Sim.systemIndex s' = Sim.systemIndex s /\
    Master.state (Sim.master s') = Master.state (Sim.master s) /\
    Master.toSacrifice (Sim.master s') = Master.toSacrifice (Sim.master s) /\
    Master.sacrificed (Sim.master s')
      = (Master.sacrificed (Sim.master s)
         + (len (Sim.probes s) - len (List.filter alive (Sim.probes s))))%Z.
Proof.
  unfold purgeSacrificed.
  destruct (purge_loop_spec (Sim.probes s) (length (Sim.probes s)) 0 0 0
              (Sim.probes s))
    as (probes' & w' & -> & Hlen & Hw & Htake);
    try reflexivity; try (unfold len; lia).
  cbn [mbind outcome_bind].
  assert (len (List.filter alive (Sim.probes s)) = w') as Hw'.
  { rewrite <- Htake. unfold len in *. rewrite length_take. lia. }
  destruct (Z.gtb_spec (len (Sim.probes s) - w') 0) as [Hdied|Hnone].
  - eexists. split; [reflexivity|]. cbn. rewrite Htake.
    repeat split. unfold len in *. lia.
  - eexists. split; [reflexivity|]. cbn.
    assert (probes' = List.filter alive (Sim.probes s)) as ->.
    { rewrite <- Htake. rewrite firstn_all2; [reflexivity|].
      unfold len in *. lia. }
    repeat split. unfold len in *. lia.
Qed.

Lemma filter_alive_dead ps :
  Forall (fun p => Probe.dead p = false) (List.filter alive ps).
Proof.
  apply Forall_forall. intros p Hp%list_elem_of_In%filter_In.
  destruct Hp as [_ Hp]. unfold alive in Hp. now destruct (Probe.dead p).
Qed.

Lemma filter_alive_sub (P : Probe.T -> Prop) ps :
  Forall P ps -> Forall P (List.filter alive ps).
Proof.
  rewrite !Forall_forall. intros HP p Hp%list_elem_of_In%filter_In.
  apply HP, list_elem_of_In, Hp.
Qed.

Lemma filter_alive_len ps : (len (List.filter alive ps) <= len ps)%Z.
Proof. unfold len. pose proof (List.filter_length_le alive ps). lia. Qed.

Lemma filter_alive_Calm ps : Calm ps -> List.filter alive ps = ps.
Proof.
  unfold Calm. induction 1 as [|p ps [_ Hd] _ IH]; [reflexivity|].
  cbn. change (alive p) with (negb (Probe.dead p)). rewrite Hd. cbn.
  now rewrite IH.
Qed.

Lemma filter_alive_count ps :
  Forall (fun p => Probe.dead p = true -> Probe.sacrificing p = true) ps ->
  (sacrificing_count (List.filter alive ps)
   + (len ps - len (List.filter alive ps)) = sacrificing_count ps)%Z.
Proof.
  unfold sacrificing_count, len.
  induction 1 as [|p ps Hp _ IH]; [reflexivity|].
  cbn [List.filter length]. change (alive p) with (negb (Probe.dead p)).
  destruct (Probe.dead p) eqn:Hd; cbn [negb List.filter length].
  - rewrite (Hp eq_refl). cbn [length]. lia.
  - destruct (Probe.sacrificing p); cbn [length]; lia.
Qed.

(** After the purge the invariant of the tick boundary holds. *)
Lemma purgeSacrificed_ok s :
  SimMid s ->
  exists s', purgeSacrificed s = Ret s' /\ SimOK s' /\
    Sim.probes s' = List.filter alive (Sim.probes s) /\
    Sim.world s' = Sim.world s /\
    Sim.systemIndex s' = Sim.systemIndex s /\
    Master.state (Sim.master s') = Master.state (Sim.master s) /\
    Master.toSacrifice (Sim.master s') = Master.toSacrifice (Sim.master s) /\
    Master.sacrificed (Sim.master s')
      = (Master.sacrificed (Sim.master s)
         + (len (Sim.probes s) - len (List.filter alive (Sim.probes s))))%Z.
Proof.
  intros HS.
  destruct (purgeSacrificed_run s)
    as (s' & Hrun & Hps & Hw & Hg & Hidx & Hst & Hto & Hsac).
  exists s'. split; [assumption|]. split; [|repeat split; assumption].
  split; [|rewrite Hps; apply filter_alive_dead].
  split.
  - rewrite Hw. apply HS.
  - rewrite Hps. apply filter_alive_sub, HS.
  - rewrite Hps. pose proof (filter_alive_len (Sim.probes s)).
    pose proof (sim_cap s HS). lia.
  - rewrite Hg. apply HS.
  - pose proof (sim_phase s HS) as HP. unfold PhaseMid in *.
    rewrite Hst, Hps, Hto, Hsac.
    destruct (Master.state (Sim.master s));
      try (rewrite (filter_alive_Calm _ HP); exact HP).
    + destruct HP as [HF Hc]. split; [now apply filter_alive_sub|].
      rewrite <- Hc.
      rewrite <- (filter_alive_count (Sim.probes s)); [lia|].
      eapply Forall_impl; [exact HF|]. cbn. tauto.
    + destruct HP as [HC Hc]. rewrite (filter_alive_Calm _ HC).
      split; [assumption|]. lia.
Qed.

End SimFacts.
(** ** Spawning a system *)

Module SpawnFacts.
Import Geometry Resource World Pool PoolSpec PoolFacts Engine SimSpec RangeFacts
  WorldFacts HarvestFacts.

Lemma res_push w r i r0 :
  res (set_resources (resources w ++ [r]) w) i = Some r0 ->
  (i < len (resources w))%Z /\ res w i = Some r0 \/
  i = len (resources w) /\ r0 = r.
Proof.
  unfold res. cbn. intros Hi. pose proof (at_in_range _ _ _ Hi) as Hr.
  rewrite len_app in Hr. change (len [r]) with 1%Z in Hr.
  destruct (Z.ltb_spec i (len (resources w))) as [Hlt|Hge].
  - left. split; [assumption|]. now rewrite at_app_l in Hi.
  - right. assert (i = len (resources w)) as -> by lia.
    rewrite at_app_last in Hi. split; [reflexivity|]. now inversion Hi.
Qed.

Lemma res_push_old w r i r0 :
  res w i = Some r0 -> res (set_resources (resources w ++ [r]) w) i = Some r0.
Proof.
  unfold res. cbn. intros Hi. pose proof (at_in_range _ _ _ Hi).
  now rewrite at_app_l by lia.
Qed.

(** A resource that is pushed, inactive and with no back-references,
    leaves the pool consistent. *)
Lemma PoolOK_push w r :
  PoolOK w -> active r = false -> (_gridCell r < 0)%Z ->
  (exists cell,
     at_ (resGrid w) (cellIndexForPos w (Resource.x r) (Resource.y r))
       = Some cell) ->
  PoolOK (set_resources (resources w ++ [r]) w).
Proof.
  intros HP Hin Hgc Hcell. set (w' := set_resources _ w).
  assert (Hold : forall i r0, res w' i = Some r0 ->
            res w i = Some r0 \/ r0 = r).
  { intros i r0 Hi. destruct (res_push w r i r0 Hi) as [[_ ?]|[_ ?]]; auto. }
  destruct HP as [[G1 G2 G3 G4] P2 P3 P4 P5].
  split; [split|..].
  - intros i r0 Hi. destruct (Hold i r0 Hi) as [Hi0| ->]; [|exact Hcell].
    exact (G1 i r0 Hi0).
  - intros ci gi i Hcg. destruct (G2 ci gi i Hcg) as (r0 & Hr0 & Hrest).
    exists r0. split; [now apply res_push_old|assumption].
  - intros i r0 Hi Hc. destruct (Hold i r0 Hi) as [Hi0| ->]; [|lia].
    exact (G3 i r0 Hi0 Hc).
  - intros i r0 Hi Hc. destruct (Hold i r0 Hi) as [Hi0| ->]; [|lia].
    exact (G4 i r0 Hi0 Hc).
  - intros i r0 Hi Ha. destruct (Hold i r0 Hi) as [Hi0| ->]; [|congruence].
    exact (P2 i r0 Hi0 Ha).
  - intros i r0 Hi Ha. destruct (Hold i r0 Hi) as [Hi0| ->]; [|assumption].
    exact (P3 i r0 Hi0 Ha).
  - intros k i Hk. destruct (P4 k i Hk) as (r0 & Hr0 & Hrest).
    exists r0. split; [now apply res_push_old|assumption].
  - intros i r0 Hi Ha. destruct (Hold i r0 Hi) as [Hi0| ->]; [|congruence].
    exact (P5 i r0 Hi0 Ha).
Qed.

Lemma pick_loop_last clusters r :
  clusters <> [] ->
  exists c, match pick_loop clusters r with
            | Some c => Some c
            | None => last clusters
            end = Some c.
Proof.
  intros Hne. destruct (pick_loop clusters r) as [c|]; [eauto|].
  destruct (last clusters) as [c|] eqn:Hl; [eauto|].
  apply last_None in Hl. contradiction.
Qed.

Section WithMath.
Context `{MathLib}.

Lemma pickWeightedCluster_ok clusters g :
  clusters <> [] ->
  exists c g', pickWeightedCluster clusters g = (Some c, g') /\
    (RngOK g -> RngOK g').
Proof.
  intros Hne. unfold pickWeightedCluster. cbv zeta.
  match goal with |- context [rand 0 ?b g] =>
    pose proof (rand_RngOK 0 b g) as Hr;
    destruct (rand 0 b g) as [r g'] end.
  destruct (pick_loop_last clusters r Hne) as [c ->].
  exists c, g'. split; [reflexivity|]. exact Hr.
Qed.

(** [makeResource]: an inactive resource somewhere in the world, full. *)
Lemma makeResource_ok id kind clusters g :
  RngOK g ->
  exists r g', makeResource id kind clusters g = Ret (r, g') /\
    active r = false /\ _gridCell r = (-1)%Z /\
    InWorld (Resource.x r) (Resource.y r) /\
    amt r = maxAmt r /\ 0 <= amt r /\ RngOK g'.
Proof.
  intros Hg. unfold makeResource. cbv zeta.
  assert (Hfill : forall x y g1, InWorld x y -> RngOK g1 ->
    exists r g',
      (let '(maxAmt, g0) :=
         if (kind =? 0)%Z then rand 18 110 g1 else rand 140 420 g1 in
       Ret (Resource.mk id kind x y maxAmt maxAmt
              (RESOURCE_BASE_R
               + sqrt maxAmt * (if (kind =? 0)%Z then 0.52 else 0.62))
              false (-1) (-1) (-1) (-1), g0)) = Ret (r, g') /\
      active r = false /\ _gridCell r = (-1)%Z /\
      InWorld (Resource.x r) (Resource.y r) /\
      amt r = maxAmt r /\ 0 <= amt r /\ RngOK g').
  { intros x y g1 Hin Hg1.
    destruct (kind =? 0)%Z.
    - destruct (rand 18 110 g1) as [m g2] eqn:E.
      destruct (rand_ok _ _ _ _ _ E Hg1 ltac:(lra)) as ([Hlo _] & _ & Hg2).
      eexists _, _. split; [reflexivity|]. cbn.
      do 2 (split; [reflexivity|]). split; [exact Hin|].
      split; [reflexivity|]. split; [lra|assumption].
    - destruct (rand 140 420 g1) as [m g2] eqn:E.
      destruct (rand_ok _ _ _ _ _ E Hg1 ltac:(lra)) as ([Hlo _] & _ & Hg2).
      eexists _, _. split; [reflexivity|]. cbn.
      do 2 (split; [reflexivity|]). split; [exact Hin|].
      split; [reflexivity|]. split; [lra|assumption]. }
  assert (Hfree : forall g1, RngOK g1 ->
    exists x y g2,
      (let '(x, g0) := rand 0 WORLD_w g1 in
       let '(y, g3) := rand 0 WORLD_h g0 in
       @Ret (Q * Q * Rng) (x, y, g3)) = Ret (x, y, g2) /\
      InWorld x y /\ RngOK g2).
  { intros g1 Hg1.
    destruct (rand 0 WORLD_w g1) as [x g2] eqn:Ex.
    destruct (rand_ok _ _ _ _ _ Ex Hg1 ltac:(unfold WORLD_w; lra))
      as ([Hx0 _] & Hx1 & Hg2).
    destruct (rand 0 WORLD_h g2) as [y g3] eqn:Ey.
    destruct (rand_ok _ _ _ _ _ Ey Hg2 ltac:(unfold WORLD_h; lra))
      as ([Hy0 _] & Hy1 & Hg3).
    exists x, y, g3. split; [reflexivity|]. split; [|assumption].
    split; split; auto; [apply Hx1|apply Hy1]; reflexivity. }
  destruct (Z.eqb_spec (len clusters) 0) as [Hz|Hnz].
  { cbn [negb].
    destruct (Hfree g Hg) as (x & y & g2 & -> & Hin & Hg2).
    cbn [mbind outcome_bind]. now apply Hfill. }
  destruct (Math_random g) as [u g1] eqn:Eu.
  destruct (Math_random_ok _ _ _ Eu Hg) as [_ Hg1].
  destruct (Qltb u _); cbn [negb].
  2:{ destruct (Hfree g1 Hg1) as (x & y & g2 & -> & Hin & Hg2).
      cbn [mbind outcome_bind]. now apply Hfill. }
  destruct (pickWeightedCluster_ok clusters g1) as (c & g2 & -> & Hg2).
  { intros ->. now apply Hnz. }
  destruct (randomGaussian g2) as [n1 g3] eqn:E1.
  destruct (randomGaussian g3) as [n2 g4] eqn:E2.
  cbn [mbind outcome_bind]. apply Hfill; [apply InWorld_wrap|].
  eapply randomGaussian_ok; [eassumption|].
  eapply randomGaussian_ok; [eassumption|]. auto.
Qed.

Lemma make_clusters_ok n : forall g,
  RngOK g -> RngOK (snd (make_clusters n g)).
Proof.
  induction n as [|n IH]; intros g Hg; [exact Hg|].
  cbn [make_clusters].
  destruct (rand 0 WORLD_w g) as [x g1] eqn:E1.
  destruct (rand 0 WORLD_h g1) as [y g2] eqn:E2.
  destruct (rand CLUSTER_SPREAD_MIN CLUSTER_SPREAD_MAX g2) as [sp g3] eqn:E3.
  destruct (rand 0.6 1.6 g3) as [wt g4] eqn:E4.
  pose proof (rand_RngOK 0 WORLD_w g Hg) as H1. rewrite E1 in H1.
  pose proof (rand_RngOK 0 WORLD_h g1 H1) as H2. rewrite E2 in H2.
  pose proof (rand_RngOK CLUSTER_SPREAD_MIN CLUSTER_SPREAD_MAX g2 H2) as H3.
  rewrite E3 in H3.
  pose proof (rand_RngOK 0.6 1.6 g3 H3) as H4. rewrite E4 in H4.
  specialize (IH g4 H4). destruct (make_clusters n g4) as [rest g5].
  exact IH.
Qed.

Lemma amt_ext rs rs' :
  Forall2 (fun r r' => amt r' = amt r) rs rs' ->
  sum_amt rs' = sum_amt rs /\
  (Forall (fun r => 0 <= amt r) rs -> Forall (fun r => 0 <= amt r) rs').
Proof.
  induction 1 as [|r r' rs rs' Hr _ [IHs IHn]].
  - split; auto.
  - split.
    + simpl. now rewrite Hr, IHs.
    + intros Hn. inversion Hn; subst. constructor; [now rewrite Hr|auto].
Qed.

(** One turn of a resource loop of [spawnSystem]. *)
Lemma spawn_loop_ok kind clusters n : forall id w g,
  Spawning w -> RngOK g ->
  exists id' w' g', spawn_loop n kind clusters id w g = Ret (id', w', g') /\
    Spawning w' /\ RngOK g'.
Proof.
  induction n as [|n IH]; intros id w g HS Hg.
  { exists id, w, g. auto. }
  cbn [spawn_loop].
  destruct (makeResource_ok id kind clusters g Hg)
    as (r & g1 & -> & Hact & Hgc & Hin & Hfull & Hnn & Hg1).
  cbn [mbind outcome_bind].
  set (idx := len (resources w)).
  set (r1 := set__arrIndex idx r).
  set (w1 := set_resources (resources w ++ [r1]) w).
  assert (PoolOK w1) as HP1.
  { apply PoolOK_push.
    - apply HS.
    - exact Hact.
    - change (_gridCell r1) with (_gridCell r). lia.
    - apply at_is_Some. rewrite (spawn_grid_len w HS).
      apply cellIndexForPos_valid; [apply HS|apply HS|exact Hin]. }
  assert (res w1 idx = Some r1) as Hr1 by apply at_app_last.
  destruct (activateResource_ok w1 idx r1 HP1 Hr1 Hact)
    as (w2 & r2 & -> & HP2 & Hr2 & _ & _ & Hamt & _ & Hoth & _ & HW & HH & HG
        & HL & Hsi & _).
  cbn [mbind outcome_bind].
  assert (Forall2 (fun r r' => amt r' = amt r) (resources w1) (resources w2))
    as Hext.
  { apply Forall2_of_at; [assumption|]. intros j a Ha.
    destruct (Z.eq_dec j idx) as [->|Hne].
    - exists r2. split; [exact Hr2|].
      unfold res in Hr1. rewrite Hr1 in Ha. inversion Ha; subst a. exact Hamt.
    - exists a. split; [|reflexivity]. unfold res in Hoth. now rewrite Hoth. }
  destruct (amt_ext _ _ Hext) as [Hsum Hnn'].
  apply IH; [|assumption].
  split.
  - eapply PoolOK_ext; [..|exact HP2]; try reflexivity.
    + intros j r' Hj. exists r'. split; [assumption|]. repeat split.
    + intros j r' Hj. exists r'. assumption.
  - cbn. rewrite HW. apply HS.
  - cbn. rewrite HH. apply HS.
  - cbn. rewrite HG. apply HS.
  - cbn. apply Hnn'. apply Forall_app. split; [apply HS|].
    constructor; [exact Hnn|constructor].
  - change (systemInitialTotal w2 + maxAmt r1 == sum_amt (resources w2)).
    rewrite Hsum, Hsi.
    change (systemInitialTotal w + maxAmt r == sum_amt (resources w ++ [r1])).
    rewrite sum_amt_app, (spawn_total w HS).
    change (sum_amt [r1]) with (amt r + 0). rewrite <- Hfull. ring.
Qed.

(** [spawnSystem]: the call returns a sound world in which
    [systemRemainingTotal] is exactly the sum of the amounts. *)
Lemma spawnSystem_ok w g :
  RngOK g ->
  exists w' g', spawnSystem w g = Ret (w', g') /\
    WorldOK w' /\ RngOK g' /\
    systemRemainingTotal w' == sum_amt (resources w') /\
    systemRemainingTotal w' = systemInitialTotal w'.
Proof.
  intros Hg. unfold spawnSystem. cbv zeta.
  match goal with |- context [rand ?a ?b g] =>
    pose proof (rand_RngOK a b g Hg) as Hg1;
    destruct (rand a b g) as [c g1] end.
  cbn [snd] in Hg1.
  pose proof (make_clusters_ok (Z.to_nat (P5.floor c)) g1 Hg1) as Hg2.
  destruct (make_clusters _ g1) as [clusters g2]. cbn [snd] in Hg2.
  match goal with |- context [spawn_loop _ _ _ _ ?w0 _] => set (w0' := w0) end.
  assert (Spawning w0') as HS0.
  { split; try reflexivity; [|constructor].
    apply PoolOK_fresh.
    - reflexivity.
    - intros ci cell [_ Hc]%at_Some.
      change (resGrid w0') with (replicate (Z.to_nat (35 * 35)) (@nil Z)) in Hc.
      now apply lookup_replicate in Hc as [-> _].
    - intros i r Hr. unfold res in Hr. cbn in Hr. unfold at_ in Hr.
      destruct (i <? 0)%Z; discriminate. }
  destruct (spawn_loop_ok 0 clusters NUM_RES_COMMON 0 w0' g2 HS0 Hg2)
    as (id1 & w1 & g3 & -> & HS1 & Hg3).
  cbn [mbind outcome_bind].
  destruct (spawn_loop_ok 1 clusters NUM_RES_RICH id1 w1 g3 HS1 Hg3)
    as (id2 & w2 & g4 & -> & HS2 & Hg4).
  cbn [mbind outcome_bind].
  eexists _, _. split; [reflexivity|].
  split; [|split; [assumption|split; [|reflexivity]]].
  - split.
    + eapply PoolOK_ext; [..|exact (spawn_pool w2 HS2)]; try reflexivity.
      * intros j r' Hj. exists r'. split; [assumption|]. repeat split.
      * intros j r' Hj. exists r'. assumption.
    + apply HS2.
    + apply HS2.
    + apply HS2.
    + reflexivity.
    + reflexivity.
    + pose proof (spawn_total w2 HS2) as Ht. split.
      * apply HS2.
      * change (sum_amt (resources w2) <= systemInitialTotal w2). lra.
      * change (systemInitialTotal w2
                <= sum_amt (resources w2)
                   + 0.001 * inject_Z (exhausted (resources w2))).
        pose proof (exhausted_nonneg (resources w2)) as He.
        assert (0 <= inject_Z (exhausted (resources w2))) as He'.
        { change 0 with (inject_Z 0). now rewrite <- Zle_Qle. }
        nra.
  - exact (spawn_total w2 HS2).
Qed.

End WithMath.
End SpawnFacts.
(** ** The Master AI *)

Module BuildFacts.
Import Geometry ProbeMethods Selection Engine SimSpec RangeFacts SimFacts
  SelectSpec SelectFacts SelectionSpec SelectionFacts.

(** *** The candidates *)

Lemma collect_ai_spec ps : forall i r,
  r ∈ collect_ai ps i ->
  (i <= r)%nat /\
  exists p, ps !! (r - i)%nat = Some p /\
    Probe.isPlayer p = false /\ Probe.dead p = false.
Proof.
  induction ps as [|p ps IH]; intros i r Hr; [inversion Hr|].
  cbn [collect_ai] in Hr.
  assert (Hrest : r ∈ collect_ai ps (S i) ->
    (i <= r)%nat /\
    exists p0, (p :: ps) !! (r - i)%nat = Some p0 /\
      Probe.isPlayer p0 = false /\ Probe.dead p0 = false).
  { intros Hr'. destruct (IH (S i) r Hr') as (Hle & p0 & Hp0 & Hf).
    split; [lia|]. exists p0. split; [|assumption].
    replace (r - i)%nat with (S (r - S i)) by lia. exact Hp0. }
  destruct (negb (Probe.isPlayer p) && negb (Probe.dead p)) eqn:Hp; [|auto].
  apply elem_of_cons in Hr as [->|Hr]; [|auto].
  split; [lia|]. exists p. rewrite Nat.sub_diag. split; [reflexivity|].
  apply andb_prop in Hp as [H1 H2].
  now destruct (Probe.isPlayer p), (Probe.dead p).
Qed.

Lemma collect_ai_NoDup ps : forall i, NoDup (collect_ai ps i).
Proof.
  induction ps as [|p ps IH]; intros i; [constructor|].
  cbn [collect_ai]. destruct (_ && _); [|apply IH].
  constructor; [|apply IH]. intros Hin.
  apply collect_ai_spec in Hin as [Hle _]. lia.
Qed.

Lemma collect_ai_len ps : forall i, len (collect_ai ps i) = ai_count ps.
Proof.
  unfold ai_count, len. induction ps as [|p ps IH]; intros i; [reflexivity|].
  cbn [collect_ai List.filter]. destruct (_ && _); cbn [length];
    rewrite ?Nat2Z.inj_succ, (IH (S i)); reflexivity.
Qed.

Lemma collect_ai_valid ps r :
  r ∈ collect_ai ps 0 ->
  exists p, ps !! r = Some p /\
    Probe.isPlayer p = false /\ Probe.dead p = false.
Proof.
  intros Hr. apply collect_ai_spec in Hr as (_ & p & Hp & Hf).
  rewrite Nat.sub_0_r in Hp. eauto.
Qed.

(** The tenth of the candidates. *)
Lemma tenth_range n :
  (0 <= n)%Z -> (0 <= P5.floor (inject_Z n * 0.10) <= n)%Z.
Proof.
  intros Hn. unfold P5.floor.
  assert (0 <= inject_Z n) as Hq.
  { change 0 with (inject_Z 0). now rewrite <- Zle_Qle. }
  split.
  - change 0%Z with (Qfloor 0). apply Qfloor_resp_le. lra.
  - rewrite <- (Qfloor_Z n) at 2. apply Qfloor_resp_le. lra.
Qed.

(** *** The selection, as [startBuild] uses it *)

Lemma selectKClosestInPlace_run heap arr k wp :
  Forall (fun r => (r < length heap)%nat) arr ->
  (len arr <= 2 ^ 30)%Z ->
  exists heap' arr', selectKClosestInPlace heap arr k wp = Ret (heap', arr') /\
    Forall2 same_but_d2 heap heap' /\ arr' ≡ₚ arr.
Proof.
  intros Hvalid Hcap. unfold selectKClosestInPlace.
  destruct (annotate_spec wp arr heap Hvalid) as (heap' & Hann & HF & _).
  rewrite Hann. cbn [mbind outcome_bind].
  destruct (select_loop_spec (d2tmp_of heap') (fun _ => 0) (S (length arr))
              arr k 0 (len arr - 1)%Z)
    as (arr' & Hrun & Hsh & _); try (unfold len in *; lia).
  rewrite Hrun. cbn [mbind outcome_bind]. exists heap', arr'.
  split; [reflexivity|]. split; [assumption|].
  exact (Shuffle_perm _ _ _ _ Hsh).
Qed.

(** *** Enlisting *)

Lemma Enlisted_refl p : Enlisted p p.
Proof. repeat split. Qed.

Lemma Enlisted_trans p1 p2 p3 :
  Enlisted p1 p2 -> Enlisted p2 p3 -> Enlisted p1 p3.
Proof.
  intros (A1 & A2 & A3 & A4) (B1 & B2 & B3 & B4). repeat split; congruence.
Qed.

Lemma Forall2_Enlisted_refl ps : Forall2 Enlisted ps ps.
Proof. apply Forall_Forall2_diag, Forall_forall. intros; apply Enlisted_refl. Qed.

Lemma Forall2_Enlisted_trans ps1 ps2 ps3 :
  Forall2 Enlisted ps1 ps2 -> Forall2 Enlisted ps2 ps3 ->
  Forall2 Enlisted ps1 ps3.
Proof.
  intros H12. revert ps3. induction H12; intros ps3 H23; inversion H23; subst;
    constructor; eauto using Enlisted_trans.
Qed.

Lemma Forall2_Enlisted_insert (ps : list Probe.T) r p p' :
  ps !! r = Some p -> Enlisted p p' -> Forall2 Enlisted ps (<[r := p']> ps).
Proof.
  intros Hp Ha. apply Forall2_same_length_lookup. split.
  - now rewrite length_insert.
  - intros j a b Hja Hjb. destruct (decide (j = r)) as [->|Hne].
    + rewrite list_lookup_insert_eq in Hjb by (eapply lookup_lt_Some; eassumption).
      inversion Hjb; subst. rewrite Hp in Hja. now inversion Hja; subst.
    + rewrite list_lookup_insert_ne in Hjb by congruence.
      rewrite Hja in Hjb. inversion Hjb. apply Enlisted_refl.
Qed.

Lemma same_but_d2_Enlisted p p' :
  same_but_d2 p p' ->
  Enlisted p p' /\ Probe.sacrificing p' = Probe.sacrificing p.
Proof.
  unfold same_but_d2. intros Heq.
  pose proof (f_equal Probe.isPlayer Heq) as H1.
  pose proof (f_equal Probe.dead Heq) as H2.
  pose proof (f_equal Probe.dna Heq) as H3.
  pose proof (f_equal pos Heq) as H4.
  pose proof (f_equal Probe.sacrificing Heq) as H5.
  repeat split; assumption.
Qed.

Lemma Enlisted_InWorld ps ps' :
  Forall2 Enlisted ps ps' ->
  Forall (fun p => InWorld (Probe.x p) (Probe.y p)) ps ->
  Forall (fun p => InWorld (Probe.x p) (Probe.y p)) ps'.
Proof.
  induction 1 as [|p p' ps ps' (_ & _ & _ & Hpos) _ IH]; intros HF;
    [constructor|].
  inversion HF as [|? ? Hin HF']; subst. constructor; [|auto].
  unfold pos in Hpos. inversion Hpos as [[Hx Hy]]. now rewrite Hx, Hy.
Qed.

Lemma sacrificing_count_insert (ps : list Probe.T) r p p' :
  ps !! r = Some p ->
  Probe.sacrificing p = false -> Probe.sacrificing p' = true ->
  sacrificing_count (<[r := p']> ps) = (sacrificing_count ps + 1)%Z.
Proof.
  intros Hp Hs Hs'. unfold sacrificing_count, len.
  rewrite <- (take_drop_middle ps r p Hp) at 2.
  rewrite insert_take_drop by (eapply lookup_lt_Some; eassumption).
  rewrite !List.filter_app. cbn [List.filter]. rewrite Hs, Hs'.
  rewrite !length_app. cbn [length]. lia.
Qed.

Section WithMath.
Context `{MathLib}.

Lemma beginSacrifice_ai wp p g :
  Probe.isPlayer p = false ->
  Enlisted p (fst (beginSacrifice wp p g)) /\
  Probe.sacrificing (fst (beginSacrifice wp p g)) = true /\
  (RngOK g -> RngOK (snd (beginSacrifice wp p g))).
Proof.
  intros Hp. unfold beginSacrifice, rand, Math_random. rewrite Hp. cbn.
  split; [repeat split|]. split; [reflexivity|]. intros Hg n. apply Hg.
Qed.

(** The last loop of [startBuild] enlists the first [n] candidates, one
    sacrifice each. *)
Lemma sacrifice_loop_spec wp ai n : forall i heap g,
  NoDup ai -> (0 <= i)%Z -> (i + Z.of_nat n <= len ai)%Z ->
  (forall r, r ∈ ai -> exists p, heap !! r = Some p /\ Probe.isPlayer p = false) ->
  (forall r p, heap !! r = Some p -> Probe.sacrificing p = true ->
     r ∈ take (Z.to_nat i) ai /\ Probe.isPlayer p = false) ->
  sacrificing_count heap = i ->
  exists heap' g', sacrifice_loop n i ai wp heap g = Ret (heap', g') /\
    Forall2 Enlisted heap heap' /\
    sacrificing_count heap' = (i + Z.of_nat n)%Z /\
    Forall (fun p => Probe.sacrificing p = true -> Probe.isPlayer p = false)
      heap' /\
    (RngOK g -> RngOK g').
Proof.
  induction n as [|n IH]; intros i heap g Hnd Hi Hn Hai Hsac Hcount.
  { exists heap, g. split; [reflexivity|]. split; [apply Forall2_Enlisted_refl|].
    split; [lia|]. split; [|auto].
    apply Forall_forall. intros p [r Hr]%list_elem_of_lookup Hs.
    exact (proj2 (Hsac r p Hr Hs)). }
  cbn [sacrifice_loop].
  destruct (at_is_Some ai i ltac:(lia)) as [r Hr].
  rewrite (get_at _ _ _ Hr). cbn [mbind outcome_bind].
  pose proof Hr as [_ Hlk]%at_Some.
  destruct (Hai r) as (p & Hp & Hpl); [eapply list_elem_of_lookup_2; eassumption|].
  rewrite (get_at heap (Z.of_nat r) p) by (now rewrite at_of_nat).
  cbn [mbind outcome_bind].
  destruct (beginSacrifice_ai wp p g Hpl) as (Hen & Hs' & Hg).
  destruct (beginSacrifice wp p g) as [p' g']. cbn [fst snd] in Hen, Hs', Hg.
  rewrite put_Ret
    by (apply lookup_lt_Some in Hp; unfold len; lia).
  cbn [mbind outcome_bind]. rewrite Nat2Z.id.
  assert (Probe.sacrificing p = false) as Hs.
  { destruct (Probe.sacrificing p) eqn:E; [|reflexivity].
    destruct (Hsac r p Hp E) as [Hin _].
    apply list_elem_of_lookup in Hin as [j Hj].
    pose proof (lookup_lt_Some _ _ _ Hj) as Hjl. rewrite length_take in Hjl.
    rewrite lookup_take_lt in Hj by lia.
    pose proof (NoDup_lookup _ _ _ _ Hnd Hj Hlk). lia. }
  assert (Z.to_nat (i + 1) = S (Z.to_nat i)) as Hi1 by lia.
  destruct (IH (i + 1)%Z (<[r := p']> heap) g' Hnd ltac:(lia) ltac:(lia))
    as (heap' & g'' & Hrun & HF & Hc & Hnp & Hg').
  - intros q Hq. destruct (Hai q Hq) as (pq & Hpq & Hplq).
    destruct (decide (q = r)) as [->|Hne].
    + exists p'. split; [apply list_lookup_insert_eq; eapply lookup_lt_Some; eassumption|].
      destruct Hen as (-> & _). assumption.
    + exists pq. split; [|assumption]. now rewrite list_lookup_insert_ne by congruence.
  - intros q pq Hq Hsq. rewrite Hi1, (take_S_r _ _ r) by assumption.
    destruct (decide (q = r)) as [->|Hne].
    + rewrite list_lookup_insert_eq in Hq by (eapply lookup_lt_Some; eassumption).
      inversion Hq; subst pq.
      split; [apply elem_of_app; right; now apply list_elem_of_singleton|].
      destruct Hen as (-> & _). assumption.
    + rewrite list_lookup_insert_ne in Hq by congruence.
      destruct (Hsac q pq Hq Hsq) as [Hin Hnpq].
      split; [apply elem_of_app; now left|assumption].
  - rewrite (sacrificing_count_insert heap r p p') by assumption. lia.
  - exists heap', g''. split; [assumption|].
    split.
    { eapply Forall2_Enlisted_trans; [|exact HF].
      now apply Forall2_Enlisted_insert with (p := p). }
    split; [lia|]. split; [assumption|]. auto.
Qed.

Lemma Calm_count ps : Calm ps -> sacrificing_count ps = 0%Z.
Proof.
  unfold Calm, sacrificing_count, len.
  induction 1 as [|p ps [Hs _] _ IH]; [reflexivity|].
  cbn [List.filter]. now rewrite Hs.
Qed.

Lemma Enlisted_alive ps ps' :
  Forall2 Enlisted ps ps' -> Calm ps ->
  Forall (fun p => Probe.dead p = false) ps'.
Proof.
  unfold Calm. induction 1 as [|p p' ps ps' (_ & Hd & _) _ IH]; intros HC;
    [constructor|].
  inversion HC as [|? ? [_ Hd0] HC']; subst. constructor; [congruence|auto].
Qed.

(** [startBuild]: the call returns; [toSacrifice] is the tenth of the
    candidates, rounded down; that many probes, none of them the player,
    are on their way; nothing has been counted yet. *)
Lemma startBuild_ok s :
  SimMid s -> Calm (Sim.probes s) ->
  exists s', startBuild s = Ret s' /\ SimMid s' /\
    Master.state (Sim.master s') = BUILD /\
    Master.toSacrifice (Sim.master s')
      = P5.floor (inject_Z (ai_count (Sim.probes s)) * 0.10) /\
    Master.sacrificed (Sim.master s') = 0%Z /\
    sacrificing_count (Sim.probes s') = Master.toSacrifice (Sim.master s') /\
    Forall (fun p => Probe.sacrificing p = true -> Probe.isPlayer p = false)
      (Sim.probes s') /\
    Forall2 Enlisted (Sim.probes s) (Sim.probes s') /\
    Sim.world s' = Sim.world s /\ Sim.systemIndex s' = Sim.systemIndex s.
Proof.
  intros HS HC. unfold startBuild. cbv zeta.
  pose proof (rand_RngOK 0 TWO_PI (Sim.rng s) (sim_rng s HS)) as Hg.
  destruct (rand 0 TWO_PI (Sim.rng s)) as [spin g]. cbn [snd] in Hg.
  rewrite (collect_ai_len (Sim.probes s) 0).
  set (ai := collect_ai (Sim.probes s) 0).
  set (toSac := P5.floor (inject_Z (ai_count (Sim.probes s)) * 0.10)).
  assert (0 <= toSac <= len ai)%Z as Hto.
  { unfold ai. rewrite collect_ai_len. apply tenth_range.
    unfold ai_count, len. lia. }
  assert (Hvalid : forall r, r ∈ ai ->
            exists p, Sim.probes s !! r = Some p /\
              Probe.isPlayer p = false /\ Probe.dead p = false)
    by (intros r; apply collect_ai_valid).
  pose proof (collect_ai_NoDup (Sim.probes s) 0) as Hnd. fold ai in Hnd.
  assert (len ai <= 2 ^ 30)%Z as Hsmall.
  { pose proof (sim_cap s HS) as Hcap. unfold ai.
    rewrite collect_ai_len. unfold ai_count, len in *.
    pose proof (List.filter_length_le
                  (fun p => negb (Probe.isPlayer p) && negb (Probe.dead p))
                  (Sim.probes s)).
    unfold HARD_PROBE_CAP in Hcap. lia. }
  assert (toSac = P5.floor (inject_Z (ai_count (Sim.probes s)) * 0.10))
    as HtoSac by reflexivity.
  clearbody toSac ai.
  assert (Hcalm : forall ps g0 m,
    Forall2 Enlisted (Sim.probes s) ps ->
    Forall (fun p => Probe.sacrificing p = true -> Probe.isPlayer p = false) ps ->
    RngOK g0 -> Master.state m = BUILD ->
    (Master.sacrificed m + sacrificing_count ps = Master.toSacrifice m)%Z ->
    SimMid (Sim.set_rng g0 (Sim.set_probes ps (Sim.set_master m s)))).
  { intros ps g0 m HF Hnp Hg0 Hst Hsum. split; cbn.
    - apply HS.
    - eapply Enlisted_InWorld; [eassumption|apply HS].
    - unfold len. rewrite <- (Forall2_length _ _ _ HF). apply (sim_cap s HS).
    - assumption.
    - unfold PhaseMid. rewrite Hst. split; [|assumption].
      pose proof (Enlisted_alive _ _ HF HC) as Hal.
      apply Forall_forall. intros p Hp. split.
      + intros Hd. rewrite (proj1 (Forall_forall _ _) Hal p Hp) in Hd.
        discriminate.
      + exact (proj1 (Forall_forall _ _) Hnp p Hp). }
  destruct (Z.leb_spec toSac 0) as [Hzero|Hpos].
  { assert (toSac = 0%Z) as Hz by lia.
    eexists. split; [reflexivity|].
    assert (Forall (fun p => Probe.sacrificing p = true -> Probe.isPlayer p = false)
              (Sim.probes s)) as Hnp.
    { eapply Forall_impl; [exact HC|]. cbn. intros p [Hs _] Hs'. congruence. }
    split.
    { match goal with |- SimMid (Sim.set_rng ?g0 (Sim.set_master ?m s)) =>
        change (SimMid (Sim.set_rng g0 (Sim.set_probes (Sim.probes s)
                          (Sim.set_master m s)))) end.
      apply Hcalm; auto using Forall2_Enlisted_refl.
      cbn. rewrite (Calm_count _ HC). lia. }
    cbn. split; [reflexivity|]. split; [reflexivity|]. split; [reflexivity|].
    split; [rewrite (Calm_count _ HC); lia|]. split; [assumption|].
    split; [apply Forall2_Enlisted_refl|]. split; reflexivity. }
  cbn [Sim.probes Sim.set_rng Sim.set_master].
  match goal with |- context [selectKClosestInPlace _ _ _ ?wp0] =>
    set (wp := wp0) end.
  destruct (selectKClosestInPlace_run (Sim.probes s) ai toSac wp)
    as (heap & ai' & -> & HF & Hperm).
  { apply Forall_forall. intros r Hr.
    destruct (Hvalid _ Hr) as (p & Hp & _).
    eapply lookup_lt_Some; eassumption. }
  { assumption. }
  cbn [mbind outcome_bind].
  assert (Forall2 Enlisted (Sim.probes s) heap) as HE.
  { eapply Forall2_impl; [exact HF|]. intros p p' Hpp.
    apply (same_but_d2_Enlisted p p' Hpp). }
  assert (Calm heap) as HCh.
  { clear -HF HC. unfold Calm in *. induction HF as [|p p' ps ps' Hpp _ IH];
      [constructor|].
    inversion HC as [|? ? [Hs Hd] HC']; subst.
    destruct (same_but_d2_Enlisted p p' Hpp) as [(_ & Hd' & _) Hs'].
    constructor; [split; congruence|auto]. }
  destruct (sacrifice_loop_spec (Some wp) ai' (Z.to_nat toSac) 0 heap g)
    as (heap' & g' & -> & HE' & Hcount & Hnp & Hg').
  - now rewrite Hperm.
  - lia.
  - unfold len. rewrite (Permutation_length Hperm). unfold len in Hto. lia.
  - intros r Hr. rewrite Hperm in Hr.
    destruct (Hvalid _ Hr) as (p & Hp & Hpl & _).
    destruct (Forall2_lookup_l _ _ _ _ _ HE Hp) as (p' & Hp' & (Hpl' & _)).
    exists p'. split; [assumption|congruence].
  - intros r p Hp Hs. exfalso.
    apply list_elem_of_lookup_2 in Hp.
    destruct (proj1 (Forall_forall _ _) HCh p Hp). congruence.
  - exact (Calm_count _ HCh).
  - cbn [mbind outcome_bind]. eexists. split; [reflexivity|].
    assert (Forall2 Enlisted (Sim.probes s) heap') as HE2
      by (eapply Forall2_Enlisted_trans; eassumption).
    split.
    { match goal with
      |- SimMid (Sim.set_rng ?g0 (Sim.set_probes ?ps (Sim.set_rng _ (Sim.set_master ?m s)))) =>
        change (SimMid (Sim.set_rng g0 (Sim.set_probes ps (Sim.set_master m s))))
      end.
      apply Hcalm; auto. cbn. lia. }
    cbn. split; [reflexivity|]. split; [reflexivity|]. split; [reflexivity|].
    split; [lia|]. split; [assumption|]. split; [assumption|].
    split; reflexivity.
Qed.

End WithMath.
End BuildFacts.

Module MasterFacts.
Import Geometry ProbeMethods Engine SimSpec RangeFacts SimFacts SpawnFacts
  BuildFacts.
Section WithMath.
Context `{MathLib}.

Lemma Calm_Enlisted ps ps' :
  Forall2 Enlisted ps ps' ->
  Forall2 (fun p p' => Probe.sacrificing p' = Probe.sacrificing p) ps ps' ->
  Calm ps -> Calm ps'.
Proof.
  unfold Calm. intros HE. induction HE as [|p p' ps ps' (_ & Hd & _) _ IH];
    intros HS HC; [constructor|].
  inversion HS; subst. inversion HC as [|? ? [Hs0 Hd0] HC']; subst.
  constructor; [split; congruence|auto].
Qed.

(** [startRally]: every probe gets the waypoint; nothing else happens to
    the probes or to the world. *)
Lemma startRally_ok s :
  SimMid s -> Calm (Sim.probes s) ->
  SimMid (startRally s) /\
  Master.state (Sim.master (startRally s)) = RALLY /\
  Forall2 Enlisted (Sim.probes s) (Sim.probes (startRally s)) /\
  Sim.world (startRally s) = Sim.world s /\
  Sim.systemIndex (startRally s) = Sim.systemIndex s.
Proof.
  intros HS HC. unfold startRally, rand, Math_random. cbn.
  set (wp := Some _).
  assert (Forall2 Enlisted (Sim.probes s)
            (List.map (Probe.set_waypoint wp) (Sim.probes s))) as HE.
  { clear. induction (Sim.probes s) as [|p ps IH]; constructor; [|assumption].
    repeat split. }
  assert (Calm (List.map (Probe.set_waypoint wp) (Sim.probes s))) as HC'.
  { eapply Calm_Enlisted; [exact HE| |exact HC]. clear.
    induction (Sim.probes s) as [|p ps IH]; constructor; [reflexivity|assumption]. }
  split; [|repeat split; assumption].
  split; cbn.
  - apply HS.
  - eapply Enlisted_InWorld; [exact HE|apply HS].
  - unfold len. rewrite length_map. apply (sim_cap s HS).
  - intros n. apply (sim_rng s HS).
  - exact HC'.
Qed.

Lemma count_zero ps :
  sacrificing_count ps = 0%Z -> Forall (fun p => Probe.sacrificing p = false) ps.
Proof.
  unfold sacrificing_count, len. induction ps as [|p ps IH]; [constructor|].
  cbn [List.filter]. destruct (Probe.sacrificing p) eqn:E; cbn [length].
  - lia.
  - intros Hc. constructor; auto.
Qed.

Lemma count_nonneg ps : (0 <= sacrificing_count ps)%Z.
Proof. unfold sacrificing_count, len. lia. Qed.

(** [startCharge], called with the count complete. *)
Lemma startCharge_ok s :
  SimMid s -> Master.state (Sim.master s) = BUILD ->
  (Master.toSacrifice (Sim.master s) <= Master.sacrificed (Sim.master s))%Z ->
  SimMid (startCharge s) /\
  Master.state (Sim.master (startCharge s)) = CHARGE /\
  Master.sacrificed (Sim.master (startCharge s))
    = Master.sacrificed (Sim.master s) /\
  Master.toSacrifice (Sim.master (startCharge s))
    = Master.toSacrifice (Sim.master s) /\
  Sim.probes (startCharge s) = Sim.probes s /\
  Sim.world (startCharge s) = Sim.world s /\
  Sim.systemIndex (startCharge s) = Sim.systemIndex s.
Proof.
  intros HS Hst Hdone.
  assert (Master.state (Sim.master (startCharge s)) = CHARGE /\
          Master.sacrificed (Sim.master (startCharge s))
            = Master.sacrificed (Sim.master s) /\
          Master.toSacrifice (Sim.master (startCharge s))
            = Master.toSacrifice (Sim.master s)) as (H1 & H2 & H3).
  { unfold startCharge. cbn. destruct (Master.warpMachine _); repeat split. }
  split; [|repeat split; assumption].
  pose proof (sim_phase s HS) as HP. unfold PhaseMid in HP. rewrite Hst in HP.
  destruct HP as [HF Hc]. pose proof (count_nonneg (Sim.probes s)) as H0.
  split; try apply HS.
  unfold PhaseMid. rewrite H1, H2, H3. split; [|lia].
  change (Sim.probes (startCharge s)) with (Sim.probes s).
  pose proof (count_zero (Sim.probes s) ltac:(lia)) as Hz.
  unfold Calm. apply Forall_forall. intros p Hp.
  pose proof (proj1 (Forall_forall _ _) Hz p Hp) as Hs.
  destruct (proj1 (Forall_forall _ _) HF p Hp) as [Hd _].
  cbn beta in Hs, Hd. split; [assumption|].
  destruct (Probe.dead p); [|reflexivity].
  specialize (Hd eq_refl). congruence.
Qed.

(** The relocation of a survivor: somewhere in the world, in its old
    role. *)
Lemma warp_probe_ok p g :
  Aged p (fst (warp_probe p g)) /\
  InWorld (Probe.x (fst (warp_probe p g))) (Probe.y (fst (warp_probe p g))) /\
  (RngOK g -> RngOK (snd (warp_probe p g))).
Proof.
  unfold warp_probe, rand, Math_random. cbn.
  destruct (Probe.isPlayer p) eqn:Hp; cbn; rewrite ?Hp;
    (split; [repeat split; auto|]); (split; [apply InWorld_wrap|]);
    intros Hg n; apply Hg.
Qed.

Lemma warp_loop_ok ps : forall g,
  Forall2 Aged ps (fst (warp_loop ps g)) /\
  Forall (fun p => InWorld (Probe.x p) (Probe.y p)) (fst (warp_loop ps g)) /\
  (RngOK g -> RngOK (snd (warp_loop ps g))).
Proof.
  induction ps as [|p ps IH]; intros g.
  { cbn. split; [constructor|]. split; [constructor|]. auto. }
  cbn [warp_loop].
  destruct (warp_probe_ok p g) as (Ha & Hin & Hg).
  destruct (warp_probe p g) as [p' g1]. cbn [fst snd] in Ha, Hin, Hg.
  destruct (IH g1) as (HA & HI & HG).
  destruct (warp_loop ps g1) as [ps' g2]. cbn [fst snd] in *.
  split; [constructor; assumption|]. split; [constructor; assumption|]. auto.
Qed.

(** [performWarp]: a fresh system with an exact total, the survivors
    relocated, back in the NORMAL phase. *)
Lemma performWarp_ok s :
  SimMid s -> Calm (Sim.probes s) ->
  exists s', performWarp s = Ret s' /\ SimMid s' /\
    Master.state (Sim.master s') = NORMAL /\
    Forall2 Aged (Sim.probes s) (Sim.probes s') /\
    World.systemRemainingTotal (Sim.world s')
      == sum_amt (World.resources (Sim.world s')) /\
    World.systemRemainingTotal (Sim.world s')
      = World.systemInitialTotal (Sim.world s') /\
    Sim.systemIndex s' = (Sim.systemIndex s + 1)%Z.
Proof.
  intros HS HC. unfold performWarp. cbv zeta.
  cbn [Sim.world Sim.rng Sim.set_master Sim.set_systemIndex].
  destruct (spawnSystem_ok (Sim.world s) (Sim.rng s) (sim_rng s HS))
    as (w & g & -> & HO & Hg & Hsum & Hfull).
  cbn [mbind outcome_bind].
  cbn [Sim.probes Sim.rng Sim.set_rng Sim.set_world Sim.set_master
       Sim.set_systemIndex].
  destruct (warp_loop_ok (Sim.probes s) g) as (HA & HI & HG).
  destruct (warp_loop (Sim.probes s) g) as [ps g']. cbn [fst snd] in HA, HI, HG.
  eexists. split; [reflexivity|]. cbn.
  split; [|repeat split; assumption].
  split; cbn.
  - assumption.
  - assumption.
  - unfold len. rewrite <- (Forall2_length _ _ _ HA). apply (sim_cap s HS).
  - auto.
  - unfold PhaseMid. cbn. eapply Calm_Aged; eassumption.
Qed.


Lemma PhaseMid_clock v s :
  PhaseMid (Sim.master s) (Sim.probes s) ->
  PhaseMid (Master.set_t v (Sim.master s)) (Sim.probes s).
Proof. apply PhaseMid_master; reflexivity. Qed.

Lemma SimMid_clock v s :
  SimMid s -> SimMid (Sim.set_master (Master.set_t v (Sim.master s)) s).
Proof.
  intros HS. split; [apply HS..|]. exact (PhaseMid_clock v s (sim_phase s HS)).
Qed.

(** [masterUpdate] returns, keeps the invariant, and does one of the five
    things of [MasterStep]. *)
Lemma masterUpdate_ok dt s :
  SimMid s ->
  exists s', masterUpdate dt s = Ret s' /\ SimMid s' /\ MasterStep s s'.
Proof.
  intros HS.
  assert (Hidle : MasterStep s s) by (now apply master_idle).
  unfold masterUpdate. destruct (Qleb dt 0); [eauto|].
  pose proof (sim_phase s HS) as HP. unfold PhaseMid in HP.
  set (s1 := Sim.set_master (Master.set_t (Master.t (Sim.master s) + dt)
                               (Sim.master s)) s).
  pose proof (SimMid_clock (Master.t (Sim.master s) + dt) s HS) as HS1.
  fold s1 in HS1.
  assert (Hidle1 : MasterStep s s1) by (now apply master_idle).
  destruct (Master.state (Sim.master s)) eqn:Hst.
  - (* NORMAL *)
    destruct (Qgtb _ 0); [|eauto]. cbv zeta.
    destruct (_ && _); [|eauto].
    destruct (startRally_ok s HS HP) as (HS' & Hst' & HE & Hw & Hi).
    exists (startRally s). split; [reflexivity|]. split; [assumption|].
    now apply master_rally.
  - (* RALLY *)
    cbv zeta. fold s1.
    destruct (_ || _); [|eauto].
    destruct (startBuild_ok s1 HS1 HP)
      as (s' & -> & HS' & Hst' & Hto & Hsac & Hcount & _ & HE & Hw & Hi).
    exists s'. split; [reflexivity|]. split; [assumption|].
    now apply master_build.
  - (* BUILD *)
    cbv zeta. fold s1.
    change (Master.sacrificed (Master.set_t _ (Sim.master s)))
      with (Master.sacrificed (Sim.master s)).
    change (Master.toSacrifice (Master.set_t _ (Sim.master s)))
      with (Master.toSacrifice (Sim.master s)).
    destruct (Z.geb_spec (Master.sacrificed (Sim.master s))
                (Master.toSacrifice (Sim.master s))) as [Hdone|]; [|eauto].
    destruct (startCharge_ok s1 HS1 Hst Hdone)
      as (HS' & Hst' & Hsac & Hto & Hps & Hw & Hi).
    exists (startCharge s1). split; [reflexivity|]. split; [assumption|].
    now apply master_charge.
  - (* CHARGE *)
    cbv zeta. fold s1.
    destruct (Qgeb _ _); [|eauto].
    destruct (performWarp_ok s1 HS1 (proj1 HP))
      as (s' & -> & HS' & Hst' & HA & Hsum & Hfull & Hi).
    exists s'. split; [reflexivity|]. split; [assumption|].
    now apply master_warp.
  - (* WARP *)
    cbv zeta. fold s1. eauto.
Qed.

End WithMath.
End MasterFacts.
(** ** One tick, and many *)

Module TickFacts.
Import Geometry ProbeMethods Engine SimSpec RangeFacts SimFacts MasterFacts.
Section WithMath.
Context `{MathLib}.

(** [simStep] is the three loops, then [masterUpdate], then
    [purgeSacrificed]. *)
Lemma simStep_split dt keys s :
  simStep dt keys s
  = (c ← probe_loops dt keys s; m ← masterUpdate dt c; purgeSacrificed m).
Proof.
  unfold simStep, probe_loops.
  destruct (update_loop _ _ _ _ _) as [s1| | |]; cbn [mbind outcome_bind];
    [|reflexivity..].
  destruct (harvest_loop _ _ _ _) as [s2| | |]; cbn [mbind outcome_bind];
    [|reflexivity..].
  reflexivity.
Qed.

(** The anatomy of a tick that starts at a tick boundary. *)
Lemma simStep_anatomy dt keys s :
  SimOK s ->
  exists c m s',
    probe_loops dt keys s = Ret c /\ masterUpdate dt c = Ret m /\
    purgeSacrificed m = Ret s' /\ simStep dt keys s = Ret s' /\
    SimMid c /\ SimMid m /\ SimOK s' /\
    Sim.master c = Sim.master s /\
    World.systemInitialTotal (Sim.world c)
      = World.systemInitialTotal (Sim.world s) /\
    (Forall (fun p => 0 <= DNA.harvest (Probe.dna p) * dt) (Sim.probes s) ->
     World.systemRemainingTotal (Sim.world c)
       <= World.systemRemainingTotal (Sim.world s)) /\
    (Master.state (Sim.master s) <> NORMAL ->
     Forall2 Aged (Sim.probes s) (Sim.probes c)) /\
    MasterStep c m /\
    Sim.probes s' = List.filter alive (Sim.probes m) /\
    Sim.world s' = Sim.world m /\
    Sim.systemIndex s' = Sim.systemIndex m /\
    Master.state (Sim.master s') = Master.state (Sim.master m) /\
    Master.toSacrifice (Sim.master s') = Master.toSacrifice (Sim.master m) /\
    Master.sacrificed (Sim.master s')
      = (Master.sacrificed (Sim.master m)
         + (len (Sim.probes m) - len (List.filter alive (Sim.probes m))))%Z.
Proof.
  intros [HS _].
  destruct (probe_loops_ok dt keys s HS) as (c & Hc & HSc & Hm & Hsi & Hsr & HA).
  destruct (masterUpdate_ok dt c HSc) as (m & Hmu & HSm & Hstep).
  destruct (purgeSacrificed_ok m HSm)
    as (s' & Hp & HS' & Hps & Hw & Hi & Hst & Hto & Hsac).
  exists c, m, s'. rewrite simStep_split, Hc. cbn [mbind outcome_bind].
  rewrite Hmu. cbn [mbind outcome_bind].
  repeat (split; [first [assumption|reflexivity]|]). assumption.
Qed.

Lemma simStep_ok dt keys s :
  SimOK s -> exists s', simStep dt keys s = Ret s' /\ SimOK s'.
Proof.
  intros HS.
  destruct (simStep_anatomy dt keys s HS)
    as (c & m & s' & _ & _ & _ & Hrun & _ & _ & HS' & _).
  eauto.
Qed.


Lemma star_loop_ok n : forall g, RngOK g -> RngOK (star_loop n g).
Proof.
  induction n as [|n IH]; intros g Hg; [exact Hg|].
  cbn [star_loop]. unfold rand, Math_random. cbn. apply IH.
  intros k. apply Hg.
Qed.


End WithMath.
End TickFacts.
(** ** The fixtures are sound *)

Module FixtureFacts.
Import Resource World Pool PoolSpec PoolFacts SimSpec WorldFacts Fixtures.

Lemma worn_world_OK : WorldOK worn_world.
Proof.
  split.
  - eapply PoolOK_ext; [..|exact two_active_PoolOK]; try reflexivity.
    + intros j r' Hj. exists r'. split; [exact Hj|]. repeat split.
    + intros j r Hj. exists r. exact Hj.
  - reflexivity.
  - reflexivity.
  - reflexivity.
  - vm_compute. reflexivity.
  - vm_compute. reflexivity.
  - split.
    + change (resources worn_world) with (resources two_active).
      assert (resources two_active
              = [Resource.mk 0 0 100 100 50 50 10 true 0 (-1) 0 0;
                 Resource.mk 1 0 150 100 (4405 # 10000) (4405 # 10000) 10
                   true 1 (-1) 0 1]) as -> by (vm_compute; reflexivity).
      repeat constructor; vm_compute; discriminate.
    + vm_compute. discriminate.
    + vm_compute. discriminate.
Qed.

Lemma steady_rng_OK : RngOK steady_rng.
Proof. intros n. split; vm_compute; [discriminate|reflexivity]. Qed.

Lemma two_probes_OK : SimOK (two_probes NORMAL).
Proof.
  split; [split|].
  - exact worn_world_OK.
  - repeat constructor; vm_compute; try discriminate; reflexivity.
  - vm_compute. discriminate.
  - exact steady_rng_OK.
  - repeat constructor.
  - repeat constructor.
Qed.

Lemma rallying_OK : SimOK rallying.
Proof.
  split; [split|].
  - exact worn_world_OK.
  - repeat constructor; vm_compute; try discriminate; reflexivity.
  - vm_compute. discriminate.
  - exact steady_rng_OK.
  - repeat constructor.
  - repeat constructor.
Qed.

End FixtureFacts.

(** ** Conservation of the remaining total *)

Module ConservationTheorems.
Import Resource World Engine SimSpec SpawnFacts TickFacts Fixtures FixtureFacts.


Section WithMath.
Context `{MathLib}.


End WithMath.



(** The same tick in numbers: the total after it, and the sum. *)
Example drift_after_one_tick :
  (fun s => (Qred (systemRemainingTotal (Sim.world s)),
             Qred (sum_amt (resources (Sim.world s)))))
    <$> simStep FIXED_DT no_keys (two_probes NORMAL)
  = Ret (99121 # 2000, 1239 # 25).
Proof. vm_compute. reflexivity. Qed.

End ConservationTheorems.

(** ** From NORMAL to RALLY *)

Module RallyTheorems.
Import Engine SimSpec SimFacts MasterFacts TickFacts Fixtures FixtureFacts.
Section WithMath.
Context `{MathLib}.




End WithMath.


(** The fixture in numbers: of the 493 units of the system 50.4405 are
    left, the fraction 0.1023.  The first tick brings it to 0.1005 and the
    test fails; the second tick brings it to 0.0996, the test succeeds, and
    the tick ends in RALLY. *)
Example rally_at_the_second_tick :
  List.map (fun j => depleted_at j FIXED_DT (fun _ => no_keys)
                       (two_probes NORMAL)) [0; 1]%nat
    = [false; true] /\
  List.map (fun n => phase_after n FIXED_DT (fun _ => no_keys)
                       (two_probes NORMAL)) [0; 1; 2]%nat
    = [Some NORMAL; Some NORMAL; Some RALLY].
Proof. split; vm_compute; reflexivity. Qed.

End RallyTheorems.

(** ** The sacrifice *)

Module SacrificeTheorems.
Import Engine SimSpec SimFacts BuildFacts MasterFacts TickFacts Fixtures
  FixtureFacts.

Lemma ai_count_Aged ps ps' :
  Forall2 Aged ps ps' -> Calm ps -> ai_count ps' = ai_count ps.
Proof.
  unfold ai_count, len, Calm.
  induction 1 as [|p p' ps ps' (Hp & Hs & _ & Hd) _ IH]; intros HC;
    [reflexivity|].
  inversion HC as [|? ? [Hs0 Hd0] HC']; subst.
  assert (Probe.dead p' = false) as Hd'.
  { destruct (Probe.dead p'); [|reflexivity]. destruct (Hd eq_refl); congruence. }
  cbn [List.filter]. rewrite Hp, Hd', Hd0.
  destruct (negb (Probe.isPlayer p) && negb false); cbn [length];
    rewrite ?Nat2Z.inj_succ, (IH HC'); reflexivity.
Qed.

Lemma filter_alive_all ps :
  Forall (fun p => Probe.dead p = false) ps -> List.filter alive ps = ps.
Proof.
  induction 1 as [|p ps Hd _ IH]; [reflexivity|].
  cbn. change (alive p) with (negb (Probe.dead p)). rewrite Hd. cbn.
  now rewrite IH.
Qed.

Lemma Calm_alive ps : Calm ps -> Forall (fun p => Probe.dead p = false) ps.
Proof.
  unfold Calm. intros HC. eapply Forall_impl; [exact HC|]. now intros p [_ Hd].
Qed.

Section WithMath.
Context `{MathLib}.

(** One tick of the sacrifice: what a tick that starts in RALLY, or in
    BUILD, leaves behind. *)
Lemma sacrifice_tick (dt : Q) (keys : Keys) (s : Sim.T) :
  SimOK s ->
  exists s', simStep dt keys s = Ret s' /\ SimOK s' /\
    (Master.state (Sim.master s) = RALLY ->
     (Master.state (Sim.master s') = RALLY \/
      Master.state (Sim.master s') = BUILD) /\
     (Master.state (Sim.master s') = BUILD ->
      Master.toSacrifice (Sim.master s')
        = P5.floor (inject_Z (ai_count (Sim.probes s)) * 0.10) /\
      sacrificing_count (Sim.probes s') = Master.toSacrifice (Sim.master s') /\
      Forall (fun p => Probe.sacrificing p = true -> Probe.isPlayer p = false)
        (Sim.probes s') /\
      Master.sacrificed (Sim.master s') = 0%Z /\
      len (Sim.probes s') = len (Sim.probes s))) /\
    (Master.state (Sim.master s) = BUILD ->
     (Master.state (Sim.master s') = BUILD \/
      Master.state (Sim.master s') = CHARGE) /\
     Master.toSacrifice (Sim.master s') = Master.toSacrifice (Sim.master s) /\
     Master.sacrificed (Sim.master s')
       = (Master.sacrificed (Sim.master s)
          + (len (Sim.probes s) - len (Sim.probes s')))%Z /\
     (Master.sacrificed (Sim.master s') + sacrificing_count (Sim.probes s')
      = Master.toSacrifice (Sim.master s'))%Z /\
     Forall (fun p => Probe.sacrificing p = true -> Probe.isPlayer p = false)
       (Sim.probes s') /\
     (Master.state (Sim.master s') = CHARGE ->
      Master.sacrificed (Sim.master s') = Master.toSacrifice (Sim.master s') /\
      Master.sacrificed (Sim.master s) = Master.toSacrifice (Sim.master s) /\
      sacrificing_count (Sim.probes s') = 0%Z)).
Proof.
  intros HS.
  destruct (simStep_anatomy dt keys s HS)
    as (c & m & s' & _ & _ & _ & Hrun & HSc & HSm & HS' & Hm & _ & _ & HA
        & Hstep & Hps & _ & _ & Hst & Hto & Hsac).
  exists s'. split; [assumption|]. split; [assumption|].
  pose proof (sim_phase s (proj1 HS)) as HP. unfold PhaseMid in HP.
  pose proof (sim_phase s' (proj1 HS')) as HP'. unfold PhaseMid in HP'.
  split.
  - (* RALLY *)
    intros Hs. rewrite Hs in HP. specialize (HA ltac:(congruence)).
    pose proof (Calm_Aged _ _ HA HP) as HCc.
    rewrite Hst. rewrite <- Hm in Hs.
    destruct Hstep as [Hmc Hsm Htm Hpm _ _|Hc _ _ _ _
                      |_ Hmm Htm Hsm Hcm HE _ _|Hc _ _ _ _ _ _ _|Hc _ _ _ _ _];
      try congruence.
    + split; [left; congruence|]. intros Hb. congruence.
    + split; [right; assumption|]. intros _.
      assert (List.filter alive (Sim.probes m) = Sim.probes m) as Hall.
      { apply filter_alive_all. eapply Enlisted_alive; eassumption. }
      rewrite Hall in Hps, Hsac. rewrite Hst, Hmm in HP'.
      rewrite Hps, Hto, Htm, Hsac, Hsm, Hcm.
      split; [now rewrite (ai_count_Aged _ _ HA HP)|].
      split; [congruence|].
      split.
      { destruct HP' as [HF _]. rewrite Hps in HF.
        eapply Forall_impl; [exact HF|]. cbn. tauto. }
      split; [lia|].
      unfold len. rewrite <- (Forall2_length _ _ _ HE).
      now rewrite <- (Forall2_length _ _ _ HA).
  - (* BUILD *)
    intros Hs. specialize (HA ltac:(congruence)).
    pose proof (sim_phase c HSc) as HPc. unfold PhaseMid in HPc.
    rewrite Hm, Hs in HPc. destruct HPc as [_ Hcc].
    assert (len (Sim.probes c) = len (Sim.probes s)) as Hlen.
    { unfold len. now rewrite <- (Forall2_length _ _ _ HA). }
    rewrite Hst. rewrite <- Hm in Hs.
    assert (Hend :
      (Master.state (Sim.master m) = BUILD \/
       Master.state (Sim.master m) = CHARGE) ->
      Master.sacrificed (Sim.master m) = Master.sacrificed (Sim.master c) ->
      Master.toSacrifice (Sim.master m) = Master.toSacrifice (Sim.master c) ->
      Sim.probes m = Sim.probes c ->
      (Master.state (Sim.master m) = CHARGE ->
       (Master.toSacrifice (Sim.master c)
        <= Master.sacrificed (Sim.master c))%Z) ->
      (Master.state (Sim.master m) = BUILD \/
       Master.state (Sim.master m) = CHARGE) /\
      Master.toSacrifice (Sim.master s') = Master.toSacrifice (Sim.master s) /\
      Master.sacrificed (Sim.master s')
        = (Master.sacrificed (Sim.master s)
           + (len (Sim.probes s) - len (Sim.probes s')))%Z /\
      (Master.sacrificed (Sim.master s') + sacrificing_count (Sim.probes s')
       = Master.toSacrifice (Sim.master s'))%Z /\
      Forall (fun p => Probe.sacrificing p = true -> Probe.isPlayer p = false)
        (Sim.probes s') /\
      (Master.state (Sim.master m) = CHARGE ->
       Master.sacrificed (Sim.master s') = Master.toSacrifice (Sim.master s') /\
       Master.sacrificed (Sim.master s) = Master.toSacrifice (Sim.master s) /\
       sacrificing_count (Sim.probes s') = 0%Z)).
    { intros Hmst Hsm Htm Hpm Hdone. split; [assumption|].
      rewrite Hpm in Hps, Hsac. rewrite <- Hps in Hsac.
      split; [congruence|]. split; [rewrite Hsac, Hsm, Hm; lia|].
      rewrite Hst in HP'.
      pose proof (count_nonneg (Sim.probes c)) as Hnn.
      pose proof (count_nonneg (Sim.probes s')) as Hnn'.
      destruct Hmst as [Hb|Hch].
      - rewrite Hb in HP'. destruct HP' as [HF Hc'].
        split; [assumption|].
        split; [eapply Forall_impl; [exact HF|]; cbn; tauto|].
        intros Hch. congruence.
      - rewrite Hch in HP'. destruct HP' as [HC' Hc'].
        rewrite (Calm_count _ HC'). split; [lia|].
        split.
        { eapply Forall_impl; [exact HC'|]. cbn. intros p [Hs0 _] Hs1.
          congruence. }
        intros _. specialize (Hdone Hch). rewrite Hm in Hdone.
        split; [assumption|]. split; [lia|reflexivity]. }
    destruct Hstep as [Hmc Hsm Htm Hpm _ _|Hc _ _ _ _
                      |Hc _ _ _ _ _ _ _|_ Hmm Hdone Hsm Htm Hpm _ _
                      |Hc _ _ _ _ _];
      try congruence.
    + apply Hend; auto; [left; congruence|]. intros Hch. congruence.
    + apply Hend; auto.
Qed.

(** The BUILD phase as a whole: while it lasts, [toSacrifice] stays what
    [startBuild] made it and [sacrificed] counts the probes removed. *)
Lemma build_run dt keys s k :
  SimOK s -> Master.state (Sim.master s) = BUILD ->
  (forall j, (j < k)%nat -> phase_after j dt keys s = Some BUILD) ->
  exists sk, ticks k dt keys s = Ret sk /\ SimOK sk /\
    (Master.state (Sim.master sk) = BUILD \/
     Master.state (Sim.master sk) = CHARGE) /\
    Master.toSacrifice (Sim.master sk) = Master.toSacrifice (Sim.master s) /\
    Master.sacrificed (Sim.master sk)
      = (Master.sacrificed (Sim.master s)
         + (len (Sim.probes s) - len (Sim.probes sk)))%Z /\
    (Master.sacrificed (Sim.master sk) + sacrificing_count (Sim.probes sk)
     = Master.toSacrifice (Sim.master sk))%Z /\
    Forall (fun p => Probe.sacrificing p = true -> Probe.isPlayer p = false)
      (Sim.probes sk) /\
    (Master.state (Sim.master sk) = CHARGE ->
     Master.sacrificed (Sim.master sk) = Master.toSacrifice (Sim.master s) /\
     sacrificing_count (Sim.probes sk) = 0%Z).
Proof.
  intros HS Hst. induction k as [|k IH]; intros Hb.
  { exists s. split; [reflexivity|]. split; [assumption|].
    pose proof (sim_phase s (proj1 HS)) as HP. unfold PhaseMid in HP.
    rewrite Hst in HP. destruct HP as [HF Hc].
    split; [now left|]. split; [reflexivity|]. split; [lia|].
    split; [assumption|].
    split; [eapply Forall_impl; [exact HF|]; cbn; tauto|].
    intros Hch. congruence. }
  destruct IH as (sk & Hrun & HSk & _ & Hto & Hsac & _); [intros; apply Hb; lia|].
  assert (Master.state (Sim.master sk) = BUILD) as Hstk.
  { specialize (Hb k (Nat.lt_succ_diag_r k)). unfold phase_after in Hb.
    rewrite Hrun in Hb. now inversion Hb. }
  destruct (sacrifice_tick dt (keys k) sk HSk)
    as (s' & Hstep & HS' & _ & Hbuild).
  destruct (Hbuild Hstk) as (Hst' & Hto' & Hsac' & Hsum & Hnp & Hch).
  exists s'. cbn [ticks]. rewrite Hrun. cbn [mbind outcome_bind].
  split; [assumption|]. split; [assumption|]. split; [assumption|].
  split; [congruence|]. split; [lia|]. split; [assumption|].
  split; [assumption|]. intros Hc. destruct (Hch Hc) as (H1 & _ & H3).
  split; [congruence|assumption].
Qed.

(** C3: from a tick boundary in RALLY, a tick ends in RALLY or in BUILD.
    If it ends in BUILD, then [toSacrifice] is the tenth, rounded down, of
    the living probes other than the player; exactly that many probes are
    sacrificing, the player not among them; and [sacrificed] is 0.  From
    there on, as long as the phase has been BUILD, every further tick ends
    in BUILD or in CHARGE with [toSacrifice] unchanged, with [sacrificed]
    the number of probes that the compaction pass has removed since, and
    with the removed and the still sacrificing probes making up
    [toSacrifice]; and in the tick that ends in CHARGE, [sacrificed] is
    exactly [toSacrifice] and no probe is sacrificing. *)
Theorem sacrifice_accounting
    (dt : Q) (keys : nat -> Keys) (s : Sim.T) (k : nat) :
  SimOK s -> Master.state (Sim.master s) = RALLY ->
  exists s1, simStep dt (keys 0%nat) s = Ret s1 /\ SimOK s1 /\
    (Master.state (Sim.master s1) = RALLY \/
     Master.state (Sim.master s1) = BUILD) /\
    (Master.state (Sim.master s1) = BUILD ->
     Master.toSacrifice (Sim.master s1)
       = P5.floor (inject_Z (ai_count (Sim.probes s)) * 0.10) /\
     sacrificing_count (Sim.probes s1) = Master.toSacrifice (Sim.master s1) /\
     Forall (fun p => Probe.sacrificing p = true -> Probe.isPlayer p = false)
       (Sim.probes s1) /\
     Master.sacrificed (Sim.master s1) = 0%Z /\
     len (Sim.probes s1) = len (Sim.probes s) /\
     ((forall j, (j < k)%nat ->
         phase_after j dt (fun i => keys (S i)) s1 = Some BUILD) ->
      exists sk, ticks k dt (fun i => keys (S i)) s1 = Ret sk /\ SimOK sk /\
        (Master.state (Sim.master sk) = BUILD \/
         Master.state (Sim.master sk) = CHARGE) /\
        Master.toSacrifice (Sim.master sk) = Master.toSacrifice (Sim.master s1) /\
        Master.sacrificed (Sim.master sk)
          = (len (Sim.probes s1) - len (Sim.probes sk))%Z /\
        (Master.sacrificed (Sim.master sk) + sacrificing_count (Sim.probes sk)
         = Master.toSacrifice (Sim.master s1))%Z /\
        Forall (fun p => Probe.sacrificing p = true -> Probe.isPlayer p = false)
          (Sim.probes sk) /\
        (Master.state (Sim.master sk) = CHARGE ->
         Master.sacrificed (Sim.master sk)
           = Master.toSacrifice (Sim.master s1) /\
         sacrificing_count (Sim.probes sk) = 0%Z))).
Proof.
  intros HS Hst.
  destruct (sacrifice_tick dt (keys 0%nat) s HS)
    as (s1 & Hstep & HS1 & Hrally & _).
  destruct (Hrally Hst) as [Hst1 Hb].
  exists s1. split; [assumption|]. split; [assumption|].
  split; [assumption|]. intros Hb1.
  destruct (Hb Hb1) as (Hto & Hcount & Hnp & Hsac & Hlen).
  do 5 (split; [assumption|]). intros Hphase.
  destruct (build_run dt (fun i => keys (S i)) s1 k HS1 Hb1 Hphase)
    as (sk & Hrun & HSk & Hstk & Htok & Hsack & Hsumk & Hnpk & Hch).
  exists sk. split; [assumption|]. split; [assumption|].
  split; [assumption|]. split; [assumption|]. split; [lia|].
  split; [congruence|]. split; [assumption|]. assumption.
Qed.

End WithMath.

Lemma sacrifice_accounting_witness :
  (SimOK rallying /\ Master.state (Sim.master rallying) = RALLY) /\
  exists s1, simStep 1 no_keys rallying = Ret s1 /\ SimOK s1 /\
    (Master.state (Sim.master s1) = RALLY \/
     Master.state (Sim.master s1) = BUILD) /\
    (Master.state (Sim.master s1) = BUILD ->
     Master.toSacrifice (Sim.master s1)
       = P5.floor (inject_Z (ai_count (Sim.probes rallying)) * 0.10) /\
     sacrificing_count (Sim.probes s1) = Master.toSacrifice (Sim.master s1) /\
     Forall (fun p => Probe.sacrificing p = true -> Probe.isPlayer p = false)
       (Sim.probes s1) /\
     Master.sacrificed (Sim.master s1) = 0%Z /\
     len (Sim.probes s1) = len (Sim.probes rallying) /\
     ((forall j, (j < 2)%nat ->
         phase_after j 1 (fun _ => no_keys) s1 = Some BUILD) ->
      exists sk, ticks 2 1 (fun _ => no_keys) s1 = Ret sk /\ SimOK sk /\
        (Master.state (Sim.master sk) = BUILD \/
         Master.state (Sim.master sk) = CHARGE) /\
        Master.toSacrifice (Sim.master sk) = Master.toSacrifice (Sim.master s1) /\
        Master.sacrificed (Sim.master sk)
          = (len (Sim.probes s1) - len (Sim.probes sk))%Z /\
        (Master.sacrificed (Sim.master sk) + sacrificing_count (Sim.probes sk)
         = Master.toSacrifice (Sim.master s1))%Z /\
        Forall (fun p => Probe.sacrificing p = true -> Probe.isPlayer p = false)
          (Sim.probes sk) /\
        (Master.state (Sim.master sk) = CHARGE ->
         Master.sacrificed (Sim.master sk)
           = Master.toSacrifice (Sim.master s1) /\
         sacrificing_count (Sim.probes sk) = 0%Z))).
Proof.
  split; [split; [exact rallying_OK|reflexivity]|].
  exact (sacrifice_accounting 1 (fun _ => no_keys) rallying 2 rallying_OK
           eq_refl).
Defined.

(** The fixture in numbers, with one second to the tick: the player and ten
    autonomous probes; the first tick ends in BUILD with one probe of the
    ten to sacrifice; the second tick sees it die and counts it; the third
    tick ends in CHARGE.  Listed: phase, [toSacrifice], [sacrificed], probes
    sacrificing, probes in all. *)
Example one_of_ten_is_sacrificed :
  List.map
    (fun n =>
       (fun s => (Master.state (Sim.master s),
                  Master.toSacrifice (Sim.master s),
                  Master.sacrificed (Sim.master s),
                  sacrificing_count (Sim.probes s), len (Sim.probes s)))
         <$> ticks n 1 (fun _ => no_keys) rallying)
    [0; 1; 2; 3]%nat
  = [Ret (RALLY, 0, 0, 0, 11)%Z; Ret (BUILD, 1, 0, 1, 11)%Z;
     Ret (BUILD, 1, 1, 0, 10)%Z; Ret (CHARGE, 1, 1, 0, 10)%Z].
Proof. vm_compute. reflexivity. Qed.

End SacrificeTheorems.
(** ** More on the toroidal geometry *)

Module GeometryLaws.
Import Geometry GeometryFacts DeltaFacts.

Lemma wrapDeltaFast_swap (a b size : Q) :
  0 <= size ->
  wrapDeltaFast (a - b) size == - wrapDeltaFast (b - a) size.
Proof. intros Hs. unfold wrapDeltaFast. cbv zeta. qcases; lra. Qed.

(** X1: for a world size that is not negative, [wrapDeltaFast] is odd,
    [wrapDeltaFast(-d) = -wrapDeltaFast(d)], so that the squared wrapped
    difference does not depend on the order of the two coordinates, and it
    never returns a difference longer than the raw one. *)
Theorem wrapDeltaFast_odd_and_short (d size : Q) :
  0 <= size ->
  wrapDeltaFast (- d) size == - wrapDeltaFast d size /\
  wrapDeltaFast (- d) size * wrapDeltaFast (- d) size
    == wrapDeltaFast d size * wrapDeltaFast d size /\
  Qabs (wrapDeltaFast d size) <= Qabs d.
Proof.
  intros Hs.
  assert (wrapDeltaFast (- d) size == - wrapDeltaFast d size) as Hodd.
  { unfold wrapDeltaFast. cbv zeta. qcases; lra. }
  split; [exact Hodd|]. split; [rewrite Hodd; ring|].
  apply Qabs_Qle_condition.
  destruct (Qlt_le_dec d 0) as [Hneg|Hpos].
  - rewrite (Qabs_neg d) by lra. unfold wrapDeltaFast. cbv zeta. qcases; lra.
  - rewrite (Qabs_pos d) by lra. unfold wrapDeltaFast. cbv zeta. qcases; lra.
Qed.

Lemma wrapDeltaFast_odd_and_short_witness :
  0 <= WORLD_w /\
  wrapDeltaFast (- (23000)) WORLD_w == - wrapDeltaFast 23000 WORLD_w /\
  wrapDeltaFast (- (23000)) WORLD_w * wrapDeltaFast (- (23000)) WORLD_w
    == wrapDeltaFast 23000 WORLD_w * wrapDeltaFast 23000 WORLD_w /\
  Qabs (wrapDeltaFast 23000 WORLD_w) <= Qabs 23000.
Proof.
  split; [vm_compute; discriminate|].
  apply (wrapDeltaFast_odd_and_short 23000 WORLD_w). vm_compute. discriminate.
Defined.






Lemma mod_eq_modulo (n m : Z) : (0 < m)%Z -> (mod_ n m = n mod m)%Z.
Proof.
  intros Hm. unfold mod_. cbv zeta. pose proof (Z.quot_rem' n m) as Hqr.
  pose proof (Z.rem_bound_abs n m ltac:(lia)) as Habs.
  destruct (Z.ltb_spec (Z.rem n m) 0) as [Hneg|Hpos].
  - apply (Z.mod_unique n m (n ÷ m - 1)); lia.
  - apply (Z.mod_unique n m (n ÷ m)); lia.
Qed.

(** X3: for a positive modulus, [mod(n, m)] is the mathematical modulo: in
    [[0, m)] also for a negative [n], where [%] alone is negative. *)
Theorem mod_is_modulo (n m : Z) :
  (0 < m)%Z -> (mod_ n m = n mod m)%Z /\ (0 <= mod_ n m < m)%Z.
Proof.
  intros Hm. rewrite (mod_eq_modulo n m Hm).
  split; [reflexivity|]. apply Z.mod_pos_bound. exact Hm.
Qed.

Lemma mod_is_modulo_witness :
  (0 < 35)%Z /\ (mod_ (-3) 35 = (-3) mod 35)%Z /\ (0 <= mod_ (-3) 35 < 35)%Z.
Proof.
  split; [reflexivity|]. apply (mod_is_modulo (-3) 35). reflexivity.
Defined.

End GeometryLaws.
(** ** More on the spatial grid *)

Module GridLaws.
Import Geometry Resource World Pool PoolSpec PoolFacts SimSpec WorldFacts
  HarvestFacts GeometryLaws.

(** X4: a position with coordinates that are not negative (and small enough
    for the 32-bit [| 0]) gets a cell of the grid, whatever the size of
    the grid; the cell index encodes column and row, which come back by
    modulo and division; the column and the row start at or before the
    position, and inside the area that the grid covers the cell contains
    the position. *)
Theorem cellIndexForPos_contains (w : World.T) (x y : Q) :
  (0 < resGridW w)%Z -> (0 < resGridH w)%Z ->
  0 <= x -> 0 <= y ->
  x < 2147483648 * RES_CELL -> y < 2147483648 * RES_CELL ->
  exists cx cy,
    cellIndexForPos w x y = (cx + cy * resGridW w)%Z /\
    (0 <= cx < resGridW w)%Z /\ (0 <= cy < resGridH w)%Z /\
    (cellIndexForPos w x y mod resGridW w = cx)%Z /\
    (cellIndexForPos w x y / resGridW w = cy)%Z /\
    (0 <= cellIndexForPos w x y < resGridW w * resGridH w)%Z /\
    inject_Z cx * RES_CELL <= x /\ inject_Z cy * RES_CELL <= y /\
    (x < inject_Z (resGridW w) * RES_CELL ->
     x < (inject_Z cx + 1) * RES_CELL) /\
    (y < inject_Z (resGridH w) * RES_CELL ->
     y < (inject_Z cy + 1) * RES_CELL).
Proof.
  intros HW HH Hx Hy Hxs Hys. unfold RES_CELL in *.
  assert (Hcol : forall v n, (0 < n)%Z -> 0 <= v -> v < 2147483648 * 700 ->
    let t := toInt32 (Qtrunc (v / 700)) in
    let c := if (t >=? n)%Z then (n - 1)%Z else t in
    (0 <= c < n)%Z /\ inject_Z c * 700 <= v /\
    (v < inject_Z n * 700 -> v < (inject_Z c + 1) * 700)).
  { intros v n Hn Hv Hvs.
    assert (0 <= v / 700) as Hq by (apply Qle_shift_div_l; lra).
    destruct (Qtrunc_nonneg _ Hq) as [Hlo Hhi].
    assert (v == v / 700 * 700) as Hv7 by (field).
    assert (0 <= Qtrunc (v / 700) < 2 ^ 31)%Z as Ht.
    { apply Qtrunc_range; [assumption|].
      apply Qlt_shift_div_r; [lra|].
      change (inject_Z (2 ^ 31)) with 2147483648. lra. }
    rewrite SelectFacts.toInt32_small by lia. cbv zeta.
    set (t := Qtrunc (v / 700)) in *.
    destruct (Z.geb_spec t n) as [Hge|Hlt].
    - split; [lia|]. split.
      + assert (inject_Z (n - 1) <= inject_Z t) by (rewrite <- Zle_Qle; lia).
        lra.
      + intros Hin. exfalso.
        assert (inject_Z n <= inject_Z t) by (rewrite <- Zle_Qle; lia). lra.
    - split; [lia|]. split; [lra|]. intros _. lra. }
  destruct (Hcol x (resGridW w) HW Hx Hxs) as (Hcx & Hx0 & Hx1).
  destruct (Hcol y (resGridH w) HH Hy Hys) as (Hcy & Hy0 & Hy1).
  unfold cellIndexForPos. cbv zeta. unfold RES_CELL.
  set (cx := if (toInt32 (Qtrunc (x / 700)) >=? resGridW w)%Z
             then (resGridW w - 1)%Z else toInt32 (Qtrunc (x / 700))) in *.
  set (cy := if (toInt32 (Qtrunc (y / 700)) >=? resGridH w)%Z
             then (resGridH w - 1)%Z else toInt32 (Qtrunc (y / 700))) in *.
  exists cx, cy. split; [reflexivity|]. split; [assumption|].
  split; [assumption|].
  split; [symmetry; apply (Z.mod_unique _ _ cy); lia|].
  split; [symmetry; apply (Z.div_unique _ _ cy cx); lia|].
  split; [nia|]. auto.
Qed.


Lemma cellIndexForPos_contains_witness :
  ((0 < resGridW Fixtures.empty_world)%Z /\
   (0 < resGridH Fixtures.empty_world)%Z /\
   0 <= 23900 /\ 0 <= 1500 /\
   23900 < 2147483648 * RES_CELL /\ 1500 < 2147483648 * RES_CELL) /\
  exists cx cy,
    cellIndexForPos Fixtures.empty_world 23900 1500
      = (cx + cy * resGridW Fixtures.empty_world)%Z /\
    (0 <= cx < resGridW Fixtures.empty_world)%Z /\
    (0 <= cy < resGridH Fixtures.empty_world)%Z /\
    (cellIndexForPos Fixtures.empty_world 23900 1500
       mod resGridW Fixtures.empty_world = cx)%Z /\
    (cellIndexForPos Fixtures.empty_world 23900 1500
       / resGridW Fixtures.empty_world = cy)%Z /\
    (0 <= cellIndexForPos Fixtures.empty_world 23900 1500
     < resGridW Fixtures.empty_world * resGridH Fixtures.empty_world)%Z /\
    inject_Z cx * RES_CELL <= 23900 /\ inject_Z cy * RES_CELL <= 1500 /\
    (23900 < inject_Z (resGridW Fixtures.empty_world) * RES_CELL ->
     23900 < (inject_Z cx + 1) * RES_CELL) /\
    (1500 < inject_Z (resGridH Fixtures.empty_world) * RES_CELL ->
     1500 < (inject_Z cy + 1) * RES_CELL).
Proof.
  split; [repeat split; vm_compute; (reflexivity || discriminate)|].
  apply (cellIndexForPos_contains Fixtures.empty_world 23900 1500);
    vm_compute; (reflexivity || discriminate).
Defined.

(** *** Activation round trip *)

Lemma insert_back {A} (l : list A) (i : Z) (a b : A) :
  at_ l i = Some b ->
  <[Z.to_nat i := b]> (<[Z.to_nat i := a]> l) = l.
Proof.
  intros [_ Hl]%at_Some. rewrite list_insert_insert_eq.
  now apply list_insert_id.
Qed.

Lemma pop_snoc {A} (l : list A) (a : A) : pop (l ++ [a]) = l.
Proof.
  unfold pop. rewrite length_app. cbn [length].
  apply take_app_length'. lia.
Qed.

Lemma insert_snoc {A} (l : list A) (a b : A) :
  <[Z.to_nat (len l) := b]> (l ++ [a]) = l ++ [b].
Proof.
  unfold len. rewrite Nat2Z.id.
  replace (length l) with (length l + 0)%nat at 1 by lia.
  now rewrite insert_app_r.
Qed.

(** What [activateResource] returns. *)
Lemma activateResource_run (w : World.T) (idx : Z) (r : Resource.T)
    (cell : list Z) :
  res w idx = Some r ->
  at_ (resGrid w) (cellIndexForPos w (Resource.x r) (Resource.y r))
    = Some cell ->
  let ci := cellIndexForPos w (Resource.x r) (Resource.y r) in
  let r2 := set__gridIndex (len cell)
              (set__gridCell ci
                 (set_activeIndex (len (resourceActive w))
                    (set_active true r))) in
  activateResource idx w
  = Ret (set_resGrid (<[Z.to_nat ci := cell ++ [idx]]> (resGrid w))
           (set_resources (<[Z.to_nat idx := r2]> (resources w))
              (set_resourceActive (resourceActive w ++ [idx]) w))).
Proof.
  intros Hr Hcell ci r2.
  pose proof Hr as Hr0. unfold res in Hr0.
  pose proof (at_in_range _ _ _ Hr0) as Hir.
  pose proof (at_in_range _ _ _ Hcell) as Hci. fold ci in Hcell, Hci.
  set (r1 := set_activeIndex (len (resourceActive w)) (set_active true r)).
  unfold activateResource. rewrite (get_at _ _ _ Hr0).
  cbn [mbind outcome_bind]. rewrite put_Ret by assumption.
  cbn [mbind outcome_bind]. fold r1. cbv zeta.
  unfold gridAddResource.
  cbn [resources resGrid set_resources set_resourceActive].
  assert (at_ (<[Z.to_nat idx := r1]> (resources w)) idx = Some r1) as H1.
  { rewrite at_insert by assumption. now rewrite Z.eqb_refl. }
  rewrite (get_at _ _ _ H1). cbn [mbind outcome_bind]. cbv zeta.
  change (cellIndexForPos _ (Resource.x r1) (Resource.y r1)) with ci.
  rewrite (get_at _ _ _ Hcell). cbn [mbind outcome_bind].
  rewrite (put_Ret _ idx) by (rewrite len_insert; assumption).
  cbn [mbind outcome_bind]. rewrite (put_Ret _ ci) by assumption.
  cbn [mbind outcome_bind]. fold r2.
  rewrite list_insert_insert_eq. reflexivity.
Qed.

(** X5: activating a resource as [makeResource] creates it (inactive, all
    back-references [-1]) and deactivating it again gives back the very
    world the calls started from: store, active list and grid.  All that
    is needed is that the cell of its position exists. *)
Theorem activate_then_deactivate (w : World.T) (idx : Z) (r : Resource.T) :
  res w idx = Some r ->
  active r = false -> activeIndex r = (-1)%Z ->
  _gridCell r = (-1)%Z -> _gridIndex r = (-1)%Z ->
  (0 <= cellIndexForPos w (Resource.x r) (Resource.y r) < len (resGrid w))%Z ->
  activateResource idx w ≫= deactivateResource idx = Ret w.
Proof.
  intros Hr Ha Hai Hgc Hgi Hci.
  destruct (at_is_Some _ _ Hci) as [cell Hcell].
  pose proof Hr as Hr0. unfold res in Hr0.
  pose proof (at_in_range _ _ _ Hr0) as Hir.
  rewrite (activateResource_run w idx r cell Hr Hcell). cbv zeta.
  set (ci := cellIndexForPos w (Resource.x r) (Resource.y r)) in *.
  set (r1 := set_activeIndex (len (resourceActive w)) (set_active true r)).
  set (r2 := set__gridIndex (len cell) (set__gridCell ci r1)).
  cbn [mbind outcome_bind].
  set (rs2 := <[Z.to_nat idx := r2]> (resources w)).
  assert (at_ rs2 idx = Some r2) as H2.
  { unfold rs2. rewrite at_insert by assumption. now rewrite Z.eqb_refl. }
  assert (len rs2 = len (resources w)) as Hl2 by apply len_insert.
  unfold deactivateResource. cbn [resources set_resGrid set_resources].
  rewrite (get_at _ _ _ H2). cbn [mbind outcome_bind].
  change (active r2) with true. cbn [negb].
  unfold gridRemoveResource. cbn [resources set_resGrid set_resources resGrid].
  rewrite (get_at _ _ _ H2). cbn [mbind outcome_bind]. cbv zeta.
  change (_gridCell r2) with ci. change (_gridIndex r2) with (len cell).
  destruct (Z.ltb_spec ci 0) as [|_]; [lia|].
  destruct (Z.ltb_spec (len cell) 0) as [Hneg|_];
    [unfold len in Hneg; lia|]. cbn [orb].
  assert (at_ (<[Z.to_nat ci := cell ++ [idx]]> (resGrid w)) ci
          = Some (cell ++ [idx])) as H3.
  { rewrite at_insert by assumption. now rewrite Z.eqb_refl. }
  rewrite (get_at _ _ _ H3). cbn [mbind outcome_bind].
  replace (len (cell ++ [idx]) - 1)%Z with (len cell)
    by (rewrite len_app; unfold len; cbn; lia).
  rewrite (get_at _ _ _ (at_app_last cell idx)). cbn [mbind outcome_bind].
  rewrite put_Ret by (rewrite len_app; unfold len; cbn; lia).
  cbn [mbind outcome_bind]. rewrite insert_snoc, pop_snoc.
  rewrite (get_at _ _ _ H2). cbn [mbind outcome_bind].
  rewrite (put_Ret rs2 idx) by lia. cbn [mbind outcome_bind].
  set (rs3 := <[Z.to_nat idx := set__gridIndex (len cell) r2]> rs2).
  assert (at_ rs3 idx = Some r2) as H4.
  { unfold rs3. rewrite at_insert by lia. now rewrite Z.eqb_refl. }
  rewrite (get_at _ _ _ H4). cbn [mbind outcome_bind].
  rewrite (put_Ret rs3 idx) by (unfold rs3; rewrite len_insert; lia).
  cbn [mbind outcome_bind].
  rewrite (put_Ret _ ci) by (rewrite len_insert; assumption).
  cbn [mbind outcome_bind].
  cbn [resourceActive set_resGrid set_resources set_resourceActive resources].
  change (activeIndex r2) with (len (resourceActive w)).
  replace (len (resourceActive w ++ [idx]) - 1)%Z with (len (resourceActive w))
    by (rewrite len_app; unfold len; cbn; lia).
  rewrite (get_at _ _ _ (at_app_last _ idx)). cbn [mbind outcome_bind].
  rewrite put_Ret by (rewrite len_app; unfold len; cbn; lia).
  cbn [mbind outcome_bind]. rewrite insert_snoc, pop_snoc.
  set (r3 := set__gridIndex (-1) (set__gridCell (-1) r2)).
  set (rs4 := <[Z.to_nat idx := r3]> rs3).
  assert (len rs4 = len (resources w)) as Hl4.
  { unfold rs4, rs3. now rewrite !len_insert. }
  assert (at_ rs4 idx = Some r3) as H5.
  { unfold rs4. rewrite at_insert by (unfold rs3; rewrite len_insert; lia).
    now rewrite Z.eqb_refl. }
  rewrite (get_at _ _ _ H5). cbn [mbind outcome_bind].
  rewrite (put_Ret rs4 idx) by lia. cbn [mbind outcome_bind].
  set (rs5 := <[Z.to_nat idx := set_activeIndex (len (resourceActive w)) r3]> rs4).
  assert (at_ rs5 idx = Some r3) as H6.
  { unfold rs5. rewrite at_insert by lia. now rewrite Z.eqb_refl. }
  rewrite (get_at _ _ _ H6). cbn [mbind outcome_bind].
  rewrite (put_Ret rs5 idx) by (unfold rs5; rewrite len_insert; lia).
  cbn [mbind outcome_bind].
  assert (set_activeIndex (-1) (set_active false r3) = r) as ->.
  { destruct r. cbn in Ha, Hai, Hgc, Hgi. subst. reflexivity. }
  unfold rs5, rs4, rs3, rs2. rewrite !list_insert_insert_eq.
  rewrite (list_insert_id (resources w)) by (now apply at_Some in Hr0).
  rewrite (list_insert_id (resGrid w)) by (now apply at_Some in Hcell).
  destruct w. reflexivity.
Qed.

Lemma activate_then_deactivate_witness :
  (res Fixtures.two_idle 0 = Some (Fixtures.resource_at 0 100 100 50) /\
   active (Fixtures.resource_at 0 100 100 50) = false /\
   activeIndex (Fixtures.resource_at 0 100 100 50) = (-1)%Z /\
   _gridCell (Fixtures.resource_at 0 100 100 50) = (-1)%Z /\
   _gridIndex (Fixtures.resource_at 0 100 100 50) = (-1)%Z /\
   (0 <= cellIndexForPos Fixtures.two_idle 100 100
    < len (resGrid Fixtures.two_idle))%Z) /\
  activateResource 0 Fixtures.two_idle ≫= deactivateResource 0
  = Ret Fixtures.two_idle.
Proof.
  split; [vm_compute; repeat split; congruence|].
  apply (activate_then_deactivate Fixtures.two_idle 0
           (Fixtures.resource_at 0 100 100 50));
    vm_compute; (reflexivity || (split; congruence)).
Defined.

(** *** Neighbour lists *)

Lemma length_bind_const {A B} (f : A -> list B) (k : nat) (l : list A) :
  (forall a, length (f a) = k) -> length (l ≫= f) = (length l * k)%nat.
Proof.
  intros Hk. induction l as [|a l IH]; [reflexivity|].
  rewrite bind_cons, length_app, IH, Hk. reflexivity.
Qed.

Lemma lookup_bind_const {A B} (f : A -> list B) (k : nat) (l : list A)
    (i j : nat) (a : A) :
  (forall a, length (f a) = k) -> l !! i = Some a -> (j < k)%nat ->
  (l ≫= f) !! (i * k + j)%nat = f a !! j.
Proof.
  intros Hk. revert i. induction l as [|b l IH]; intros i Hi Hj.
  - discriminate.
  - rewrite bind_cons. destruct i as [|i].
    + inversion Hi; subst. apply lookup_app_l. rewrite Hk. exact Hj.
    + rewrite lookup_app_r by (rewrite Hk; lia).
      rewrite Hk. replace (S i * k + j - k)%nat with (i * k + j)%nat by lia.
      apply IH; assumption.
Qed.

Lemma length_offsets (R : Z) : length (offsets R) = Z.to_nat (2 * R + 1).
Proof. unfold offsets. now rewrite length_map, length_seq. Qed.

Lemma elem_of_offsets (R o : Z) : o ∈ offsets R <-> (- R <= o <= R)%Z.
Proof.
  unfold offsets. rewrite list_elem_of_fmap. split.
  - intros (i & -> & Hi%elem_of_seq). lia.
  - intros Ho. exists (Z.to_nat (o + R)). split; [lia|].
    apply elem_of_seq. lia.
Qed.

Lemma length_neighborCells w R cx cy :
  length (neighborCells w R cx cy)
  = (Z.to_nat (2 * R + 1) * Z.to_nat (2 * R + 1))%nat.
Proof.
  unfold neighborCells.
  rewrite (length_bind_const _ (Z.to_nat (2 * R + 1))).
  - now rewrite length_offsets.
  - intros oy. rewrite (length_bind_const _ 1%nat) by reflexivity.
    rewrite length_offsets. lia.
Qed.

Lemma elem_of_neighborCells w R cx cy c :
  c ∈ neighborCells w R cx cy <->
  exists ox oy, (- R <= ox <= R)%Z /\ (- R <= oy <= R)%Z /\
    c = (mod_ (cx + ox) (resGridW w)
         + mod_ (cy + oy) (resGridH w) * resGridW w)%Z.
Proof.
  unfold neighborCells. rewrite list_elem_of_bind. split.
  - intros (oy & Hin & Hoy%elem_of_offsets).
    apply list_elem_of_bind in Hin as (ox & Hc & Hox%elem_of_offsets).
    apply list_elem_of_singleton in Hc. eauto.
  - intros (ox & oy & Hox & Hoy & ->). exists oy.
    split; [|now apply elem_of_offsets].
    apply list_elem_of_bind. exists ox.
    split; [apply list_elem_of_singleton; reflexivity|now apply elem_of_offsets].
Qed.

Lemma length_neighborTable w R :
  (0 <= resGridW w)%Z -> (0 <= resGridH w)%Z ->
  len (neighborTable w R) = (resGridW w * resGridH w)%Z.
Proof.
  intros HW HH. unfold len, neighborTable.
  rewrite (length_bind_const _ (Z.to_nat (resGridW w))).
  - rewrite length_seq. nia.
  - intros cy'. rewrite (length_bind_const _ 1%nat) by reflexivity.
    rewrite length_seq. lia.
Qed.

Lemma neighborTable_at w R cx cy :
  (0 <= cx < resGridW w)%Z -> (0 <= cy < resGridH w)%Z ->
  at_ (neighborTable w R) (cx + cy * resGridW w)
  = Some (neighborCells w R cx cy).
Proof.
  intros Hcx Hcy. unfold neighborTable.
  replace (cx + cy * resGridW w)%Z
    with (Z.of_nat (Z.to_nat cy * Z.to_nat (resGridW w) + Z.to_nat cx)) by nia.
  rewrite at_of_nat.
  rewrite (lookup_bind_const _ (Z.to_nat (resGridW w)) _ _ _ (Z.to_nat cy)).
  - replace (Z.to_nat cx) with (Z.to_nat cx * 1 + 0)%nat by lia.
    rewrite (lookup_bind_const _ 1%nat _ _ _ (Z.to_nat cx))
      by (try reflexivity; try lia; apply lookup_seq_lt; lia).
    cbn. now rewrite !Z2Nat.id by lia.
  - intros cy'. rewrite (length_bind_const _ 1%nat) by reflexivity.
    rewrite length_seq. lia.
  - apply lookup_seq_lt. lia.
  - lia.
Qed.

(** X6: the neighbour list built for cell [(cx, cy)] holds [(2R+1)^2]
    entries: exactly the cells at column and row offsets in [[-R, R]],
    wrapped round the edges of the grid, each one a cell of the grid; the
    table has one list per cell, and the list of [(cx, cy)] sits at index
    [cx + cy * resGridW], the index [cellIndexForPos] computes. *)
Theorem neighbor_lists_cover (w : World.T) (R cx cy : Z) :
  (0 <= R)%Z -> (0 < resGridW w)%Z -> (0 < resGridH w)%Z ->
  len (neighborCells w R cx cy) = ((2 * R + 1) * (2 * R + 1))%Z /\
  (forall c, c ∈ neighborCells w R cx cy <->
     exists ox oy, (- R <= ox <= R)%Z /\ (- R <= oy <= R)%Z /\
       c = ((cx + ox) mod resGridW w
            + (cy + oy) mod resGridH w * resGridW w)%Z) /\
  (forall c, c ∈ neighborCells w R cx cy ->
     (0 <= c < resGridW w * resGridH w)%Z) /\
  len (neighborTable w R) = (resGridW w * resGridH w)%Z /\
  ((0 <= cx < resGridW w)%Z -> (0 <= cy < resGridH w)%Z ->
   at_ (neighborTable w R) (cx + cy * resGridW w)
   = Some (neighborCells w R cx cy)).
Proof.
  intros HR HW HH.
  assert (Hmem : forall c, c ∈ neighborCells w R cx cy <->
     exists ox oy, (- R <= ox <= R)%Z /\ (- R <= oy <= R)%Z /\
       c = ((cx + ox) mod resGridW w
            + (cy + oy) mod resGridH w * resGridW w)%Z).
  { intros c. rewrite elem_of_neighborCells.
    split; intros (ox & oy & Hox & Hoy & ->); exists ox, oy;
      rewrite ?mod_eq_modulo by assumption; auto. }
  split.
  { unfold len. rewrite length_neighborCells. lia. }
  split; [exact Hmem|]. split.
  { intros c (ox & oy & _ & _ & ->)%Hmem.
    pose proof (Z.mod_pos_bound (cx + ox) (resGridW w) HW).
    pose proof (Z.mod_pos_bound (cy + oy) (resGridH w) HH). nia. }
  split; [apply length_neighborTable; lia|].
  apply neighborTable_at.
Qed.

Lemma neighbor_lists_cover_witness :
  let w := Fixtures.empty_world in
  ((0 <= 1)%Z /\ (0 < resGridW w)%Z /\ (0 < resGridH w)%Z) /\
  len (neighborCells w 1 0 34) = ((2 * 1 + 1) * (2 * 1 + 1))%Z /\
  (forall c, c ∈ neighborCells w 1 0 34 <->
     exists ox oy, (- 1 <= ox <= 1)%Z /\ (- 1 <= oy <= 1)%Z /\
       c = ((0 + ox) mod resGridW w
            + (34 + oy) mod resGridH w * resGridW w)%Z) /\
  (forall c, c ∈ neighborCells w 1 0 34 ->
     (0 <= c < resGridW w * resGridH w)%Z) /\
  len (neighborTable w 1) = (resGridW w * resGridH w)%Z /\
  ((0 <= 0 < resGridW w)%Z -> (0 <= 34 < resGridH w)%Z ->
   at_ (neighborTable w 1) (0 + 34 * resGridW w)
   = Some (neighborCells w 1 0 34)).
Proof.
  split; [vm_compute; repeat split; congruence|].
  apply (neighbor_lists_cover Fixtures.empty_world 1 0 34);
    vm_compute; (reflexivity || congruence).
Defined.

(** The corner cell's harvest neighbourhood wraps to the opposite edges. *)
Example corner_neighbours :
  neighborCells Fixtures.empty_world 1 0 0
  = [1224; 1190; 1191; 34; 0; 1; 69; 35; 36]%Z.
Proof. vm_compute. reflexivity. Qed.

End GridLaws.
(** ** More on the partition step *)

Module SelectionLaws.
Import Select SelectSpec SelectFacts.

(** X7: [partitionByD2] on a range [[left, right]] of an array returns the
    pivot element at the returned index [p] of the range; the elements
    before [p] in the range compare smaller than the pivot, those from [p]
    on do not (an element without a cached distance never compares
    smaller); the array is permuted, and nothing outside the range
    moves. *)
Theorem partitionByD2_partitions {A : Type} (d2tmp : A -> option Q)
    (arr : list A) (left right pivotIndex : Z) :
  (0 <= left)%Z -> (left < right)%Z -> (right < len arr)%Z ->
  (left <= pivotIndex <= right)%Z ->
  exists arr' p pivot,
    partitionByD2 d2tmp arr left right pivotIndex = Ret (arr', p) /\
    at_ arr pivotIndex = Some pivot /\
    (left <= p <= right)%Z /\ at_ arr' p = Some pivot /\
    arr' ≡ₚ arr /\
    (forall x, (x < left \/ right < x)%Z -> at_ arr' x = at_ arr x) /\
    (forall x a, (left <= x < p)%Z -> at_ arr' x = Some a ->
       js_lt (d2tmp a) (d2tmp pivot) = true) /\
    (forall x a, (p <= x <= right)%Z -> at_ arr' x = Some a ->
       js_lt (d2tmp a) (d2tmp pivot) = false).
Proof.
  intros Hl Hlr Hr Hp.
  destruct (partitionByD2_spec d2tmp arr left right pivotIndex Hl Hlr Hr Hp)
    as (arr' & p & pivot & Hrun & Hpr & Hsh & Hpiv & Hpiv' & Hlt & Hge).
  exists arr', p, pivot.
  split; [exact Hrun|]. split; [exact Hpiv|]. split; [exact Hpr|].
  split; [exact Hpiv'|].
  split; [exact (Shuffle_perm _ _ _ _ Hsh)|].
  split; [intros x Hx; exact (Shuffle_outside _ _ _ _ x Hsh Hx)|].
  split; [exact Hlt|].
  intros x a Hx. apply Hge. lia.
Qed.

Lemma partitionByD2_partitions_witness :
  let key := fun z : Z => Some (inject_Z z) in
  ((0 <= 1)%Z /\ (1 < 4)%Z /\ (4 < len [9; 5; 1; 4; 2; 0]%Z)%Z /\
   (1 <= 3 <= 4)%Z) /\
  exists arr' p pivot,
    partitionByD2 key [9; 5; 1; 4; 2; 0]%Z 1 4 3 = Ret (arr', p) /\
    at_ [9; 5; 1; 4; 2; 0]%Z 3 = Some pivot /\
    (1 <= p <= 4)%Z /\ at_ arr' p = Some pivot /\
    arr' ≡ₚ [9; 5; 1; 4; 2; 0]%Z /\
    (forall x, (x < 1 \/ 4 < x)%Z -> at_ arr' x = at_ [9; 5; 1; 4; 2; 0]%Z x) /\
    (forall x a, (1 <= x < p)%Z -> at_ arr' x = Some a ->
       js_lt (key a) (key pivot) = true) /\
    (forall x a, (p <= x <= 4)%Z -> at_ arr' x = Some a ->
       js_lt (key a) (key pivot) = false).
Proof.
  intros key. split; [vm_compute; repeat split; congruence|].
  apply (partitionByD2_partitions key [9; 5; 1; 4; 2; 0]%Z 1 4 3);
    vm_compute; (reflexivity || (split; congruence) || congruence).
Defined.

(** The partition of the witness: 1 and 2 go before the pivot 4, 5 after. *)
Example partition_of_six :
  partitionByD2 (fun z : Z => Some (inject_Z z)) [9; 5; 1; 4; 2; 0]%Z 1 4 3
  = Ret ([9; 1; 2; 4; 5; 0]%Z, 3%Z).
Proof. vm_compute. reflexivity. Qed.

End SelectionLaws.
(** ** More on the probes *)

Module ProbeLaws.
Import Geometry ProbeMethods SimSpec ProbeSpec RangeFacts ProbeFacts.
Section WithMath.
Context `{MathLib}.

Lemma constrain_range n low high :
  low <= high ->
  low <= P5.constrain n low high /\ P5.constrain n low high <= high.
Proof.
  intros Hlh. unfold P5.constrain, P5.min.
  destruct (Qltb high n) eqn:E1;
    [apply Qltb_lt in E1|apply Qltb_ge in E1];
    unfold P5.max; qcases; lra.
Qed.

Lemma constrain_near n low high v a b :
  0 <= low -> low <= v -> v <= high -> 0 < a -> a <= 1 -> 1 <= b ->
  a * v <= n -> n <= b * v ->
  a * v <= P5.constrain n low high /\ P5.constrain n low high <= b * v.
Proof.
  intros H0 H1 H2 Ha Ha1 Hb Hn1 Hn2.
  assert (0 <= v) as Hv by lra.
  assert (0 <= v * (1 - a)) by (apply Qmult_le_0_compat; lra).
  assert (0 <= v * (b - 1)) by (apply Qmult_le_0_compat; lra).
  assert (a * v <= v) by lra.
  assert (v <= b * v).
  { assert (b * v == v + v * (b - 1)) as -> by ring. lra. }
  unfold P5.constrain, P5.min.
  destruct (Qltb high n) eqn:E1;
    [apply Qltb_lt in E1|apply Qltb_ge in E1];
    unfold P5.max; qcases; split; lra.
Qed.

(** X8: a mutated DNA lies inside the clamps of the code whatever the
    parent and the draws: top speed in [[140, 320]], acceleration in
    [[260, 700]], harvest rate in [[8, 40]].  When the parent lies inside
    the clamps and [Math.random] draws from [[0, 1)], no gene moves by more
    than the factor drawn for it: 3 % either way for the speed, 4 % for the
    acceleration, 5 % down and 6 % up for the harvest rate. *)
Theorem mutateDNA_bounded (dna : DNA.T) (g : Rng) :
  let m := fst (mutateDNA dna g) in
  (140 <= DNA.maxSpeed m /\ DNA.maxSpeed m <= 320) /\
  (260 <= DNA.accel m /\ DNA.accel m <= 700) /\
  (8 <= DNA.harvest m /\ DNA.harvest m <= 40) /\
  (RngOK g ->
   140 <= DNA.maxSpeed dna -> DNA.maxSpeed dna <= 320 ->
   260 <= DNA.accel dna -> DNA.accel dna <= 700 ->
   8 <= DNA.harvest dna -> DNA.harvest dna <= 40 ->
   (0.97 * DNA.maxSpeed dna <= DNA.maxSpeed m /\
    DNA.maxSpeed m <= 1.03 * DNA.maxSpeed dna) /\
   (0.96 * DNA.accel dna <= DNA.accel m /\
    DNA.accel m <= 1.04 * DNA.accel dna) /\
   (0.95 * DNA.harvest dna <= DNA.harvest m /\
    DNA.harvest m <= 1.06 * DNA.harvest dna) /\
   RngOK (snd (mutateDNA dna g))).
Proof.
  unfold mutateDNA.
  destruct (rand 0.97 1.03 g) as [f1 g1] eqn:E1.
  destruct (rand 0.96 1.04 g1) as [f2 g2] eqn:E2.
  destruct (rand 0.95 1.06 g2) as [f3 g3] eqn:E3.
  cbn [fst snd DNA.maxSpeed DNA.accel DNA.harvest].
  split; [apply constrain_range; lra|].
  split; [apply constrain_range; lra|].
  split; [apply constrain_range; lra|].
  intros Hg Hs1 Hs2 Ha1 Ha2 Hh1 Hh2.
  destruct (rand_ok _ _ _ _ _ E1 Hg ltac:(lra)) as ([? ?] & _ & Hg1).
  destruct (rand_ok _ _ _ _ _ E2 Hg1 ltac:(lra)) as ([? ?] & _ & Hg2).
  destruct (rand_ok _ _ _ _ _ E3 Hg2 ltac:(lra)) as ([? ?] & _ & Hg3).
  split; [apply constrain_near; nra|].
  split; [apply constrain_near; nra|].
  split; [apply constrain_near; nra|]. exact Hg3.
Qed.


(** *** [update] *)

Ltac branches :=
  repeat match goal with
         | |- context [if ?c then _ else _] => destruct c
         | |- context [match ?c with Some _ => _ | None => _ end] => destruct c
         end.

Lemma clampVel_cargo p ms :
  Probe.id (clampVel p ms) = Probe.id p /\
  Probe.resources (clampVel p ms) = Probe.resources p.
Proof. unfold clampVel. branches; split; reflexivity. Qed.

Lemma steerToWaypoint_cargo dt p :
  Probe.id (steerToWaypoint dt p) = Probe.id p /\
  Probe.resources (steerToWaypoint dt p) = Probe.resources p.
Proof.
  unfold steerToWaypoint. branches; cbv zeta;
    rewrite ?(proj1 (clampVel_cargo _ _)), ?(proj2 (clampVel_cargo _ _));
    split; reflexivity.
Qed.

Lemma steerToWaypoint_cargo' dt wp v p :
  Probe.id (steerToWaypoint dt
              (Probe.set_waypoint wp (Probe.set_replCooldown v p)))
  = Probe.id p /\
  Probe.resources (steerToWaypoint dt
                     (Probe.set_waypoint wp (Probe.set_replCooldown v p)))
  = Probe.resources p.
Proof.
  destruct (steerToWaypoint_cargo dt
              (Probe.set_waypoint wp (Probe.set_replCooldown v p))) as [H1 H2].
  rewrite H1, H2. split; reflexivity.
Qed.

Lemma chaseTarget_cargo dt r p :
  Probe.id (chaseTarget dt r p) = Probe.id p /\
  Probe.resources (chaseTarget dt r p) = Probe.resources p.
Proof.
  unfold chaseTarget. branches; cbv zeta;
    rewrite ?(proj1 (clampVel_cargo _ _)), ?(proj2 (clampVel_cargo _ _));
    split; reflexivity.
Qed.

Lemma wander_cargo dt p g :
  Probe.id (fst (wander dt p g)) = Probe.id p /\
  Probe.resources (fst (wander dt p g)) = Probe.resources p.
Proof.
  unfold wander, rand, Math_random.
  branches; cbn [fst snd];
    rewrite ?(proj1 (clampVel_cargo _ _)), ?(proj2 (clampVel_cargo _ _));
    split; reflexivity.
Qed.

Lemma control_cargo dt keys w m p g p' g' :
  (if Probe.sacrificing p then Ret (sacrificeBehavior dt p, g)
   else if Probe.isPlayer p then Ret (playerControl dt keys m p, g)
   else aiControl dt w m p g) = Ret (p', g') ->
  Probe.id p' = Probe.id p /\ Probe.resources p' = Probe.resources p.
Proof.
  destruct (Probe.sacrificing p).
  { intros Heq. inversion Heq; subst. unfold sacrificeBehavior. cbv zeta.
    match goal with |- context [clampVel ?q0 ?ms0] =>
      set (q := q0); set (ms := ms0) end.
    assert (Probe.id q = Probe.id p /\ Probe.resources q = Probe.resources p)
      as [Hq1 Hq2] by (subst q; branches; split; reflexivity).
    clearbody q.
    destruct (Qleb _ 0); cbn;
      rewrite (proj1 (clampVel_cargo _ _)), (proj2 (clampVel_cargo _ _));
      split; assumption. }
  destruct (Probe.isPlayer p).
  { intros Heq. inversion Heq; subst. unfold playerControl. cbv zeta.
    match goal with |- context [clampVel ?q0 ?ms0] =>
      set (q := q0); set (ms := ms0) end.
    assert (Probe.id q = Probe.id p /\ Probe.resources q = Probe.resources p)
      as [Hq1 Hq2] by (subst q; branches; split; reflexivity).
    clearbody q.
    rewrite (proj1 (clampVel_cargo _ _)), (proj2 (clampVel_cargo _ _)).
    split; assumption. }
  unfold aiControl. cbv zeta.
  destruct (masterActive m).
  { intros Heq. inversion Heq; subst. apply steerToWaypoint_cargo'. }
  assert (Hrw : forall q, Probe.id q = Probe.id p ->
            Probe.resources q = Probe.resources p ->
            radarWander dt w q g = Ret (p', g') ->
            Probe.id p' = Probe.id p /\ Probe.resources p' = Probe.resources p).
  { intros q Hq1 Hq2. unfold radarWander. cbv zeta.
    destruct (Qleb _ 0).
    2:{ intros Heq. inversion Heq as [Hw].
        match type of Hw with wander dt ?q0 ?g0 = _ =>
          destruct (wander_cargo dt q0 g0) as [H1 H2] end.
        rewrite Hw in H1, H2. cbn in H1, H2. split; congruence. }
    destruct (radarPing _ _) as [found| | |]; cbn [mbind outcome_bind];
      try discriminate.
    destruct (found >=? 0)%Z.
    - unfold rand, Math_random. cbn. intros Heq. inversion Heq; subst.
      cbn. split; assumption.
    - unfold rand at 1 2 3, Math_random. cbn. intros Heq. inversion Heq as [Hw].
      match type of Hw with wander dt ?q0 ?g0 = _ =>
        destruct (wander_cargo dt q0 g0) as [H1 H2] end.
      rewrite Hw in H1, H2. cbn in H1, H2. split; congruence. }
  cbn [Probe.target Probe.set_replCooldown].
  destruct (Probe.target p >=? 0)%Z; [|now apply Hrw].
  destruct (at_ (World.resources w) (Probe.target p)) as [r|];
    [|now apply Hrw].
  destruct (Qgtb (Resource.amt r) 0.001); [|now apply Hrw].
  match goal with |- context [chaseTarget dt r ?q] =>
    destruct (chaseTarget_cargo dt r q) as [H1 H2];
    set (c := chaseTarget dt r q) in * end.
  clearbody c. cbn in H1, H2.
  destruct (Qgtb _ _); intros Heq; inversion Heq; subst; cbn;
    split; assumption.
Qed.

(** X10: [update] returns for a probe inside the world of a consistent
    pool, and the probe is inside the world afterwards.  The call moves
    the probe, but it keeps its id, its cargo, its DNA and its role; the
    probe dies in the call only when it is on its way into the warp
    machine.  A dead probe, and any probe when [dt <= 0], is returned as it
    is, and nothing is drawn from the random source. *)
Theorem update_keeps_probe (dt : Q) (keys : Keys) (w : World.T)
    (m : Master.T) (p : Probe.T) (g : Rng) :
  WorldOK w -> InWorld (Probe.x p) (Probe.y p) ->
  exists p' g', update dt keys w m p g = Ret (p', g') /\
    InWorld (Probe.x p') (Probe.y p') /\
    Probe.id p' = Probe.id p /\
    Probe.resources p' = Probe.resources p /\
    Probe.dna p' = Probe.dna p /\
    Probe.isPlayer p' = Probe.isPlayer p /\
    Probe.sacrificing p' = Probe.sacrificing p /\
    (Probe.dead p' = true ->
     Probe.dead p = true \/ Probe.sacrificing p = true) /\
    (RngOK g -> RngOK g') /\
    (Probe.dead p = true \/ dt <= 0 -> p' = p /\ g' = g).
Proof.
  intros HO Hin.
  destruct (update_ok dt keys w m p g HO Hin)
    as (p' & g' & Hrun & Hin' & (Hpl & Hsac & Hdna & Hdead) & Hg').
  exists p', g'. split; [exact Hrun|]. split; [exact Hin'|].
  unfold update in Hrun.
  destruct (Probe.dead p || Qleb dt 0) eqn:Hskip.
  - inversion Hrun; subst.
    repeat (split; [first [reflexivity|assumption]|]). auto.
  - apply orb_false_elim in Hskip as [Hd Hdt]. apply Qleb_gt in Hdt.
    apply bind_Ret in Hrun as ([q g1] & Hctl & Hmove).
    apply control_cargo in Hctl as [Hid Hres].
    cbv zeta in Hmove. inversion Hmove; subst. cbn.
    split; [exact Hid|]. split; [exact Hres|].
    split; [exact Hdna|]. split; [exact Hpl|]. split; [exact Hsac|].
    split; [exact Hdead|]. split; [exact Hg'|].
    intros [Hd'|Hdt']; [congruence|lra].
Qed.

(** *** The way into the warp machine *)




End WithMath.

Import Fixtures.


Lemma update_keeps_probe_witness :
  let p := probe_carrying 1 false 150 100 130 in
  exists p' g', update FIXED_DT no_keys worn_world (master_at NORMAL) p
                  steady_rng = Ret (p', g') /\
    InWorld (Probe.x p') (Probe.y p') /\
    Probe.id p' = Probe.id p /\
    Probe.resources p' = Probe.resources p /\
    Probe.dna p' = Probe.dna p /\
    Probe.isPlayer p' = Probe.isPlayer p /\
    Probe.sacrificing p' = Probe.sacrificing p /\
    (Probe.dead p' = true ->
     Probe.dead p = true \/ Probe.sacrificing p = true) /\
    (RngOK steady_rng -> RngOK g') /\
    (Probe.dead p = true \/ FIXED_DT <= 0 -> p' = p /\ g' = steady_rng).
Proof.
  apply (update_keeps_probe FIXED_DT no_keys worn_world (master_at NORMAL)
           (probe_carrying 1 false 150 100 130) steady_rng).
  - exact FixtureFacts.worn_world_OK.
  - vm_compute. repeat split; congruence.
Defined.


Lemma mutateDNA_bounded_witness :
  let dna := DNA.mk 260 520 22 in
  let m := fst (mutateDNA dna steady_rng) in
  (RngOK steady_rng /\
   140 <= DNA.maxSpeed dna /\ DNA.maxSpeed dna <= 320 /\
   260 <= DNA.accel dna /\ DNA.accel dna <= 700 /\
   8 <= DNA.harvest dna /\ DNA.harvest dna <= 40) /\
  (140 <= DNA.maxSpeed m /\ DNA.maxSpeed m <= 320) /\
  (260 <= DNA.accel m /\ DNA.accel m <= 700) /\
  (8 <= DNA.harvest m /\ DNA.harvest m <= 40) /\
  (RngOK steady_rng ->
   140 <= DNA.maxSpeed dna -> DNA.maxSpeed dna <= 320 ->
   260 <= DNA.accel dna -> DNA.accel dna <= 700 ->
   8 <= DNA.harvest dna -> DNA.harvest dna <= 40 ->
   (0.97 * DNA.maxSpeed dna <= DNA.maxSpeed m /\
    DNA.maxSpeed m <= 1.03 * DNA.maxSpeed dna) /\
   (0.96 * DNA.accel dna <= DNA.accel m /\
    DNA.accel m <= 1.04 * DNA.accel dna) /\
   (0.95 * DNA.harvest dna <= DNA.harvest m /\
    DNA.harvest m <= 1.06 * DNA.harvest dna) /\
   RngOK (snd (mutateDNA dna steady_rng))).
Proof.
  split.
  - split; [exact FixtureFacts.steady_rng_OK|].
    vm_compute. repeat split; congruence.
  - apply (mutateDNA_bounded (DNA.mk 260 520 22) steady_rng).
Defined.

End ProbeLaws.
(** ** The radar *)

Module RadarLaws.
Import Geometry Resource World Pool PoolSpec PoolFacts SimSpec ProbeSpec
  ProbeMethods WorldFacts HarvestFacts GeometryLaws GridLaws.

(** The column (or row) of a coordinate inside the world. *)
Lemma column_bounds v :
  0 <= v -> v < 24000 ->
  (0 <= Qtrunc (v / RES_CELL) < 35)%Z /\
  inject_Z (Qtrunc (v / RES_CELL)) * 700 <= v /\
  v < (inject_Z (Qtrunc (v / RES_CELL)) + 1) * 700.
Proof.
  intros H0 H1. unfold RES_CELL.
  assert (0 <= v / 700) as Hq by (apply Qle_shift_div_l; lra).
  destruct (Qtrunc_nonneg _ Hq) as [Hlo Hhi].
  assert (v == v / 700 * 700) as Hv7 by field.
  split; [|split; lra].
  apply Qtrunc_range; [assumption|].
  apply Qlt_shift_div_r; [lra|]. change (inject_Z 35) with 35. lra.
Qed.

Lemma cellIndexForPos_35 w x y :
  resGridW w = 35%Z -> resGridH w = 35%Z -> InWorld x y ->
  cellIndexForPos w x y
  = (Qtrunc (x / RES_CELL) + Qtrunc (y / RES_CELL) * 35)%Z.
Proof.
  intros HW HH [[Hx0 Hx1] [Hy0 Hy1]]. unfold WORLD_w, WORLD_h in *.
  destruct (column_bounds x Hx0 Hx1) as (Hcx & _).
  destruct (column_bounds y Hy0 Hy1) as (Hcy & _).
  unfold cellIndexForPos. cbv zeta. rewrite HW, HH.
  rewrite !SelectFacts.toInt32_small by lia.
  destruct (Z.geb_spec (Qtrunc (x / RES_CELL)) 35); [lia|].
  destruct (Z.geb_spec (Qtrunc (y / RES_CELL)) 35); [lia|]. reflexivity.
Qed.

Lemma Z_of_Q_lt (a b : Z) : inject_Z a < inject_Z b -> (a < b)%Z.
Proof. intros Hlt. rewrite Zlt_Qlt. exact Hlt. Qed.

(** Two coordinates of the world not more than 1000 apart round the
    world lie not more than three columns apart round the grid. *)
Lemma column_offset a b :
  0 <= a -> a < 24000 -> 0 <= b -> b < 24000 ->
  wrapDeltaFast (b - a) 24000 * wrapDeltaFast (b - a) 24000 <= 1000000 ->
  exists o, (-3 <= o <= 3)%Z /\
    Qtrunc (b / RES_CELL) = ((Qtrunc (a / RES_CELL) + o) mod 35)%Z.
Proof.
  intros Ha0 Ha1 Hb0 Hb1 Hd.
  destruct (column_bounds a Ha0 Ha1) as (Hca & Hal & Hah).
  destruct (column_bounds b Hb0 Hb1) as (Hcb & Hbl & Hbh).
  set (ca := Qtrunc (a / RES_CELL)) in *.
  set (cb := Qtrunc (b / RES_CELL)) in *.
  assert (Habs : forall d, d * d <= 1000000 -> -1000 <= d /\ d <= 1000).
  { intros d Hdd. split; nra. }
  unfold wrapDeltaFast in Hd. cbv zeta in Hd.
  apply Habs in Hd as [Hd1 Hd2]. clear Habs.
  destruct (Qgtb (b - a) _) eqn:E1.
  - (* across the edge, [b] near the far end *)
    apply Qgtb_gt in E1.
    exists (cb - 35 - ca)%Z. split.
    + assert (inject_Z (ca + 32) < inject_Z (cb + 1)).
      { rewrite !inject_Z_plus. change (inject_Z 32) with 32.
        change (inject_Z 1) with 1. lra. }
      apply Z_of_Q_lt in H. lia.
    + replace (ca + (cb - 35 - ca))%Z with (cb + (-1) * 35)%Z by lia.
      rewrite Z.mod_add by lia. symmetry. apply Z.mod_small. lia.
  - apply Qgtb_le in E1.
    destruct (Qltb (b - a) _) eqn:E2.
    + (* across the edge, [a] near the far end *)
      apply Qltb_lt in E2.
      exists (cb + 35 - ca)%Z. split.
      * assert (inject_Z (cb + 32) < inject_Z (ca + 1)).
        { rewrite !inject_Z_plus. change (inject_Z 32) with 32.
          change (inject_Z 1) with 1. lra. }
        apply Z_of_Q_lt in H. lia.
      * replace (ca + (cb + 35 - ca))%Z with (cb + 1 * 35)%Z by lia.
        rewrite Z.mod_add by lia. symmetry. apply Z.mod_small. lia.
    + apply Qltb_ge in E2.
      exists (cb - ca)%Z. split.
      * assert (inject_Z cb < inject_Z (ca + 3) /\
                inject_Z ca < inject_Z (cb + 3)) as [H1 H2].
        { rewrite !inject_Z_plus. change (inject_Z 3) with 3. split; lra. }
        apply Z_of_Q_lt in H1, H2. lia.
      * replace (ca + (cb - ca))%Z with cb by lia.
        symmetry. apply Z.mod_small. lia.
Qed.

(** The squared distance of the radar bounds each of its two parts. *)
Lemma reach2_parts p r :
  reach2 p r <= RADAR_RANGE2 ->
  wrapDeltaFast (Resource.x r - Probe.x p) 24000
    * wrapDeltaFast (Resource.x r - Probe.x p) 24000 <= 1000000 /\
  wrapDeltaFast (Resource.y r - Probe.y p) 24000
    * wrapDeltaFast (Resource.y r - Probe.y p) 24000 <= 1000000.
Proof.
  unfold reach2, RADAR_RANGE2, RADAR_RANGE, WORLD_w, WORLD_h. cbv zeta.
  set (dx := wrapDeltaFast _ _). set (dy := wrapDeltaFast _ _).
  intros Hr. split; nra.
Qed.

(** One resource more. *)
Lemma radar_step_Nearest w p seen best ridx :
  Nearest w p seen best ->
  Nearest w p (seen ++ [ridx])
    (match at_ (resources w) ridx with
     | None => best
     | Some r =>
         if Qleb (amt r) 0.001 then best
         else
           let dx := wrapDeltaFast (Resource.x r - Probe.x p) WORLD_w in
           let dy := wrapDeltaFast (Resource.y r - Probe.y p) WORLD_h in
           let d2 := dx * dx + dy * dy in
           if Qleb d2 RADAR_RANGE2 && lt_best d2 (snd best)
           then (ridx, Some d2) else best
     end).
Proof.
  intros HN.
  assert (Hskip : (forall r, at_ (resources w) ridx = Some r -> in_radar p r ->
                     match snd best with
                     | None => False
                     | Some d => d <= reach2 p r
                     end) ->
                  Nearest w p (seen ++ [ridx]) best).
  { intros Hno. unfold Nearest in *. destruct (snd best) as [d|].
    - destruct HN as [(Hin & Hr) Hle]. split.
      + split; [apply elem_of_app; now left|exact Hr].
      + intros j r [Hj|Hj%list_elem_of_singleton]%elem_of_app Hrj Hrad;
          [now apply (Hle j)|subst j; now apply Hno].
    - destruct HN as [Hm Hnone]. split; [exact Hm|].
      intros j r [Hj|Hj%list_elem_of_singleton]%elem_of_app Hrj Hrad;
        [now apply (Hnone j r)|subst j; now apply (Hno r)]. }
  destruct (at_ (resources w) ridx) as [r|] eqn:Hr.
  2:{ apply Hskip. intros r0 Hr0. discriminate. }
  destruct (Qleb (amt r) 0.001) eqn:Hamt.
  { apply Hskip. intros r0 Hr0 [Ha _]. inversion Hr0; subst r0.
    apply Qleb_le in Hamt. lra. }
  apply Qleb_gt in Hamt. cbv zeta.
  change (wrapDeltaFast (Resource.x r - Probe.x p) WORLD_w
          * wrapDeltaFast (Resource.x r - Probe.x p) WORLD_w
          + wrapDeltaFast (Resource.y r - Probe.y p) WORLD_h
            * wrapDeltaFast (Resource.y r - Probe.y p) WORLD_h)
    with (reach2 p r).
  destruct (Qleb (reach2 p r) RADAR_RANGE2) eqn:Hrange; cbn [andb].
  2:{ apply Hskip. intros r0 Hr0 [_ Hin]. inversion Hr0; subst r0.
      apply Qleb_gt in Hrange. lra. }
  apply Qleb_le in Hrange.
  destruct (lt_best (reach2 p r) (snd best)) eqn:Hlt.
  2:{ apply Hskip. intros r0 Hr0 _. inversion Hr0; subst r0.
      unfold lt_best in Hlt. destruct (snd best) as [d|]; [|discriminate].
      now apply Qltb_ge in Hlt. }
  unfold Nearest. cbn [fst snd]. split.
  - split; [apply elem_of_app; right; now apply list_elem_of_singleton|].
    exists r. split; [exact Hr|]. split; [split; assumption|reflexivity].
  - intros j rj [Hj|Hj%list_elem_of_singleton]%elem_of_app Hrj Hrad.
    + unfold Nearest, lt_best in *. destruct (snd best) as [d|].
      * apply Qltb_lt in Hlt. destruct HN as [_ Hle].
        specialize (Hle j rj Hj Hrj Hrad). lra.
      * destruct HN as [_ Hnone]. destruct (Hnone j rj Hj Hrj Hrad).
    + subst j. rewrite Hr in Hrj. inversion Hrj; subst rj. lra.
Qed.

Lemma radar_cell_Nearest w p cell : forall seen best,
  Nearest w p seen best ->
  Nearest w p (seen ++ cell) (radar_cell w p cell best).
Proof.
  induction cell as [|ridx rest IH]; intros seen best HN.
  - now rewrite app_nil_r.
  - cbn [radar_cell]. cbv zeta.
    replace (seen ++ ridx :: rest) with ((seen ++ [ridx]) ++ rest)
      by (now rewrite <- app_assoc).
    apply IH. now apply radar_step_Nearest.
Qed.

Lemma radar_cells_Nearest w p neigh : forall seen best best',
  radar_cells w p neigh best = Ret best' ->
  Nearest w p seen best ->
  exists seen', Nearest w p seen' best' /\
    (forall j, j ∈ seen -> j ∈ seen') /\
    (forall n cell j, n ∈ neigh -> at_ (resGrid w) n = Some cell ->
       j ∈ cell -> j ∈ seen').
Proof.
  induction neigh as [|n rest IH]; intros seen best best' Hrun HN.
  - inversion Hrun; subst. exists seen. split; [assumption|].
    split; [auto|]. intros n cell j Hn. inversion Hn.
  - cbn [radar_cells] in Hrun.
    apply bind_Ret in Hrun as (cell & Hcell%get_Ret & Hrun).
    destruct (IH (seen ++ cell) _ _ Hrun (radar_cell_Nearest w p cell _ _ HN))
      as (seen' & HN' & Hold & Hnew).
    exists seen'. split; [exact HN'|]. split.
    + intros j Hj. apply Hold. apply elem_of_app. now left.
    + intros n' cell' j [->|Hn']%elem_of_cons Hc Hj.
      * rewrite Hcell in Hc. inversion Hc; subst cell'.
        apply Hold. apply elem_of_app. now right.
      * now apply (Hnew n' cell').
Qed.

(** X12: over a consistent pool, [radarPing] returns for a probe inside
    the world, and what it returns is [-1] or the index of a resource that
    holds more than 0.001 and lies within [RADAR_RANGE] of the probe,
    round the world.  Whenever some active resource inside the world is
    of that kind, the result is such a resource and none of that kind is
    nearer: the cells three columns and rows around the probe hold all
    that the radar can reach. *)
Theorem radarPing_nearest (w : World.T) (p : Probe.T) :
  WorldOK w -> InWorld (Probe.x p) (Probe.y p) ->
  exists i, radarPing w p = Ret i /\
    (i = (-1)%Z \/
     exists ri, res w i = Some ri /\ in_radar p ri) /\
    (forall j r, res w j = Some r -> active r = true ->
       InWorld (Resource.x r) (Resource.y r) -> in_radar p r ->
       exists ri, res w i = Some ri /\ in_radar p ri /\
         reach2 p ri <= reach2 p r).
Proof.
  intros HO Hin. pose proof (world_pool w HO) as HP.
  pose proof (world_W w HO) as HW. pose proof (world_H w HO) as HH.
  unfold radarPing.
  destruct (Z.leb_spec (len (resourceActive w)) 0) as [Hnone|Hsome].
  { exists (-1)%Z. split; [reflexivity|]. split; [now left|].
    intros j r Hr Ha _ _. exfalso.
    pose proof (pool_list_backref w HP j r Hr Ha) as Hl.
    apply at_in_range in Hl. lia. }
  rewrite (world_radar w HO). cbn [table mbind outcome_bind].
  rewrite (cellIndexForPos_35 w _ _ HW HH Hin).
  destruct Hin as [[Hx0 Hx1] [Hy0 Hy1]]. unfold WORLD_w, WORLD_h in *.
  destruct (column_bounds _ Hx0 Hx1) as (Hcx & _).
  destruct (column_bounds _ Hy0 Hy1) as (Hcy & _).
  set (cx := Qtrunc (Probe.x p / RES_CELL)) in *.
  set (cy := Qtrunc (Probe.y p / RES_CELL)) in *.
  replace (cx + cy * 35)%Z with (cx + cy * resGridW w)%Z by (now rewrite HW).
  rewrite (get_at _ _ _ (neighborTable_at w 3 cx cy ltac:(lia) ltac:(lia))).
  cbn [mbind outcome_bind].
  assert (Forall (fun c => (0 <= c < 1225)%Z) (neighborCells w 3 cx cy)) as Hall.
  { apply Forall_forall. intros c (ox & oy & _ & _ & ->)%elem_of_neighborCells.
    rewrite !mod_eq_modulo by lia. rewrite HW, HH.
    pose proof (Z.mod_pos_bound (cx + ox) 35 ltac:(lia)).
    pose proof (Z.mod_pos_bound (cy + oy) 35 ltac:(lia)). lia. }
  destruct (radar_cells_ok w p _ ((-1)%Z, None) (world_grid_len w HO) Hall)
    as [best Hb].
  rewrite Hb. cbn [mbind outcome_bind].
  destruct (radar_cells_Nearest w p _ [] _ _ Hb) as (seen & HN & _ & Hseen).
  { split; [reflexivity|]. intros j r Hj. inversion Hj. }
  exists (fst best). split; [reflexivity|].
  unfold Nearest in HN. split.
  - destruct (snd best) as [d|].
    + destruct HN as [(_ & ri & Hri & Hrad & _) _]. right. eauto.
    + left. apply HN.
  - intros j r Hr Ha [[Hrx0 Hrx1] [Hry0 Hry1]] Hrad.
    unfold WORLD_w, WORLD_h in *.
    assert (j ∈ seen) as Hj.
    { destruct (PoolOK_active_stored w j r HP Hr Ha)
        as (Hcell & (cell & Hc & Hslot) & _).
      apply (Hseen (_gridCell r) cell); [|exact Hc|].
      - rewrite Hcell.
        rewrite (cellIndexForPos_35 w _ _ HW HH)
          by (unfold InWorld, WORLD_w, WORLD_h; auto).
        destruct (reach2_parts p r (proj2 Hrad)) as [Hdx Hdy].
        destruct (column_offset _ _ Hx0 Hx1 Hrx0 Hrx1 Hdx) as (ox & Hox & ->).
        destruct (column_offset _ _ Hy0 Hy1 Hry0 Hry1 Hdy) as (oy & Hoy & ->).
        apply elem_of_neighborCells. exists ox, oy.
        split; [lia|]. split; [lia|].
        rewrite !mod_eq_modulo by lia. rewrite HW, HH. reflexivity.
      - apply at_Some in Hslot as [_ Hslot].
        now apply list_elem_of_lookup_2 in Hslot. }
    destruct (snd best) as [d|].
    + destruct HN as [(_ & ri & Hri & Hrad' & ->) Hle].
      exists ri. split; [exact Hri|]. split; [exact Hrad'|].
      exact (Hle j r Hj Hr Hrad).
    + destruct HN as [_ Hnone]. destruct (Hnone j r Hj Hr Hrad).
Qed.

Lemma radarPing_nearest_witness :
  let p := Fixtures.probe_at 1 false 150 100 in
  exists i, radarPing Fixtures.worn_world p = Ret i /\
    (i = (-1)%Z \/
     exists ri, res Fixtures.worn_world i = Some ri /\ in_radar p ri) /\
    (forall j r, res Fixtures.worn_world j = Some r -> active r = true ->
       InWorld (Resource.x r) (Resource.y r) -> in_radar p r ->
       exists ri, res Fixtures.worn_world i = Some ri /\ in_radar p ri /\
         reach2 p ri <= reach2 p r).
Proof.
  apply (radarPing_nearest Fixtures.worn_world
           (Fixtures.probe_at 1 false 150 100)).
  - exact FixtureFacts.worn_world_OK.
  - vm_compute. repeat split; congruence.
Defined.

(** In the worn pool both resources hold more than 0.001; the probe sits
    on resource 1, which the radar returns. *)
Example radar_finds_the_nearer :
  radarPing Fixtures.worn_world (Fixtures.probe_at 1 false 150 100) = Ret 1%Z.
Proof. vm_compute. reflexivity. Qed.

End RadarLaws.
(** ** The books of a harvest *)

Module HarvestLaws.
Import Geometry Resource World Pool PoolSpec PoolFacts SimSpec ProbeSpec
  ProbeMethods WorldFacts HarvestFacts.







(** The probe on resource 1 of the worn pool takes 0.44 of its 0.4405 in
    one tick; the residue of 0.0005 is set to zero and stays in the
    total. *)
Example harvest_leaves_a_residue :
  (fun '(p', w') =>
     (Qred (Probe.resources p'), Qred (systemRemainingTotal w'),
      Qred (sum_amt (resources w'))))
    <$> harvest FIXED_DT (Fixtures.probe_carrying 1 false 150 100 130)
          Fixtures.worn_world
  = Ret (3261 # 25, 100001 # 2000, 50 # 1).
Proof. vm_compute. reflexivity. Qed.

End HarvestLaws.
(** ** A fresh system *)

Module ResourceLaws.
Import Geometry Resource World Pool PoolSpec PoolFacts SimSpec SpawnSpec
  Engine RangeFacts WorldFacts HarvestFacts SpawnFacts GridLaws.

(** *** [pickWeightedCluster] *)

Lemma total_w_cons c cs : total_w (c :: cs) = Cluster.w c + total_w cs.
Proof. reflexivity. Qed.

Lemma total_w_snoc cs c : total_w (cs ++ [c]) == total_w cs + Cluster.w c.
Proof.
  induction cs as [|c0 cs IH].
  - cbn. ring.
  - cbn [app]. rewrite !total_w_cons, IH. ring.
Qed.






(** *** [spawnSystem] *)

Section WithMath.
Context `{MathLib}.

(** [makeResource]: kind, position and amount of the new resource. *)
Lemma makeResource_full id kind clusters g :
  RngOK g ->
  exists r g', makeResource id kind clusters g = Ret (r, g') /\
    Resource.kind r = kind /\ active r = false /\
    InWorld (Resource.x r) (Resource.y r) /\
    amt r = maxAmt r /\
    (if (kind =? 0)%Z then 18 <= amt r /\ amt r < 110
     else 140 <= amt r /\ amt r < 420).
Proof.
  intros Hg. unfold makeResource. cbv zeta.
  assert (Hfill : forall x y g1, InWorld x y -> RngOK g1 ->
    exists r g',
      (let '(maxAmt, g0) :=
         if (kind =? 0)%Z then rand 18 110 g1 else rand 140 420 g1 in
       Ret (Resource.mk id kind x y maxAmt maxAmt
              (RESOURCE_BASE_R
               + sqrt maxAmt * (if (kind =? 0)%Z then 0.52 else 0.62))
              false (-1) (-1) (-1) (-1), g0)) = Ret (r, g') /\
      Resource.kind r = kind /\ active r = false /\
      InWorld (Resource.x r) (Resource.y r) /\
      amt r = maxAmt r /\
      (if (kind =? 0)%Z then 18 <= amt r /\ amt r < 110
       else 140 <= amt r /\ amt r < 420)).
  { intros x y g1 Hin Hg1.
    destruct (kind =? 0)%Z.
    - destruct (rand 18 110 g1) as [m g2] eqn:E.
      destruct (rand_ok _ _ _ _ _ E Hg1 ltac:(lra)) as ([Hlo _] & Hhi & _).
      eexists _, _. split; [reflexivity|]. cbn.
      do 2 (split; [reflexivity|]). split; [exact Hin|].
      split; [reflexivity|]. split; [exact Hlo|apply Hhi; lra].
    - destruct (rand 140 420 g1) as [m g2] eqn:E.
      destruct (rand_ok _ _ _ _ _ E Hg1 ltac:(lra)) as ([Hlo _] & Hhi & _).
      eexists _, _. split; [reflexivity|]. cbn.
      do 2 (split; [reflexivity|]). split; [exact Hin|].
      split; [reflexivity|]. split; [exact Hlo|apply Hhi; lra]. }
  assert (Hfree : forall g1, RngOK g1 ->
    exists x y g2,
      (let '(x, g0) := rand 0 WORLD_w g1 in
       let '(y, g3) := rand 0 WORLD_h g0 in
       @Ret (Q * Q * Rng) (x, y, g3)) = Ret (x, y, g2) /\
      InWorld x y /\ RngOK g2).
  { intros g1 Hg1.
    destruct (rand 0 WORLD_w g1) as [x g2] eqn:Ex.
    destruct (rand_ok _ _ _ _ _ Ex Hg1 ltac:(unfold WORLD_w; lra))
      as ([Hx0 _] & Hx1 & Hg2).
    destruct (rand 0 WORLD_h g2) as [y g3] eqn:Ey.
    destruct (rand_ok _ _ _ _ _ Ey Hg2 ltac:(unfold WORLD_h; lra))
      as ([Hy0 _] & Hy1 & Hg3).
    exists x, y, g3. split; [reflexivity|]. split; [|assumption].
    split; split; auto; [apply Hx1|apply Hy1]; reflexivity. }
  destruct (Z.eqb_spec (len clusters) 0) as [Hz|Hnz].
  { cbn [negb].
    destruct (Hfree g Hg) as (x & y & g2 & -> & Hin & Hg2).
    cbn [mbind outcome_bind]. now apply Hfill. }
  destruct (Math_random g) as [u g1] eqn:Eu.
  destruct (Math_random_ok _ _ _ Eu Hg) as [_ Hg1].
  destruct (Qltb u _); cbn [negb].
  2:{ destruct (Hfree g1 Hg1) as (x & y & g2 & -> & Hin & Hg2).
      cbn [mbind outcome_bind]. now apply Hfill. }
  destruct (pickWeightedCluster_ok clusters g1) as (c & g2 & -> & Hg2).
  { intros ->. now apply Hnz. }
  destruct (randomGaussian g2) as [n1 g3] eqn:E1.
  destruct (randomGaussian g3) as [n2 g4] eqn:E2.
  cbn [mbind outcome_bind]. apply Hfill; [apply InWorld_wrap|].
  eapply randomGaussian_ok; [eassumption|].
  eapply randomGaussian_ok; [eassumption|]. auto.
Qed.

(** A resource loop appends [n] stocked resources of its kind and leaves
    the others as they are. *)
Lemma spawn_loop_population kind clusters n : forall id w g,
  Spawning w -> RngOK g ->
  exists id' w' g' new,
    spawn_loop n kind clusters id w g = Ret (id', w', g') /\
    Spawning w' /\ RngOK g' /\
    resources w' = resources w ++ new /\
    length new = n /\ Forall (Stocked kind) new /\
    len (resourceActive w') = (len (resourceActive w) + Z.of_nat n)%Z.
Proof.
  induction n as [|n IH]; intros id w g HS Hg.
  { exists id, w, g, []. rewrite app_nil_r.
    repeat (split; [first [reflexivity|assumption|constructor]|]).
    cbn. lia. }
  destruct (spawn_loop_ok kind clusters 1 id w g HS Hg)
    as (id1 & w1 & g1 & Hrun1 & HS1 & Hg1).
  cbn [spawn_loop] in Hrun1 |- *.
  destruct (makeResource_full id kind clusters g Hg)
    as (r & g0 & Hmk & Hk & Hact & Hin & Hfull & Hrange).
  rewrite Hmk in Hrun1 |- *. cbn [mbind outcome_bind] in Hrun1 |- *.
  set (idx := len (resources w)) in *.
  set (r1 := set__arrIndex idx r) in *.
  set (wa := set_resources (resources w ++ [r1]) w) in *.
  assert (res wa idx = Some r1) as Hr1 by apply at_app_last.
  assert (exists cell,
            at_ (resGrid wa)
              (cellIndexForPos wa (Resource.x r1) (Resource.y r1)) = Some cell)
    as [cell Hcell].
  { apply at_is_Some.
    change (resGrid wa) with (resGrid w). rewrite (spawn_grid_len w HS).
    apply cellIndexForPos_valid; [apply HS|apply HS|exact Hin]. }
  pose proof (activateResource_run wa idx r1 cell Hr1 Hcell) as Hrun.
  cbv zeta in Hrun. rewrite Hrun in Hrun1 |- *.
  cbn [mbind outcome_bind] in Hrun1 |- *.
  inversion Hrun1; subst id1 w1 g1. clear Hrun1.
  match type of HS1 with Spawning ?w0 => set (wb := w0) in * end.
  destruct (IH (id + 1)%Z wb g0 HS1 Hg1)
    as (id' & w' & g' & new & Hloop & HS' & Hg' & Hres & Hlen & Hall & Hact').
  match goal with |- context [set__gridIndex ?a (set__gridCell ?b ?c)] =>
    set (r2 := set__gridIndex a (set__gridCell b c)) in * end.
  assert (resources wb = resources w ++ [r2]) as Hwb.
  { unfold wb. cbn. unfold idx, len. rewrite Nat2Z.id.
    replace (length (resources w)) with (length (resources w) + 0)%nat by lia.
    now rewrite insert_app_r. }
  exists id', w', g', (r2 :: new).
  split; [exact Hloop|]. split; [exact HS'|]. split; [exact Hg'|].
  split; [rewrite Hres, Hwb, <- app_assoc; reflexivity|].
  split; [cbn; lia|]. split.
  - constructor; [|exact Hall].
    unfold Stocked. subst r2 r1. cbn.
    split; [exact Hk|]. split; [reflexivity|]. split; [exact Hin|].
    split; [exact Hfull|exact Hrange].
  - rewrite Hact'. unfold wb. cbn. rewrite len_app. unfold len. cbn. lia.
Qed.

(** X15: [spawnSystem] returns whatever the pool held before; the new
    pool is consistent and holds 1340 resources, all of them active,
    inside the world and full: first 1200 common ones with amounts in
    [[18, 110)], then 140 rich ones with amounts in [[140, 420)].  The two
    totals are equal and are exactly the sum of the amounts. *)
Theorem spawnSystem_population (w : World.T) (g : Rng) :
  RngOK g ->
  exists w' g' common rich,
    spawnSystem w g = Ret (w', g') /\
    WorldOK w' /\ RngOK g' /\
    resources w' = common ++ rich /\
    length common = 1200%nat /\ Forall (Stocked 0) common /\
    length rich = 140%nat /\ Forall (Stocked 1) rich /\
    len (resourceActive w') = 1340%Z /\
    systemRemainingTotal w' = systemInitialTotal w' /\
    systemRemainingTotal w' == sum_amt (resources w').
Proof.
  intros Hg.
  destruct (spawnSystem_ok w g Hg) as (w' & g' & Hrun & HO & Hg' & Hsum & Hfull).
  exists w', g'. pose proof Hrun as Hrun0.
  unfold spawnSystem in Hrun. cbv zeta in Hrun.
  match type of Hrun with context [rand ?a ?b g] =>
    pose proof (rand_RngOK a b g Hg) as Hg1;
    destruct (rand a b g) as [c g1] end.
  cbn [snd] in Hg1.
  pose proof (make_clusters_ok (Z.to_nat (P5.floor c)) g1 Hg1) as Hg2.
  destruct (make_clusters _ g1) as [clusters g2]. cbn [snd] in Hg2.
  match type of Hrun with context [spawn_loop _ _ _ _ ?w0 _] =>
    set (w0' := w0) in * end.
  assert (Spawning w0') as HS0.
  { split; try reflexivity; [|constructor].
    apply PoolOK_fresh.
    - reflexivity.
    - intros ci cell [_ Hc]%at_Some.
      change (resGrid w0') with (replicate (Z.to_nat (35 * 35)) (@nil Z)) in Hc.
      now apply lookup_replicate in Hc as [-> _].
    - intros i r Hr. unfold res in Hr. cbn in Hr. unfold at_ in Hr.
      destruct (i <? 0)%Z; discriminate. }
  destruct (spawn_loop_population 0 clusters NUM_RES_COMMON 0 w0' g2 HS0 Hg2)
    as (id1 & w1 & g3 & common & Hl1 & HS1 & Hg3 & Hres1 & Hlen1 & Hall1 & Hact1).
  rewrite Hl1 in Hrun. cbn [mbind outcome_bind] in Hrun.
  destruct (spawn_loop_population 1 clusters NUM_RES_RICH id1 w1 g3 HS1 Hg3)
    as (id2 & w2 & g4 & rich & Hl2 & HS2 & Hg4 & Hres2 & Hlen2 & Hall2 & Hact2).
  rewrite Hl2 in Hrun. cbn [mbind outcome_bind] in Hrun.
  inversion Hrun; subst w' g'. clear Hrun.
  exists common, rich. split; [exact Hrun0|]. split; [exact HO|].
  split; [exact Hg'|].
  split.
  { change (resources w2 = common ++ rich). rewrite Hres2, Hres1.
    reflexivity. }
  split; [exact Hlen1|]. split; [exact Hall1|].
  split; [exact Hlen2|]. split; [exact Hall2|].
  split.
  { change (len (resourceActive w2) = 1340%Z). rewrite Hact2, Hact1.
    reflexivity. }
  split; [exact Hfull|exact Hsum].
Qed.

End WithMath.

Import Fixtures.

Lemma spawnSystem_population_witness :
  RngOK steady_rng /\
  exists w' g' common rich,
    spawnSystem empty_world steady_rng = Ret (w', g') /\
    WorldOK w' /\ RngOK g' /\
    resources w' = common ++ rich /\
    length common = 1200%nat /\ Forall (Stocked 0) common /\
    length rich = 140%nat /\ Forall (Stocked 1) rich /\
    len (resourceActive w') = 1340%Z /\
    systemRemainingTotal w' = systemInitialTotal w' /\
    systemRemainingTotal w' == sum_amt (resources w').
Proof.
  split; [exact FixtureFacts.steady_rng_OK|].
  apply (spawnSystem_population empty_world steady_rng).
  exact FixtureFacts.steady_rng_OK.
Defined.

End ResourceLaws.
(** ** More on the Master AI *)

Module MasterLaws.
Import Geometry Resource World Selection Engine SimSpec SpawnSpec RangeFacts
  SimFacts SpawnFacts MasterFacts GeometryLaws ResourceLaws.

(** The squared distance of [countArrivedAtWaypointSq] is the one of
    [selectKClosestInPlace], the difference being taken the other way
    round. *)
Lemma arrival_distance wp p :
  wrapDeltaFast (Point.x wp - Probe.x p) WORLD_w
    * wrapDeltaFast (Point.x wp - Probe.x p) WORLD_w
  + wrapDeltaFast (Point.y wp - Probe.y p) WORLD_h
    * wrapDeltaFast (Point.y wp - Probe.y p) WORLD_h
  == d2To wp p.
Proof.
  unfold d2To. cbv zeta.
  rewrite (wrapDeltaFast_swap (Point.x wp) (Probe.x p) WORLD_w)
    by (unfold WORLD_w; lra).
  rewrite (wrapDeltaFast_swap (Point.y wp) (Probe.y p) WORLD_h)
    by (unfold WORLD_h; lra).
  ring.
Qed.

Lemma Qleb_compat a b c : a == b -> Qleb a c = Qleb b c.
Proof.
  intros Hab. destruct (Qleb b c) eqn:E.
  - apply Qleb_le. apply Qleb_le in E. lra.
  - apply Qleb_gt. apply Qleb_gt in E. lra.
Qed.

Lemma count_fold wp radiusSq (ps : list Probe.T) : forall c,
  fold_left
    (fun c p =>
       if Probe.dead p then c
       else
         let dx := wrapDeltaFast (Point.x wp - Probe.x p) WORLD_w in
         let dy := wrapDeltaFast (Point.y wp - Probe.y p) WORLD_h in
         if Qleb (dx * dx + dy * dy) radiusSq then (c + 1)%Z else c)
    ps c
  = (c + len (List.filter
                (fun p => negb (Probe.dead p) && Qleb (d2To wp p) radiusSq)
                ps))%Z.
Proof.
  induction ps as [|p ps IH]; intros c.
  - unfold len. cbn. lia.
  - cbn [fold_left List.filter]. rewrite IH. cbv zeta.
    rewrite (Qleb_compat _ _ radiusSq (arrival_distance wp p)).
    destruct (Probe.dead p); cbn [negb andb]; [reflexivity|].
    destruct (Qleb (d2To wp p) radiusSq); unfold len; cbn [length]; lia.
Qed.

(** X16: [countArrivedAtWaypointSq] is the number of probes that are not
    dead and whose squared distance to the waypoint of the Master AI,
    round the world, is at most [radiusSq]: the distance by which
    [selectKClosestInPlace] ranks the probes.  It is 0 without a waypoint,
    and never more than the number of probes. *)
Theorem countArrived_counts (radiusSq : Q) (s : Sim.T) :
  countArrivedAtWaypointSq radiusSq s
  = match Master.waypoint (Sim.master s) with
    | None => 0%Z
    | Some wp =>
        len (List.filter
               (fun p => negb (Probe.dead p) && Qleb (d2To wp p) radiusSq)
               (Sim.probes s))
    end /\
  (0 <= countArrivedAtWaypointSq radiusSq s <= len (Sim.probes s))%Z.
Proof.
  assert (countArrivedAtWaypointSq radiusSq s
          = match Master.waypoint (Sim.master s) with
            | None => 0%Z
            | Some wp =>
                len (List.filter
                       (fun p => negb (Probe.dead p)
                                 && Qleb (d2To wp p) radiusSq)
                       (Sim.probes s))
            end) as Heq.
  { unfold countArrivedAtWaypointSq.
    destruct (Master.waypoint (Sim.master s)) as [wp|]; [|reflexivity].
    rewrite count_fold. lia. }
  split; [exact Heq|]. rewrite Heq.
  destruct (Master.waypoint (Sim.master s)) as [wp|].
  - unfold len. pose proof (List.filter_length_le
      (fun p => negb (Probe.dead p) && Qleb (d2To wp p) radiusSq)
      (Sim.probes s)). lia.
  - unfold len. lia.
Qed.

(** Three of the eleven probes of the fleet lie within 25 units of the
    waypoint. *)
Example three_have_arrived :
  countArrivedAtWaypointSq (25 * 25) Fixtures.rallying = 3%Z.
Proof. vm_compute. reflexivity. Qed.

(** X17: [purgeSacrificed] always returns.  It keeps the probes that are
    not dead, in their order, and drops the dead ones; [master.sacrificed]
    grows by the number of probes dropped; the pool, the random source,
    the system counter, the phase and [toSacrifice] stay as they are. *)
Theorem purgeSacrificed_filters (s : Sim.T) :
  exists s', purgeSacrificed s = Ret s' /\
    Sim.probes s' = List.filter (fun p => negb (Probe.dead p)) (Sim.probes s) /\
    Master.sacrificed (Sim.master s')
      = (Master.sacrificed (Sim.master s)
         + len (List.filter Probe.dead (Sim.probes s)))%Z /\
    Sim.world s' = Sim.world s /\ Sim.rng s' = Sim.rng s /\
    Sim.systemIndex s' = Sim.systemIndex s /\
    Master.state (Sim.master s') = Master.state (Sim.master s) /\
    Master.toSacrifice (Sim.master s') = Master.toSacrifice (Sim.master s).
Proof.
  destruct (purgeSacrificed_run s)
    as (s' & Hrun & Hps & Hw & Hg & Hi & Hst & Hto & Hsac).
  exists s'. split; [exact Hrun|]. split; [exact Hps|].
  split; [|auto 10].
  rewrite Hsac. f_equal. unfold len, alive. clear.
  induction (Sim.probes s) as [|p ps IH]; [reflexivity|].
  cbn [List.filter length]. destruct (Probe.dead p); cbn [negb length]; lia.
Qed.

(** Two of the three probes are dead: the survivor stays, the count goes
    from 4 to 6. *)
Example purge_two_of_three :
  (fun s' => (List.map Probe.id (Sim.probes s'),
              Master.sacrificed (Sim.master s')))
    <$> purgeSacrificed
          (Sim.mk [Probe.set_dead true (Fixtures.probe_at 1 false 10 10);
                   Fixtures.probe_at 2 false 20 20;
                   Probe.set_dead true (Fixtures.probe_at 3 false 30 30)]
             Fixtures.empty_world (Master.mk BUILD None 0 4 6 None) 1 4
             Fixtures.steady_rng)
  = Ret ([2%Z], 6%Z).
Proof. vm_compute. reflexivity. Qed.

Section WithMath.
Context `{MathLib}.

(** X18: inside a tick, [masterUpdate] returns and keeps the invariant of
    the simulation.  With [dt <= 0] it changes nothing.  Otherwise the
    phase stays, or it moves one step along NORMAL, RALLY, BUILD, CHARGE
    and back to NORMAL: into CHARGE only once [sacrificed] has reached
    [toSacrifice], and from CHARGE only by a warp, which is the one step
    that replaces the pool and raises the system counter.  No step adds or
    removes a probe. *)
Theorem masterUpdate_phase_cycle (dt : Q) (s : Sim.T) :
  SimMid s ->
  exists s', masterUpdate dt s = Ret s' /\ SimMid s' /\
    (dt <= 0 -> s' = s) /\
    len (Sim.probes s') = len (Sim.probes s) /\
    (Master.state (Sim.master s') = Master.state (Sim.master s) /\
     Sim.probes s' = Sim.probes s /\ Sim.world s' = Sim.world s /\
     Sim.systemIndex s' = Sim.systemIndex s
     \/
     Master.state (Sim.master s) = NORMAL /\
     Master.state (Sim.master s') = RALLY /\
     Sim.world s' = Sim.world s /\ Sim.systemIndex s' = Sim.systemIndex s
     \/
     Master.state (Sim.master s) = RALLY /\
     Master.state (Sim.master s') = BUILD /\
     Sim.world s' = Sim.world s /\ Sim.systemIndex s' = Sim.systemIndex s
     \/
     Master.state (Sim.master s) = BUILD /\
     Master.state (Sim.master s') = CHARGE /\
     (Master.toSacrifice (Sim.master s) <= Master.sacrificed (Sim.master s))%Z /\
     Sim.probes s' = Sim.probes s /\
     Sim.world s' = Sim.world s /\ Sim.systemIndex s' = Sim.systemIndex s
     \/
     Master.state (Sim.master s) = CHARGE /\
     Master.state (Sim.master s') = NORMAL /\
     Sim.systemIndex s' = (Sim.systemIndex s + 1)%Z).
Proof.
  intros HS.
  destruct (masterUpdate_ok dt s HS) as (s' & Hrun & HS' & Hstep).
  exists s'. split; [exact Hrun|]. split; [exact HS'|].
  split.
  { intros Hdt. unfold masterUpdate in Hrun. apply Qleb_le in Hdt.
    rewrite Hdt in Hrun. now inversion Hrun. }
  destruct Hstep as [Hst _ _ Hps Hw Hi | Hc Hm HE Hw Hi
                    | Hc Hm _ _ _ HE Hw Hi | Hc Hm Hdone _ _ Hps Hw Hi
                    | Hc Hm HA _ _ Hi].
  - split; [now rewrite Hps|]. left. auto.
  - split; [unfold len; now rewrite (Forall2_length _ _ _ HE)|].
    right. left. auto.
  - split; [unfold len; now rewrite (Forall2_length _ _ _ HE)|].
    right. right. left. auto.
  - split; [now rewrite Hps|]. right. right. right. left. auto 10.
  - split; [unfold len; now rewrite (Forall2_length _ _ _ HA)|].
    right. right. right. right. auto.
Qed.

(** *** The warp *)

Lemma warp_probe_Warped p g :
  Warped p (fst (warp_probe p g)) /\
  (RngOK g -> RngOK (snd (warp_probe p g))).
Proof.
  unfold warp_probe, rand, Math_random. cbn.
  destruct (Probe.isPlayer p) eqn:Hp; cbn; rewrite ?Hp;
    (split; [|intros Hg n; apply Hg]);
    unfold Warped; cbn;
    repeat (split; [first [reflexivity|exact Hp|apply InWorld_wrap]|]);
    unfold P5.max; qcases; split; lra.
Qed.

Lemma warp_loop_Warped ps : forall g,
  Forall2 Warped ps (fst (warp_loop ps g)) /\
  (RngOK g -> RngOK (snd (warp_loop ps g))).
Proof.
  induction ps as [|p ps IH]; intros g.
  { cbn. split; [constructor|auto]. }
  cbn [warp_loop].
  destruct (warp_probe_Warped p g) as (Hw & Hg).
  destruct (warp_probe p g) as [p' g1]. cbn [fst snd] in Hw, Hg.
  destruct (IH g1) as (HW & HG).
  destruct (warp_loop ps g1) as [ps' g2]. cbn [fst snd] in *.
  split; [constructor; assumption|auto].
Qed.

(** X19: [performWarp] returns whenever [Math.random] draws from
    [[0, 1)].  It leaves the Master AI in NORMAL with waypoint and warp
    machine cleared and the clock at 0, raises the system counter by one,
    and replaces the pool by a fresh, consistent one of 1340 resources
    whose totals are full.  Every probe comes through, in the order of the
    list: moved to a place inside the world, without target or waypoint,
    with a replication cooldown of 0.5 at least, and with the id, role,
    cargo and DNA it had. *)
Theorem performWarp_fresh_system (s : Sim.T) :
  RngOK (Sim.rng s) ->
  exists s', performWarp s = Ret s' /\
    Master.state (Sim.master s') = NORMAL /\
    Master.waypoint (Sim.master s') = None /\
    Master.warpMachine (Sim.master s') = None /\
    Master.t (Sim.master s') = 0 /\
    Master.sacrificed (Sim.master s') = Master.sacrificed (Sim.master s) /\
    Master.toSacrifice (Sim.master s') = Master.toSacrifice (Sim.master s) /\
    Sim.systemIndex s' = (Sim.systemIndex s + 1)%Z /\
    Sim._probeId s' = Sim._probeId s /\
    Forall2 Warped (Sim.probes s) (Sim.probes s') /\
    WorldOK (Sim.world s') /\
    len (resources (Sim.world s')) = 1340%Z /\
    systemRemainingTotal (Sim.world s') = systemInitialTotal (Sim.world s') /\
    systemRemainingTotal (Sim.world s')
      == sum_amt (resources (Sim.world s')) /\
    RngOK (Sim.rng s').
Proof.
  intros Hg. unfold performWarp. cbv zeta.
  cbn [Sim.world Sim.rng Sim.set_master Sim.set_systemIndex].
  destruct (spawnSystem_population (Sim.world s) (Sim.rng s) Hg)
    as (w & g & common & rich & -> & HO & Hg' & Hres & Hl1 & _ & Hl2 & _ & _
        & Hfull & Hsum).
  cbn [mbind outcome_bind].
  cbn [Sim.probes Sim.rng Sim.set_rng Sim.set_world Sim.set_master
       Sim.set_systemIndex].
  destruct (warp_loop_Warped (Sim.probes s) g) as (HW & HG).
  destruct (warp_loop (Sim.probes s) g) as [ps g']. cbn [fst snd] in HW, HG.
  eexists. split; [reflexivity|]. cbn.
  repeat (split; [first [reflexivity|assumption]|]).
  split.
  { rewrite Hres. unfold len. rewrite length_app, Hl1, Hl2. reflexivity. }
  repeat (split; [first [reflexivity|assumption]|]). auto.
Qed.

End WithMath.

Import Fixtures.

Lemma performWarp_fresh_system_witness :
  let s := two_probes CHARGE in
  exists s', performWarp s = Ret s' /\
    Master.state (Sim.master s') = NORMAL /\
    Master.waypoint (Sim.master s') = None /\
    Master.warpMachine (Sim.master s') = None /\
    Master.t (Sim.master s') = 0 /\
    Master.sacrificed (Sim.master s') = Master.sacrificed (Sim.master s) /\
    Master.toSacrifice (Sim.master s') = Master.toSacrifice (Sim.master s) /\
    Sim.systemIndex s' = (Sim.systemIndex s + 1)%Z /\
    Sim._probeId s' = Sim._probeId s /\
    Forall2 Warped (Sim.probes s) (Sim.probes s') /\
    WorldOK (Sim.world s') /\
    len (resources (Sim.world s')) = 1340%Z /\
    systemRemainingTotal (Sim.world s') = systemInitialTotal (Sim.world s') /\
    systemRemainingTotal (Sim.world s')
      == sum_amt (resources (Sim.world s')) /\
    RngOK (Sim.rng s').
Proof.
  apply (performWarp_fresh_system (two_probes CHARGE)).
  exact FixtureFacts.steady_rng_OK.
Defined.

Lemma masterUpdate_phase_cycle_witness :
  let s := rallying in
  exists s', masterUpdate FIXED_DT s = Ret s' /\ SimMid s' /\
    (FIXED_DT <= 0 -> s' = s) /\
    len (Sim.probes s') = len (Sim.probes s) /\
    (Master.state (Sim.master s') = Master.state (Sim.master s) /\
     Sim.probes s' = Sim.probes s /\ Sim.world s' = Sim.world s /\
     Sim.systemIndex s' = Sim.systemIndex s
     \/
     Master.state (Sim.master s) = NORMAL /\
     Master.state (Sim.master s') = RALLY /\
     Sim.world s' = Sim.world s /\ Sim.systemIndex s' = Sim.systemIndex s
     \/
     Master.state (Sim.master s) = RALLY /\
     Master.state (Sim.master s') = BUILD /\
     Sim.world s' = Sim.world s /\ Sim.systemIndex s' = Sim.systemIndex s
     \/
     Master.state (Sim.master s) = BUILD /\
     Master.state (Sim.master s') = CHARGE /\
     (Master.toSacrifice (Sim.master s) <= Master.sacrificed (Sim.master s))%Z /\
     Sim.probes s' = Sim.probes s /\
     Sim.world s' = Sim.world s /\ Sim.systemIndex s' = Sim.systemIndex s
     \/
     Master.state (Sim.master s) = CHARGE /\
     Master.state (Sim.master s') = NORMAL /\
     Sim.systemIndex s' = (Sim.systemIndex s + 1)%Z).
Proof.
  apply (masterUpdate_phase_cycle FIXED_DT rallying).
  exact (proj1 FixtureFacts.rallying_OK).
Defined.

End MasterLaws.
(** ** The player, and the frames *)

Module SimLaws.
Import Geometry Resource World Engine ReplicationSpec SimSpec
  SpawnSpec ProbeSpec RangeFacts ReplicationFacts SimFacts SpawnFacts
  MasterFacts TickFacts ResourceLaws.

(** *** The roles in the probe list *)

Lemma roles_Aged ps ps' : Forall2 Aged ps ps' -> roles ps' = roles ps.
Proof.
  induction 1 as [|p p' ps ps' (Hp & _) _ IH]; [reflexivity|].
  unfold roles in *. cbn. now rewrite Hp, IH.
Qed.

Lemma roles_Enlisted ps ps' : Forall2 Enlisted ps ps' -> roles ps' = roles ps.
Proof.
  induction 1 as [|p p' ps ps' (Hp & _) _ IH]; [reflexivity|].
  unfold roles in *. cbn. now rewrite Hp, IH.
Qed.

Lemma roles_insert (ps : list Probe.T) i p p' :
  at_ ps i = Some p -> Probe.isPlayer p' = Probe.isPlayer p ->
  roles (<[Z.to_nat i := p']> ps) = roles ps.
Proof.
  intros [_ Hl]%at_Some Hp. unfold roles.
  change (List.map Probe.isPlayer) with (fmap (M:=list) Probe.isPlayer).
  rewrite list_fmap_insert, Hp. apply list_insert_id.
  now rewrite list_lookup_fmap, Hl.
Qed.

Lemma roles_Replicated cost i s s' :
  Replicated cost i s s' ->
  roles (Sim.probes s') = roles (Sim.probes s) ++ [false].
Proof.
  intros (this & parent & child & Hthis & Hps & _ & Hrest & _ & Hc & _).
  rewrite Hps. unfold roles at 1. rewrite List.map_app. cbn [List.map].
  rewrite Hc. f_equal.
  apply (roles_insert _ i this); [assumption|].
  exact (f_equal Probe.isPlayer Hrest).
Qed.

Section WithMath.
Context `{MathLib}.

Lemma replicate_loop_roles dt fuel : forall i s s',
  (0 <= i)%Z -> replicate_loop fuel i dt s = Ret s' ->
  exists k, roles (Sim.probes s') = roles (Sim.probes s) ++ replicate k false.
Proof.
  induction fuel as [|fuel IH]; intros i s s' Hi Hrun; [discriminate|].
  cbn [replicate_loop] in Hrun.
  destruct (Z.ltb_spec i (len (Sim.probes s))) as [Hlt|Hge].
  2:{ inversion Hrun; subst. exists 0%nat. now rewrite app_nil_r. }
  destruct (at_is_Some (Sim.probes s) i ltac:(lia)) as [this Hthis].
  destruct (tryAutoReplicate_cases dt i s this Hthis)
    as [Hsame|(_ & s1 & Hs1 & Hrep)].
  - rewrite Hsame in Hrun. cbn [mbind outcome_bind] in Hrun.
    apply (IH (i + 1)%Z); [lia|assumption].
  - rewrite Hs1 in Hrun. cbn [mbind outcome_bind] in Hrun.
    destruct (IH (i + 1)%Z s1 s' ltac:(lia) Hrun) as [k Hk].
    exists (S k). rewrite Hk, (roles_Replicated _ _ _ _ Hrep).
    rewrite <- app_assoc. reflexivity.
Qed.

Lemma probe_loops_roles dt keys s c :
  SimMid s -> probe_loops dt keys s = Ret c ->
  exists k, roles (Sim.probes c) = roles (Sim.probes s) ++ replicate k false.
Proof.
  intros HS. unfold probe_loops.
  destruct (update_loop_ok dt keys (length (Sim.probes s)) 0 s HS)
    as (s1 & -> & HS1 & _ & _ & HA1); [lia|unfold len; lia|].
  cbn [mbind outcome_bind].
  destruct (harvest_loop_ok dt (length (Sim.probes s1)) 0 s1 HS1)
    as (s2 & -> & _ & _ & HA2 & _); [lia|unfold len; lia|].
  cbn [mbind outcome_bind].
  rewrite <- (roles_Aged _ _ HA1), <- (roles_Aged _ _ HA2).
  destruct (is_NORMAL _).
  - apply replicate_loop_roles. lia.
  - intros Heq. inversion Heq; subst. exists 0%nat. now rewrite app_nil_r.
Qed.

Lemma MasterStep_roles c m :
  MasterStep c m -> roles (Sim.probes m) = roles (Sim.probes c).
Proof.
  intros [_ _ _ Hps _ _ | _ _ HE _ _ | _ _ _ _ _ HE _ _ | _ _ _ _ _ Hps _ _
         | _ _ HA _ _ _].
  - now rewrite Hps.
  - now apply roles_Enlisted.
  - now apply roles_Enlisted.
  - now rewrite Hps.
  - now apply roles_Aged.
Qed.

End WithMath.

(** The player is never on its way into the warp machine, and so never
    dead. *)
Lemma player_alive m ps p :
  PhaseMid m ps -> p ∈ ps -> Probe.isPlayer p = true -> Probe.dead p = false.
Proof.
  unfold PhaseMid. intros HP Hin Hpl.
  assert (Calm ps -> Probe.dead p = false) as HC.
  { intros HC. unfold Calm in HC. rewrite Forall_forall in HC.
    apply (HC p Hin). }
  destruct (Master.state m); try (apply HC; apply HP).
  - destruct HP as [HF _]. rewrite Forall_forall in HF.
    destruct (HF p Hin) as [Hd Hs].
    destruct (Probe.dead p); [|reflexivity].
    specialize (Hs (Hd eq_refl)). congruence.
Qed.

Lemma roles_filter_ai (f : Probe.T -> bool) ps k :
  roles ps = replicate k false ->
  roles (List.filter f ps) = replicate (length (List.filter f ps)) false.
Proof.
  revert k. induction ps as [|p ps IH]; intros k Hr; [reflexivity|].
  destruct k as [|k]; [discriminate|].
  unfold roles in Hr. cbn in Hr. injection Hr as Hp Hps.
  cbn [List.filter]. destruct (f p).
  - unfold roles in *. cbn. rewrite Hp. f_equal.
    apply (IH k). exact Hps.
  - apply (IH k). exact Hps.
Qed.

Lemma OnePlayer_purge m ps :
  PhaseMid m ps -> OnePlayer ps -> OnePlayer (List.filter alive ps).
Proof.
  intros HP [k Hr]. destruct ps as [|p ps]; [discriminate|].
  unfold roles in Hr. cbn in Hr. injection Hr as Hp Hps.
  assert (alive p = true) as Ha.
  { unfold alive. rewrite (player_alive m (p :: ps) p HP); auto.
    apply elem_of_cons. now left. }
  cbn [List.filter]. rewrite Ha.
  exists (length (List.filter alive ps)).
  unfold roles. cbn [List.map]. rewrite Hp. f_equal.
  exact (roles_filter_ai alive ps k Hps).
Qed.

Lemma OnePlayer_grow ps ps' k :
  roles ps' = roles ps ++ replicate k false -> OnePlayer ps -> OnePlayer ps'.
Proof.
  intros Hr [j Hj]. exists (j + k)%nat. rewrite Hr, Hj.
  cbn. now rewrite replicate_add.
Qed.

Section WithMath.
Context `{MathLib}.

Lemma simStep_player dt keys s :
  SimOK s -> OnePlayer (Sim.probes s) ->
  exists s', simStep dt keys s = Ret s' /\ SimOK s' /\
    OnePlayer (Sim.probes s').
Proof.
  intros HS H1.
  destruct (simStep_anatomy dt keys s HS)
    as (c & m & s' & Hc & _ & _ & Hrun & _ & HSm & HS' & _ & _ & _ & _
        & Hstep & Hps & _).
  exists s'. split; [exact Hrun|]. split; [exact HS'|].
  destruct (probe_loops_roles dt keys s c (proj1 HS) Hc) as [k Hk].
  rewrite Hps. apply (OnePlayer_purge (Sim.master m)); [apply HSm|].
  apply (OnePlayer_grow (Sim.probes s) _ k); [|exact H1].
  now rewrite (MasterStep_roles c m Hstep).
Qed.

Lemma ticks_player dt keys n s :
  SimOK s -> OnePlayer (Sim.probes s) ->
  exists s', ticks n dt keys s = Ret s' /\ SimOK s' /\
    OnePlayer (Sim.probes s').
Proof.
  intros HS H1. induction n as [|n (s1 & Hrun & HS1 & H11)]; [eauto|].
  cbn [ticks]. rewrite Hrun. cbn [mbind outcome_bind].
  now apply simStep_player.
Qed.

(** X20: [setup] returns whenever [Math.random] draws from [[0, 1)].
    It leaves one probe, the player: id 0, in the middle of the world,
    alive, without cargo, with the DNA 260 / 520 / 22.  The Master AI is in
    NORMAL, the system counter is 1, the next probe id is 1, the state
    satisfies the invariant of the simulation, and the first system holds
    1340 resources with both totals equal to the sum of their amounts. *)
Theorem setup_initial_state (g : Rng) :
  RngOK g ->
  exists s player,
    setup g = Ret s /\ SimOK s /\
    Sim.probes s = [player] /\
    Probe.isPlayer player = true /\ Probe.id player = 0%Z /\
    Probe.x player == 12000 /\ Probe.y player == 12000 /\
    Probe.resources player = 0 /\ Probe.dna player = DNA.mk 260 520 22 /\
    Probe.dead player = false /\ Probe.sacrificing player = false /\
    Probe.target player = (-1)%Z /\
    Sim.master s = initial_master /\
    Sim.systemIndex s = 1%Z /\ Sim._probeId s = 1%Z /\
    len (resources (Sim.world s)) = 1340%Z /\
    systemRemainingTotal (Sim.world s) = systemInitialTotal (Sim.world s) /\
    systemRemainingTotal (Sim.world s) == sum_amt (resources (Sim.world s)).
Proof.
  intros Hg.
  destruct (spawnSystem_population initial_world (star_loop NUM_STARS g)
              (star_loop_ok NUM_STARS g Hg))
    as (w & g1 & common & rich & Hsp & HO & Hg1 & Hres & Hl1 & _ & Hl2 & _ & _
        & Hfull & Hsum).
  unfold setup. cbv zeta. rewrite Hsp. cbn [mbind outcome_bind].
  unfold ProbeMethods.makeDNA, ProbeMethods.construct, rand, Math_random.
  cbn. eexists _, _. split; [reflexivity|]. cbn.
  split.
  { split; [split; cbn|].
    - exact HO.
    - constructor; [|constructor]. cbn.
      unfold InWorld, WORLD_w, WORLD_h. split; split; lra.
    - unfold len, HARD_PROBE_CAP. cbn. lia.
    - intros k. apply Hg1.
    - repeat constructor.
    - repeat constructor. }
  repeat (split; [reflexivity|]).
  split.
  { rewrite Hres. unfold len. rewrite length_app, Hl1, Hl2. reflexivity. }
  split; [exact Hfull|exact Hsum].
Qed.

(** X21: from a tick boundary at which the probe list is the player
    followed by autonomous probes, any number of ticks returns at such a
    tick boundary again: the player is still the first probe of the list,
    no probe of the list is dead, all of them are inside the world, and
    there are at least one and at most [HARD_PROBE_CAP] of them. *)
Theorem player_survives_every_tick (dt : Q) (keys : nat -> Keys) (n : nat)
    (s : Sim.T) :
  SimOK s -> OnePlayer (Sim.probes s) ->
  exists s' player others,
    ticks n dt keys s = Ret s' /\ SimOK s' /\
    Sim.probes s' = player :: others /\
    Probe.isPlayer player = true /\
    Forall (fun p => Probe.isPlayer p = false) others /\
    Forall (fun p => Probe.dead p = false) (Sim.probes s') /\
    Forall (fun p => InWorld (Probe.x p) (Probe.y p)) (Sim.probes s') /\
    (1 <= len (Sim.probes s') <= HARD_PROBE_CAP)%Z.
Proof.
  intros HS H1.
  destruct (ticks_player dt keys n s HS H1) as (s' & Hrun & HS' & [k Hk]).
  destruct (Sim.probes s') as [|player others] eqn:Hps; [discriminate|].
  exists s', player, others. split; [exact Hrun|]. split; [exact HS'|].
  unfold roles in Hk. cbn in Hk. injection Hk as Hp Ho.
  split; [exact Hps|]. split; [exact Hp|].
  split.
  { clear -Ho. revert k Ho. induction others as [|p ps IH]; intros k Ho;
      [constructor|].
    destruct k as [|k]; [discriminate|]. cbn in Ho. injection Ho as Hp Hps.
    constructor; [exact Hp|exact (IH k Hps)]. }
  split; [exact (proj2 HS')|]. split; [exact (sim_probes s' (proj1 HS'))|].
  split; [rewrite Hps; unfold len; cbn; lia|exact (sim_cap s' (proj1 HS'))].
Qed.

(** *** Growth *)

(** The replication loop visits the probes that were there when it
    started and the children born on the way; a child carries too little
    to replicate, so the list at most doubles. *)
Lemma replicate_loop_growth dt fuel n0 : forall i s s',
  (0 <= i)%Z ->
  (forall j p, (n0 <= j)%Z -> at_ (Sim.probes s) j = Some p ->
     Probe.resources p = CHILD_START_RES) ->
  (len (Sim.probes s) <= n0 + Z.min i n0)%Z ->
  replicate_loop fuel i dt s = Ret s' ->
  (len (Sim.probes s') <= n0 + n0)%Z.
Proof.
  induction fuel as [|fuel IH]; intros i s s' Hi Hnew Hlen Hrun;
    [discriminate|].
  cbn [replicate_loop] in Hrun.
  destruct (Z.ltb_spec i (len (Sim.probes s))) as [Hlt|Hge].
  2:{ inversion Hrun; subst. lia. }
  destruct (at_is_Some (Sim.probes s) i ltac:(lia)) as [this Hthis].
  destruct (tryAutoReplicate_cases dt i s this Hthis)
    as [Hsame|(Hrich & s1 & Hs1 & Hrep)].
  - rewrite Hsame in Hrun. cbn [mbind outcome_bind] in Hrun.
    apply (IH (i + 1)%Z s s'); auto; lia.
  - rewrite Hs1 in Hrun. cbn [mbind outcome_bind] in Hrun.
    assert (i < n0)%Z as Hold.
    { destruct (Z.lt_ge_cases i n0) as [|Hborn]; [assumption|]. exfalso.
      rewrite (Hnew i this Hborn Hthis) in Hrich.
      unfold replicateCost, CHILD_START_RES in Hrich. lra. }
    destruct Hrep as (this' & parent & child & Hthis' & Hps & _ & _ & Hcr & _).
    pose proof (at_in_range _ _ _ Hthis) as Hir.
    apply (IH (i + 1)%Z s1 s'); [lia| |rewrite Hps, len_app, len_insert;
                                       unfold len at 2; cbn; lia|exact Hrun].
    intros j p Hj Hp. rewrite Hps in Hp.
    destruct (Z.lt_ge_cases j (len (Sim.probes s))) as [Hin|Hout].
    + rewrite at_app_l in Hp by (rewrite len_insert; exact Hin).
      rewrite at_insert in Hp by exact Hir.
      destruct (Z.eqb_spec j i); [lia|]. exact (Hnew j p Hj Hp).
    + assert (j = len (<[Z.to_nat i := parent]> (Sim.probes s))) as ->.
      { apply at_in_range in Hp. rewrite len_app, len_insert in Hp.
        unfold len at 2 in Hp. cbn in Hp. rewrite len_insert. lia. }
      rewrite at_app_last in Hp. inversion Hp; subst p. exact Hcr.
Qed.

Lemma Forall2_len {A B} (P : A -> B -> Prop) l l' :
  Forall2 P l l' -> len l' = len l.
Proof. intros HF. unfold len. now rewrite (Forall2_length _ _ _ HF). Qed.

Lemma MasterStep_len c m :
  MasterStep c m -> len (Sim.probes m) = len (Sim.probes c).
Proof.
  intros [_ _ _ Hps _ _ | _ _ HE _ _ | _ _ _ _ _ HE _ _ | _ _ _ _ _ Hps _ _
         | _ _ HA _ _ _].
  - now rewrite Hps.
  - exact (Forall2_len _ _ _ HE).
  - exact (Forall2_len _ _ _ HE).
  - now rewrite Hps.
  - exact (Forall2_len _ _ _ HA).
Qed.

Lemma probe_loops_growth dt keys s c :
  SimMid s -> probe_loops dt keys s = Ret c ->
  (len (Sim.probes s) <= len (Sim.probes c)
   <= len (Sim.probes s) + len (Sim.probes s))%Z /\
  (Master.state (Sim.master s) <> NORMAL ->
   len (Sim.probes c) = len (Sim.probes s)).
Proof.
  intros HS Hc.
  destruct (probe_loops_roles dt keys s c HS Hc) as [k Hk].
  assert (len (Sim.probes c) = (len (Sim.probes s) + Z.of_nat k)%Z) as Hlen.
  { apply (f_equal (@length bool)) in Hk. unfold roles in Hk.
    rewrite length_app, !length_map, length_replicate in Hk.
    unfold len. lia. }
  revert Hc. unfold probe_loops.
  destruct (update_loop_ok dt keys (length (Sim.probes s)) 0 s HS)
    as (s1 & -> & HS1 & _ & Hm1 & HA1); [lia|unfold len; lia|].
  cbn [mbind outcome_bind].
  destruct (harvest_loop_ok dt (length (Sim.probes s1)) 0 s1 HS1)
    as (s2 & -> & _ & Hm2 & HA2 & _); [lia|unfold len; lia|].
  cbn [mbind outcome_bind].
  assert (len (Sim.probes s2) = len (Sim.probes s)) as Hl2.
  { rewrite (Forall2_len _ _ _ HA2). exact (Forall2_len _ _ _ HA1). }
  rewrite Hm2, Hm1.
  destruct (Master.state (Sim.master s)) eqn:Hst; cbn [is_NORMAL].
  1:{ intros Hrun. split; [|congruence].
      split; [unfold len in *; lia|]. rewrite <- Hl2.
      apply (replicate_loop_growth dt (replicate_fuel s2)
               (len (Sim.probes s2)) 0 s2 c);
        [lia| |unfold len; lia|exact Hrun].
      intros j p Hj Hp. apply at_in_range in Hp. lia. }
  all: intros Heq; inversion Heq; subst c;
    (split; [unfold len in *; lia|intros _; exact Hl2]).
Qed.

(** X22: a tick at most doubles the number of probes: the replication loop
    runs over the children it appends, but a child starts with less than
    the cost of a replication.  Outside the NORMAL phase there is no
    replication at all, and the list can only lose the probes that have
    died. *)
Theorem population_at_most_doubles (dt : Q) (keys : Keys) (s : Sim.T) :
  SimOK s ->
  exists s', simStep dt keys s = Ret s' /\
    (len (Sim.probes s') <= 2 * len (Sim.probes s))%Z /\
    (Master.state (Sim.master s) <> NORMAL ->
     (len (Sim.probes s') <= len (Sim.probes s))%Z).
Proof.
  intros HS.
  destruct (simStep_anatomy dt keys s HS)
    as (c & m & s' & Hc & _ & _ & Hrun & _ & _ & _ & _ & _ & _ & _
        & Hstep & Hps & _).
  exists s'. split; [exact Hrun|].
  destruct (probe_loops_growth dt keys s c (proj1 HS) Hc) as [Hgrow Hsame].
  pose proof (MasterStep_len c m Hstep) as Hm.
  pose proof (filter_alive_len (Sim.probes m)) as Hf.
  rewrite Hps. split; [lia|]. intros Hst. specialize (Hsame Hst). lia.
Qed.

(** *** Frames *)

Lemma renderScene_SimOK dt s : SimOK s -> SimOK (renderScene dt s).
Proof.
  intros [HS Hd]. unfold renderScene.
  destruct (Master.warpMachine (Sim.master s)); [|split; assumption].
  split; [|exact Hd]. split; apply HS.
Qed.

Lemma renderScene_paused s : renderScene 0 s = s.
Proof.
  unfold renderScene. destruct s as [ps w m i pid g]. cbn.
  destruct m as [st wp t sac tos [wm|]]; reflexivity.
Qed.

Lemma ticks_shift dt keys k : forall s s1,
  simStep dt keys s = Ret s1 ->
  ticks (S k) dt (fun _ => keys) s = ticks k dt (fun _ => keys) s1.
Proof.
  induction k as [|k IH]; intros s s1 Hs1.
  - cbn [ticks mbind outcome_bind]. exact Hs1.
  - change (ticks (S (S k)) dt (fun _ => keys) s)
      with (s2 ← ticks (S k) dt (fun _ => keys) s; simStep dt keys s2).
    rewrite (IH s s1 Hs1). reflexivity.
Qed.

Lemma step_loop_spec keys fuel : forall acc steps s,
  SimOK s -> 0 <= acc -> (0 <= steps <= MAX_STEPS_PER_FRAME)%Z ->
  (MAX_STEPS_PER_FRAME - steps < Z.of_nat fuel)%Z ->
  exists acc' steps' s' k,
    step_loop fuel keys acc steps s = Ret (acc', steps', s') /\
    ticks k FIXED_DT (fun _ => keys) s = Ret s' /\ SimOK s' /\
    steps' = (steps + Z.of_nat k)%Z /\
    (steps' <= MAX_STEPS_PER_FRAME)%Z /\
    acc' == acc - inject_Z (Z.of_nat k) * FIXED_DT /\ 0 <= acc' /\
    ((steps' < MAX_STEPS_PER_FRAME)%Z -> acc' < FIXED_DT).
Proof.
  induction fuel as [|fuel IH]; intros acc steps s HS Hacc Hsteps Hfuel;
    [lia|].
  cbn [step_loop].
  destruct (Qgeb acc FIXED_DT) eqn:Hge; cbn [andb].
  2:{ apply Qgeb_lt in Hge. exists acc, steps, s, 0%nat.
      split; [reflexivity|]. split; [reflexivity|]. split; [exact HS|].
      split; [lia|]. split; [lia|]. split; [cbn; ring|]. auto. }
  apply Qgeb_ge in Hge.
  destruct (Z.ltb_spec steps MAX_STEPS_PER_FRAME) as [Hlt|Hfull].
  2:{ exists acc, steps, s, 0%nat.
      split; [reflexivity|]. split; [reflexivity|]. split; [exact HS|].
      split; [lia|]. split; [lia|]. split; [cbn; ring|].
      split; [exact Hacc|lia]. }
  destruct (simStep_ok FIXED_DT keys s HS) as (s1 & Hs1 & HS1).
  rewrite Hs1. cbn [mbind outcome_bind].
  destruct (IH (acc - FIXED_DT) (steps + 1)%Z s1 HS1 ltac:(lra) ltac:(lia)
              ltac:(lia))
    as (acc' & steps' & s' & k & Hrun & Hticks & HS' & Hst & Hle & Hacc' & H0
        & Hlow).
  exists acc', steps', s', (S k). split; [exact Hrun|].
  split; [rewrite (ticks_shift FIXED_DT keys k s s1 Hs1); exact Hticks|].
  split; [exact HS'|]. split; [lia|]. split; [exact Hle|].
  split; [|auto].
  rewrite Hacc', Nat2Z.inj_succ. unfold Z.succ. rewrite inject_Z_plus.
  change (inject_Z 1) with 1. ring.
Qed.

(** X23: a frame of [draw] returns at a tick boundary when it starts at
    one with the accumulator in [[0, FIXED_DT)], and leaves the accumulator
    in that range.  A paused frame changes nothing.  Any other frame runs
    [k] calls of [simStep(FIXED_DT)] with the keys of the frame, [k] being
    at most [MAX_STEPS_PER_FRAME], and then advances the animation of the
    warp machine; with [k] below that maximum the accumulator has gained
    the frame time, at most 0.25, and lost [k * FIXED_DT]; at the maximum
    it is set to 0.  A frame time that is not finite or is negative runs
    no tick and leaves the accumulator alone. *)
Theorem draw_frame (paused : bool) (deltaTime : option Q) (keys : Keys)
    (simAcc : Q) (s : Sim.T) :
  SimOK s -> 0 <= simAcc -> simAcc < FIXED_DT ->
  exists acc' s',
    draw paused deltaTime keys simAcc s = Ret (acc', s') /\
    SimOK s' /\ 0 <= acc' /\ acc' < FIXED_DT /\
    (paused = true -> acc' = simAcc /\ s' = s) /\
    (paused = false ->
     exists (k : nat) s1,
       (Z.of_nat k <= MAX_STEPS_PER_FRAME)%Z /\
       ticks k FIXED_DT (fun _ => keys) s = Ret s1 /\
       s' = renderScene FIXED_DT s1 /\
       ((Z.of_nat k < MAX_STEPS_PER_FRAME)%Z ->
        simAcc - inject_Z (Z.of_nat k) * FIXED_DT <= acc' /\
        acc' <= simAcc + 0.25 - inject_Z (Z.of_nat k) * FIXED_DT) /\
       (Z.of_nat k = MAX_STEPS_PER_FRAME -> acc' = 0) /\
       (match deltaTime with
        | None => True
        | Some d => d < 0
        end -> k = 0%nat /\ acc' == simAcc)).
Proof.
  intros HS H0 H1. unfold draw.
  destruct paused.
  { exists simAcc, s. rewrite renderScene_paused.
    split; [reflexivity|]. split; [exact HS|]. split; [exact H0|].
    split; [exact H1|]. split; [auto|discriminate]. }
  cbv zeta.
  set (frameDt := P5.min _ 0.25).
  assert (0 <= frameDt /\ frameDt <= 0.25) as [Hf0 Hf1].
  { unfold frameDt, P5.min. destruct deltaTime as [d|]; qcases; lra. }
  assert (match deltaTime with None => True | Some d => d < 0 end ->
          frameDt == 0) as Hzero.
  { unfold frameDt, P5.min. destruct deltaTime as [d|]; intros Hd.
    - assert (d / 1000 < 0) as Hneg by (apply Qlt_shift_div_r; lra).
      apply Qltb_lt in Hneg. rewrite Hneg. qcases; lra.
    - qcases; lra. }
  destruct (step_loop_spec keys (S (Z.to_nat MAX_STEPS_PER_FRAME))
              (simAcc + frameDt) 0 s HS ltac:(lra)
              ltac:(unfold MAX_STEPS_PER_FRAME; lia)
              ltac:(unfold MAX_STEPS_PER_FRAME; lia))
    as (acc' & steps' & s1 & k & Hrun & Hticks & HS1 & Hst & Hle & Hacc & Hacc0
        & Hlow).
  rewrite Hrun. cbn [mbind outcome_bind].
  eexists _, _. split; [reflexivity|].
  split; [now apply renderScene_SimOK|].
  subst steps'. rewrite Z.add_0_l in *.
  destruct (Z.eqb_spec (Z.of_nat k) MAX_STEPS_PER_FRAME) as [Hmax|Hless];
    cbv iota.
  - split; [lra|]. split; [reflexivity|]. split; [discriminate|].
    intros _. exists k, s1. split; [lia|]. split; [exact Hticks|].
    split; [reflexivity|]. split; [lia|]. split; [reflexivity|].
    intros Hd. exfalso. specialize (Hzero Hd).
    assert (1 <= inject_Z (Z.of_nat k)).
    { rewrite Hmax. unfold MAX_STEPS_PER_FRAME. vm_compute. discriminate. }
    unfold FIXED_DT in *. nra.
  - assert (Z.of_nat k < MAX_STEPS_PER_FRAME)%Z as Hlt by lia.
    specialize (Hlow Hlt).
    split; [exact Hacc0|]. split; [exact Hlow|]. split; [discriminate|].
    intros _. exists k, s1. split; [lia|]. split; [exact Hticks|].
    split; [reflexivity|]. split; [intros _; split; lra|].
    split; [intros; lia|].
    intros Hd. specialize (Hzero Hd).
    destruct k as [|k].
    { split; [reflexivity|].
      change (inject_Z (Z.of_nat 0)) with 0 in Hacc. lra. }
    exfalso.
    assert (1 <= inject_Z (Z.of_nat (S k))).
    { rewrite <- (Zle_Qle 1). lia. }
    unfold FIXED_DT in *. nra.
Qed.

End WithMath.

Import Fixtures.

Lemma two_probes_OnePlayer : OnePlayer (Sim.probes (two_probes NORMAL)).
Proof. exists 1%nat. reflexivity. Qed.

Lemma setup_initial_state_witness :
  RngOK steady_rng /\
  exists s player,
    setup steady_rng = Ret s /\ SimOK s /\
    Sim.probes s = [player] /\
    Probe.isPlayer player = true /\ Probe.id player = 0%Z /\
    Probe.x player == 12000 /\ Probe.y player == 12000 /\
    Probe.resources player = 0 /\ Probe.dna player = DNA.mk 260 520 22 /\
    Probe.dead player = false /\ Probe.sacrificing player = false /\
    Probe.target player = (-1)%Z /\
    Sim.master s = initial_master /\
    Sim.systemIndex s = 1%Z /\ Sim._probeId s = 1%Z /\
    len (resources (Sim.world s)) = 1340%Z /\
    systemRemainingTotal (Sim.world s) = systemInitialTotal (Sim.world s) /\
    systemRemainingTotal (Sim.world s) == sum_amt (resources (Sim.world s)).
Proof.
  split; [exact FixtureFacts.steady_rng_OK|].
  apply (setup_initial_state steady_rng). exact FixtureFacts.steady_rng_OK.
Defined.

Lemma player_survives_every_tick_witness :
  let s := two_probes NORMAL in
  exists s' player others,
    ticks 3 FIXED_DT (fun _ => no_keys) s = Ret s' /\ SimOK s' /\
    Sim.probes s' = player :: others /\
    Probe.isPlayer player = true /\
    Forall (fun p => Probe.isPlayer p = false) others /\
    Forall (fun p => Probe.dead p = false) (Sim.probes s') /\
    Forall (fun p => InWorld (Probe.x p) (Probe.y p)) (Sim.probes s') /\
    (1 <= len (Sim.probes s') <= HARD_PROBE_CAP)%Z.
Proof.
  apply (player_survives_every_tick FIXED_DT (fun _ => no_keys) 3
           (two_probes NORMAL)).
  - exact FixtureFacts.two_probes_OK.
  - exact two_probes_OnePlayer.
Defined.

Lemma population_at_most_doubles_witness :
  let s := two_probes NORMAL in
  exists s', simStep FIXED_DT no_keys s = Ret s' /\
    (len (Sim.probes s') <= 2 * len (Sim.probes s))%Z /\
    (Master.state (Sim.master s) <> NORMAL ->
     (len (Sim.probes s') <= len (Sim.probes s))%Z).
Proof.
  apply (population_at_most_doubles FIXED_DT no_keys (two_probes NORMAL)).
  exact FixtureFacts.two_probes_OK.
Defined.

(** The autonomous probe of the fixture carries 130 and has no cooldown:
    one tick takes the list from two probes to three. *)
Example one_tick_one_child :
  (fun s' => len (Sim.probes s'))
    <$> simStep FIXED_DT no_keys (two_probes NORMAL)
  = Ret 3%Z.
Proof. vm_compute. reflexivity. Qed.

Lemma draw_frame_witness :
  let s := two_probes NORMAL in
  (0 <= 0 /\ 0 < FIXED_DT) /\
  exists acc' s',
    draw false (Some 50) no_keys 0 s = Ret (acc', s') /\
    SimOK s' /\ 0 <= acc' /\ acc' < FIXED_DT /\
    (false = true -> acc' = 0 /\ s' = s) /\
    (false = false ->
     exists (k : nat) s1,
       (Z.of_nat k <= MAX_STEPS_PER_FRAME)%Z /\
       ticks k FIXED_DT (fun _ => no_keys) s = Ret s1 /\
       s' = renderScene FIXED_DT s1 /\
       ((Z.of_nat k < MAX_STEPS_PER_FRAME)%Z ->
        0 - inject_Z (Z.of_nat k) * FIXED_DT <= acc' /\
        acc' <= 0 + 0.25 - inject_Z (Z.of_nat k) * FIXED_DT) /\
       (Z.of_nat k = MAX_STEPS_PER_FRAME -> acc' = 0) /\
       (match Some 50 with
        | None => True
        | Some d => d < 0
        end -> k = 0%nat /\ acc' == 0)).
Proof.
  split; [split; vm_compute; congruence|].
  apply (draw_frame false (Some 50) no_keys 0 (two_probes NORMAL)).
  - exact FixtureFacts.two_probes_OK.
  - vm_compute. discriminate.
  - reflexivity.
Defined.

End SimLaws.
(** ** The zoom *)

Module InputLaws.
Import Engine ProbeLaws.

(** X24: whatever the wheel reports and whatever the zoom was,
    [mouseWheel] leaves a zoom in [[0.35, 2.2]], also when the factor
    [1 - delta * 0.0012] is negative.  From a zoom in that range, a
    positive [delta] never zooms in, a negative one never zooms out, and
    [delta = 0] leaves the zoom as it is. *)
Theorem mouseWheel_clamped (delta zoom : Q) :
  (0.35 <= mouseWheel delta zoom /\ mouseWheel delta zoom <= 2.2) /\
  (0.35 <= zoom -> zoom <= 2.2 ->
   (0 <= delta -> mouseWheel delta zoom <= zoom) /\
   (delta <= 0 -> zoom <= mouseWheel delta zoom) /\
   (delta == 0 -> mouseWheel delta zoom == zoom)).
Proof.
  unfold mouseWheel. cbv zeta.
  split; [apply constrain_range; lra|].
  intros Hlo Hhi.
  assert (Hc : forall n,
    (n <= zoom -> P5.constrain n 0.35 2.2 <= zoom) /\
    (zoom <= n -> zoom <= P5.constrain n 0.35 2.2)).
  { intros n. unfold P5.constrain, P5.min.
    destruct (Qltb 2.2 n) eqn:E1;
      [apply Qltb_lt in E1|apply Qltb_ge in E1];
      unfold P5.max; qcases; split; intros; lra. }
  split; [intros Hd; apply Hc; nra|].
  split; [intros Hd; apply Hc; nra|].
  intros Hd. apply Qle_antisym; apply Hc; rewrite Hd; lra.
Qed.

Lemma mouseWheel_clamped_witness :
  (0.35 <= 1 /\ 1 <= 2.2 /\ 0 <= 100) /\
  (0.35 <= mouseWheel 100 1 /\ mouseWheel 100 1 <= 2.2) /\
  (0.35 <= 1 -> 1 <= 2.2 ->
   (0 <= 100 -> mouseWheel 100 1 <= 1) /\
   (100 <= 0 -> 1 <= mouseWheel 100 1) /\
   (100 == 0 -> mouseWheel 100 1 == 1)).
Proof.
  split; [vm_compute; repeat split; congruence|].
  apply (mouseWheel_clamped 100 1).
Defined.

(** One notch of a wheel that reports 100 takes the zoom from 1 to 0.88;
    a jolt of 2000 would make the factor negative and ends at the lower
    limit. *)
Example wheel_notch_and_jolt :
  Qred (mouseWheel 100 1) = 22 # 25 /\ Qred (mouseWheel 2000 1) = 7 # 20.
Proof. vm_compute. split; reflexivity. Qed.

End InputLaws.
(** ** Probe ids *)

Module IdentityLaws.
Import Geometry Resource World Selection Engine ReplicationSpec SelectionSpec
  SimSpec ProbeSpec RangeFacts SelectionFacts ReplicationFacts SimFacts
  BuildFacts MasterFacts TickFacts ProbeLaws MasterLaws SimLaws.

Lemma ids_insert (ps : list Probe.T) i p' :
  (forall p, at_ ps i = Some p -> Probe.id p' = Probe.id p) ->
  (0 <= i < len ps)%Z ->
  ids (<[Z.to_nat i := p']> ps) = ids ps.
Proof.
  intros Hid Hi. destruct (at_is_Some ps i Hi) as [p Hp].
  pose proof Hp as [_ Hl]%at_Some. unfold ids.
  change (List.map Probe.id) with (fmap (M:=list) Probe.id).
  rewrite list_fmap_insert, (Hid p Hp). apply list_insert_id.
  now rewrite list_lookup_fmap, Hl.
Qed.

Lemma ids_Forall2 (R : Probe.T -> Probe.T -> Prop) ps ps' :
  (forall p p', R p p' -> Probe.id p' = Probe.id p) ->
  Forall2 R ps ps' -> ids ps' = ids ps.
Proof.
  intros HR. induction 1 as [|p p' ps ps' Hp _ IH]; [reflexivity|].
  unfold ids in *. cbn. now rewrite (HR _ _ Hp), IH.
Qed.

Section WithMath.
Context `{MathLib}.

(** *** The loops over the probes *)

Lemma update_id dt keys w m p g p' g' :
  ProbeMethods.update dt keys w m p g = Ret (p', g') ->
  Probe.id p' = Probe.id p.
Proof.
  unfold ProbeMethods.update.
  destruct (Probe.dead p || Qleb dt 0); [intros Heq; now inversion Heq|].
  intros ([q g1] & Hctl & Hmove)%bind_Ret.
  apply control_cargo in Hctl as [Hid _].
  cbv zeta in Hmove. inversion Hmove; subst. exact Hid.
Qed.

Lemma update_loop_ids dt keys n : forall i s s',
  update_loop n i dt keys s = Ret s' ->
  ids (Sim.probes s') = ids (Sim.probes s) /\
  Sim._probeId s' = Sim._probeId s.
Proof.
  induction n as [|n IH]; intros i s s' Hrun.
  { inversion Hrun; subst. auto. }
  cbn [update_loop] in Hrun.
  apply bind_Ret in Hrun as (p & Hp%get_Ret & Hrun).
  apply bind_Ret in Hrun as ([p' g'] & Hup & Hrun).
  apply bind_Ret in Hrun as (ps & [Hi ->]%put_inv & Hrun).
  destruct (IH _ _ _ Hrun) as [Hids Hpid]. cbn in Hids, Hpid.
  split; [|exact Hpid]. rewrite Hids. apply ids_insert; [|exact Hi].
  intros p0 Hp0. rewrite Hp in Hp0. inversion Hp0; subst p0.
  exact (update_id _ _ _ _ _ _ _ _ Hup).
Qed.

End WithMath.

Lemma _harvestFrom_id ridx dt p w p' w' :
  ProbeMethods._harvestFrom ridx dt p w = Ret (p', w') ->
  Probe.id p' = Probe.id p.
Proof.
  unfold ProbeMethods._harvestFrom.
  destruct (at_ (resources w) ridx) as [r|]; [|intros Heq; now inversion Heq].
  destruct (Qleb (amt r) 0.001); [intros Heq; now inversion Heq|].
  intros (rs & _ & Hrun)%bind_Ret. cbv zeta in Hrun.
  destruct (Qleb _ 0.001).
  - apply bind_Ret in Hrun as (rs2 & _ & Hrun).
    apply bind_Ret in Hrun as (w2 & _ & Hrun).
    destruct (_ =? ridx)%Z; inversion Hrun; subst; reflexivity.
  - inversion Hrun; subst. reflexivity.
Qed.

Lemma harvestNearby_id dt p w p' w' :
  ProbeMethods.harvestNearby dt p w = Ret (p', w') ->
  Probe.id p' = Probe.id p.
Proof.
  unfold ProbeMethods.harvestNearby.
  intros (t & _ & Hrun)%bind_Ret.
  apply bind_Ret in Hrun as (neigh & _ & Hrun).
  apply bind_Ret in Hrun as (best & _ & Hrun).
  destruct (fst best >=? 0)%Z.
  - exact (_harvestFrom_id _ _ _ _ _ _ Hrun).
  - now inversion Hrun.
Qed.

Lemma harvest_id dt p w p' w' :
  ProbeMethods.harvest dt p w = Ret (p', w') -> Probe.id p' = Probe.id p.
Proof.
  unfold ProbeMethods.harvest.
  destruct (Probe.dead p || Qleb dt 0); [intros Heq; now inversion Heq|].
  destruct (len (resourceActive w) <=? 0)%Z; [intros Heq; now inversion Heq|].
  destruct (Probe.target p >=? 0)%Z; [|apply harvestNearby_id].
  destruct (at_ (resources w) (Probe.target p)) as [r|];
    [|intros Hrun; exact (harvestNearby_id _ _ _ _ _ Hrun)].
  destruct (Qgtb (amt r) 0.001);
    [|intros Hrun; exact (harvestNearby_id _ _ _ _ _ Hrun)].
  cbv zeta. destruct (Qleb _ _);
    [apply _harvestFrom_id|apply harvestNearby_id].
Qed.

Lemma harvest_loop_ids dt n : forall i s s',
  harvest_loop n i dt s = Ret s' ->
  ids (Sim.probes s') = ids (Sim.probes s) /\
  Sim._probeId s' = Sim._probeId s.
Proof.
  induction n as [|n IH]; intros i s s' Hrun.
  { inversion Hrun; subst. auto. }
  cbn [harvest_loop] in Hrun.
  apply bind_Ret in Hrun as (p & Hp%get_Ret & Hrun).
  apply bind_Ret in Hrun as ([p' w'] & Hh & Hrun).
  apply bind_Ret in Hrun as (ps & [Hi ->]%put_inv & Hrun).
  destruct (IH _ _ _ Hrun) as [Hids Hpid]. cbn in Hids, Hpid.
  split; [|exact Hpid]. rewrite Hids. apply ids_insert; [|exact Hi].
  intros p0 Hp0. rewrite Hp in Hp0. inversion Hp0; subst p0.
  exact (harvest_id _ _ _ _ _ Hh).
Qed.

(** *** Replication *)

Section Replication.
Context `{MathLib}.

(** A call of [replicate] either adds nothing, or appends one probe whose
    id is the counter, and raises the counter by one. *)
Lemma replicate_ids cost i s s' :
  ProbeMethods.replicate cost i s = Ret s' ->
  (ids (Sim.probes s') = ids (Sim.probes s) /\
   Sim._probeId s' = Sim._probeId s) \/
  (ids (Sim.probes s') = ids (Sim.probes s) ++ [Sim._probeId s] /\
   Sim._probeId s' = (Sim._probeId s + 1)%Z).
Proof.
  unfold ProbeMethods.replicate.
  intros (this & Hthis%get_Ret & Hrun)%bind_Ret.
  destruct (len (Sim.probes s) >=? HARD_PROBE_CAP)%Z;
    [inversion Hrun; subst; now left|].
  destruct (Qltb (Probe.resources this) cost);
    [inversion Hrun; subst; now left|].
  destruct (negb (is_NORMAL (Master.state (Sim.master s))));
    [inversion Hrun; subst; now left|].
  cbv zeta in Hrun.
  apply bind_Ret in Hrun as (ps & [Hi ->]%put_inv & Hrun).
  unfold ProbeMethods.mutateDNA, ProbeMethods.construct, rand, Math_random
    in Hrun.
  cbn in Hrun. injection Hrun as <-. right. cbn. split; [|reflexivity].
  unfold ids. rewrite map_app. cbn. f_equal.
  apply ids_insert; [|exact Hi].
  intros p0 Hp0. rewrite Hthis in Hp0. now inversion Hp0.
Qed.

Lemma tryAutoReplicate_ids dt i s s' :
  ProbeMethods.tryAutoReplicate dt i s = Ret s' ->
  (ids (Sim.probes s') = ids (Sim.probes s) /\
   Sim._probeId s' = Sim._probeId s) \/
  (ids (Sim.probes s') = ids (Sim.probes s) ++ [Sim._probeId s] /\
   Sim._probeId s' = (Sim._probeId s + 1)%Z).
Proof.
  unfold ProbeMethods.tryAutoReplicate.
  intros (this & Hthis%get_Ret & Hrun)%bind_Ret.
  destruct (Probe.dead this || Probe.isPlayer this);
    [inversion Hrun; subst; now left|].
  destruct (Qleb dt 0); [inversion Hrun; subst; now left|].
  destruct (len (Sim.probes s) >=? HARD_PROBE_CAP)%Z;
    [inversion Hrun; subst; now left|].
  destruct (negb (is_NORMAL (Master.state (Sim.master s))));
    [inversion Hrun; subst; now left|].
  destruct (Qgtb (Probe.replCooldown this) 0);
    [inversion Hrun; subst; now left|].
  cbv zeta in Hrun.
  destruct (Qgeb (Probe.resources this) _);
    [|inversion Hrun; subst; now left].
  apply bind_Ret in Hrun as (s1 & Hrep & Hrun).
  apply bind_Ret in Hrun as (parent & Hparent%get_Ret & Hrun).
  destruct (rand 1.8 3.4 (Sim.rng s1)) as [c g].
  apply bind_Ret in Hrun as (ps & [Hi ->]%put_inv & Hrun).
  injection Hrun as <-.
  cbn [Sim.probes Sim._probeId Sim.set_rng Sim.set_probes].
  assert (ids (<[Z.to_nat i := Probe.set_replCooldown c parent]> (Sim.probes s1))
          = ids (Sim.probes s1)) as ->.
  { apply ids_insert; [|exact Hi].
    intros p0 Hp0. rewrite Hparent in Hp0. now inversion Hp0. }
  exact (replicate_ids _ _ _ _ Hrep).
Qed.

(** The replication loop appends probes with the ids
    [_probeId], [_probeId + 1], ... and leaves the counter behind the
    last of them. *)
Lemma replicate_loop_ids dt fuel : forall i s s',
  replicate_loop fuel i dt s = Ret s' ->
  exists k, (0 <= k)%Z /\
    ids (Sim.probes s') = ids (Sim.probes s) ++ seqZ (Sim._probeId s) k /\
    Sim._probeId s' = (Sim._probeId s + k)%Z.
Proof.
  induction fuel as [|fuel IH]; intros i s s' Hrun; [discriminate|].
  cbn [replicate_loop] in Hrun.
  destruct (i <? len (Sim.probes s))%Z.
  2:{ inversion Hrun; subst. exists 0%Z.
      split; [lia|]. cbn. now rewrite app_nil_r, Z.add_0_r. }
  apply bind_Ret in Hrun as (s1 & Htry & Hrun).
  destruct (IH _ _ _ Hrun) as (k & Hk & Hids & Hpid).
  destruct (tryAutoReplicate_ids _ _ _ _ Htry) as [[Hi1 Hp1]|[Hi1 Hp1]].
  - exists k. rewrite Hids, Hpid, Hi1, Hp1. auto.
  - exists (k + 1)%Z. rewrite Hids, Hpid, Hi1, Hp1.
    split; [lia|]. split; [|lia].
    rewrite <- app_assoc. f_equal.
    rewrite (seqZ_cons (Sim._probeId s) (k + 1)) by lia.
    cbn. do 2 f_equal; lia.
Qed.

Lemma probe_loops_ids dt keys s c :
  probe_loops dt keys s = Ret c ->
  exists k, (0 <= k)%Z /\
    ids (Sim.probes c) = ids (Sim.probes s) ++ seqZ (Sim._probeId s) k /\
    Sim._probeId c = (Sim._probeId s + k)%Z.
Proof.
  unfold probe_loops.
  intros (s1 & [Hi1 Hp1]%update_loop_ids & Hrun)%bind_Ret.
  apply bind_Ret in Hrun as (s2 & [Hi2 Hp2]%harvest_loop_ids & Hrun).
  rewrite <- Hi1, <- Hp1, <- Hi2, <- Hp2.
  destruct (is_NORMAL _).
  - exact (replicate_loop_ids _ _ _ _ _ Hrun).
  - inversion Hrun; subst. exists 0%Z.
    split; [lia|]. cbn. now rewrite app_nil_r, Z.add_0_r.
Qed.

(** *** The Master AI *)

Lemma beginSacrifice_id wp p g :
  Probe.id (fst (ProbeMethods.beginSacrifice wp p g)) = Probe.id p.
Proof.
  unfold ProbeMethods.beginSacrifice, rand, Math_random.
  destruct (Probe.isPlayer p); reflexivity.
Qed.

Lemma sacrifice_loop_ids wp ai n : forall i heap g heap' g',
  sacrifice_loop n i ai wp heap g = Ret (heap', g') ->
  ids heap' = ids heap.
Proof.
  induction n as [|n IH]; intros i heap g heap' g' Hrun.
  { now inversion Hrun. }
  cbn [sacrifice_loop] in Hrun.
  apply bind_Ret in Hrun as (r & _ & Hrun).
  apply bind_Ret in Hrun as (p & Hp%get_Ret & Hrun).
  pose proof (beginSacrifice_id wp p g) as Hid.
  destruct (ProbeMethods.beginSacrifice wp p g) as [p' g1]. cbn [fst] in Hid.
  apply bind_Ret in Hrun as (heap1 & [Hi ->]%put_inv & Hrun).
  rewrite (IH _ _ _ _ _ Hrun). apply ids_insert; [|exact Hi].
  intros p0 Hp0. rewrite Hp in Hp0. inversion Hp0; subst p0. exact Hid.
Qed.

Lemma startBuild_ids s s' :
  SimMid s -> startBuild s = Ret s' ->
  ids (Sim.probes s') = ids (Sim.probes s) /\
  Sim._probeId s' = Sim._probeId s.
Proof.
  intros HS. unfold startBuild. cbv zeta.
  destruct (rand 0 TWO_PI (Sim.rng s)) as [spin g].
  destruct (_ <=? 0)%Z; [intros Heq; inversion Heq; subst; auto|].
  cbn [Sim.probes Sim.set_rng Sim.set_master].
  set (ai := collect_ai (Sim.probes s) 0).
  match goal with
  | |- context [selectKClosestInPlace _ _ ?k ?wp] =>
      destruct (selectKClosestInPlace_run (Sim.probes s) ai k wp)
        as (heap & ai' & -> & HF & _)
  end.
  { apply Forall_forall. intros r Hr.
    destruct (collect_ai_valid (Sim.probes s) r Hr) as (p & Hp & _).
    eapply lookup_lt_Some; eassumption. }
  { pose proof (sim_cap s HS) as Hcap. unfold ai.
    rewrite collect_ai_len. unfold ai_count, len in *.
    pose proof (List.filter_length_le
                  (fun p => negb (Probe.isPlayer p) && negb (Probe.dead p))
                  (Sim.probes s)).
    unfold HARD_PROBE_CAP in Hcap. lia. }
  cbn [mbind outcome_bind].
  intros ([heap' g'] & Hloop%sacrifice_loop_ids & Heq)%bind_Ret.
  inversion Heq; subst.
  cbn [Sim.probes Sim._probeId Sim.set_rng Sim.set_probes Sim.set_master].
  split; [|reflexivity].
  rewrite Hloop. apply (ids_Forall2 same_but_d2); [|exact HF].
  intros p p' Hd. unfold same_but_d2 in Hd.
  exact (f_equal Probe.id Hd).
Qed.

Lemma performWarp_ids s s' :
  performWarp s = Ret s' ->
  ids (Sim.probes s') = ids (Sim.probes s) /\
  Sim._probeId s' = Sim._probeId s.
Proof.
  unfold performWarp. cbv zeta.
  intros ([w g] & _ & Hrun)%bind_Ret.
  cbn [Sim.probes Sim.rng Sim.set_rng Sim.set_world Sim.set_master
       Sim.set_systemIndex] in Hrun.
  pose proof (proj1 (warp_loop_Warped (Sim.probes s) g)) as HW.
  destruct (warp_loop (Sim.probes s) g) as [ps g1]. cbn [fst] in HW.
  inversion Hrun; subst.
  cbn [Sim.probes Sim._probeId Sim.set_rng Sim.set_probes Sim.set_master
       Sim.set_world Sim.set_systemIndex].
  split; [|reflexivity].
  apply (ids_Forall2 SpawnSpec.Warped); [|exact HW].
  intros p p' Hp. exact (proj1 Hp).
Qed.

Lemma startRally_ids s :
  ids (Sim.probes (startRally s)) = ids (Sim.probes s) /\
  Sim._probeId (startRally s) = Sim._probeId s.
Proof.
  unfold startRally, rand, Math_random. cbn. split; [|reflexivity].
  unfold ids. rewrite map_map. reflexivity.
Qed.

Lemma masterUpdate_ids dt s s' :
  SimMid s -> masterUpdate dt s = Ret s' ->
  ids (Sim.probes s') = ids (Sim.probes s) /\
  Sim._probeId s' = Sim._probeId s.
Proof.
  intros HS. unfold masterUpdate.
  destruct (Qleb dt 0); [intros Heq; inversion Heq; subst; auto|].
  cbv zeta.
  destruct (Master.state (Sim.master s)) eqn:Hst.
  - destruct (Qgtb _ 0); [|intros Heq; inversion Heq; subst; auto].
    destruct (_ && _); intros Heq; inversion Heq; subst; auto.
    apply startRally_ids.
  - destruct (_ || _); [|intros Heq; inversion Heq; subst; auto].
    intros Hrun. apply startBuild_ids in Hrun; [exact Hrun|].
    apply SimMid_clock. exact HS.
  - destruct (_ >=? _)%Z; intros Heq; inversion Heq; subst; auto.
  - destruct (Qgeb _ _); [|intros Heq; inversion Heq; subst; auto].
    intros Hrun. apply performWarp_ids in Hrun. exact Hrun.
  - intros Heq; inversion Heq; subst; auto.
Qed.

Lemma purgeSacrificed_probeId s s' :
  purgeSacrificed s = Ret s' -> Sim._probeId s' = Sim._probeId s.
Proof.
  unfold purgeSacrificed.
  intros ([[ps w] died] & _ & Hrun)%bind_Ret.
  destruct (died >? 0)%Z; inversion Hrun; subst; reflexivity.
Qed.

(** *** Ticks *)

Lemma ids_filter_sub (f : Probe.T -> bool) ps :
  ids (List.filter f ps) `sublist_of` ids ps.
Proof.
  induction ps as [|p ps IH]; [constructor|]. cbn.
  destruct (f p); cbn; [apply sublist_skip|apply sublist_cons]; exact IH.
Qed.

Lemma simStep_ids dt keys s :
  SimOK s -> IdsOK s ->
  exists s', simStep dt keys s = Ret s' /\ SimOK s' /\ IdsOK s' /\
    (Sim._probeId s <= Sim._probeId s')%Z /\
    Forall (fun i => i ∈ ids (Sim.probes s) \/ (Sim._probeId s <= i)%Z)
      (ids (Sim.probes s')).
Proof.
  intros HS (Hnd & Hlt & H0).
  destruct (simStep_anatomy dt keys s HS)
    as (c & m & s' & Hc & Hm & Hp & Hrun & HSc & _ & HS' & _ & _ & _ & _ & _
        & Hps & _).
  destruct (probe_loops_ids _ _ _ _ Hc) as (k & Hk & Hic & Hpc).
  destruct (masterUpdate_ids _ _ _ HSc Hm) as [Him Hpm].
  pose proof (purgeSacrificed_probeId _ _ Hp) as Hpp.
  pose proof (ids_filter_sub alive (Sim.probes m)) as Hsub.
  rewrite <- Hps, Him, Hic in Hsub.
  assert (Sim._probeId s' = (Sim._probeId s + k)%Z) as Hpid by lia.
  rewrite Forall_forall in Hlt.
  assert (Hin : forall i, i ∈ ids (Sim.probes s') ->
            i ∈ ids (Sim.probes s) \/
            (Sim._probeId s <= i < Sim._probeId s + k)%Z).
  { intros i Hi. apply (elem_of_sublist _ _ _ Hi) in Hsub.
    apply elem_of_app in Hsub as [?|?%elem_of_seqZ]; auto. }
  exists s'. split; [exact Hrun|]. split; [exact HS'|].
  split; [split; [|split]|split].
  - apply (sublist_NoDup _ _) with (2 := Hsub). apply NoDup_app.
    split; [exact Hnd|]. split; [|apply NoDup_seqZ].
    intros i Hi [Hj _]%elem_of_seqZ. specialize (Hlt i Hi). lia.
  - apply Forall_forall. intros i Hi. rewrite Hpid.
    destruct (Hin i Hi) as [Hold|Hnew]; [specialize (Hlt i Hold); lia|].
    lia.
  - lia.
  - lia.
  - apply Forall_forall. intros i Hi.
    destruct (Hin i Hi) as [Hold|Hnew]; [now left|right; lia].
Qed.

(** X25: from a tick boundary at which no two probes share an id and every
    id lies in [[0, _probeId)], any number of ticks returns in a state of
    which the same holds.  The counter [_probeId] never goes down, and an
    id is never used again: every id in the list after the ticks either
    was in the list before them or is at least the counter they started
    with. *)
Theorem probe_ids_stay_unique (dt : Q) (keys : nat -> Keys) (n : nat)
    (s : Sim.T) :
  SimOK s -> IdsOK s ->
  exists s', ticks n dt keys s = Ret s' /\
    NoDup (ids (Sim.probes s')) /\
    Forall (fun i => (0 <= i < Sim._probeId s')%Z) (ids (Sim.probes s')) /\
    (Sim._probeId s <= Sim._probeId s')%Z /\
    Forall (fun i => i ∈ ids (Sim.probes s) \/ (Sim._probeId s <= i)%Z)
      (ids (Sim.probes s')).
Proof.
  intros HS HI.
  assert (exists s', ticks n dt keys s = Ret s' /\ SimOK s' /\ IdsOK s' /\
            (Sim._probeId s <= Sim._probeId s')%Z /\
            Forall (fun i => i ∈ ids (Sim.probes s) \/ (Sim._probeId s <= i)%Z)
              (ids (Sim.probes s'))) as (s' & Hrun & _ & (Hnd & Hlt & _) & Hle & Hold).
  { induction n as [|n (s1 & Hrun & HS1 & HI1 & Hle1 & Hold1)].
    - exists s. split; [reflexivity|]. split; [exact HS|].
      split; [exact HI|]. split; [lia|].
      apply Forall_forall. intros i Hi. now left.
    - destruct (simStep_ids dt (keys n) s1 HS1 HI1)
        as (s2 & Hstep & HS2 & HI2 & Hle2 & Hold2).
      exists s2. cbn [ticks]. rewrite Hrun. cbn [mbind outcome_bind].
      split; [exact Hstep|]. split; [exact HS2|]. split; [exact HI2|].
      split; [lia|].
      rewrite Forall_forall in Hold1, Hold2. apply Forall_forall.
      intros i Hi. destruct (Hold2 i Hi) as [Hin|Hge]; [|right; lia].
      exact (Hold1 i Hin). }
  exists s'. auto.
Qed.

End Replication.

Import Fixtures.

Lemma two_probes_IdsOK : IdsOK (two_probes NORMAL).
Proof.
  split; [|split]; cbn.
  - apply NoDup_cons. split; [|apply NoDup_singleton].
    intros Hin%list_elem_of_singleton. discriminate.
  - repeat constructor; lia.
  - lia.
Qed.

Lemma probe_ids_stay_unique_witness :
  let s := two_probes NORMAL in
  exists s', ticks 3 FIXED_DT (fun _ => no_keys) s = Ret s' /\
    NoDup (ids (Sim.probes s')) /\
    Forall (fun i => (0 <= i < Sim._probeId s')%Z) (ids (Sim.probes s')) /\
    (Sim._probeId s <= Sim._probeId s')%Z /\
    Forall (fun i => i ∈ ids (Sim.probes s) \/ (Sim._probeId s <= i)%Z)
      (ids (Sim.probes s')).
Proof.
  apply (probe_ids_stay_unique FIXED_DT (fun _ => no_keys) 3
           (two_probes NORMAL)).
  - exact FixtureFacts.two_probes_OK.
  - exact two_probes_IdsOK.
Defined.

(** One tick of the fixture: the autonomous probe replicates, and its child
    takes the id 2. *)
Example child_takes_next_id :
  (s ← simStep FIXED_DT no_keys (two_probes NORMAL);
   Ret (ids (Sim.probes s), Sim._probeId s))
  = Ret ([0; 1; 2]%Z, 3%Z).
Proof. vm_compute. reflexivity. Qed.

End IdentityLaws.
(** ** The cooldown of replication *)

Module CooldownLaws.
Import Geometry Engine Ranges ReplicationSpec RangeFacts ReplicationFacts.

Section WithMath.
Context `{MathLib}.

(** X26: on a probe of the list, [tryAutoReplicate] returns.  Either it
    leaves the state as it is, or the list has grown by one and the probe
    is left with a cooldown drawn from [[1.8, 3.4)].  In both cases a
    second call right after the first changes nothing: no probe replicates
    twice in a row. *)
Theorem tryAutoReplicate_once (dt : Q) (i : Z) (s : Sim.T) (this : Probe.T) :
  RngOK (Sim.rng s) ->
  at_ (Sim.probes s) i = Some this ->
  exists s',
    ProbeMethods.tryAutoReplicate dt i s = Ret s' /\
    ProbeMethods.tryAutoReplicate dt i s' = Ret s' /\
    (s' = s \/
     exists parent,
       at_ (Sim.probes s') i = Some parent /\
       1.8 <= Probe.replCooldown parent /\ Probe.replCooldown parent < 3.4 /\
       Probe.replCooldown this <= 0 /\
       len (Sim.probes s') = (len (Sim.probes s) + 1)%Z).
Proof.
  intros Hg Hthis.
  assert (Hsame : ProbeMethods.tryAutoReplicate dt i s = Ret s ->
            exists s', ProbeMethods.tryAutoReplicate dt i s = Ret s' /\
              ProbeMethods.tryAutoReplicate dt i s' = Ret s' /\
              (s' = s \/
               exists parent,
                 at_ (Sim.probes s') i = Some parent /\
                 1.8 <= Probe.replCooldown parent /\
                 Probe.replCooldown parent < 3.4 /\
                 Probe.replCooldown this <= 0 /\
                 len (Sim.probes s') = (len (Sim.probes s) + 1)%Z))
    by (intros Heq; exists s; auto).
  pose proof (at_in_range _ _ _ Hthis) as Hir.
  unfold ProbeMethods.tryAutoReplicate in Hsame |- *.
  rewrite (get_at _ _ _ Hthis) in Hsame |- *.
  cbn [mbind outcome_bind] in Hsame |- *.
  destruct (Probe.dead this || Probe.isPlayer this); [now apply Hsame|].
  destruct (Qleb dt 0) eqn:Hdt; [now apply Hsame|].
  destruct (Z.geb_spec (len (Sim.probes s)) HARD_PROBE_CAP) as [|Hcap];
    [now apply Hsame|].
  destruct (Master.state (Sim.master s)) eqn:Hst; cbn [is_NORMAL negb] in *;
    try (now apply Hsame).
  destruct (Qgtb (Probe.replCooldown this) 0) eqn:Hcd; [now apply Hsame|].
  cbv zeta in Hsame |- *.
  destruct (Qgeb (Probe.resources this) (replicateCost * 1.08)) eqn:Hrich;
    [|now apply Hsame].
  clear Hsame. apply Qgeb_ge in Hrich.
  destruct (replicate_success replicateCost i s this Hthis Hcap) as
    (s1 & Hrun & this' & parent & child & Hthis' & Hps & _ & _ & _ & _ & _ & _
     & _ & Hm & _ & Hrng);
    [unfold replicateCost in *; lra|assumption|].
  rewrite Hrun. cbn [mbind outcome_bind].
  assert (at_ (Sim.probes s1) i = Some parent) as Hparent.
  { rewrite Hps. rewrite at_app_l by (rewrite len_insert; lia).
    rewrite at_insert by assumption. now rewrite Z.eqb_refl. }
  rewrite (get_at _ _ _ Hparent). cbn [mbind outcome_bind].
  destruct (rand 1.8 3.4 (Sim.rng s1)) as [c g] eqn:Hc.
  destruct (rand_ok _ _ _ _ _ Hc (Hrng Hg)) as ([Hlo _] & Hhi & _); [lra|].
  assert (len (Sim.probes s1) = (len (Sim.probes s) + 1)%Z) as Hlen.
  { rewrite Hps, len_app, len_insert. reflexivity. }
  rewrite put_Ret by lia. cbn [mbind outcome_bind].
  eexists. split; [reflexivity|].
  assert (at_ (<[Z.to_nat i := Probe.set_replCooldown c parent]> (Sim.probes s1)) i
          = Some (Probe.set_replCooldown c parent)) as Hnow.
  { rewrite at_insert by lia. now rewrite Z.eqb_refl. }
  split.
  - cbn [Sim.probes Sim.set_rng Sim.set_probes Sim.master].
    rewrite (get_at _ _ _ Hnow). cbn [mbind outcome_bind].
    destruct (_ || _); [reflexivity|].
    destruct (_ >=? _)%Z; [reflexivity|].
    destruct (negb _); [reflexivity|].
    assert (Qgtb (Probe.replCooldown (Probe.set_replCooldown c parent)) 0
            = true) as ->; [|reflexivity].
    cbn. apply Qgtb_gt. lra.
  - right. exists (Probe.set_replCooldown c parent).
    cbn [Sim.probes Sim.set_rng Sim.set_probes].
    split; [exact Hnow|]. cbn.
    split; [exact Hlo|]. split; [apply Hhi; lra|].
    split; [apply Qgtb_le; exact Hcd|].
    rewrite len_insert. exact Hlen.
Qed.

End WithMath.

Import Fixtures.

Lemma tryAutoReplicate_once_witness :
  let s := two_probes NORMAL in
  exists s',
    ProbeMethods.tryAutoReplicate FIXED_DT 1 s = Ret s' /\
    ProbeMethods.tryAutoReplicate FIXED_DT 1 s' = Ret s' /\
    (s' = s \/
     exists parent,
       at_ (Sim.probes s') 1 = Some parent /\
       1.8 <= Probe.replCooldown parent /\ Probe.replCooldown parent < 3.4 /\
       Probe.replCooldown (probe_carrying 1 false 150 100 130) <= 0 /\
       len (Sim.probes s') = (len (Sim.probes s) + 1)%Z).
Proof.
  apply (tryAutoReplicate_once FIXED_DT 1 (two_probes NORMAL)
           (probe_carrying 1 false 150 100 130)).
  - intros n. cbn. split; lra.
  - reflexivity.
Defined.

(** The autonomous probe of the fixture replicates once: the list goes from
    two probes to three, and stays at three on the second call. *)
Example second_call_is_refused :
  (s1 ← ProbeMethods.tryAutoReplicate FIXED_DT 1 (two_probes NORMAL);
   s2 ← ProbeMethods.tryAutoReplicate FIXED_DT 1 s1;
   Ret (len (Sim.probes s1), len (Sim.probes s2)))
  = Ret (3%Z, 3%Z).
Proof. vm_compute. reflexivity. Qed.

End CooldownLaws.
